(* ===== verification/_CoqProject ===== *)
-Q . S2P
Prelude.v
Ordered.v
Strings.v
Labels.v
Syntax.v
Types.v
Net.v
Literals.v
Nom.v
Ast.v
FnHeaders.v
Expressions.v
Interpret.v
TypeCheck.v
Lexer.v
Parser.v
ParserTheory.v
Unparse.v
Operators.v
LexerTheory.v
LexerText.v
ParserSafety.v
Meta.v
Eval.v
EvalTheory.v
Termination.v
TypeCheckTheory.v
Externals.v
Effects.v
DataPlane.v
Lang.v
Graphs.v
Policies.v
Equality.v
ControlLiterals.v
Specialize.v
Pure.v
SpecializeTheory.v
ControlState.v
StateTheory.v
ControlInterpret.v
CompileTheory.v
Identity.v
LangTheory.v
Linking.v
Source.v
PolicyTheory.v
Proxy.v
ProxyTheory.v
Host.v
HostSystem.v
HostTheory.v
Tcp.v
Liveness.v
RestApi.v
ControlEffects.v
RestTheory.v
HostControl.v
Yaml.v
Capabilities.v
Compose.v
ComposeSerde.v
Docker.v
Launch.v
LaunchTheory.v
Commands.v
Pretty.v
PrettyTheory.v
