(* ===== verification/Prelude.v ===== *)
(** * Armour: a verification library for the Armour policy language

    Armour mediates the traffic of containers.  A policy is a program in a
    small language (src/src/armour-lang); a control plane compiles and
    specialises policies (src/src/armour-control) and proxies evaluate them on
    every connection, request and response (src/src/armour-proxy).  This
    library models the language, from tokens to evaluation, the policies made
    of its programs, the proxy that enforces them, the daemon that deploys
    proxies on a host, and the launcher that brings an application up.

    ** The parts

    Every file opens with what it models.  The language, under
    src/src/armour-lang/src:

    - [Prelude], [Ordered], [Strings], [Net]: what the program uses of Rust's
      standard library.  Results and panics ([Outcome]), stateful code
      ([Comp]), ordered maps and sets, strings as bytes, integers and their
      texts, IP addresses.
    - [Labels] (labels.rs): labels and label patterns.  [Label.match_with]
      matches, [Label.eqb] is the [PartialEq] of the source, [Label.from_str]
      and [Label.to_string] parse and print.
    - [Syntax], [Ast] (parser.rs): the data types of the parser.
    - [Nom]: the parser combinators that the grammar is written with.
    - [Lexer] (lexer.rs): tokens, and the splitting of text into them.
    - [Parser] (parser.rs): the grammar, from [parse_program] down.
    - [Types] (types.rs): types, unification, the comparison the checker uses,
      the control plane's types and their conversion to the data plane's.
    - [Literals] (literals.rs): identities, connections, HTTP messages and the
      literals of the data plane.
    - [FnHeaders] (headers.rs): the signatures of builtins, services and
      declared functions; the resolution of methods.
    - [Expressions] (expressions.rs): expressions with de Bruijn indices.
    - [Interpret] (interpret.rs): operators, builtins and pattern matching.
    - [TypeCheck] (expressions.rs): the pass that checks parsed code and
      compiles it to expressions, collecting the calls.
    - [Meta] (meta.rs): the actor with the metadata of a connection.
    - [Eval] (interpret.rs): the evaluator.
    - [Externals] (externals.rs and the [Env] of interpret.rs): remote calls
      and the environment that the evaluator runs in.
    - [Lang] (lang.rs): linking of declarations to a program.
    - [Source] (lang.rs): from the text of a policy to a program.
    - [Policies] (policies.rs): the policies of a program by protocol, their
      check, merging and recognition.
    - [Pretty] (pretty.rs, and [Display] in literals.rs and parser.rs): the
      documents that expressions and declarations are printed from.

    The control plane, under src/src/armour-control/src:

    - [Equality], [ControlLiterals] (literals.rs, interpret.rs of the
      language): the equality of expressions and policies, the literals and
      builtins of the control plane, and the conversion of its programs to
      those of the data plane.
    - [Specialize] (specialize.rs): partial evaluation, and the policies of a
      service made from a global policy.
    - [Pure], [SpecializeTheory]: expressions without effects, what they
      denote, and that partial evaluation preserves it.
    - [ControlState] (src/src/armour-api/src/control.rs): the requests of the
      control plane, the documents they are stored as, and the operations of
      the database.  [StateTheory]: what is stored is read back.
    - [ControlInterpret] (interpret.rs, policy.rs): the evaluator of the
      control plane, whose builtins onboard services and compile the stored
      global policy, and the evaluation of onboarding policies.
    - [CompileTheory]: a compiled policy decides as the global one.
    - [RestApi] (rest_api.rs, main.rs): the handlers of the server.
    - [ControlEffects], [RestTheory]: a logic for invariants of the database,
      and the theorems about requests and the state that they leave.

    The proxy, under src/src/armour-proxy/src:

    - [Identity] (policy.rs): the identities of hosts with their labels, and
      the caches of the actor.
    - [Proxy] (policy.rs, http_policy.rs, tcp_policy.rs, http_proxy.rs): the
      policy actor, its messages, and the handling of a request.
    - [Tcp] (tcp_proxy.rs, tcp_codec.rs): the handling of a connection, and the
      relay of its bytes.

    The daemon of a host, under src/src/armour-host/src:

    - [Host] (host.rs, instance.rs, rest_api.rs, lib.rs; host.rs of
      src/src/armour-api/src): the instances of proxies, the host actor with
      all its messages, its REST interface, onboarding information.
    - [HostSystem]: the host and the policy actors of its proxies as a
      transition system, with the messages between them in queues.
    - [HostControl]: the handlers of [RestApi] as the control plane that the
      host talks to.
    - [Commands] (commands.rs): the command line of the host, as the messages
      that a line or a script sends to the host actor.

    The launcher, under src/src/armour-compose, src/src/armour-serde,
    src/src/docker-api and src/src/armour-launch:

    - [Yaml] (lib.rs of armour-serde): data that is read in several forms.
    - [Capabilities] (capabilities.rs), [Compose] (lib.rs, service.rs,
      network.rs, volume.rs, config.rs), [ComposeSerde]: applications, their
      conversion for docker-compose and for onboarding, and how they are read.
    - [Docker] (lib.rs, rep.rs of docker-api): the client of the docker engine.
    - [Launch] (lib.rs, main.rs of armour-launch): the subcommands [up], [down]
      and [rules].  What it sends to the host are the requests of
      [Host.HostRest].

    The evaluator calls its environment through the interface [Eval.Interp];
    the laws it relies on are [Eval.InterpLaws], and [DataPlane] proves
    them for the environment of [Externals].  The checker and the evaluator
    are written for any flat types, literals and builtins ([Types.TFlatTyp],
    [Literals.TFlatLiteral], [FnHeaders.TBuiltin]), as the traits of the
    source are.  [Proxy] runs the evaluator on the programs that [Policies]
    got from [Lang], with the identities of [Identity] as arguments.

    ** The theorems

    - [LexerTheory], [LexerText]: what the lexer does on any text; written
      tokens are read back.  [ParserTheory]: parsing ends.  [ParserSafety]: when
      it panics.  [Unparse]: the parser inverts a printer of the syntax.
      [Operators]: how operators group.  [PrettyTheory]: printed expressions of
      operators are read back, but for prefix operators in left operands and
      strings with quotes; which expressions print.  [Source] puts the lexer
      and the parser together.
    - [EvalTheory], [Termination], [Effects], [DataPlane]: evaluation does not
      depend on the fuel, gives literals, ends for programs without
      recursion, and touches its state only through calls of services.
    - [TypeCheckTheory]: what the checker accepts is compiled to closed
      expressions whose calls are known.
    - [LangTheory], [Linking]: the programs that the linker accepts have all
      that these theorems ask for, so that policies terminate and leave the
      metadata of a request alone; cutting unreachable functions preserves
      evaluation.  This is about the data plane, and declarations that are
      named like no builtin or service.
    - [PolicyTheory]: what the policies of an accepted program decide.
    - [SpecializeTheory], [CompileTheory]: on expressions without effects
      partial evaluation preserves the value, and the policy that the control
      plane compiles for a service decides every message as the global policy
      does for the identity of the service; elsewhere it may not, by three
      rules of the specialiser ([CompileTheory.specialiser_unsound]).
    - [RestTheory]: after any requests the collections are in order, saved
      policies are found, services are refused until there is an onboarding
      policy, and no policy is ever sent to a host.
    - [ProxyTheory], [Liveness]: requests are forwarded only when the policy
      allows it, the actor answers from what was installed, and every request
      and connection is answered, or its handler panics for a reason that is
      listed.  [Tcp] ends with the theorems about connections: the proxy makes
      allowed ones only, and relays what it is given until an end.
    - [HostSystem], [HostTheory], [HostControl]: however messages interleave,
      the host records the policies that its proxies run, and they run only
      policies of the control plane or the operator; commands reach the
      selected proxies; a stored policy reaches the proxies of a service when
      it is onboarded.
    - [Compose], [LaunchTheory]: services share no network and are paired with
      the proxies that they name; containers, which docker-compose starts and
      the launcher pauses, are unpaused only after the host accepted the
      onboarding of their service; what the scripts of [rules] hold and when
      they redirect traffic to the port where the host starts the proxy.
      [Capabilities], [Yaml]: what is written is read back.
    - [Labels], [Types], [Literals], [Interpret], [Expressions], [Meta],
      [Externals], [Identity] end with the theorems about themselves: matching
      against a declarative definition, unification as least upper bound, the
      typing of builtins, substitution, invariants of the metadata, round
      trips, caches against the tables and the answers of the name service
      that they were computed from.
    - Where the program does not do what it means to, a theorem says what it
      does: [DataPlane.negation_is_identity], [Interpret.builtins_unsound],
      [Expressions.subst_shifts_by_one], [Labels.get_login_time_panics],
      [Operators.prefix_takes_chain], [Identity.cached_port_is_kept],
      [Identity.stale_names_are_kept], [ControlInterpret.control_literals_sent],
      the ends of [PolicyTheory], [ProxyTheory] and [PrettyTheory], the last
      part of [Linking],
      [CompileTheory.specialiser_unsound], [RestTheory.no_policy_reaches_a_host],
      [RestTheory.onboarding_always_adds], [HostTheory.onboarding_ports],
      [LaunchTheory.up_needs_services], [LaunchTheory.redirection_port] and the
      end of [Launch].

    ** Bounds and fuel

    [Label.match_with] calls itself through the equality of labels;
    [Labels.match_with_terminates] shows that the fuel it starts with is
    enough for all labels.  The parsers recur at most as often as there are
    tokens ([ParserTheory.parser_terminates]).  [Eval.eval] bounds the depth
    of the recursion of the source, which recurs without end in a program with
    recursive functions; [DataPlane.evaluation_terminates] and
    [Linking.accepted_programs_terminate] show when some fuel is enough.
    [TExternals.build_value] starts with the depth of its literal
    ([Externals.wire_roundtrip]: every literal of the data plane is built; a
    literal of the control plane alone recurs without end), and the loops of
    [Strings] start with the length of their text or of the longest number.
    The evaluator of the control plane bounds two recursions with one number:
    the depth of evaluation, and that of compilations that evaluate builtins
    that compile; a compiled policy is shown to decide with every fuel with
    which it was compiled ([CompileTheory.compiled_policy_decides]), and the
    default onboarding policy with every fuel from 4.
    Integers are [Z]; an operation of width 64 that leaves the range panics in
    the profile with overflow checks and wraps in the other
    ([Prelude.Profile], [arith_i64]; [arith_usize] for the counters of the
    proxies).

    ** What is a parameter

    The regular expression engine, base64, the parsing of URLs, the clock and
    the Unicode tables are the fields of [Interpret.Lib].  The name service is
    [Interpret.NameService]: what it answers at one time; an evaluation has
    one, and the lookups of the policy actor have one each ([Identity],
    [ProxyTheory.actor_run], [HostSystem]).
    The network behind remote calls is a function of [Externals], whose answer
    is a message that may be malformed ([Externals.Reader]).  The graph
    algorithms are the class [Lang.Petgraph], with their documented behaviour
    in [Lang.PetgraphLaws]; [Graphs] has an implementation that the examples
    run.  The iteration order of hash maps and the compilation of regular
    expressions are [TypeCheck.HashOrder] and [TypeCheck.RegexNew].  The
    macros of nom expand in the source; [Nom] and [Lexer] define them as
    documented.  How nom recognises floating point numbers and the end of a
    line, and the Unicode letters, are [Lexer.LexLib], with what the theorems
    rely on in [Lexer.LexLaws]; the columns of nom_locate are
    [Source.Columns].  The database is [ControlState.Mongo], behaving as
    [ControlState.MongoModel] says (a search gives what its cursor reads,
    where documents may be unreadable); what awc copies of the headers of a
    request is [request_from] in [Proxy]; the binary format of a policy, the text
    of addresses and URLs are [ControlState.Serde], with
    [ControlState.SerdeLaws]; [ControlState] and [StateTheory] have
    implementations that the examples run.  The processes of a host and its
    HTTP client are [Host.HostOutside], and the order of its hash maps is
    [Host.IterOrder]; [HostSystem] has any numbers of proxies below [2 ^ 64],
    where the counter of instances would wrap.  The subnets of ipnet are
    [Compose.IpNet]; the docker engine is [Docker.DockerEngine];
    docker-compose, files and the connection to the host are
    [Launch.LaunchOutside], with [LaunchTheory.Files] for what is written to
    a file, by its path.  The regular expression of commands and the files that they name
    are [Commands.CommandOutside].  How the pretty crate lays a document out
    is [Pretty.Renderer], any function that breaks lines only where the
    document allows it ([Pretty.RendererLaws]); texts that the compiler
    derives and the decimal forms of floats are [Pretty.Texts].

    ** What is not modelled

    The serializers that serde derives are left out (the host and the control
    plane exchange requests and answers as values), and so is what is dropped
    when an application is written.  Literals on the network have no limit of
    length or nesting.  Requests to the control plane
    are handled one after the other; how concurrent requests interleave at the
    database is left out.  The other command lines and the set-up of the
    programs move data between terminals, files and these parts, and are left
    out. *)

From Stdlib Require Import ZArith Lia String Ascii List.
From stdpp Require Import base tactics list strings.


(** ** Results of Rust functions *)

(** [expressions::Error] wraps a message.  The message is kept as the format
    string of the source together with the arguments that are strings. *)
Record Error := mkError { template : string; details : list string }.

Definition error_new (s : string) : Error := mkError s [].

(** [Result<A, E>] of functions that neither panic nor loop. *)
Inductive result (A E : Type) : Type :=
| Ok (a : A)
| Err (e : E).
Arguments Ok {A E} a.
Arguments Err {A E} e.

(** What running a Rust function that returns [Result<A, Error>] can do:
    return [Ok], return [Err], panic, or exceed the fuel of the model. *)
Inductive Outcome (A : Type) : Type :=
| Val (a : A)
| Fail (e : Error)
| Panic
| OutOfFuel.
Arguments Val {A} a.
Arguments Fail {A} e.
Arguments Panic {A}.
Arguments OutOfFuel {A}.

#[export] Instance Outcome_ret : MRet Outcome := @Val.
#[export] Instance Outcome_bind : MBind Outcome := fun A B f m =>
  match m with
  | Val a => f a
  | Fail e => Fail e
  | Panic => Panic
  | OutOfFuel => OutOfFuel
  end.

#[export] Instance Outcome_fmap : FMap Outcome := fun A B f m => x ← m; mret (f x).

(** Effectful code: a state is threaded, and it survives errors. *)
Definition Comp (W A : Type) : Type := W -> Outcome A * W.

#[export] Instance Comp_ret {W} : MRet (Comp W) := fun A a w => (Val a, w).
#[export] Instance Comp_bind {W} : MBind (Comp W) := fun A B f m w =>
  match m w with
  | (Val a, w') => f a w'
  | (Fail e, w') => (Fail e, w')
  | (Panic, w') => (Panic, w')
  | (OutOfFuel, w') => (OutOfFuel, w')
  end.

Definition fail {W A} (e : Error) : Comp W A := fun w => (Fail e, w).
Definition panic {W A} : Comp W A := fun w => (Panic, w).
Definition out_of_fuel {W A} : Comp W A := fun w => (OutOfFuel, w).
Definition lift {W A} (o : Outcome A) : Comp W A := fun w => (o, w).

Lemma lifted_val {W A B} (a : A) (f : A -> Comp W B) w : (lift (Val a) ≫= f) w = f a w.
Proof. reflexivity. Qed.
Lemma lifted_panic {W A B} (f : A -> Comp W B) w : (lift Panic ≫= f) w = (Panic, w).
Proof. reflexivity. Qed.

(** [Option::ok_or(e)?] and [Result?]. *)
Definition ok_or {A} (o : option A) (e : Error) : Outcome A :=
  match o with Some a => Val a | None => Fail e end.
Definition try {A} (r : result A Error) : Outcome A :=
  match r with Ok a => Val a | Err e => Fail e end.
(** [Option::unwrap]. *)
Definition unwrap {A} (o : option A) : Outcome A :=
  match o with Some a => Val a | None => Panic end.

(** [Option::unwrap_or]. *)
Definition unwrap_or {A} (d : A) (o : option A) : A := match o with Some a => a | None => d end.

Definition result_ok {A E} (r : result A E) : option A :=
  match r with Ok a => Some a | Err _ => None end.

(** [iter().map(f).collect::<Result<Vec<_>, _>>()]: stops at the first error. *)
Fixpoint collect_results {A B E} (f : A -> result B E) (l : list A) : result (list B) E :=
  match l with
  | [] => Ok []
  | x :: l' =>
    match f x with
    | Err e => Err e
    | Ok y => match collect_results f l' with Err e => Err e | Ok ys => Ok (y :: ys) end
    end
  end.

(** ** Tactics *)

(** Case analysis on the first match of the goal or of a hypothesis. *)
Ltac split_match :=
  match goal with
  | |- context [match ?x with _ => _ end] => destruct x eqn:?
  end.
Ltac split_match_in H :=
  match type of H with
  | context [match ?x with _ => _ end] => destruct x eqn:?
  end.

(** Case analysis on a match of the goal whose subject holds no other match. *)
Ltac split_inner :=
  match goal with
  | |- context [match ?x with _ => _ end] =>
    lazymatch x with context [match _ with _ => _ end] => fail | _ => destruct x eqn:? end
  end.

(** Solve a goal by exhausting matches in the goal. *)
Ltac crush_matches := repeat split_match; simplify_eq/=; try done; eauto.

(** Boolean hypotheses to propositions. *)
Ltac bool_to_prop :=
  repeat match goal with
  | H : _ && _ = true |- _ => apply andb_true_iff in H; destruct H
  | H : _ || _ = false |- _ => apply orb_false_iff in H; destruct H
  | H : negb _ = true |- _ => apply negb_true_iff in H
  | H : negb _ = false |- _ => apply negb_false_iff in H
  | H : bool_decide _ = true |- _ => apply bool_decide_eq_true in H
  | H : bool_decide _ = false |- _ => apply bool_decide_eq_false in H
  end.

(** Unfold the unit of [Outcome] and use equations between constructors. *)
Ltac inv_val := cbv [mret Outcome_ret] in *; simplify_eq/=.

(** Case analysis on the outcome that a bound computation depends on. *)
Ltac bind_cases H :=
  match type of H with
  | context [mbind _ ?m] => destruct m eqn:?; cbn [mbind Outcome_bind] in H; try discriminate H
  | context [match ?x with _ => _ end] => destruct x eqn:?; try discriminate H
  end.

Create HintDb armour.

(** ** Lists *)

Lemma collect_results_ok {A B E} (f : A -> result B E) l ys :
  collect_results f l = Ok ys <-> Forall2 (fun x y => f x = Ok y) l ys.
Proof.
  split.
  - revert ys; induction l as [|x l IH]; intros ys H; simpl in *; simplify_eq; [done|].
    repeat split_match_in H; simplify_eq. constructor; auto.
  - induction 1 as [|x y l ys Hx _ IH]; simpl; [done|]. by rewrite Hx, IH.
Qed.

Lemma forallb_Forall {A} (f : A -> bool) l :
  forallb f l = true <-> Forall (fun x => f x = true) l.
Proof.
  induction l as [|x l IH]; simpl; [done|].
  rewrite andb_true_iff, IH, Forall_cons. done.
Qed.

Lemma existsb_Exists {A} (f : A -> bool) l :
  existsb f l = true <-> Exists (fun x => f x = true) l.
Proof.
  induction l as [|x l IH]; simpl.
  - split; [done|]. intros H; inversion H.
  - rewrite orb_true_iff, IH, Exists_cons. done.
Qed.

Lemma map_fst_combine {A B} (l : list A) (k : list B) :
  length l <= length k -> map fst (combine l k) = l.
Proof.
  revert k. induction l as [|x l IH]; intros [|y k]; simpl; intros Hl; try done; [lia|].
  f_equal. apply IH. lia.
Qed.

(** [List.list_eqb]-style comparison of two lists by a boolean test. *)
Fixpoint list_eqb {A} (eqb : A -> A -> bool) (l1 l2 : list A) : bool :=
  match l1, l2 with
  | [], [] => true
  | x :: l1', y :: l2' => eqb x y && list_eqb eqb l1' l2'
  | _, _ => false
  end.

(** [iter().zip(..).all(..)]: the shorter list decides the length. *)
Fixpoint zip_all {A B} (f : A -> B -> bool) (l1 : list A) (l2 : list B) : bool :=
  match l1, l2 with
  | x :: l1', y :: l2' => f x y && zip_all f l1' l2'
  | _, _ => true
  end.

Definition option_eqb {A} (eqb : A -> A -> bool) (o1 o2 : option A) : bool :=
  match o1, o2 with
  | Some x, Some y => eqb x y
  | None, None => true
  | _, _ => false
  end.

(** ** Machine integers *)

Section integers.
Local Open Scope Z_scope.

Definition i64_min : Z := - 2 ^ 63.
Definition i64_max : Z := 2 ^ 63 - 1.
Definition in_i64 (z : Z) : bool := (i64_min <=? z) && (z <=? i64_max).

(** Two's complement truncation to 64 bits. *)
Definition wrap_i64 (z : Z) : Z := (z + 2 ^ 63) mod 2 ^ 64 - 2 ^ 63.

(** [z as u8], [as u16], [as u32], [as usize] (64-bit) of an i64. *)
Definition as_u8 (z : Z) : Z := z mod 2 ^ 8.
Definition as_u16 (z : Z) : Z := z mod 2 ^ 16.
Definition as_u32 (z : Z) : Z := z mod 2 ^ 32.

(** The [overflow-checks] setting of the profile the crate is built with:
    [true] for the dev profile, [false] for the release profile of
    Cargo.toml. *)
Class Profile := overflow_checks : bool.

Context `{Profile}.

(** The result of [+], [-], [*], unary [-], [abs] and [pow] on i64. *)
Definition arith_i64 (z : Z) : Outcome Z :=
  if in_i64 z then Val z else if overflow_checks then Panic else Val (wrap_i64 z).

(** The result of [+] on usize, a word of 64 bits. *)
Definition arith_usize (z : Z) : Outcome Z :=
  if z <? 2 ^ 64 then Val z else if overflow_checks then Panic else Val (z mod 2 ^ 64).

(** [i / j] and [i % j] for [j <> 0]: truncated division; the only overflow
    is [i64::MIN / -1], which panics in every profile. *)
Definition div_i64 (i j : Z) : Outcome Z :=
  if (i =? i64_min) && (j =? -1) then Panic else Val (Z.quot i j).
Definition rem_i64 (i j : Z) : Outcome Z :=
  if (i =? i64_min) && (j =? -1) then Panic else Val (Z.rem i j).
End integers.

Lemma arith_usize_cases `{Profile} z :
  (0 <= z)%Z ->
  arith_usize z = Val (z mod 2 ^ 64)%Z \/ (arith_usize z = Panic /\ overflow_checks = true /\ (2 ^ 64 <= z)%Z).
Proof.
  intros Hz. unfold arith_usize. destruct (Z.ltb_spec z (2 ^ 64)); [left; by rewrite Z.mod_small by lia|].
  destruct overflow_checks; [by right|by left].
Qed.

Lemma wrap_i64_range z : in_i64 (wrap_i64 z) = true.
Proof.
  unfold in_i64, wrap_i64, i64_min, i64_max.
  pose proof (Z.mod_pos_bound (z + 2 ^ 63) (2 ^ 64) ltac:(lia)). lia.
Qed.

Lemma wrap_i64_id z : in_i64 z = true -> wrap_i64 z = z.
Proof.
  unfold in_i64, wrap_i64, i64_min, i64_max. intros H.
  rewrite Z.mod_small; lia.
Qed.

Lemma arith_i64_range `{Profile} z v : arith_i64 z = Val v -> in_i64 v = true.
Proof.
  unfold arith_i64. intros H'. repeat split_match_in H'; simplify_eq; auto using wrap_i64_range.
Qed.

Lemma div_i64_range i j v :
  in_i64 i = true -> div_i64 i j = Val v -> in_i64 v = true.
Proof.
  unfold div_i64, in_i64, i64_min, i64_max. intros Hi Hd.
  destruct ((i =? - 2 ^ 63)%Z && (j =? -1)%Z) eqn:E; [done|]. simplify_eq.
  apply andb_false_iff in E.
  destruct (decide (j = 0)%Z) as [->|Hj].
  { rewrite Z.quot_0_r_ext; [|done]. lia. }
  pose proof (Z.quot_abs i j Hj) as Habs.
  destruct (decide (Z.abs j = 1)%Z) as [Hj1|Hj1].
  - assert (j = 1 \/ j = -1)%Z as [->| ->] by lia.
    + rewrite Z.quot_1_r. lia.
    + change (-1)%Z with (- (1))%Z. rewrite Z.quot_opp_r, Z.quot_1_r by lia. lia.
  - rewrite Z.quot_div_nonneg in Habs by lia.
    assert (Z.abs i / Z.abs j <= 2 ^ 62)%Z; [|lia].
    apply Z.div_le_upper_bound; lia.
Qed.

Lemma rem_i64_range i j v :
  in_i64 i = true -> in_i64 j = true -> j <> 0%Z -> rem_i64 i j = Val v -> in_i64 v = true.
Proof.
  unfold rem_i64, in_i64, i64_min, i64_max. intros Hi Hj Hj0 Hr.
  destruct (_ && _) eqn:E in Hr; simplify_eq.
  pose proof (Z.rem_bound_abs i j Hj0). lia.
Qed.

#[export] Hint Resolve wrap_i64_range arith_i64_range : armour.
