(* ===== verification/Ordered.v ===== *)
(** * Ordered collections

    Rust's [Ord], [BTreeMap] and [BTreeSet].  The program observes the order
    of iteration of these collections (matching takes the first label, header
    pairs are listed by key, a [Match] is displayed by key), so they are kept
    as association lists sorted by the derived order.  The section at the end
    gives the laws the components use. *)

From Stdlib Require Import ZArith Lia String Ascii List Sorting.Sorted.
From stdpp Require Import base tactics list strings sets.
From S2P Require Import Prelude.


(** ** The trait [Ord] *)

Class Ord (A : Type) := cmp : A -> A -> comparison.

Class OrdLaws (A : Type) `{Ord A} := {
  cmp_eq_iff (x y : A) : cmp x y = Eq <-> x = y;
  cmp_antisym (x y : A) : cmp y x = CompOpp (cmp x y);
  cmp_lt_trans (x y z : A) : cmp x y = Lt -> cmp y z = Lt -> cmp x z = Lt;
}.

#[export] Instance Z_ord : Ord Z := Z.compare.
#[export] Instance Z_ord_laws : OrdLaws Z.
Proof.
  split; unfold cmp, Z_ord.
  - apply Z.compare_eq_iff.
  - intros x y. apply Z.compare_antisym.
  - intros x y z. rewrite !Z.compare_lt_iff. lia.
Qed.

(** The order of [u8]: bytes. *)
#[export] Instance ascii_ord : Ord ascii := fun a b => N.compare (N_of_ascii a) (N_of_ascii b).
#[export] Instance ascii_ord_laws : OrdLaws ascii.
Proof.
  split; unfold cmp, ascii_ord.
  - intros x y. rewrite N.compare_eq_iff. split; [|by intros ->].
    intros H. by rewrite <- (ascii_N_embedding x), <- (ascii_N_embedding y), H.
  - intros x y. apply N.compare_antisym.
  - intros x y z. rewrite !N.compare_lt_iff. lia.
Qed.

(** The order of [str]: lexicographic on bytes. *)
Fixpoint string_cmp (s1 s2 : string) : comparison :=
  match s1, s2 with
  | EmptyString, EmptyString => Eq
  | EmptyString, String _ _ => Lt
  | String _ _, EmptyString => Gt
  | String a s1', String b s2' =>
    match cmp a b with Eq => string_cmp s1' s2' | c => c end
  end.
#[export] Instance string_ord : Ord string := string_cmp.

(** The derived order of vectors. *)
Fixpoint list_cmp {A} `{Ord A} (l1 l2 : list A) : comparison :=
  match l1, l2 with
  | [], [] => Eq
  | [], _ :: _ => Lt
  | _ :: _, [] => Gt
  | x :: l1', y :: l2' => match cmp x y with Eq => list_cmp l1' l2' | c => c end
  end.
#[export] Instance list_ord {A} `{Ord A} : Ord (list A) := list_cmp.

Section laws.
Context {A : Type} `{OrdLaws A}.

Lemma cmp_refl (x : A) : cmp x x = Eq.
Proof. by apply cmp_eq_iff. Qed.

Lemma cmp_gt_lt (x y : A) : cmp x y = Gt <-> cmp y x = Lt.
Proof. rewrite (cmp_antisym x y). destruct (cmp x y); simpl; split; done. Qed.

Lemma cmp_lt_irrefl (x : A) : cmp x x <> Lt.
Proof. by rewrite cmp_refl. Qed.

Lemma cmp_lt_ne (x y : A) : cmp x y = Lt -> x <> y.
Proof. intros Hlt ->. by apply cmp_lt_irrefl in Hlt. Qed.

Lemma cmp_lt_asym (x y : A) : cmp x y = Lt -> cmp y x <> Lt.
Proof. intros H1. rewrite (cmp_antisym x y), H1. done. Qed.

Lemma cmp_eq_lt (x y z : A) : cmp x y = Eq -> cmp x z = cmp y z.
Proof. rewrite cmp_eq_iff. by intros ->. Qed.
End laws.

#[export] Instance string_ord_laws : OrdLaws string.
Proof.
  split; unfold cmp, string_ord.
  - intros x. induction x as [|a x IH]; intros [|b y]; simpl; try done.
    destruct (cmp a b) eqn:E; [apply cmp_eq_iff in E as ->; rewrite IH|..];
      split; intros; simplify_eq; auto; rewrite cmp_refl in E; done.
  - intros x. induction x as [|a x IH]; intros [|b y]; simpl; try done.
    rewrite (cmp_antisym a b), IH. by destruct (cmp a b).
  - intros x. induction x as [|a x IH]; intros [|b y] [|c z]; simpl; try done.
    destruct (cmp a b) eqn:E1; [apply cmp_eq_iff in E1 as ->| |done].
    + destruct (cmp b c) eqn:E2; [apply IH|done..].
    + intros _. destruct (cmp b c) eqn:E2; [|intros _|done].
      * apply cmp_eq_iff in E2 as ->. by rewrite E1.
      * by rewrite (cmp_lt_trans a b c).
Qed.

#[export] Instance list_ord_laws {A} `{OrdLaws A} : OrdLaws (list A).
Proof.
  split; unfold cmp at 1, list_ord.
  - intros x. induction x as [|a x IH]; intros [|b y]; simpl; try done.
    destruct (cmp a b) eqn:E; [apply cmp_eq_iff in E as ->; rewrite IH|..];
      split; intros; simplify_eq; auto; rewrite cmp_refl in E; done.
  - intros x. unfold cmp at 1. induction x as [|a x IH]; intros [|b y]; simpl; try done.
    rewrite (cmp_antisym a b), IH. by destruct (cmp a b).
  - intros x. unfold cmp at 1 2. induction x as [|a x IH]; intros [|b y] [|c z]; simpl; try done.
    destruct (cmp a b) eqn:E1; [apply cmp_eq_iff in E1 as ->| |done].
    + destruct (cmp b c) eqn:E2; [apply IH|done..].
    + intros _. destruct (cmp b c) eqn:E2; [|intros _|done].
      * apply cmp_eq_iff in E2 as ->. by rewrite E1.
      * by rewrite (cmp_lt_trans a b c).
Qed.

(** ** [BTreeMap] *)

Definition BTreeMap (K V : Type) := list (K * V).
Definition BTreeSet (A : Type) := list A.

Module BTreeMap.
Section map.
Context {K V : Type} `{OrdLaws K}.
Implicit Types (m : BTreeMap K V) (k : K) (v : V).

Fixpoint get m k : option V :=
  match m with
  | [] => None
  | (k', v) :: m' =>
    match cmp k k' with Eq => Some v | Lt => None | Gt => get m' k end
  end.

Fixpoint insert k v m : BTreeMap K V :=
  match m with
  | [] => [(k, v)]
  | (k', v') :: m' =>
    match cmp k k' with
    | Eq => (k', v) :: m'
    | Lt => (k, v) :: m
    | Gt => (k', v') :: insert k v m'
    end
  end.

Fixpoint remove k m : BTreeMap K V :=
  match m with
  | [] => []
  | (k', v') :: m' =>
    match cmp k k' with
    | Eq => m'
    | Lt => m
    | Gt => (k', v') :: remove k m'
    end
  end.

(** [m1.into_iter().chain(m2.into_iter()).collect()], and any [collect]
    into a map: later bindings replace earlier ones. *)
Definition collect (l : list (K * V)) : BTreeMap K V :=
  foldl (fun m kv => insert kv.1 kv.2 m) [] l.

Definition keys m : list K := map fst m.
Definition values m : list V := map snd m.

Definition wf m : Prop := StronglySorted (fun a b => cmp a b = Lt) (keys m).

Lemma wf_nil : wf [].
Proof. constructor. Qed.

Lemma wf_cons k v m :
  wf ((k, v) :: m) <-> Forall (fun k' => cmp k k' = Lt) (keys m) /\ wf m.
Proof.
  unfold wf; simpl. split.
  - intros Hs. apply StronglySorted_inv in Hs as [??]. done.
  - intros [??]. by constructor.
Qed.

Lemma get_lt k m : Forall (fun k' => cmp k k' = Lt) (keys m) -> get m k = None.
Proof.
  destruct m as [|[k' v'] m]; simpl; [done|]. intros Hf.
  apply Forall_cons in Hf as [-> _]. done.
Qed.

Lemma keys_insert k v m k' : k' ∈ keys (insert k v m) <-> k' = k \/ k' ∈ keys m.
Proof.
  induction m as [|[k0 v0] m IH]; simpl.
  - set_solver.
  - destruct (cmp k k0) eqn:E; simpl; [apply cmp_eq_iff in E as ->|..]; set_solver.
Qed.

Lemma insert_Forall (P : K -> Prop) k v m :
  P k -> Forall P (keys m) -> Forall P (keys (insert k v m)).
Proof.
  rewrite !Forall_forall. intros Hk Hm k' [->|?]%keys_insert; auto.
Qed.

Lemma wf_insert k v m : wf m -> wf (insert k v m).
Proof.
  induction m as [|[k0 v0] m IH]; simpl; intros Hwf.
  - apply wf_cons. split; [constructor|constructor].
  - apply wf_cons in Hwf as [Hlt Hwf]. destruct (cmp k k0) eqn:E.
    + apply wf_cons. done.
    + apply wf_cons. split; [|by apply wf_cons]. constructor; [done|].
      eapply Forall_impl; [exact Hlt|]. intros; by eapply cmp_lt_trans.
    + apply wf_cons. split; [|auto]. apply insert_Forall; [by apply cmp_gt_lt|done].
Qed.

Lemma keys_remove k m k' : k' ∈ keys (remove k m) -> k' ∈ keys m.
Proof.
  induction m as [|[k0 v0] m IH]; simpl; [done|].
  destruct (cmp k k0) eqn:E; simpl; set_solver.
Qed.

Lemma wf_remove k m : wf m -> wf (remove k m).
Proof.
  induction m as [|[k0 v0] m IH]; simpl; [done|]. intros [Hlt Hwf]%wf_cons.
  destruct (cmp k k0) eqn:E; [done|by apply wf_cons|]. apply wf_cons. split; [|auto].
  rewrite Forall_forall in *. intros k' Hk'. apply Hlt. by eapply keys_remove.
Qed.

Lemma get_insert_eq k v m : get (insert k v m) k = Some v.
Proof.
  induction m as [|[k0 v0] m IH]; simpl; [by rewrite cmp_refl|].
  destruct (cmp k k0) eqn:E; simpl; [by rewrite E|by rewrite cmp_refl|by rewrite E].
Qed.

Lemma get_insert_ne k k' v m : wf m -> k <> k' -> get (insert k v m) k' = get m k'.
Proof.
  intros Hwf Hne. induction m as [|[k0 v0] m IH]; simpl.
  - destruct (cmp k' k) eqn:E; try done. apply cmp_eq_iff in E. congruence.
  - apply wf_cons in Hwf as [Hlt Hwf]. destruct (cmp k k0) eqn:E; simpl.
    + apply cmp_eq_iff in E as ->. destruct (cmp k' k0) eqn:E'; try done.
      apply cmp_eq_iff in E'. congruence.
    + destruct (cmp k' k) eqn:E'.
      * apply cmp_eq_iff in E'. congruence.
      * by rewrite (cmp_lt_trans k' k k0).
      * done.
    + rewrite IH by done. done.
Qed.

Lemma get_insert k k' v m :
  wf m -> get (insert k v m) k' = match cmp k' k with Eq => Some v | _ => get m k' end.
Proof.
  intros Hwf. destruct (cmp k' k) eqn:E.
  - apply cmp_eq_iff in E as ->. apply get_insert_eq.
  - apply get_insert_ne; [done|]. intros ->. by apply cmp_lt_irrefl in E.
  - apply get_insert_ne; [done|]. intros ->. by rewrite cmp_refl in E.
Qed.

Lemma get_remove_eq k m : wf m -> get (remove k m) k = None.
Proof.
  induction m as [|[k0 v0] m IH]; simpl; [done|]. intros [Hlt Hwf]%wf_cons.
  destruct (cmp k k0) eqn:E; simpl; [|by rewrite E|rewrite E; auto].
  apply cmp_eq_iff in E as ->. by apply get_lt.
Qed.

Lemma get_remove_ne k k' m : wf m -> k <> k' -> get (remove k m) k' = get m k'.
Proof.
  intros Hwf Hne. induction m as [|[k0 v0] m IH]; simpl; [done|].
  apply wf_cons in Hwf as [Hlt Hwf]. destruct (cmp k k0) eqn:E; simpl; [|done|by rewrite IH].
  apply cmp_eq_iff in E as ->. destruct (cmp k' k0) eqn:E'; [|apply get_lt|done].
  - apply cmp_eq_iff in E'. congruence.
  - eapply Forall_impl; [exact Hlt|]. intros; by eapply cmp_lt_trans.
Qed.

Lemma get_Some_elem k v m : get m k = Some v -> (k, v) ∈ m.
Proof.
  induction m as [|[k' v'] m IH]; simpl; [done|]. destruct (cmp k k') eqn:E; [|done|].
  - apply cmp_eq_iff in E as ->. intros; simplify_eq. by left.
  - intros Hg. right. auto.
Qed.

Lemma get_elem k v m : wf m -> get m k = Some v <-> (k, v) ∈ m.
Proof.
  induction m as [|[k0 v0] m IH]; simpl; intros Hwf; [set_solver|].
  apply wf_cons in Hwf as [Hlt Hwf]. rewrite Forall_forall in Hlt.
  rewrite elem_of_cons. destruct (cmp k k0) eqn:E.
  - apply cmp_eq_iff in E as ->. split; [intros; simplify_eq; auto|].
    intros [?|Hin]; [by simplify_eq|]. exfalso. apply (cmp_lt_irrefl k0), Hlt.
    apply list_elem_of_fmap. by exists (k0, v).
  - split; [done|]. intros [?|Hin]; simplify_eq; [by rewrite cmp_refl in E|].
    exfalso. apply (cmp_lt_asym k k0 E), Hlt. apply list_elem_of_fmap. by exists (k, v).
  - rewrite IH by done. split; [auto|]. intros [?|?]; simplify_eq; [|done].
    by rewrite cmp_refl in E.
Qed.

(** Two well-formed maps with the same bindings are the same list. *)
Lemma map_ext m1 m2 : wf m1 -> wf m2 -> (forall k, get m1 k = get m2 k) -> m1 = m2.
Proof.
  revert m2. induction m1 as [|[k1 v1] m1 IH]; intros [|[k2 v2] m2] H1 H2 Hg; [done|..].
  - specialize (Hg k2). simpl in Hg. by rewrite cmp_refl in Hg.
  - specialize (Hg k1). simpl in Hg. by rewrite cmp_refl in Hg.
  - pose proof H1 as H1'. pose proof H2 as H2'.
    apply wf_cons in H1' as [Hl1 Hw1]. apply wf_cons in H2' as [Hl2 Hw2].
    assert (cmp k1 k2 = Eq) as Hk.
    { destruct (cmp k1 k2) eqn:E; [done|exfalso..].
      - specialize (Hg k1). simpl in Hg. by rewrite cmp_refl, E in Hg.
      - apply cmp_gt_lt in E. specialize (Hg k2). simpl in Hg.
        by rewrite cmp_refl, E in Hg. }
    apply cmp_eq_iff in Hk as ->.
    pose proof (Hg k2) as Hv. simpl in Hv. rewrite cmp_refl in Hv. simplify_eq.
    f_equal. apply IH; [done..|]. intros k. specialize (Hg k). simpl in Hg.
    destruct (cmp k k2) eqn:E; [|rewrite !get_lt; try done|done].
    + apply cmp_eq_iff in E as ->. by rewrite !get_lt.
    + eapply Forall_impl; [exact Hl2|]. intros; by eapply cmp_lt_trans.
    + eapply Forall_impl; [exact Hl1|]. intros; by eapply cmp_lt_trans.
Qed.

Lemma wf_foldl_insert l m :
  wf m -> wf (foldl (fun m kv => insert kv.1 kv.2 m) m l).
Proof. revert m. induction l; simpl; auto using wf_insert. Qed.

Lemma wf_collect l : wf (collect l).
Proof. apply wf_foldl_insert, wf_nil. Qed.
End map.

Section merge.
Context {K V : Type} `{OrdLaws K}.

(** Inserting the image of every binding of a map. *)
Lemma get_foldl_map {W} (f : K -> W -> V) (l : BTreeMap K W) (m : BTreeMap K V) k :
  wf m -> wf l ->
  get (foldl (fun m kv => insert kv.1 (f kv.1 kv.2) m) m l) k =
  match get l k with Some v => Some (f k v) | None => get m k end.
Proof.
  revert m. induction l as [|[k0 v0] l IH]; intros m Hm Hl; [done|].
  apply wf_cons in Hl as [Hlt Hl]. simpl. rewrite IH, get_insert by auto using wf_insert.
  destruct (cmp k k0) eqn:E; [|rewrite get_lt; try done|done].
  - apply cmp_eq_iff in E as ->. by rewrite get_lt.
  - eapply Forall_impl; [exact Hlt|]. intros; by eapply cmp_lt_trans.
Qed.

Lemma get_foldl_insert (l m : BTreeMap K V) k :
  wf m -> wf l ->
  get (foldl (fun m kv => insert kv.1 kv.2 m) m l) k =
  match get l k with Some v => Some v | None => get m k end.
Proof. apply (get_foldl_map (fun _ v => v)). Qed.

(** Chaining two maps and collecting prefers the second. *)
Lemma get_collect_app (m1 m2 : BTreeMap K V) k :
  wf m1 -> wf m2 ->
  get (collect (m1 ++ m2)) k = match get m2 k with Some v => Some v | None => get m1 k end.
Proof.
  intros H1 H2. unfold collect. rewrite foldl_app, get_foldl_insert.
  - rewrite get_foldl_insert by auto using wf_nil. simpl. by destruct (get m2 k), (get m1 k).
  - apply wf_foldl_insert, wf_nil.
  - done.
Qed.

Lemma collect_id (m : BTreeMap K V) : wf m -> collect m = m.
Proof.
  intros Hm. apply map_ext; [apply wf_collect|done|]. intros k.
  unfold collect. rewrite get_foldl_insert by auto using wf_nil. simpl. by destruct (get m k).
Qed.
End merge.
End BTreeMap.

(** ** [BTreeSet] *)

Module BTreeSet.
Section set.
Context {A : Type} `{OrdLaws A}.
Implicit Types (s : BTreeSet A) (x : A).

Fixpoint insert x s : BTreeSet A :=
  match s with
  | [] => [x]
  | y :: s' =>
    match cmp x y with Eq => s | Lt => x :: s | Gt => y :: insert x s' end
  end.

Fixpoint remove x s : BTreeSet A :=
  match s with
  | [] => []
  | y :: s' =>
    match cmp x y with Eq => s' | Lt => s | Gt => y :: remove x s' end
  end.

(** [BTreeSet::remove] also reports whether the value was present. *)
Definition contains x s : bool := existsb (fun y => match cmp x y with Eq => true | _ => false end) s.

(** [extend] and [collect]. *)
Definition extend s (l : list A) : BTreeSet A := foldl (fun s x => insert x s) s l.

Definition wf s : Prop := StronglySorted (fun a b => cmp a b = Lt) s.

Lemma elem_insert x y s : y ∈ insert x s <-> y = x \/ y ∈ s.
Proof.
  induction s as [|z s IH]; simpl; [set_solver|].
  destruct (cmp x z) eqn:E; [apply cmp_eq_iff in E as ->|..]; set_solver.
Qed.

Lemma set_wf_insert x s : wf s -> wf (insert x s).
Proof.
  unfold wf. induction s as [|y s IH]; simpl; intros Hwf; [repeat constructor|].
  apply StronglySorted_inv in Hwf as [Hwf Hlt]. destruct (cmp x y) eqn:E.
  - by constructor.
  - constructor; [by constructor|]. constructor; [done|].
    eapply Forall_impl; [exact Hlt|]. intros; by eapply cmp_lt_trans.
  - constructor; [auto|]. apply Forall_forall. intros z [->|Hz]%elem_insert.
    + by apply cmp_gt_lt.
    + rewrite Forall_forall in Hlt. auto.
Qed.

Lemma elem_remove x y s : wf s -> y ∈ remove x s <-> y <> x /\ y ∈ s.
Proof.
  unfold wf. induction s as [|z s IH]; simpl; intros Hwf; [set_solver|].
  apply StronglySorted_inv in Hwf as [Hwf Hlt]. rewrite Forall_forall in Hlt.
  destruct (cmp x z) eqn:E.
  - apply cmp_eq_iff in E as ->. rewrite elem_of_cons. split; [|naive_solver].
    intros Hy. split; [|auto]. intros ->. by apply (cmp_lt_irrefl z), Hlt.
  - rewrite elem_of_cons. split; [|naive_solver]. intros Hy. split; [|done]. intros ->.
    destruct Hy as [->|Hy]; [by apply cmp_lt_irrefl in E|].
    by apply (cmp_lt_asym x z), Hlt.
  - rewrite !elem_of_cons, IH by done. split; [|naive_solver].
    intros [->|[??]]; [|auto]. split; [|auto]. intros ->. by rewrite cmp_refl in E.
Qed.

Lemma set_wf_remove x s : wf s -> wf (remove x s).
Proof.
  unfold wf. induction s as [|y s IH]; simpl; intros Hwf; [done|].
  pose proof Hwf as Hwf'. apply StronglySorted_inv in Hwf as [Hwf Hlt].
  destruct (cmp x y) eqn:E; [done|done|]. constructor; [auto|].
  apply Forall_forall. intros z [_ Hz]%elem_remove; [|done]. rewrite Forall_forall in Hlt. auto.
Qed.

Lemma contains_elem x s : contains x s = true <-> x ∈ s.
Proof.
  unfold contains. rewrite existsb_Exists, Exists_exists. split.
  - intros (y & Hy & E). destruct (cmp x y) eqn:E'; try done. by apply cmp_eq_iff in E' as ->.
  - intros Hx. exists x. by rewrite cmp_refl.
Qed.

Lemma wf_extend l s : wf s -> wf (extend s l).
Proof. revert s. unfold extend. induction l; simpl; auto using set_wf_insert. Qed.

Lemma elem_extend l s y : y ∈ extend s l <-> y ∈ l \/ y ∈ s.
Proof.
  revert s. unfold extend. induction l as [|x l IH]; intros s; simpl; [set_solver|].
  rewrite IH, elem_insert. set_solver.
Qed.

Lemma wf_filter (P : A -> Prop) `{forall x, Decision (P x)} s : wf s -> wf (filter P s).
Proof.
  unfold wf. induction 1 as [|x s Hs IH Hlt]; simpl; [constructor|].
  rewrite filter_cons. case_decide; [|done]. constructor; [done|].
  rewrite Forall_forall in *. intros y [_ Hy]%list_elem_of_filter. auto.
Qed.

(** Two well-formed sets with the same elements are the same list. *)
Lemma set_ext s1 s2 : wf s1 -> wf s2 -> (forall x, x ∈ s1 <-> x ∈ s2) -> s1 = s2.
Proof.
  unfold wf. revert s2. induction s1 as [|x s1 IH]; intros [|y s2] H1 H2 He; [done|set_solver..|].
  apply StronglySorted_inv in H1 as [H1 L1]. apply StronglySorted_inv in H2 as [H2 L2].
  rewrite Forall_forall in L1, L2.
  assert (x = y) as ->.
  { assert (x ∈ y :: s2) as [|Hx%L2]%elem_of_cons by (apply He; set_solver); [done|].
    assert (y ∈ x :: s1) as [|Hy%L1]%elem_of_cons by (apply He; set_solver); [done|].
    exfalso. by apply (cmp_lt_asym _ _ Hx). }
  f_equal. apply IH; [done..|]. intros z. specialize (He z). rewrite !elem_of_cons in He.
  destruct He as [He1 He2]. split; intros Hz.
  - destruct He1 as [->|]; [auto| |done]. by apply L1, cmp_lt_irrefl in Hz.
  - destruct He2 as [->|]; [auto| |done]. by apply L2, cmp_lt_irrefl in Hz.
Qed.
End set.
End BTreeSet.

#[export] Hint Resolve BTreeMap.wf_nil BTreeMap.wf_insert BTreeMap.wf_remove BTreeMap.wf_collect : armour.
#[export] Hint Resolve BTreeSet.set_wf_insert BTreeSet.set_wf_remove BTreeSet.wf_extend : armour.
