(* ===== verification/Strings.v ===== *)
(** * Strings

    The functions of Rust's [str] and of the integer parsers that the program
    uses.  A [String] is the sequence of its UTF-8 bytes, so [len] and
    slicing count bytes; a [Vec<u8>] is a list of [ascii].  The operations
    below compare bytes, which agrees with the comparison of characters for
    the ASCII separators and classes of the source. *)

From Stdlib Require Import ZArith Lia String Ascii List SpecFloat.
From stdpp Require Import base tactics list strings.
From S2P Require Import Prelude.

Local Open Scope string_scope.

(** Concatenation, written as in stdpp. *)
Notation "s1 ^^ s2" := (String.append s1 s2) (at level 60, right associativity) : string_scope.

#[global] Arguments String.append !_ _ / : simpl nomatch.

Definition dquote : string := String (ascii_of_nat 34) "".
Definition quote (s : string) : string := dquote ^^ s ^^ dquote.

Definition bytes := list ascii.
Definition as_bytes (s : string) : bytes := list_ascii_of_string s.
Definition of_bytes (b : bytes) : string := string_of_list_ascii b.
Definition str_len (s : string) : Z := Z.of_nat (String.length s).

(** ** Character classes of the regexes: [[:alpha:]], [[:digit:]], [[:alnum:]] *)
Definition in_range (lo hi : N) (c : ascii) : bool :=
  (lo <=? N_of_ascii c)%N && (N_of_ascii c <=? hi)%N.
Definition is_digit (c : ascii) : bool := in_range 48 57 c.
Definition is_alpha (c : ascii) : bool := in_range 65 90 c || in_range 97 122 c.
Definition is_alnum (c : ascii) : bool := is_alpha c || is_digit c.

Fixpoint forall_chars (f : ascii -> bool) (s : string) : bool :=
  match s with EmptyString => true | String c s' => f c && forall_chars f s' end.

(** ** Searching *)

Definition starts_with (s p : string) : bool := String.prefix p s.

Fixpoint contains (s p : string) : bool :=
  String.prefix p s || match s with EmptyString => false | String _ s' => contains s' p end.

Definition drop_str (n : nat) (s : string) : string := String.substring n (String.length s - n) s.

Definition ends_with (s p : string) : bool :=
  (String.length p <=? String.length s)%nat &&
  String.eqb (drop_str (String.length s - String.length p) s) p.

(** ** Splitting and joining *)

Definition cons_head (c : ascii) (l : list string) : list string :=
  match l with [] => [String c ""] | s :: l' => String c s :: l' end.

(** [s.split(sep)]: the head of the result is the piece being read, [skip]
    counts the bytes of a separator still to be dropped. *)
Fixpoint split_go (sep : string) (skip : nat) (s : string) : list string :=
  match s with
  | EmptyString => [""]
  | String c s' =>
    match skip with
    | S n => split_go sep n s'
    | O =>
      if String.prefix sep s then "" :: split_go sep (String.length sep - 1) s'
      else cons_head c (split_go sep 0 s')
    end
  end.
Definition split (sep s : string) : list string := split_go sep 0 s.

Fixpoint join (sep : string) (l : list string) : string :=
  match l with
  | [] => ""
  | [s] => s
  | s :: l' => s ^^ sep ^^ join sep l'
  end.

(** ** Trimming *)

(** [trim_start_matches(c)] and [trim_end_matches(c)] for a character. *)
Fixpoint trim_start_char (c : ascii) (s : string) : string :=
  match s with
  | EmptyString => ""
  | String d s' => if Ascii.eqb c d then trim_start_char c s' else s
  end.
Fixpoint trim_end_char (c : ascii) (s : string) : string :=
  match s with
  | EmptyString => ""
  | String d s' =>
    match trim_end_char c s' with
    | EmptyString => if Ascii.eqb c d then "" else String d ""
    | t => String d t
    end
  end.
Definition trim_char (c : ascii) (s : string) : string := trim_end_char c (trim_start_char c s).

(** [trim_start_matches(p)] for a string: the fuel is the length of [s]. *)
Fixpoint trim_start_fuel (fuel : nat) (p s : string) : string :=
  match fuel with
  | O => s
  | S n =>
    if String.prefix p s && negb (String.eqb p "") then
      trim_start_fuel n p (drop_str (String.length p) s)
    else s
  end.
Definition trim_start_str (p s : string) : string := trim_start_fuel (String.length s) p s.

(** ** Decimal integers *)

Definition digit_value (c : ascii) : Z := Z.of_N (N_of_ascii c) - 48.

(** The digits of [s] in base 10, most significant first. *)
Fixpoint parse_digits (acc : Z) (s : string) : option Z :=
  match s with
  | EmptyString => Some acc
  | String c s' => if is_digit c then parse_digits (acc * 10 + digit_value c) s' else None
  end.

Definition nonempty_digits (s : string) : option Z :=
  match s with EmptyString => None | _ => parse_digits 0 s end.

(** [str::parse::<i64>()] and [str::parse::<usize>()]: an optional sign, then
    at least one digit, within the range of the type. *)
Definition parse_signed (s : string) : option Z :=
  match s with
  | String "-" s' => Z.opp <$> nonempty_digits s'
  | String "+" s' => nonempty_digits s'
  | _ => nonempty_digits s
  end.
Definition parse_i64 (s : string) : option Z :=
  z ← parse_signed s; if in_i64 z then Some z else None.
Definition usize_max : Z := 2 ^ 64 - 1.
Definition parse_usize (s : string) : option Z :=
  z ← match s with
      | String "+" s' => nonempty_digits s'
      | _ => nonempty_digits s
      end;
  if (z <=? usize_max)%Z then Some z else None.

(** [str::parse::<f64>] of decimals: a number, correctly rounded. *)
Definition decimal_to_f64 (neg : bool) (m e : Z) : spec_float :=
  match m with
  | Zpos p =>
    if (0 <=? e)%Z then binary_normalize 53 1024 (cond_Zopp neg (Zpos p * 10 ^ e)) 0 neg
    else
      let '(q, e', l) := SFdiv_core_binary 53 1024 (Zpos p) 0 (10 ^ (- e)) 0 in
      binary_round_aux 53 1024 neg q e' l
  | _ => S754_zero neg
  end.

Fixpoint take_digits (s : string) : string * string :=
  match s with
  | EmptyString => (EmptyString, EmptyString)
  | String c s' =>
    if is_digit c then let '(d, r) := take_digits s' in (String c d, r) else (EmptyString, s)
  end.

Definition take_sign (s : string) : bool * string :=
  match s with
  | String "-" s' => (true, s')
  | String "+" s' => (false, s')
  | _ => (false, s)
  end.

(** The exponent of a decimal, which ends it. *)
Definition parse_exponent (s : string) : option Z :=
  match s with
  | EmptyString => Some 0%Z
  | String c s' =>
    if Ascii.eqb c "e" || Ascii.eqb c "E" then
      let '(neg, s') := take_sign s' in
      let '(d, r) := take_digits s' in
      if String.eqb d EmptyString || negb (String.eqb r EmptyString) then None
      else (if neg then Z.opp else fun x => x) <$> parse_digits 0 d
    else None
  end.

Definition parse_f64 (s : string) : option spec_float :=
  let '(neg, s) := take_sign s in
  let '(whole, s) := take_digits s in
  let '(frac, s) := match s with String "." s' => take_digits s' | _ => (EmptyString, s) end in
  if String.eqb whole EmptyString && String.eqb frac EmptyString then None
  else
    m ← parse_digits 0 (String.append whole frac);
    e ← parse_exponent s;
    Some (decimal_to_f64 neg m (e - Z.of_nat (String.length frac))).

(** [i64::to_string]: 20 digits are enough for any 64-bit integer. *)
Fixpoint digits_fuel (fuel : nat) (n : Z) (acc : string) : string :=
  match fuel with
  | O => acc
  | S f =>
    let acc' := String (ascii_of_N (Z.to_N (n mod 10) + 48)) acc in
    if (n <? 10)%Z then acc' else digits_fuel f (n / 10) acc'
  end.
Definition digits_of (n : Z) : string := digits_fuel (S 19) n "".
Definition i64_to_string (z : Z) : string :=
  if (z <? 0)%Z then String "-" (digits_of (- z)) else digits_of z.

(** ** White space

    The UTF-8 encodings of the characters with the property [White_Space]. *)
Definition whitespace : list string :=
  map (fun l => of_bytes (map ascii_of_nat l))
    [[9]; [10]; [11]; [12]; [13]; [32]; [194; 133]; [194; 160]; [225; 154; 128];
     [226; 128; 128]; [226; 128; 129]; [226; 128; 130]; [226; 128; 131]; [226; 128; 132];
     [226; 128; 133]; [226; 128; 134]; [226; 128; 135]; [226; 128; 136]; [226; 128; 137];
     [226; 128; 138]; [226; 128; 168]; [226; 128; 169]; [226; 128; 175]; [226; 129; 159];
     [227; 128; 128]].

(** [str::trim_start] and [str::trim_end]; every step removes a character. *)
Fixpoint trim_ws_start (fuel : nat) (s : string) : string :=
  match fuel with
  | O => s
  | S n =>
    match List.find (starts_with s) whitespace with
    | Some w => trim_ws_start n (drop_str (String.length w) s)
    | None => s
    end
  end.
Definition trim_start (s : string) : string := trim_ws_start (String.length s) s.

Fixpoint trim_ws_end (fuel : nat) (s : string) : string :=
  match fuel with
  | O => s
  | S n =>
    match List.find (ends_with s) whitespace with
    | Some w => trim_ws_end n (String.substring 0 (String.length s - String.length w) s)
    | None => s
    end
  end.
Definition trim_end (s : string) : string := trim_ws_end (String.length s) s.

Example trim_start_ex : trim_start "  a b " = "a b ".
Proof. reflexivity. Qed.
Example trim_end_ex : trim_end " a b  " = " a b".
Proof. reflexivity. Qed.

(** ** Laws *)

Lemma append_nil_r s : s ^^ "" = s.
Proof. induction s; simpl; congruence. Qed.

Lemma append_assoc s1 s2 s3 : (s1 ^^ s2) ^^ s3 = s1 ^^ s2 ^^ s3.
Proof. induction s1; simpl; congruence. Qed.

Lemma forall_chars_append f s1 s2 :
  forall_chars f (s1 ^^ s2) = forall_chars f s1 && forall_chars f s2.
Proof. induction s1; simpl; [done|]. by rewrite IHs1, andb_assoc. Qed.

Lemma forall_chars_impl (f g : ascii -> bool) s :
  (forall c, f c = true -> g c = true) -> forall_chars f s = true -> forall_chars g s = true.
Proof.
  intros Hfg. induction s; simpl; [done|]. rewrite !andb_true_iff. naive_solver.
Qed.

Lemma prefix_refl_app s1 s2 : String.prefix s1 (s1 ^^ s2) = true.
Proof. induction s1 as [|c s1 IH]; simpl; [by destruct s2|]. by destruct (ascii_dec c c). Qed.

Lemma split_go_nonempty sep n s : exists p l, split_go sep n s = p :: l.
Proof.
  revert n. induction s as [|c s IH]; intros n; simpl; [eauto|].
  destruct n; [|apply IH]. destruct (match sep with "" => _ | _ => _ end); [eauto|].
  destruct (IH 0) as (p & l & ->). simpl. eauto.
Qed.

(** Dropping the rest of a separator. *)
Lemma split_go_skip sep t s : split_go sep (String.length t) (t ^^ s) = split_go sep 0 s.
Proof. induction t; simpl; [done|]. exact IHt. Qed.

Lemma split_sep c sep s : split (String c sep) (String c sep ^^ s) = "" :: split (String c sep) s.
Proof.
  unfold split. simpl. destruct (ascii_dec c c); [|done].
  rewrite prefix_refl_app. by rewrite Nat.sub_0_r, split_go_skip.
Qed.

Lemma split_char_other c sep d s :
  d <> c -> split (String c sep) (String d s) = cons_head d (split (String c sep) s).
Proof. intros Hd. unfold split. simpl. by destruct (ascii_dec c d). Qed.

(** A piece without the first byte of the separator. *)
Definition free_of (c : ascii) (s : string) : bool := forall_chars (fun d => negb (Ascii.eqb d c)) s.

Lemma split_app_free c sep p s :
  free_of c p = true ->
  split (String c sep) (p ^^ s) =
  match split (String c sep) s with [] => [p] | q :: l => (p ^^ q) :: l end.
Proof.
  unfold free_of. induction p as [|d p IH]; simpl; intros Hf.
  - destruct (split_go_nonempty (String c sep) 0 s) as (q & l & Hs). unfold split. by rewrite Hs.
  - apply andb_true_iff in Hf as [Hd%negb_true_iff Hf].
    rewrite split_char_other by (intros ->; by rewrite Ascii.eqb_refl in Hd).
    rewrite IH by done.
    destruct (split_go_nonempty (String c sep) 0 s) as (q & l & Hs). unfold split. by rewrite Hs.
Qed.

(** Splitting a joined list gives back its pieces. *)
Lemma split_join c sep l :
  l <> [] -> Forall (fun p => free_of c p = true) l ->
  split (String c sep) (join (String c sep) l) = l.
Proof.
  intros Hne. induction l as [|p l IH]; [done|]. intros [Hp Hl]%Forall_cons.
  destruct l as [|q l].
  - simpl. rewrite <- (append_nil_r p) at 1. rewrite split_app_free by done.
    unfold split; simpl. by rewrite append_nil_r.
  - change (join (String c sep) (p :: q :: l)) with (p ^^ String c sep ^^ join (String c sep) (q :: l)).
    rewrite split_app_free, split_sep, IH by done. by rewrite append_nil_r.
Qed.

(** *** Decimal printing and parsing *)

Lemma digit_char_value n :
  (0 <= n < 10)%Z ->
  is_digit (ascii_of_N (Z.to_N n + 48)) = true /\ digit_value (ascii_of_N (Z.to_N n + 48)) = n.
Proof.
  intros Hn. unfold is_digit, in_range, digit_value.
  rewrite N_ascii_embedding by lia. split; [|lia].
  apply andb_true_iff. rewrite !N.leb_le. lia.
Qed.

(** Reading back the digits written by [digits_fuel]: the accumulator is
    shifted by some number of digits, and [n] is added. *)
Lemma parse_digits_fuel fuel n :
  (0 < fuel)%nat -> (0 <= n < 10 ^ Z.of_nat fuel)%Z ->
  exists m, forall k acc,
    parse_digits k (digits_fuel fuel n acc) = parse_digits (k * 10 ^ Z.of_nat m + n) acc.
Proof.
  revert n. induction fuel as [|fuel IH]; intros n Hf Hn; [lia|].
  pose proof (Z.mod_pos_bound n 10 ltac:(lia)) as Hm.
  destruct (digit_char_value (n mod 10) Hm) as [Hd Hv].
  simpl digits_fuel. destruct (n <? 10)%Z eqn:E.
  - exists 1. intros k acc. cbn [parse_digits]. rewrite Hd, Hv. f_equal.
    rewrite Z.mod_small by lia. change (10 ^ Z.of_nat 1)%Z with 10%Z. lia.
  - rewrite Nat2Z.inj_succ, Z.pow_succ_r in Hn by lia.
    destruct (IH (n / 10)%Z) as [m IHm].
    { destruct fuel; [|lia]. change (10 ^ Z.of_nat 0)%Z with 1%Z in Hn. lia. }
    { split; [apply Z.div_pos; lia|]. apply Z.div_lt_upper_bound; lia. }
    exists (S m). intros k acc. rewrite IHm. cbn [parse_digits]. rewrite Hd, Hv. f_equal.
    rewrite Nat2Z.inj_succ, Z.pow_succ_r by lia.
    pose proof (Z.div_mod n 10 ltac:(lia)). lia.
Qed.

Lemma parse_digits_of n : (0 <= n < 10 ^ 20)%Z -> parse_digits 0 (digits_of n) = Some n.
Proof.
  intros Hn. destruct (parse_digits_fuel 20 n) as [m Hm]; [lia|done|].
  unfold digits_of. rewrite Hm, Z.mul_0_l, Z.add_0_l. reflexivity.
Qed.

(** The first character of the digits is a digit. *)
Lemma digits_fuel_head fuel n c acc :
  (0 <= n)%Z -> is_digit c = true ->
  exists d t, digits_fuel fuel n (String c acc) = String d t /\ is_digit d = true.
Proof.
  revert n c acc. induction fuel as [|fuel IH]; intros n c acc Hn Hc; simpl; [eauto|].
  pose proof (Z.mod_pos_bound n 10 ltac:(lia)) as Hm.
  destruct (digit_char_value (n mod 10) Hm) as [Hd _].
  destruct (n <? 10)%Z; [eauto|]. apply IH; [apply Z.div_pos; lia|done].
Qed.

Lemma digits_of_head n :
  (0 <= n)%Z -> exists d t, digits_of n = String d t /\ is_digit d = true.
Proof.
  intros Hn. unfold digits_of. generalize 19 as f. intros f.
  pose proof (Z.mod_pos_bound n 10 ltac:(lia)) as Hm.
  destruct (digit_char_value (n mod 10) Hm) as [Hd _]. cbn [digits_fuel].
  destruct (n <? 10)%Z; [eauto|]. apply digits_fuel_head; [apply Z.div_pos; lia|done].
Qed.

Lemma digits_of_nonempty n : (0 <= n)%Z -> nonempty_digits (digits_of n) = parse_digits 0 (digits_of n).
Proof. intros Hn. by destruct (digits_of_head n Hn) as (d & t & -> & _). Qed.

Lemma parse_signed_digits n :
  (0 <= n)%Z -> parse_signed (digits_of n) = nonempty_digits (digits_of n).
Proof.
  intros Hn. destruct (digits_of_head n Hn) as (d & t & -> & Hd). unfold parse_signed.
  destruct d as [[] [] [] [] [] [] [] []]; try done; cbv in Hd; done.
Qed.

(** [s.to_string().parse::<i64>()] is the identity. *)
Lemma parse_i64_to_string z : in_i64 z = true -> parse_i64 (i64_to_string z) = Some z.
Proof.
  intros Hz. pose proof Hz as Hz'. unfold in_i64, i64_min, i64_max in Hz'.
  unfold parse_i64, i64_to_string. destruct (z <? 0)%Z eqn:E.
  - cbn [parse_signed]. rewrite digits_of_nonempty, parse_digits_of by lia. simpl.
    by rewrite Z.opp_involutive, Hz.
  - rewrite parse_signed_digits, digits_of_nonempty, parse_digits_of by lia. simpl.
    by rewrite Hz.
Qed.

(** *** Joining what was split *)

Lemma prefix_true_app p s : String.prefix p s = true -> exists t, s = p ^^ t.
Proof.
  revert s. induction p as [|c p IH]; intros s Hp; [by exists s|].
  destruct s as [|d s]; [done|]. simpl in Hp. destruct (ascii_dec c d) as [<-|]; [|done].
  destruct (IH s Hp) as [t ->]. by exists t.
Qed.

Lemma length_append s1 s2 : String.length (s1 ^^ s2) = String.length s1 + String.length s2.
Proof. induction s1; simpl; congruence. Qed.

Lemma join_split c sep s : join (String c sep) (split (String c sep) s) = s.
Proof.
  remember (String.length s) as n eqn:Hn. revert s Hn.
  induction (lt_wf n) as [n _ IH]. intros s ->.
  destruct s as [|d s]; [done|]. destruct (String.prefix (String c sep) (String d s)) eqn:E.
  - apply prefix_true_app in E as [t Ht]. rewrite Ht. rewrite split_sep.
    assert (Hj : join (String c sep) (split (String c sep) t) = t).
    { apply (IH (String.length t)); [|done]. rewrite Ht, length_append. simpl. lia. }
    destruct (split_go_nonempty (String c sep) 0 t) as (q & l & Hs).
    unfold split in *. rewrite Hs in *.
    change (join (String c sep) ("" :: q :: l)) with (String c sep ^^ join (String c sep) (q :: l)).
    by rewrite Hj.
  - unfold split. cbn [split_go]. rewrite E.
    destruct (split_go_nonempty (String c sep) 0 s) as (q & l & Hs). rewrite Hs. simpl cons_head.
    assert (join (String c sep) (q :: l) = s) as Hj.
    { rewrite <- Hs. apply (IH (String.length s)); [simpl; lia|done]. }
    destruct l; simpl in *; congruence.
Qed.

(** *** Trimming *)

Lemma trim_end_free c s : free_of c s = true -> trim_end_char c s = s.
Proof.
  unfold free_of. induction s as [|d s IH]; simpl; intros Hf; [done|].
  apply andb_true_iff in Hf as [Hd%negb_true_iff Hf]. rewrite IH by done.
  rewrite Ascii.eqb_sym, Hd. by destruct s.
Qed.

Lemma trim_end_snoc c s : trim_end_char c (s ^^ String c "") = trim_end_char c s.
Proof. induction s as [|d s IH]; simpl; [by rewrite Ascii.eqb_refl|]. by rewrite IH. Qed.
