(* ===== verification/Labels.v ===== *)
(** * Labels (src/src/armour-lang/src/labels.rs)

    A label is a sequence of nodes; [Any] and [RecAny] nodes make it a
    pattern.  [match_with] matches a pattern against a label and returns the
    bindings of its variables.  Equality of labels is matching both ways.

    The theorems: [match_with] always returns (the recursion through equality
    has depth two); it implements a declarative specification of matching;
    equality is an equivalence on labels whose recursive wildcards are final;
    printing and parsing are inverse. *)

From Stdlib Require Import ZArith Lia String Ascii List.
From stdpp Require Import base tactics list strings sets.
From S2P Require Import Prelude.
From S2P Require Import Ordered.
From S2P Require Import Strings.

Local Open Scope string_scope.
Local Open Scope list_scope.

(** ** Nodes *)

Inductive Node :=
| Any (s : string)
| RecAny (s : string)
| Str (s : string).

#[export] Instance Node_eq_dec : EqDecision Node.
Proof. solve_decision. Defined.

(** The derived [Ord]: variants in declaration order, then the string. *)
Definition node_rank (n : Node) : Z := match n with Any _ => 0 | RecAny _ => 1 | Str _ => 2 end.
Definition node_string (n : Node) : string := match n with Any s | RecAny s | Str s => s end.
#[export] Instance Node_ord : Ord Node := fun a b =>
  match cmp (node_rank a) (node_rank b) with
  | Eq => cmp (node_string a) (node_string b)
  | c => c
  end.

Definition Label := list Node.

Module Node.

Definition to_string (n : Node) : string :=
  match n with
  | Any s => if String.eqb s "" then "*" else "<" ^^ s ^^ ">"
  | RecAny s => if String.eqb s "" then "**" else "<<" ^^ s ^^ ">>"
  | Str s => s
  end.

(** [[:alnum:]]* followed by [close] and the end of the text. *)
Fixpoint alnums_then (close s : string) : bool :=
  String.eqb s close ||
  match s with EmptyString => false | String c s' => is_alnum c && alnums_then close s' end.

(** [[:alpha:]][[:alnum:]]* followed by [close]. *)
Definition ident_then (close s : string) : bool :=
  match s with EmptyString => false | String c s' => is_alpha c && alnums_then close s' end.

(** NODE_ANY: ^<[[:alpha:]][[:alnum:]]*>$ *)
Definition node_any (s : string) : bool :=
  match s with String "<" s' => ident_then ">" s' | _ => false end.

(** NODE_REC_ANY: ^<<[[:alpha:]][[:alnum:]]*>>$ *)
Definition node_rec_any (s : string) : bool :=
  match s with String "<" (String "<" s') => ident_then ">>" s' | _ => false end.

Definition is_separator (c : ascii) : bool :=
  Ascii.eqb c " " || Ascii.eqb c "_" || Ascii.eqb c "+" || Ascii.eqb c "-".

(** ([ _+-]?[[:alnum:]])*$ *)
Fixpoint node_str_tail (s : string) : bool :=
  match s with
  | EmptyString => true
  | String c s' =>
    if is_alnum c then node_str_tail s'
    else is_separator c &&
         match s' with EmptyString => false | String d s'' => is_alnum d && node_str_tail s'' end
  end.

(** NODE_STR: ^[[:alnum:]]([ _+-]?[[:alnum:]])*$ *)
Definition node_str (s : string) : bool :=
  match s with EmptyString => false | String c s' => is_alnum c && node_str_tail s' end.

Definition strip_brackets (s : string) : string :=
  trim_end_char ">" (trim_start_char "<" s).

Definition from_str (s : string) : result Node Error :=
  if String.eqb s "*" then Ok (Any "")
  else if String.eqb s "**" then Ok (RecAny "")
  else if node_any s then Ok (Any (strip_brackets s))
  else if node_rec_any s then Ok (RecAny (strip_brackets s))
  else if node_str s then Ok (Str s)
  else Err (mkError "bad label: {}" [s]).

Inductive MatchNode :=
| Mismatch
| Match_
| Map (x : string) (n : Node)
| MapRec (x : string) (n : Node).

Definition match_with (self l : Node) : MatchNode :=
  match self with
  | Str x =>
    match l with
    | Str y => if String.eqb x y then Match_ else Mismatch
    | _ => Mismatch
    end
  | Any x => if String.eqb x "" then Match_ else Map x l
  | RecAny x => if String.eqb x "" then Match_ else MapRec x l
  end.

Definition get_str (n : Node) : option string :=
  match n with Str s => Some s | _ => None end.

Definition get_any (n : Node) : option string :=
  match n with
  | Any s | RecAny s => if String.eqb s "" then None else Some s
  | Str _ => None
  end.
End Node.

(** ** Labels *)

(** [struct Match(BTreeMap<String, Label>)] *)
Definition Match := BTreeMap string Label.

Module Label.

Definition from_str (s : string) : result Label Error :=
  collect_results Node.from_str (split "::" s).

(** [TryFrom<Vec<T>>] *)
Definition try_from (v : list string) : result Label Error := collect_results Node.from_str v.

Definition to_string (l : Label) : string := join "::" (map Node.to_string l).

Definition concat (l1 l2 : Label) : Label := l1 ++ l2.
Definition prefix (l : Label) (s : string) : Label := Str s :: l.
Definition push (l : Label) (n : Node) : Label := l ++ [n].
Definition len (l : Label) : nat := length l.
Definition get (l : Label) (index : nat) : option Node := l !! index.
Definition get_string (l : Label) (index : nat) : option string :=
  match get l index with Some (Str s) => Some s | _ => None end.
Definition parts (l : Label) : option (list string) := mapM Node.get_str l.
Definition vars (l : Label) : list string := omap Node.get_any l.

Definition split_first (l : Label) : option (Label * option Label) :=
  match l with
  | [] => None
  | first :: rest => Some ([first], match rest with [] => None | _ => Some rest end)
  end.

(** The pattern, with its final recursive wildcard repeated up to the length
    of the label. *)
Definition expand (self l : Label) : Label :=
  match last self with
  | Some (RecAny y) => self ++ replicate (length l - length self) (RecAny y)
  | _ => self
  end.

(** The loop over the zipped nodes; [eq] is the equality of labels, [None]
    when it runs out of fuel. *)
Fixpoint match_loop (eq : Label -> Label -> option bool) (ps : list (Node * Node)) (m : Match)
    : option (option Match) :=
  match ps with
  | [] => Some (Some m)
  | (pat, node) :: ps' =>
    match Node.match_with pat node with
    | Node.Map x r =>
      let ll := [r] in
      match BTreeMap.get m x with
      | Some other =>
        match eq other ll with
        | None => None
        | Some true => match_loop eq ps' (BTreeMap.insert x ll m)
        | Some false => Some None
        end
      | None => match_loop eq ps' (BTreeMap.insert x ll m)
      end
    | Node.MapRec x r =>
      match BTreeMap.get m x with
      | None => match_loop eq ps' (BTreeMap.insert x [r] m)
      | Some ls => match_loop eq ps' (BTreeMap.insert x (push ls r) m)
      end
    | Node.Match_ => match_loop eq ps' m
    | Node.Mismatch => Some None
    end
  end.

(** [match_with]; equality is matching both ways, hence the fuel. *)
Fixpoint match_with_fuel (fuel : nat) (self l : Label) : option (option Match) :=
  match fuel with
  | O => None
  | S n =>
    let eq a b :=
      match match_with_fuel n a b with
      | None => None
      | Some None => Some false
      | Some (Some _) =>
        match match_with_fuel n b a with
        | None => None
        | Some r => Some (bool_decide (is_Some r))
        end
      end in
    let pattern := expand self l in
    if Nat.eqb (length pattern) (length l) then match_loop eq (combine pattern l) []
    else Some None
  end.

Definition match_with (self l : Label) : option Match :=
  match match_with_fuel 2 self l with Some r => r | None => None end.

Definition matches_with (self l : Label) : bool :=
  match match_with self l with Some _ => true | None => false end.

(** [PartialEq for Label] *)
Definition eqb (a b : Label) : bool := matches_with a b && matches_with b a.

(** [i64] arguments and results are in range by typing. *)
Definition login_time (t : Z) : Label := [Str "ControlPlane"; Str "LoginTime"; Str (i64_to_string t)].

Definition is_login_time (l : Label) : bool :=
  Nat.eqb (length l) 3 &&
  bool_decide (l !! 0 = Some (Str "ControlPlane")) &&
  bool_decide (l !! 1 = Some (Str "LoginTime")).

(** Indexing out of range panics, and so does [unwrap] on a failed parse. *)
Definition get_login_time (l : Label) : Outcome (option Z) :=
  if is_login_time l then
    n ← unwrap (l !! 3);
    match n with
    | Str s => Some <$> unwrap (parse_i64 s)
    | _ => mret None
    end
  else mret None.
End Label.



Module Match.
Definition get_label (m : Match) (s : string) : option Label := BTreeMap.get m s.
Definition get (m : Match) (s : string) : option string := Label.to_string <$> get_label m s.
(** [From<&Match> for Vec<(String, String)>] *)
Definition to_vec (m : Match) : list (string * string) :=
  map (fun kv => (kv.1, Label.to_string kv.2)) m.
Definition to_string (m : Match) : string :=
  join "; " (map (fun kv => "<" ^^ kv.1 ^^ "> |-> " ^^ Label.to_string kv.2) m).
End Match.

(** [type Labels = BTreeSet<Label>], ordered by the derived [Ord]. *)
Definition Labels := BTreeSet Label.

(** ** Order *)

#[export] Instance Node_ord_laws : OrdLaws Node.
Proof.
  split; unfold cmp at 1, Node_ord.
  - intros x y. destruct x, y; simpl; try done; rewrite cmp_eq_iff; naive_solver.
  - intros x y. unfold cmp at 3. destruct x, y; simpl; try done; apply cmp_antisym.
  - intros x y z. unfold cmp at 3 5. destruct x, y, z; simpl; try done; apply (cmp_lt_trans (A:=string)).
Qed.

(** ** Matching terminates *)

Section termination.
Implicit Types (p l : Label) (m : Match).
Notation eq_of n := (fun a b : Label =>
  match Label.match_with_fuel n a b with
  | None => None
  | Some None => Some false
  | Some (Some _) =>
    match Label.match_with_fuel n b a with
    | None => None
    | Some r => Some (bool_decide (is_Some r))
    end
  end).

Lemma match_with_fuel_S n p l :
  Label.match_with_fuel (S n) p l =
  if Nat.eqb (length (Label.expand p l)) (length l)
  then Label.match_loop (eq_of n) (combine (Label.expand p l) l) []
  else Some None.
Proof. done. Qed.

Definition is_rec (n : Node) : bool := match n with RecAny _ => true | _ => false end.

(** Recursive wildcards never compare labels, and never fail. *)
Lemma match_loop_rec eq eq' ps m :
  Forall (fun a => is_rec a.1 = true) ps ->
  exists m', Label.match_loop eq ps m = Some (Some m') /\ Label.match_loop eq' ps m = Some (Some m').
Proof.
  intros Hps. revert m. induction Hps as [|[a n] ps Ha _ IH]; intros m; [simpl; eauto|].
  destruct a as [|y|]; try done. simpl. destruct (String.eqb y ""); [apply IH|].
  destruct (BTreeMap.get m y); apply IH.
Qed.

(** A single comparison happens on an empty map. *)
Lemma match_loop_single eq eq' a n :
  Label.match_loop eq [(a, n)] [] = Label.match_loop eq' [(a, n)] [] /\
  Label.match_loop eq [(a, n)] [] <> None.
Proof. simpl. destruct (Node.match_with a n); simpl; done. Qed.

Lemma combine_replicate_rec k y l :
  Forall (fun a : Node * Node => is_rec a.1 = true) (combine (replicate k (RecAny y)) l).
Proof. revert l. induction k; intros [|? ?]; simpl; constructor; auto. Qed.

(** Comparing with a one-node label needs no comparison. *)
Lemma match_one_r n n' p r :
  Label.match_with_fuel (S n) p [r] = Label.match_with_fuel (S n') p [r] /\
  Label.match_with_fuel (S n) p [r] <> None.
Proof.
  rewrite !match_with_fuel_S. destruct (Nat.eqb_spec (length (Label.expand p [r])) (length [r])) as [E|];
    [|done].
  destruct (Label.expand p [r]) as [|a [|]]; try done. apply match_loop_single.
Qed.

Lemma match_one_l n n' r l :
  Label.match_with_fuel (S n) [r] l = Label.match_with_fuel (S n') [r] l /\
  Label.match_with_fuel (S n) [r] l <> None.
Proof.
  rewrite !match_with_fuel_S. destruct (Nat.eqb_spec (length (Label.expand [r] l)) (length l)) as [E|];
    [|done].
  destruct r as [s|y|s];
    [destruct l as [|? [|]]; try done; apply match_loop_single| |
     destruct l as [|? [|]]; try done; apply match_loop_single].
  change (Label.expand [RecAny y] l) with (replicate (S (length l - 1)) (RecAny y)).
  destruct (match_loop_rec (eq_of n) (eq_of n') _ []
              (combine_replicate_rec (S (length l - 1)) y l)) as (m & H1 & H2).
  by rewrite H1, H2.
Qed.

(** The comparisons made by the loop are with one-node labels. *)
Lemma match_loop_ext eq eq' ps m :
  (forall a r, eq a [r] = eq' a [r] /\ eq a [r] <> None) ->
  Label.match_loop eq ps m = Label.match_loop eq' ps m /\ Label.match_loop eq ps m <> None.
Proof.
  intros Heq. revert m. induction ps as [|[a n] ps IH]; intros m; [done|]. simpl.
  destruct (Node.match_with a n) as [| |x r|x r]; [done|apply IH| |].
  - destruct (BTreeMap.get m x) as [o|]; [|apply IH].
    destruct (Heq o r) as [<- Hne]. destruct (eq o [r]) as [[]|]; [apply IH|done|done].
  - destruct (BTreeMap.get m x); apply IH.
Qed.

Lemma eq_of_one n n' a r :
  eq_of (S n) a [r] = eq_of (S n') a [r] /\ eq_of (S n) a [r] <> None.
Proof.
  destruct (match_one_r n n' a r) as [<- H1]. destruct (match_one_l n n' r a) as [<- H2].
  destruct (Label.match_with_fuel (S n) a [r]) as [[|]|], (Label.match_with_fuel (S n) [r] a); done.
Qed.

(** Two levels of recursion are enough. *)
Lemma match_with_fuel_enough n p l :
  Label.match_with_fuel (S (S n)) p l = Some (Label.match_with p l).
Proof.
  unfold Label.match_with. rewrite (match_with_fuel_S 1), (match_with_fuel_S (S n)).
  destruct (Nat.eqb _ _); [|done].
  destruct (match_loop_ext (eq_of (S n)) (eq_of 1) (combine (Label.expand p l) l) []) as [<- H].
  - intros a r. apply eq_of_one.
  - by destruct (Label.match_loop _ _ _).
Qed.

(** The recursive equation of [match_with], without fuel. *)
Lemma match_with_unfold p l :
  Some (Label.match_with p l) =
  if Nat.eqb (length (Label.expand p l)) (length l)
  then Label.match_loop (fun a b => Some (Label.eqb a b)) (combine (Label.expand p l) l) []
  else Some None.
Proof.
  rewrite <- (match_with_fuel_enough 1), match_with_fuel_S. destruct (Nat.eqb _ _); [|done].
  apply match_loop_ext. intros a r. unfold Label.eqb, Label.matches_with.
  rewrite !(match_with_fuel_enough 0). by destruct (Label.match_with a [r]), (Label.match_with [r] a).
Qed.
End termination.

(** ** Specification of matching *)

(** The nodes a pattern node accepts. *)
Definition accepts (pat node : Node) : Prop :=
  match pat with Str x => node = Str x | _ => True end.

(** Equivalence of nodes: the same text, or two wildcards of any kind. *)
Definition node_eqv (a b : Node) : Prop :=
  match a, b with
  | Str x, Str y => x = y
  | Str _, _ | _, Str _ => False
  | _, _ => True
  end.

#[export] Instance node_eqv_equivalence : Equivalence node_eqv.
Proof.
  split; [intros []; done|intros [] []; simpl; done|].
  intros [] [] []; simpl; try done. congruence.
Qed.

Definition ends_rec (p : Label) : bool :=
  match last p with Some (RecAny _) => true | _ => false end.

(** Recursive wildcards only at the end, as the comment in the source asks. *)
Fixpoint rec_final (p : Label) : bool :=
  match p with
  | [] => true
  | a :: p' => match p' with [] => true | _ => negb (is_rec a) && rec_final p' end
  end.

(** [p] matches [l]: the lengths agree, up to the final recursive wildcard;
    every node is accepted; nodes bound to one variable are equivalent. *)
Record Matches (p l : Label) : Prop := {
  matches_length : length p = length l \/ (ends_rec p = true /\ length p < length l);
  matches_accepts : forall a n, (a, n) ∈ combine p l -> accepts a n;
  matches_consistent : forall x n n', x <> "" ->
    (Any x, n) ∈ combine p l -> (Any x, n') ∈ combine p l -> node_eqv n n';
}.

Section spec.
Implicit Types (p l : Label) (m : Match) (ps : list (Node * Node)).

Notation loop := (Label.match_loop (fun a b => Some (Label.eqb a b))).

(** Comparing two one-node labels. *)
Lemma eqb_one a b : Label.eqb [a] [b] = true <-> node_eqv a b.
Proof.
  unfold Label.eqb, Label.matches_with, Label.match_with.
  destruct a as [x|x|x], b as [y|y|y]; simpl;
    repeat match goal with
    | |- context [String.eqb ?u ?v] => destruct (String.eqb_spec u v); simpl
    end; split; congruence || done.
Qed.

(** The bindings made so far hold one node each. *)
Definition singles m : Prop := forall x ls, BTreeMap.get m x = Some ls -> exists n, ls = [n].

Lemma singles_insert x n m : BTreeMap.wf m -> singles m -> singles (BTreeMap.insert x [n] m).
Proof.
  intros Hwf Hm y ls. rewrite BTreeMap.get_insert by done.
  destruct (cmp y x); [|apply Hm..]. intros; simplify_eq; eauto.
Qed.

(** What the rest of the loop requires of the bindings made so far. *)
Definition compatible ps m : Prop := forall x n o, x <> "" ->
  (Any x, n) ∈ ps -> BTreeMap.get m x = Some [o] -> node_eqv o n.

Definition consistent ps : Prop := forall x n n', x <> "" ->
  (Any x, n) ∈ ps -> (Any x, n') ∈ ps -> node_eqv n n'.

Lemma consistent_cons x n ps m :
  BTreeMap.wf m -> x <> "" ->
  (forall o, BTreeMap.get m x = Some [o] -> node_eqv o n) ->
  consistent ps /\ compatible ps (BTreeMap.insert x [n] m) <->
  consistent ((Any x, n) :: ps) /\ compatible ((Any x, n) :: ps) m.
Proof.
  intros Hwf Hx Hn. unfold consistent, compatible.
  assert (forall y o, BTreeMap.get (BTreeMap.insert x [n] m) y = Some [o] ->
            y = x /\ o = n \/ y <> x /\ BTreeMap.get m y = Some [o]) as Hget.
  { intros y o. destruct (decide (y = x)) as [->|Hne].
    - rewrite BTreeMap.get_insert_eq. intros; simplify_eq; auto.
    - rewrite BTreeMap.get_insert_ne by done. auto. }
  split.
  - intros [Hc Hb].
    assert (forall k, (Any x, k) ∈ ps -> node_eqv n k) as Hxk.
    { intros k Hk. apply (Hb x k n); [done..|]. apply BTreeMap.get_insert_eq. }
    split.
    + intros y k k' Hy Hk Hk'.
      rewrite !elem_of_cons in Hk, Hk'. destruct Hk as [?|Hk], Hk' as [?|Hk']; simplify_eq.
      * done.
      * by apply Hxk.
      * symmetry. by apply Hxk.
      * by apply (Hc y).
    + intros y k o Hy Hk Ho. rewrite elem_of_cons in Hk. destruct Hk as [?|Hk]; simplify_eq; [auto|].
      destruct (decide (y = x)) as [->|Hne]; [|apply (Hb y k o); [done..|]].
      * transitivity n; [by apply Hn|by apply Hxk].
      * by rewrite BTreeMap.get_insert_ne.
  - intros [Hc Hb]. split.
    + intros y k k' Hy Hk Hk'. apply (Hc y); [done|by apply elem_of_cons; right..].
    + intros y k o Hy Hk Ho. destruct (Hget _ _ Ho) as [[-> ->]|[Hne Ho']].
      * apply (Hc x); [done|apply elem_of_cons; by left|apply elem_of_cons; by right].
      * apply (Hb y k o); [done|by apply elem_of_cons; right|done].
Qed.

(** The loop on nodes before the recursive wildcards, then on these. *)
Lemma match_loop_spec ps rs m :
  BTreeMap.wf m -> singles m ->
  Forall (fun a => is_rec a.1 = false) ps -> Forall (fun a => is_rec a.1 = true) rs ->
  is_Some (loop (ps ++ rs) m ≫= id) <->
  (forall a n, (a, n) ∈ ps -> accepts a n) /\ consistent ps /\ compatible ps m.
Proof.
  intros Hwf Hm Hps Hrs. revert m Hwf Hm.
  induction Hps as [|[a n] ps Ha Hps IH]; intros m Hwf Hm.
  - destruct (match_loop_rec (fun a b => Some (Label.eqb a b)) (fun _ _ => None) rs m Hrs)
      as (m' & Hm' & _). simpl app. rewrite Hm'. simpl.
    split; [|eauto]. intros _. unfold consistent, compatible. set_solver.
  - assert (Hskip : forall b, (forall x, b = Any x -> x = "") ->
      consistent ((b, n) :: ps) /\ compatible ((b, n) :: ps) m <-> consistent ps /\ compatible ps m).
    { intros b Hb. unfold consistent, compatible. split.
      - intros [H1 H2]. split; intros; [eapply H1|eapply H2]; eauto; by apply elem_of_cons; right.
      - intros [H1 H2]. split; intros y k k' Hy Hk; rewrite elem_of_cons in Hk;
          (destruct Hk as [?|Hk]; [simplify_eq; by destruct Hy; apply Hb|]).
        + rewrite elem_of_cons. intros [?|Hk']; [simplify_eq; by destruct Hy; apply Hb|].
          by apply (H1 y).
        + by apply (H2 y). }
    assert (Hacc : forall b, accepts b n ->
      (forall a0 n0, (a0, n0) ∈ (b, n) :: ps -> accepts a0 n0) <->
      (forall a0 n0, (a0, n0) ∈ ps -> accepts a0 n0)).
    { intros b Hb. split; [set_solver|]. intros Hall a0 n0 [?|?]%elem_of_cons; simplify_eq; auto. }
    destruct a as [x|x|x]; [|done|]; simpl app; cbn [Label.match_loop Node.match_with].
    + destruct (String.eqb_spec x "") as [->|Hx].
      { rewrite IH by done. rewrite Hacc by done. by rewrite <- (Hskip (Any "")) by congruence. }
      rewrite Hacc by done.
      destruct (BTreeMap.get m x) as [ls|] eqn:E.
      * destruct (Hm x ls E) as [o ->]. destruct (Label.eqb [o] [n]) eqn:Eo.
        -- apply eqb_one in Eo. rewrite IH by first [by apply BTreeMap.wf_insert | by apply singles_insert].
           rewrite consistent_cons; [done..|]. intros; simplify_eq; by transitivity o.
        -- split; [by intros []|]. intros (_ & _ & Hc). apply not_true_iff_false in Eo. destruct Eo.
           apply eqb_one, (Hc x n o); [done|by apply elem_of_cons; left|done].
      * rewrite IH by first [by apply BTreeMap.wf_insert | by apply singles_insert].
        rewrite consistent_cons; [done..|]. intros; simplify_eq.
    + destruct n as [y|y|y];
        [split; [by intros []|intros [Hf _]; by specialize (Hf (Str x) _ (list_elem_of_here _ _))]..|].
      destruct (String.eqb_spec x y) as [->|Hne].
      * rewrite IH by done. rewrite Hacc by done. by rewrite <- (Hskip (Str y)) by congruence.
      * split; [by intros []|]. intros [Hf _]. specialize (Hf (Str x) (Str y) (list_elem_of_here _ _)).
        simpl in Hf. congruence.
Qed.

Lemma combine_app {A B} (l1 l2 : list A) (r : list B) :
  combine (l1 ++ l2) r = combine l1 (take (length l1) r) ++ combine l2 (drop (length l1) r).
Proof.
  revert r. induction l1 as [|x l1 IH]; intros r; simpl; [by rewrite drop_0|].
  destruct r as [|y r]; simpl; [by destruct l2|]. by rewrite IH.
Qed.

Lemma combine_fst_Forall {A B} (P : A -> Prop) (l : list A) (r : list B) :
  Forall P l -> Forall (fun a => P a.1) (combine l r).
Proof. intros Hl. revert r. induction Hl; intros [|? ?]; simpl; constructor; auto. Qed.

(** A pattern is a sequence of plain nodes with at most one recursive
    wildcard after it. *)
Lemma rec_final_split p :
  rec_final p = true ->
  Forall (fun a => is_rec a = false) p /\ ends_rec p = false \/
  exists q y, p = q ++ [RecAny y] /\ Forall (fun a => is_rec a = false) q.
Proof.
  induction p as [|a p IH]; intros Hp; [by left|].
  destruct p as [|b p].
  - destruct a as [x|x|x]; [left; by repeat constructor| |left; by repeat constructor].
    right. by exists [], x.
  - cbn [rec_final] in Hp. apply andb_true_iff in Hp as [Ha Hp].
    apply negb_true_iff in Ha.
    destruct (IH Hp) as [[Hf He]|(q & y & Hq & Hf)].
    + left. split; [by constructor|]. done.
    + right. exists (a :: q), y. split; [by rewrite Hq|by constructor].
Qed.

Lemma matches_with_loop p l :
  Label.matches_with p l = true <->
  length (Label.expand p l) = length l /\ is_Some (loop (combine (Label.expand p l) l) [] ≫= id).
Proof.
  unfold Label.matches_with. pose proof (match_with_unfold p l) as Hm.
  destruct (Nat.eqb_spec (length (Label.expand p l)) (length l)) as [E|E].
  - rewrite <- Hm. simpl. destruct (Label.match_with p l); simpl; split; [eauto|done|done|by intros [_ []]].
  - simplify_eq. rewrite Hm. split; [done|]. by intros [? _].
Qed.

Lemma compatible_nil ps : compatible ps [].
Proof. intros x n o _ _ H. simplify_eq. Qed.

Lemma singles_nil : singles [].
Proof. intros x ls H. simplify_eq. Qed.

Ltac loop_side := first
  [ apply BTreeMap.wf_nil | apply singles_nil | by apply (combine_fst_Forall (fun a => is_rec a = false))
  | apply combine_replicate_rec | by constructor ].

Lemma matches_plain p l :
  Forall (fun a => is_rec a = false) p -> ends_rec p = false ->
  Label.matches_with p l = true <-> Matches p l.
Proof.
  intros Hp He. rewrite matches_with_loop.
  assert (Label.expand p l = p) as ->.
  { unfold Label.expand. unfold ends_rec in He. by destruct (last p) as [[]|]. }
  rewrite <- (app_nil_r (combine p l)), match_loop_spec by loop_side.
  split.
  - intros (Hl & Ha & Hc & _). split; [by left|done|done].
  - intros [Hl Ha Hc]. split_and!; [|done|done|apply compatible_nil].
    destruct Hl as [|[Hl _]]; [done|]. by rewrite He in Hl.
Qed.

Lemma matches_rec q y l :
  Forall (fun a => is_rec a = false) q ->
  Label.matches_with (q ++ [RecAny y]) l = true <-> Matches (q ++ [RecAny y]) l.
Proof.
  intros Hq. rewrite matches_with_loop.
  assert (Label.expand (q ++ [RecAny y]) l =
          q ++ replicate (S (length l - length (q ++ [RecAny y]))) (RecAny y)) as ->.
  { unfold Label.expand. rewrite last_snoc. by rewrite <- app_assoc. }
  rewrite combine_app, match_loop_spec by loop_side.
  rewrite !length_app, length_replicate. simpl length.
  assert (Hin : forall a n, (a, n) ∈ combine (q ++ [RecAny y]) l <->
            (a, n) ∈ combine q (take (length q) l) \/
            a = RecAny y /\ exists l', drop (length q) l = n :: l').
  { intros a n. rewrite combine_app, elem_of_app. apply or_iff_compat_l.
    destruct (drop (length q) l) as [|n' l']; simpl; [|destruct l'; rewrite list_elem_of_singleton; naive_solver].
    split; [set_solver|]. by intros (_ & ? & ?). }
  split.
  - intros (Hl & Ha & Hc & _). split.
    + rewrite length_app. simpl. destruct (decide (length q + 1 = length l)); [by left|right].
      split; [unfold ends_rec; by rewrite last_snoc|lia].
    + intros a n [Hn|[-> _]]%Hin; [by apply Ha|done].
    + intros x n n' Hx [Hn|[? _]]%Hin [Hn'|[? _]]%Hin; simplify_eq. by apply (Hc x).
  - intros [Hl Ha Hc]. rewrite length_app in Hl. simpl in Hl. split_and!; [lia| | |apply compatible_nil].
    + intros a n Hn. apply Ha, Hin. by left.
    + intros x n n' Hx Hn Hn'. apply (Hc x); [done|apply Hin; by left..].
Qed.

(** [match_with] implements the declarative specification. *)
Lemma matches_with_Matches p l :
  rec_final p = true -> Label.matches_with p l = true <-> Matches p l.
Proof.
  intros [[Hf He]|(q & y & -> & Hf)]%rec_final_split; [by apply matches_plain|by apply matches_rec].
Qed.

(** ** Equality *)

Lemma elem_combine {A B} (l : list A) (r : list B) x y :
  (x, y) ∈ combine l r <-> exists i, l !! i = Some x /\ r !! i = Some y.
Proof.
  revert r. induction l as [|a l IH]; intros [|b r]; simpl.
  - split; [set_solver|]. intros (i & ? & ?); simplify_eq.
  - split; [set_solver|]. intros (i & ? & ?); simplify_eq.
  - split; [set_solver|]. intros (i & ? & ?); simplify_eq.
  - rewrite elem_of_cons, IH. split.
    + intros [?|(i & ? & ?)]; simplify_eq; [by exists 0|by exists (S i)].
    + intros ([|i] & ? & ?); simplify_eq/=; [by left|right; eauto].
Qed.

Lemma node_eqv_accepts a b : accepts a b -> accepts b a -> node_eqv a b.
Proof. destruct a, b; simpl; try done; congruence. Qed.

Lemma eqb_Forall2 (a b : list Node) :
  rec_final a = true -> rec_final b = true ->
  Label.eqb a b = true <-> Forall2 node_eqv a b.
Proof.
  intros Ha Hb. unfold Label.eqb. rewrite andb_true_iff, !matches_with_Matches by done.
  rewrite Forall2_lookup. split.
  - intros [[Hl1 Ha1 _] [Hl2 Ha2 _]] i.
    assert (length a = length b) as Hlen by (destruct Hl1 as [|[]], Hl2 as [|[]]; lia).
    destruct (a !! i) as [n|] eqn:Ea.
    + destruct (lookup_lt_is_Some_2 b i) as [n' En'].
      { rewrite <- Hlen. by eapply lookup_lt_Some. }
      rewrite En'. constructor. apply node_eqv_accepts; [apply Ha1|apply Ha2]; apply elem_combine; eauto.
    + apply lookup_ge_None in Ea. rewrite Hlen in Ea. apply lookup_ge_None in Ea as ->. constructor.
  - intros H. assert (Forall2 node_eqv a b) as HF by (by apply Forall2_lookup).
    pose proof (Forall2_length _ _ _ HF) as Hlen.
    assert (Hacc : forall x y, node_eqv x y -> accepts x y /\ accepts y x).
    { intros [] []; simpl; try done. by intros ->. }
    assert (Hpair : forall i x y, a !! i = Some x -> b !! i = Some y -> node_eqv x y).
    { intros i x y Hx Hy. specialize (H i). rewrite Hx, Hy in H. by inversion H. }
    assert (Hcons : forall x y z, node_eqv (Any x) y -> node_eqv (Any x) z -> node_eqv y z).
    { intros x [] []; simpl; done. }
    split; (split; [by left| |]).
    + intros x y (i & ? & ?)%elem_combine. apply (Hacc x y). by apply (Hpair i).
    + intros x y z _ (i & ? & ?)%elem_combine (j & ? & ?)%elem_combine.
      apply (Hcons x); [by apply (Hpair i)|by apply (Hpair j)].
    + intros x y (i & ? & ?)%elem_combine. apply (Hacc y x). by apply (Hpair i).
    + intros x y z _ (i & ? & ?)%elem_combine (j & ? & ?)%elem_combine.
      apply (Hcons x); symmetry; [by apply (Hpair i)|by apply (Hpair j)].
Qed.
End spec.

(** ** Printing and parsing *)

Definition is_ident (s : string) : bool :=
  match s with EmptyString => false | String c s' => is_alpha c && forall_chars is_alnum s' end.

(** The nodes that [Node::from_str] builds. *)
Definition valid_node (n : Node) : bool :=
  match n with
  | Any s | RecAny s => String.eqb s "" || is_ident s
  | Str s => Node.node_str s
  end.

Section roundtrip.
Lemma alnums_then_spec close s :
  Node.alnums_then close s = true <-> exists t, s = t ^^ close /\ forall_chars is_alnum t = true.
Proof.
  induction s as [|c s IH].
  - cbn [Node.alnums_then]. rewrite orb_false_r, String.eqb_eq. split.
    + intros <-. by exists "".
    + intros ([|d t] & Ht & _); [done|discriminate].
  - cbn [Node.alnums_then]. rewrite orb_true_iff, andb_true_iff, String.eqb_eq, IH. split.
    + intros [<-|(Hc & t & -> & Ht)]; [by exists ""|]. exists (String c t). simpl. by rewrite Hc, Ht.
    + intros ([|d t] & Heq & Ht); simpl in *; [by left|right]. simplify_eq.
      apply andb_true_iff in Ht as [??]. eauto.
Qed.

Lemma ident_then_spec close s :
  Node.ident_then close s = true <-> exists t, s = t ^^ close /\ is_ident t = true /\ t <> "".
Proof.
  unfold Node.ident_then. destruct s as [|c s].
  - split; [done|]. by intros ([|d t] & ? & ? & ?).
  - rewrite andb_true_iff, alnums_then_spec. split.
    + intros (Hc & t & -> & Ht). exists (String c t). simpl. by rewrite Hc, Ht.
    + intros ([|d t] & Heq & Hi & ?); [done|]. simpl in *. simplify_eq.
      apply andb_true_iff in Hi as [??]. eauto.
Qed.

(** Alphanumeric characters are no punctuation. *)
Lemma alnum_not (c d : ascii) : is_alnum c = true -> is_alnum d = false -> negb (Ascii.eqb c d) = true.
Proof. intros Hc Hd. apply negb_true_iff, Ascii.eqb_neq. congruence. Qed.

Lemma is_ident_alnum t : is_ident t = true -> forall_chars is_alnum t = true.
Proof.
  destruct t as [|c t]; [done|]. cbn [is_ident forall_chars]. rewrite !andb_true_iff.
  intros [Hc ?]. unfold is_alnum at 1. by rewrite Hc.
Qed.

Lemma is_ident_free c t : is_ident t = true -> is_alnum c = false -> free_of c t = true.
Proof.
  intros Ht Hc. eapply forall_chars_impl; [|by apply is_ident_alnum]. intros d Hd. by apply alnum_not.
Qed.

Lemma trim_start_ident t u : is_ident t = true -> trim_start_char "<" (t ^^ u) = t ^^ u.
Proof.
  destruct t as [|c t]; [done|]. cbn [is_ident String.append trim_start_char].
  rewrite andb_true_iff. intros [Hc _]. destruct (Ascii.eqb_spec "<" c) as [<-|]; done.
Qed.

Lemma strip_any t : is_ident t = true -> Node.strip_brackets ("<" ^^ t ^^ ">") = t.
Proof.
  intros Ht. unfold Node.strip_brackets. simpl. rewrite trim_start_ident by done.
  rewrite trim_end_snoc. by apply trim_end_free, is_ident_free.
Qed.

Lemma strip_rec_any t : is_ident t = true -> Node.strip_brackets ("<<" ^^ t ^^ ">>") = t.
Proof.
  intros Ht. unfold Node.strip_brackets. simpl. rewrite trim_start_ident by done.
  change ">>"%string with (">" ^^ ">")%string. rewrite <- append_assoc, !trim_end_snoc.
  by apply trim_end_free, is_ident_free.
Qed.

Lemma node_str_head s : Node.node_str s = true -> exists c s', s = String c s' /\ is_alnum c = true.
Proof. destruct s as [|c s]; [done|]. simpl. rewrite andb_true_iff. intros []. eauto. Qed.

(** [Node::from_str] reads back what [Display] writes. *)
Lemma node_from_to_string n : valid_node n = true -> Node.from_str (Node.to_string n) = Ok n.
Proof.
  destruct n as [s|s|s]; cbn [valid_node Node.to_string]; intros Hv.
  - destruct (String.eqb_spec s "") as [E|Hs]; [by subst s|]. simpl in Hv.
    unfold Node.from_str. rewrite (strip_any s) by done.
    assert (Node.node_any ("<" ^^ s ^^ ">") = true) as ->; [|done].
    apply ident_then_spec. eauto.
  - destruct (String.eqb_spec s "") as [E|Hs]; [by subst s|]. simpl in Hv.
    unfold Node.from_str. rewrite (strip_rec_any s) by done.
    assert (Node.node_rec_any ("<<" ^^ s ^^ ">>") = true) as ->; [|done].
    apply ident_then_spec. eauto.
  - destruct (node_str_head s Hv) as (c & s' & -> & Hc). unfold Node.from_str.
    destruct (String.eqb_spec (String c s') "*") as [|_]; [by simplify_eq|].
    destruct (String.eqb_spec (String c s') "**") as [|_]; [by simplify_eq|].
    assert (Node.node_any (String c s') = false) as ->
      by (destruct c as [[] [] [] [] [] [] [] []]; done).
    assert (Node.node_rec_any (String c s') = false) as ->
      by (destruct c as [[] [] [] [] [] [] [] []]; done).
    by rewrite Hv.
Qed.

Lemma node_to_from_string s n :
  Node.from_str s = Ok n -> Node.to_string n = s /\ valid_node n = true.
Proof.
  unfold Node.from_str.
  destruct (String.eqb_spec s "*") as [->|_]; [by intros [= <-]|].
  destruct (String.eqb_spec s "**") as [->|_]; [by intros [= <-]|].
  destruct (Node.node_any s) eqn:Ea.
  { intros [= <-].
    assert (exists t, s = "<" ^^ t ^^ ">" /\ is_ident t = true /\ t <> "")%string as (t & -> & Ht & Hne).
    { destruct s as [|c s]; [done|].
      assert (c = "<"%char) as -> by (destruct c as [[] [] [] [] [] [] [] []]; done).
      apply ident_then_spec in Ea as (t & -> & ?). by exists t. }
    rewrite strip_any by done. simpl. destruct (String.eqb_spec t ""); done. }
  destruct (Node.node_rec_any s) eqn:Er.
  { intros [= <-].
    assert (exists t, s = "<<" ^^ t ^^ ">>" /\ is_ident t = true /\ t <> "")%string as (t & -> & Ht & Hne).
    { destruct s as [|c [|d s]]; [done|by destruct c as [[] [] [] [] [] [] [] []]|].
      assert (c = "<"%char) as -> by (destruct c as [[] [] [] [] [] [] [] []]; done).
      assert (d = "<"%char) as -> by (destruct d as [[] [] [] [] [] [] [] []]; done).
      apply ident_then_spec in Er as (t & -> & ?). by exists t. }
    rewrite strip_rec_any by done. simpl. destruct (String.eqb_spec t ""); done. }
  destruct (Node.node_str s) eqn:Es; [|done]. by intros [= <-].
Qed.

Lemma node_str_tail_colon s : Node.node_str_tail s = true -> free_of ":" s = true.
Proof.
  remember (String.length s) as n eqn:Hn. revert s Hn.
  induction (lt_wf n) as [n _ IH]. intros s ->.
  destruct s as [|c s]; [done|]. cbn [Node.node_str_tail]. intros Hs.
  unfold free_of. cbn [forall_chars].
  destruct (is_alnum c) eqn:Ec.
  - rewrite alnum_not by done. apply (IH (String.length s)); [simpl; lia|done|done].
  - apply andb_true_iff in Hs as [Hc Hs]. destruct s as [|d s]; [done|].
    apply andb_true_iff in Hs as [Hd Hs]. cbn [forall_chars]. rewrite (alnum_not d) by done.
    assert (negb (Ascii.eqb c ":") = true) as ->.
    { apply negb_true_iff, Ascii.eqb_neq. intros ->. done. }
    apply (IH (String.length s)); [simpl; lia|done|done].
Qed.

Lemma node_to_string_colon n : valid_node n = true -> free_of ":" (Node.to_string n) = true.
Proof.
  unfold free_of. destruct n as [s|s|s]; cbn [valid_node Node.to_string]; intros Hv.
  - destruct (String.eqb_spec s "") as [E|Hs]; [by subst s|]. simpl in Hv. rewrite !forall_chars_append.
    by rewrite (is_ident_free ":" s Hv eq_refl : forall_chars _ s = true).
  - destruct (String.eqb_spec s "") as [E|Hs]; [by subst s|]. simpl in Hv. rewrite !forall_chars_append.
    by rewrite (is_ident_free ":" s Hv eq_refl : forall_chars _ s = true).
  - destruct s as [|c s]; [done|]. cbn [Node.node_str] in Hv. apply andb_true_iff in Hv as [Hc Hs].
    cbn [forall_chars]. rewrite alnum_not by done. by apply node_str_tail_colon.
Qed.

Lemma label_from_to_string l :
  l <> [] -> Forall (fun n => valid_node n = true) l -> Label.from_str (Label.to_string l) = Ok l.
Proof.
  intros Hne Hl. unfold Label.from_str, Label.to_string. rewrite split_join.
  - apply collect_results_ok. apply Forall2_fmap_l. apply Forall_Forall2_diag.
    eapply Forall_impl; [exact Hl|]. apply node_from_to_string.
  - by destruct l.
  - apply Forall_fmap. eapply Forall_impl; [exact Hl|]. apply node_to_string_colon.
Qed.

Lemma label_to_from_string s l :
  Label.from_str s = Ok l ->
  Label.to_string l = s /\ l <> [] /\ Forall (fun n => valid_node n = true) l.
Proof.
  unfold Label.from_str, Label.to_string. intros H%collect_results_ok.
  assert (map Node.to_string l = split "::" s /\ Forall (fun n => valid_node n = true) l) as [Hm Hv].
  { induction H as [|p n ps ns Hp _ [IH1 IH2]]; [by split; [|constructor]|]. simpl.
    apply node_to_from_string in Hp as [-> ?]. rewrite IH1. split; [done|by constructor]. }
  rewrite Hm, join_split. split_and!; [done| |done].
  destruct (split_go_nonempty "::" 0 s) as (q & r & Hs). unfold split in Hm. rewrite Hs in Hm.
  intros ->. done.
Qed.
End roundtrip.

(** ** Bindings *)

Section bindings.
Implicit Types (p l : Label) (m : Match) (ps : list (Node * Node)).

(** The name a pattern node binds. *)
Definition binds (a : Node) (x : string) : bool :=
  match a with Any y | RecAny y => String.eqb x y && negb (String.eqb x "") | Str _ => false end.

Lemma loop_absent eq ps m m' x :
  BTreeMap.wf m -> Label.match_loop eq ps m = Some (Some m') ->
  Forall (fun a => binds a.1 x = false) ps ->
  BTreeMap.get m' x = BTreeMap.get m x.
Proof.
  intros Hwf Hl Hf. revert m Hwf Hl.
  induction Hf as [|[a n] ps Ha _ IH]; intros m Hwf Hl; simpl in *; simplify_eq; [done|].
  assert (Hne : forall y ls, (a = Any y \/ a = RecAny y) -> y <> "" ->
            BTreeMap.get (BTreeMap.insert y ls m) x = BTreeMap.get m x).
  { intros y ls Hy Hy0. apply BTreeMap.get_insert_ne; [done|]. intros ->.
    destruct Hy as [-> | ->]; simpl in Ha; rewrite String.eqb_refl in Ha;
      by destruct (String.eqb_spec x ""). }
  destruct a as [y|y|y]; simpl in Hl.
  - destruct (String.eqb_spec y "") as [|Hy]; [by apply IH|].
    rewrite <- (Hne y [n]) by auto.
    destruct (BTreeMap.get m y) as [o|]; [|by apply IH; [apply BTreeMap.wf_insert|]].
    destruct (eq o [n]) as [[]|]; try done. by apply IH; [apply BTreeMap.wf_insert|].
  - destruct (String.eqb_spec y "") as [|Hy]; [by apply IH|].
    destruct (BTreeMap.get m y) as [o|]; (erewrite <- Hne; [apply IH; [apply BTreeMap.wf_insert, Hwf|exact Hl]|by right|done]).
  - destruct n as [z|z|z]; try done. destruct (String.eqb y z); [|done]. by apply IH.
Qed.

(** Looping over a pair list split in two. *)
Lemma loop_app eq ps1 ps2 m m' :
  BTreeMap.wf m -> Label.match_loop eq (ps1 ++ ps2) m = Some (Some m') ->
  exists m1, BTreeMap.wf m1 /\ Label.match_loop eq ps1 m = Some (Some m1) /\
             Label.match_loop eq ps2 m1 = Some (Some m').
Proof.
  revert m. induction ps1 as [|[a n] ps1 IH]; intros m Hwf Hl; simpl in *; [eauto|].
  repeat split_match_in Hl; try done; by apply IH; [try apply BTreeMap.wf_insert|].
Qed.

Lemma loop_rec_get eq k y l m m' :
  y <> "" -> length l = k -> BTreeMap.wf m ->
  Label.match_loop eq (combine (replicate k (RecAny y)) l) m = Some (Some m') ->
  BTreeMap.get m' y =
  match l with [] => BTreeMap.get m y
  | _ => Some (default [] (BTreeMap.get m y) ++ l) end.
Proof.
  intros Hy. revert l m. induction k as [|k IH]; intros [|n l] m Hlen Hwf; simpl in *; try done.
  { intros; by simplify_eq. }
  destruct (String.eqb_spec y "") as [|_]; [done|]. intros Hl.
  injection Hlen as Hlen.
  destruct (BTreeMap.get m y) as [o|] eqn:Eo; (apply IH in Hl; [|done|by apply BTreeMap.wf_insert]);
    rewrite Hl, BTreeMap.get_insert_eq; simpl; unfold Label.push; destruct l; simpl; try done.
  by rewrite <- app_assoc.
Qed.

Lemma match_with_loop p l m :
  Label.match_with p l = Some m ->
  length (Label.expand p l) = length l /\
  Label.match_loop (fun a b => Some (Label.eqb a b)) (combine (Label.expand p l) l) [] = Some (Some m).
Proof.
  intros Hm. pose proof (match_with_unfold p l) as Hu. rewrite Hm in Hu.
  destruct (Nat.eqb_spec (length (Label.expand p l)) (length l)); [by split|done].
Qed.

Lemma not_binds_combine x (q : list Node) (l : list Node) :
  Forall (fun a => binds a x = false) q -> Forall (fun a => binds a.1 x = false) (combine q l).
Proof. apply (combine_fst_Forall (fun a => binds a x = false)). Qed.
End bindings.

(** ** Properties *)

(** The recursion of [match_with] through the equality of labels always
    returns: two levels of it are enough for any pattern and label. *)
Theorem match_with_terminates (n : nat) (p l : list Node) :
  exists r, Label.match_with_fuel (S (S n)) p l = Some r /\ r = Label.match_with p l.
Proof. exists (Label.match_with p l). split; [apply match_with_fuel_enough|done]. Qed.

(** C35: a pattern whose recursive wildcard is final matches a label exactly
    when the lengths agree up to that wildcard, every node is accepted by its
    pattern node, and the nodes bound to one variable are equivalent. *)
Theorem label_match_spec (p l : list Node) :
  rec_final p = true -> Label.matches_with p l = true <-> Matches p l.
Proof. apply matches_with_Matches. Qed.

Lemma label_match_spec_witness :
  let p := [Str "a"; Any "x"; RecAny "y"] in
  let l := [Str "a"; Str "b"; Str "c"; Str "d"] in
  Label.matches_with p l = true /\ Matches p l.
Proof.
  intros p l. split; [reflexivity|]. apply (label_match_spec p l); reflexivity.
Defined.

(** A match binds the variable of a final recursive wildcard to the rest
    of the label, and a variable that occurs once to its node. *)
Theorem label_match_binds (q l : list Node) (y : string) (m : Match) :
  y <> "" -> Forall (fun a => binds a y = false) q ->
  (Label.match_with (q ++ [RecAny y]) l = Some m ->
   l <> [] /\ Match.get_label m y = Some (drop (length q) l)) /\
  (forall r, Forall (fun a => binds a y = false) r ->
   Label.match_with (q ++ Any y :: r) l = Some m ->
   exists n, l !! length q = Some n /\ Match.get_label m y = Some [n]).
Proof.
  intros Hy Hq. split.
  - intros [Hlen Hloop]%match_with_loop. unfold Label.expand in *.
    rewrite last_snoc, <- app_assoc in *. change ([RecAny y] ++ ?x) with (RecAny y :: x) in *.
    change (RecAny y :: replicate ?k (RecAny y)) with (replicate (S k) (RecAny y)) in *.
    rewrite combine_app in Hloop. apply loop_app in Hloop as (m1 & Hwf & H1 & H2); [|constructor].
    rewrite !length_app, length_replicate in *. simpl in Hlen.
    split; [by intros ->; simpl in Hlen; lia|].
    apply loop_rec_get in H2; [|done|rewrite length_drop; simpl; lia|done].
    unfold Match.get_label. rewrite H2.
    rewrite (loop_absent _ _ _ _ y BTreeMap.wf_nil H1) by (by apply not_binds_combine).
    assert (length (drop (length q) l) > 0) by (rewrite length_drop; lia).
    destruct (drop (length q) l); simpl in *; [lia|done].
  - intros r Hr [Hlen Hloop]%match_with_loop. unfold Label.expand in *.
    set (k := length l - length (q ++ Any y :: r)) in *.
    set (e := match last (q ++ Any y :: r) with Some (RecAny z) => _ | _ => _ end) in *.
    assert (exists r', e = q ++ Any y :: r' /\ Forall (fun a => binds a y = false) r') as (r' & Hr' & Hb).
    { unfold e. rewrite last_app_cons. destruct (last (Any y :: r)) as [[z|z|z]|] eqn:El; eauto.
      exists (r ++ replicate k (RecAny z)). rewrite <- app_assoc. split; [done|].
      apply Forall_app. split; [done|]. apply Forall_replicate.
      destruct r as [|a r]; [done|]. rewrite Forall_forall in Hr. apply Hr.
      apply last_Some_elem_of. by rewrite last_cons_cons in El. }
    rewrite Hr', length_app in Hlen. simpl in Hlen. rewrite Hr', combine_app in Hloop.
    apply loop_app in Hloop as (m1 & Hwf & H1 & H2); [|constructor].
    destruct (drop (length q) l) as [|n l'] eqn:Ed.
    { apply (f_equal length) in Ed. rewrite length_drop in Ed. simpl in Ed. lia. }
    exists n. split.
    { rewrite <- (Nat.add_0_r (length q)), <- lookup_drop, Ed. done. }
    simpl in H2. destruct (String.eqb_spec y "") as [|_]; [done|].
    rewrite (loop_absent _ _ _ _ y BTreeMap.wf_nil H1) in H2 by (by apply not_binds_combine).
    simpl in H2. unfold Match.get_label.
    rewrite (loop_absent _ _ _ _ y (BTreeMap.wf_insert _ _ _ Hwf) H2) by (by apply not_binds_combine).
    apply BTreeMap.get_insert_eq.
Qed.

Lemma label_match_binds_witness :
  exists m, Label.match_with ([Str "a"; Any "x"] ++ [RecAny "y"]) [Str "a"; Str "b"; Str "c"; Str "d"] = Some m /\
    Match.get_label m "y" = Some [Str "c"; Str "d"].
Proof.
  eexists. split; [reflexivity|].
  refine (proj2 (proj1 (label_match_binds [Str "a"; Any "x"] [Str "a"; Str "b"; Str "c"; Str "d"] "y" _ _ _) _));
    [discriminate|repeat constructor|reflexivity].
Defined.

(** On labels whose recursive wildcards are final, [==] holds exactly
    when the labels have the same length and pointwise the same text or both
    a wildcard; so it is reflexive, symmetric and transitive there. *)
Theorem label_eq_spec (a b : list Node) :
  rec_final a = true -> rec_final b = true ->
  Label.eqb a b = true <-> Forall2 node_eqv a b.
Proof. apply eqb_Forall2. Qed.

Lemma label_eq_spec_witness :
  Label.eqb [Str "a"; RecAny "x"] [Str "a"; Any "y"] = true /\
  Forall2 node_eqv [Str "a"; RecAny "x"] [Str "a"; Any "y"].
Proof.
  split; [reflexivity|].
  apply (label_eq_spec [Str "a"; RecAny "x"] [Str "a"; Any "y"]); reflexivity.
Defined.

(** C37: parsing a label succeeds exactly on the printed form of the non-empty
    labels with well-formed nodes, and returns that label. *)
Theorem label_parse_print (s : string) (l : list Node) :
  Label.from_str s = Ok l <->
  Label.to_string l = s /\ l <> [] /\ Forall (fun n => valid_node n = true) l.
Proof.
  split; [apply label_to_from_string|]. intros (<- & ? & ?). by apply label_from_to_string.
Qed.

(** Reading back the time of a login-time label always panics: the
    accessor indexes the fourth node of a label of three. *)
Theorem get_login_time_panics (t : Z) :
  Label.is_login_time (Label.login_time t) = true /\
  Label.get_login_time (Label.login_time t) = Panic.
Proof. split; reflexivity. Qed.
