(* ===== verification/Syntax.v ===== *)
(** * Syntax shared by the parser and the checker

    The data types of src/src/armour-lang/src/parser.rs and lexer.rs that do
    not depend on literals: locations, identifiers, parsed types, operators,
    iterators and string patterns.  The [Phantom] variants of the source only
    carry type parameters and are never built; they are left out. *)

From Stdlib Require Import ZArith String Ascii List.
From stdpp Require Import base tactics list strings.
From S2P Require Import Prelude.
From S2P Require Import Ordered.
From S2P Require Import Strings.

Local Open Scope string_scope.
Local Open Scope list_scope.

(** [struct Loc(u32, usize)]: line and column. *)
Record Loc := mkLoc { line : Z; column : Z }.
#[export] Instance Loc_eq_dec : EqDecision Loc.
Proof. solve_decision. Defined.

Module Loc.
Definition dummy : Loc := mkLoc 0 0.
Definition to_string (l : Loc) : string :=
  "line " ^^ i64_to_string (line l) ^^ ", column " ^^ i64_to_string (column l).
End Loc.

(** [struct Ident(String)] *)
Definition Ident := string.
Record LocIdent := mkLocIdent { li_loc : Loc; id : Ident }.

(** [parser::Typ] *)
Inductive PTyp :=
| PAtom (a : LocIdent)
| PCons (c : LocIdent) (b : PTyp)
| PTuple (l : list PTyp).

Inductive Prefix := Minus | Not.

Inductive Infix :=
| Equal | NotEqual | Plus | IMinus | Divide | Multiply | Remainder
| GreaterThanEqual | LessThanEqual | GreaterThan | LessThan
| And | Or | Concat | ConcatStr | Module_ | In_ | Dot.

Inductive Iter := All | Any_ | Filter | FilterMap | ForEach | Fold | Map.

Inductive As := AsStr | AsI64 | AsBase64.

#[export] Instance Prefix_eq_dec : EqDecision Prefix.
Proof. solve_decision. Defined.
#[export] Instance Infix_eq_dec : EqDecision Infix.
Proof. solve_decision. Defined.
#[export] Instance Iter_eq_dec : EqDecision Iter.
Proof. solve_decision. Defined.
#[export] Instance As_eq_dec : EqDecision As.
Proof. solve_decision. Defined.

(** String patterns. *)
Inductive Pat :=
| PatAny
| PatLit (s : string)
| PatClass (s : string)
| PatAlt (vs : list Pat)
| PatSeq (vs : list Pat)
| PatAs (i : Ident) (a : As)
| PatOpt (p : Pat)
| PatStar (p : Pat)
| PatPlus (p : Pat)
| PatCaseInsensitive (p : Pat)
| PatIgnoreWhitespace (p : Pat).

Module Pat.
(** [PartialEq for Pat], derived. *)
Fixpoint eqb (p q : Pat) : bool :=
  let fix eqbs (l1 l2 : list Pat) : bool :=
    match l1, l2 with
    | [], [] => true
    | x :: l1', y :: l2' => eqb x y && eqbs l1' l2'
    | _, _ => false
    end in
  match p, q with
  | PatAny, PatAny => true
  | PatLit s, PatLit t | PatClass s, PatClass t => String.eqb s t
  | PatAlt l, PatAlt l' | PatSeq l, PatSeq l' => eqbs l l'
  | PatAs i a, PatAs j b => String.eqb i j && bool_decide (a = b)
  | PatOpt p, PatOpt q | PatStar p, PatStar q | PatPlus p, PatPlus q
  | PatCaseInsensitive p, PatCaseInsensitive q
  | PatIgnoreWhitespace p, PatIgnoreWhitespace q => eqb p q
  | _, _ => false
  end.

Fixpoint has_as (p : Pat) : bool :=
  match p with
  | PatAny | PatLit _ | PatClass _ => false
  | PatAs _ _ => true
  | PatAlt v | PatSeq v => existsb has_as v
  | PatOpt p | PatStar p | PatPlus p | PatCaseInsensitive p | PatIgnoreWhitespace p => has_as p
  end.

(** The name of a capture group carries its type. *)
Definition strip_as (s : string) : string * As :=
  if starts_with s "_i64" then (trim_start_str "_i64" s, AsI64)
  else if starts_with s "_b64" then (trim_start_str "_b64" s, AsBase64)
  else (s, AsStr).

Section regex.
(** [regex::escape] of the regex crate. *)
Variable escape : string -> string.

Definition base64_class : string :=
  "(([A-Za-z0-9+/]{4})*([A-Za-z0-9+/]{2}==|[A-Za-z0-9+/]{3}=)?)".

(** [Pat::Class]: the parser only builds the six classes; any other name is
    [unreachable!()], [None] here. *)
Definition class_str (s : string) : option string :=
  if String.eqb s "alpha" then Some "[[:alpha:]]"
  else if String.eqb s "alphanum" then Some "[[:alnum:]]"
  else if String.eqb s "base64" then Some base64_class
  else if String.eqb s "digit" then Some "[[:digit:]]"
  else if String.eqb s "hex_digit" then Some "[[:xdigit:]]"
  else if String.eqb s "s" then Some "[[:space:]]"
  else None.

Fixpoint to_regex_str (ignore_ws : bool) (p : Pat) : option string :=
  match p with
  | PatAny => Some "."
  | PatLit s => Some (escape s)
  | PatClass s => class_str s
  | PatAlt vs =>
    ss ← mapM (to_regex_str ignore_ws) vs; Some ("(" ^^ join "|" ss ^^ ")")
  | PatSeq vs =>
    ss ← mapM (to_regex_str ignore_ws) vs;
    Some ("(" ^^ join (if ignore_ws then "\s*" else "") ss ^^ ")")
  | PatAs i AsStr => Some ("(?P<" ^^ i ^^ ">.+?)")
  | PatAs i AsI64 => Some ("(?P<_i64" ^^ i ^^ ">-?[[:digit:]]+)")
  | PatAs i AsBase64 =>
    Some ("(?P<_b64" ^^ i ^^ ">([A-Za-z0-9+/]{4})*([A-Za-z0-9+/]{2}==|[A-Za-z0-9+/]{3}=)?)")
  | PatOpt p => s ← to_regex_str ignore_ws p; Some (s ^^ "?")
  | PatStar p => s ← to_regex_str ignore_ws p; Some (s ^^ "*?")
  | PatPlus p => s ← to_regex_str ignore_ws p; Some (s ^^ "+?")
  | PatCaseInsensitive p => s ← to_regex_str ignore_ws p; Some ("(?i:" ^^ s ^^ ")")
  | PatIgnoreWhitespace p => to_regex_str true p
  end.
End regex.
End Pat.

(** ** Laws *)

(** Induction over parsed types and patterns with hypotheses for lists. *)
Section ptyp_ind.
Variable P : PTyp -> Prop.
Hypothesis HAtom : forall a, P (PAtom a).
Hypothesis HCons : forall c b, P b -> P (PCons c b).
Hypothesis HTuple : forall l, Forall P l -> P (PTuple l).

Fixpoint PTyp_ind' (t : PTyp) : P t :=
  match t with
  | PAtom a => HAtom a
  | PCons c b => HCons c b (PTyp_ind' b)
  | PTuple l =>
    HTuple l ((fix go (l : list PTyp) : Forall P l :=
                 match l with
                 | [] => Forall_nil_2 P
                 | x :: l' => Forall_cons_2 P x l' (PTyp_ind' x) (go l')
                 end) l)
  end.
End ptyp_ind.
