(* ===== verification/Net.v ===== *)
(** * IP addresses ([std::net::IpAddr])

    What the program uses of the standard library's addresses: an address is
    its family and its number; parsing follows [IpAddr::from_str] (a dotted
    quad without leading zeros, or eight groups with at most one [::] and an
    optional dotted quad at the end). *)

From Stdlib Require Import ZArith Lia String Ascii List.
From stdpp Require Import base tactics list strings.
From S2P Require Import Prelude.
From S2P Require Import Ordered.
From S2P Require Import Strings.

Local Open Scope string_scope.
Local Open Scope list_scope.

(** The numbers are below [2^32] and [2^128]. *)
Inductive IpAddr := V4 (n : Z) | V6 (n : Z).

#[export] Instance IpAddr_eq_dec : EqDecision IpAddr.
Proof. solve_decision. Defined.

(** The derived [Ord]. *)
#[export] Instance IpAddr_ord : Ord IpAddr := fun a b =>
  match a, b with
  | V4 x, V4 y | V6 x, V6 y => Z.compare x y
  | V4 _, V6 _ => Lt
  | V6 _, V4 _ => Gt
  end.

#[export] Instance IpAddr_ord_laws : OrdLaws IpAddr.
Proof.
  split; unfold cmp, IpAddr_ord.
  - intros [] []; rewrite ?Z.compare_eq_iff; naive_solver.
  - intros [] []; simpl; try done; apply Z.compare_antisym.
  - intros [] [] []; rewrite ?Z.compare_lt_iff; try done; lia.
Qed.

Module IpAddr.
Local Open Scope Z_scope.

Definition from_octets (a b c d : Z) : IpAddr :=
  V4 (((a * 256 + b) * 256 + c) * 256 + d).

Definition octets_v4 (n : Z) : list Z :=
  [n / 16777216 mod 256; n / 65536 mod 256; n / 256 mod 256; n mod 256].

Definition localhost : IpAddr := from_octets 127 0 0 1.

Definition is_ipv4 (ip : IpAddr) : bool := match ip with V4 _ => true | V6 _ => false end.

(** [Ipv6Addr::to_ipv4]: the IPv4-compatible and IPv4-mapped addresses. *)
Definition to_ipv4 (n : Z) : option Z :=
  let high := n / 4294967296 in
  if (high =? 0) || (high =? 65535) then Some (n mod 4294967296) else None.

(** ** Parsing *)

Definition hex_value (c : ascii) : option Z :=
  if is_digit c then Some (digit_value c)
  else if in_range 97 102 c then Some (Z.of_N (N_of_ascii c) - 87)
  else if in_range 65 70 c then Some (Z.of_N (N_of_ascii c) - 55)
  else None.

(** At most [max] digits of the radix; the value and the rest. *)
Fixpoint read_digits (value : ascii -> option Z) (radix : Z) (max : nat) (acc : Z) (n : nat) (s : string)
    : Z * nat * string :=
  match max, s with
  | S max', String c s' =>
    match value c with
    | Some d => read_digits value radix max' (acc * radix + d) (S n) s'
    | None => (acc, n, s)
    end
  | _, _ => (acc, n, s)
  end.

Definition dec_value (c : ascii) : option Z := if is_digit c then Some (digit_value c) else None.

(** An octet: one to three digits, no leading zero, at most 255. *)
Definition read_octet (s : string) : option (Z * string) :=
  match read_digits dec_value 10 3 0 0 s with
  | (v, n, rest) =>
    if (Nat.eqb n 0) || (255 <? v) || (starts_with s "0" && Nat.ltb 1 n)
       || match rest with String c _ => is_digit c | EmptyString => false end
    then None else Some (v, rest)
  end.

Definition read_char (c : ascii) (s : string) : option string :=
  match s with String d s' => if Ascii.eqb c d then Some s' else None | EmptyString => None end.

Definition read_ipv4 (s : string) : option (Z * string) :=
  '(a, s) ← read_octet s; s ← read_char "." s;
  '(b, s) ← read_octet s; s ← read_char "." s;
  '(c, s) ← read_octet s; s ← read_char "." s;
  '(d, s) ← read_octet s;
  Some (((a * 256 + b) * 256 + c) * 256 + d, s).

Definition read_group (s : string) : option (Z * string) :=
  match read_digits hex_value 16 4 0 0 s with
  | (v, n, rest) =>
    if (Nat.eqb n 0) || match rest with String c _ => bool_decide (is_Some (hex_value c)) | EmptyString => false end
    then None else Some (v, rest)
  end.

Definition read_separated {A} (first : bool) (f : string -> option (A * string)) (s : string)
    : option (A * string) :=
  if first then f s else s' ← read_char ":" s; f s'.

(** Up to [limit] groups; an IPv4 address may end them and counts for two.
    The groups read, the rest, and whether they ended with an IPv4 address. *)
Fixpoint read_groups (limit : nat) (first : bool) (acc : list Z) (s : string) : list Z * string * bool :=
  match limit with
  | O => (acc, s, false)
  | S limit' =>
    match (if Nat.ltb 0 limit' then read_separated first read_ipv4 s else None) with
    | Some (v, s') => (acc ++ [v / 65536; v mod 65536], s', true)
    | None =>
      match read_separated first read_group s with
      | Some (g, s') => read_groups limit' false (acc ++ [g]) s'
      | None => (acc, s, false)
      end
    end
  end.

Definition of_groups (l : list Z) : Z := foldl (fun n g => n * 65536 + g) 0 l.

Definition read_ipv6 (s : string) : option (Z * string) :=
  let '(head, s1, v4) := read_groups 8 true [] s in
  if Nat.eqb (length head) 8 then Some (of_groups head, s1)
  else if v4 then None
  else
    s2 ← read_char ":" s1; s3 ← read_char ":" s2;
    let '(tail, s4, _) := read_groups (7 - length head) true [] s3 in
    Some (of_groups (head ++ replicate (8 - length head - length tail)%nat 0 ++ tail), s4).

(** [IpAddr::from_str] *)
Definition from_str (s : string) : option IpAddr :=
  match read_ipv4 s with
  | Some (n, rest) => if String.eqb rest "" then Some (V4 n) else None
  | None =>
    match read_ipv6 s with
    | Some (n, rest) => if String.eqb rest "" then Some (V6 n) else None
    | None => None
    end
  end.
End IpAddr.

Example from_str_v4 : IpAddr.from_str "127.0.0.1" = Some IpAddr.localhost.
Proof. reflexivity. Qed.
Example from_str_v6 : IpAddr.from_str "1::2:3" = Some (V6 (2 ^ 112 + 2 * 2 ^ 16 + 3)).
Proof. reflexivity. Qed.
Example from_str_mapped : IpAddr.from_str "::ffff:1.2.3.4" = Some (V6 (65535 * 2 ^ 32 + 16909060)).
Proof. reflexivity. Qed.
Example from_str_name : IpAddr.from_str "10.0.0" = None.
Proof. reflexivity. Qed.

Lemma octets_from_octets a b c d :
  (0 <= a < 256)%Z -> (0 <= b < 256)%Z -> (0 <= c < 256)%Z -> (0 <= d < 256)%Z ->
  exists n, IpAddr.from_octets a b c d = V4 n /\ IpAddr.octets_v4 n = [a; b; c; d].
Proof.
  intros. eexists. split; [reflexivity|]. unfold IpAddr.octets_v4.
  repeat f_equal; Z.to_euclidean_division_equations; lia.
Qed.
