(* ===== verification/Literals.v ===== *)
(** * Literals (src/src/armour-lang/src/literals.rs)

    HTTP headers, endpoints, connections, requests and responses, the flat
    literals of the data plane and literals over a type of flat literals, with
    the operations of the language on them.  The source's records carry the
    types of flat types and literals as phantom parameters only; one record
    serves both planes here, and the conversions between the two planes are
    the identity on them.

    The theorems: the header multimap keeps the values of each header in
    order; endpoints keep their sets sorted; the list operations are the set
    operations up to the equality of literals, which is reflexive except for
    NaN and for labels whose recursive wildcards are not final. *)

From Stdlib Require Import ZArith Lia String Ascii List Floats.SpecFloat.
From stdpp Require Import base tactics list strings sets.
From S2P Require Import Prelude.
From S2P Require Import Ordered.
From S2P Require Import Strings.
From S2P Require Import Labels.
From S2P Require Import Syntax.
From S2P Require Import Types.
From S2P Require Import Net.

Local Open Scope string_scope.
Local Open Scope list_scope.

(** ** HTTP methods and versions *)

Inductive Method := GET | POST | PUT | DELETE | HEAD | OPTIONS | CONNECT | PATCH | TRACE.
Inductive Version := HTTP_09 | HTTP_10 | HTTP_11 | HTTP_20.

#[export] Instance Method_eq_dec : EqDecision Method.
Proof. solve_decision. Defined.
#[export] Instance Version_eq_dec : EqDecision Version.
Proof. solve_decision. Defined.

Module Method.
Definition to_string (m : Method) : string :=
  match m with
  | GET => "GET" | POST => "POST" | PUT => "PUT" | DELETE => "DELETE" | HEAD => "HEAD"
  | OPTIONS => "OPTIONS" | CONNECT => "CONNECT" | PATCH => "PATCH" | TRACE => "TRACE"
  end.
Definition from_str (s : string) : option Method :=
  if String.eqb s "GET" then Some GET
  else if String.eqb s "POST" then Some POST
  else if String.eqb s "PUT" then Some PUT
  else if String.eqb s "DELETE" then Some DELETE
  else if String.eqb s "HEAD" then Some HEAD
  else if String.eqb s "OPTIONS" then Some OPTIONS
  else if String.eqb s "CONNECT" then Some CONNECT
  else if String.eqb s "PATCH" then Some PATCH
  else if String.eqb s "TRACE" then Some TRACE
  else None.
End Method.

Module Version.
Definition to_string (v : Version) : string :=
  match v with
  | HTTP_09 => "HTTP/0.9" | HTTP_10 => "HTTP/1.0" | HTTP_11 => "HTTP/1.1" | HTTP_20 => "HTTP/2.0"
  end.
Definition from_str (s : string) : option Version :=
  if String.eqb s "HTTP/0.9" || String.eqb s "HTTP_09" then Some HTTP_09
  else if String.eqb s "HTTP/1.0" || String.eqb s "HTTP_10" then Some HTTP_10
  else if String.eqb s "HTTP/1.1" || String.eqb s "HTTP_11" then Some HTTP_11
  else if String.eqb s "HTTP/2.0" || String.eqb s "HTTP_20" then Some HTTP_20
  else None.
End Version.

(** ** Data *)

(** [literals::Headers]: each name has the list of its values. *)
Definition Headers := BTreeMap string (list bytes).

Record ID := mkID {
  hosts : BTreeSet string;
  ips : BTreeSet IpAddr;
  port : option Z;
  labels : BTreeSet Label;
}.

Record Connection := mkConnection { from : ID; to : ID; number : Z }.

Record HttpRequest := mkHttpRequest {
  req_method : Method;
  req_version : Version;
  req_path : string;
  req_query : string;
  req_headers : Headers;
  req_connection : Connection;
}.

Record HttpResponse := mkHttpResponse {
  res_version : Version;
  res_status : Z;
  res_headers : Headers;
  res_reason : option string;
  res_connection : Connection;
}.

(** [parser::PolicyRegex]: the pattern; the compiled regular expression of the
    source is the one of the pattern, and equality ignores it. *)
Definition PolicyRegex := Pat.

Inductive FlatLiteral :=
| LBool (b : bool)
| LConnection (c : Connection)
| LData (d : bytes)
| LFloat (f : spec_float)
| LHttpRequest (r : HttpRequest)
| LHttpResponse (r : HttpResponse)
| LID (i : ID)
| LInt (i : Z)
| LIpAddr (i : IpAddr)
| LLabel (l : Label)
| LRegex (r : PolicyRegex)
| LStr (s : string)
| LUnit.

Inductive Literal (FL : Type) :=
| FlatLit (fl : FL)
| LList (l : list (Literal FL))
| LTuple (l : list (Literal FL)).
Arguments FlatLit {FL} fl.
Arguments LList {FL} l.
Arguments LTuple {FL} l.

(** ** The trait [TFlatLiteral]

    [is_x] and [get_x] of the source are [dest_x] here: [get_x] panics where
    [dest_x] is [None]. *)
Class TFlatLiteral (FT FL : Type) := {
  flat_typ : FL -> FT;
  flat_eqb : FL -> FL -> bool;
  mk_bool : bool -> FL;
  flat_dest_bool : FL -> option bool;
  mk_connection : Connection -> FL;
  mk_data : bytes -> FL;
  flat_dest_data : FL -> option bytes;
  mk_float : spec_float -> FL;
  mk_http_request : HttpRequest -> FL;
  mk_http_response : HttpResponse -> FL;
  mk_id : ID -> FL;
  mk_int : Z -> FL;
  mk_ip_addr : IpAddr -> FL;
  mk_label : Label -> FL;
  flat_dest_label : FL -> option Label;
  mk_regex : PolicyRegex -> FL;
  mk_str : string -> FL;
  flat_dest_str : FL -> option string;
  mk_unit : FL;
  flat_is_unit : FL -> bool;
}.

Section literal_ind.
Context {FL : Type} (P : Literal FL -> Prop).
Hypothesis HFlat : forall fl, P (FlatLit fl).
Hypothesis HList : forall l, Forall P l -> P (LList l).
Hypothesis HTuple : forall l, Forall P l -> P (LTuple l).

Fixpoint Literal_ind' (t : Literal FL) : P t :=
  let go := fix go (l : list (Literal FL)) : Forall P l :=
              match l with
              | [] => Forall_nil_2 P
              | x :: l' => Forall_cons_2 P x l' (Literal_ind' x) (go l')
              end in
  match t with
  | FlatLit fl => HFlat fl
  | LList l => HList l (go l)
  | LTuple l => HTuple l (go l)
  end.
End literal_ind.

(** ** Literals over a type of flat literals *)

Module Literal.
Section literal.
Context {FT FL : Type} `{TFlatTyp FT} `{TFlatLiteral FT FL}.
Notation Literal := (Literal FL).

(** The derived [PartialEq]. *)
Fixpoint eqb (a b : Literal) : Datatypes.bool :=
  match a, b with
  | FlatLit x, FlatLit y => flat_eqb x y
  | LList x, LList y | LTuple x, LTuple y => list_eqb eqb x y
  | _, _ => false
  end.

Definition bool (b : Datatypes.bool) : Literal := FlatLit (mk_bool b).
Definition connection (c : Connection) : Literal := FlatLit (mk_connection c).
Definition data (d : bytes) : Literal := FlatLit (mk_data d).
Definition float (f : spec_float) : Literal := FlatLit (mk_float f).
Definition http_request (r : HttpRequest) : Literal := FlatLit (mk_http_request r).
Definition http_response (r : HttpResponse) : Literal := FlatLit (mk_http_response r).
Definition id (i : ID) : Literal := FlatLit (mk_id i).
Definition int (i : Z) : Literal := FlatLit (mk_int i).
Definition ip_addr (i : IpAddr) : Literal := FlatLit (mk_ip_addr i).
Definition label (l : Label) : Literal := FlatLit (mk_label l).
Definition regex (r : PolicyRegex) : Literal := FlatLit (mk_regex r).
Definition str (s : string) : Literal := FlatLit (mk_str s).
Definition unit : Literal := FlatLit mk_unit.

Definition dest_bool (l : Literal) : option Datatypes.bool :=
  match l with FlatLit fl => flat_dest_bool fl | _ => None end.
Definition get_bool (l : Literal) : Outcome Datatypes.bool := unwrap (dest_bool l).
Definition dest_data (l : Literal) : option bytes :=
  match l with FlatLit fl => flat_dest_data fl | _ => None end.
Definition is_unit (l : Literal) : Datatypes.bool :=
  match l with FlatLit fl => flat_is_unit fl | _ => false end.
Definition is_tuple (l : Literal) : Datatypes.bool :=
  match l with LTuple _ => true | _ => false end.

(** The type of a list is the type of its first element. *)
Fixpoint typ (l : Literal) : Typ FT :=
  match l with
  | FlatLit fl => Flat (flat_typ fl)
  | LList [] => Typ.rreturn
  | LList (x :: _) => typ x
  | LTuple l => Tuple (map typ l)
  end.

Definition none : Literal := LTuple [].
Definition some (l : Literal) : Literal := LTuple [l].
Definition dest_some (l : Literal) : option Literal :=
  match l with LTuple [l] => Some l | _ => None end.

Definition of_option (o : option Literal) : Literal :=
  match o with Some l => some l | None => none end.

(** [From<&Match>] *)
Definition of_match (m : Match) : Literal :=
  LList (map (fun '(x, y) => LTuple [str x; str y]) (Match.to_vec m)).

(** [From<&IpAddr>] *)
Definition of_ipv4 (n : Z) : Literal := LTuple (map int (IpAddr.octets_v4 n)).
Definition of_ip_addr (ip : IpAddr) : Literal :=
  match ip with
  | V4 n => of_ipv4 n
  | V6 n => match IpAddr.to_ipv4 n with Some n => of_ipv4 n | None => none end
  end.
End literal.
End Literal.

(** ** Lists as sets *)

Module VecSet.
Section vecset.
Context {FT FL : Type} `{TFlatTyp FT} `{TFlatLiteral FT FL}.
Implicit Types (x y : list (Literal FL)).

Definition mem (y : list (Literal FL)) (e : Literal FL) : Datatypes.bool :=
  existsb (fun f => Literal.eqb e f) y.

Definition contains (l : list (Literal FL)) (e : Literal FL) : Literal FL := Literal.bool (mem l e).
Definition is_subset x y : Literal FL := Literal.bool (forallb (mem y) x).
Definition is_disjoint x y : Literal FL := Literal.bool (negb (existsb (mem y) x)).
Definition difference x y : Literal FL := LList (List.filter (fun e => negb (mem y e)) x).
Definition intersection x y : Literal FL := LList (List.filter (mem y) x).
End vecset.
End VecSet.

(** ** Headers *)

Module Headers.
Section headers.
Context {FT FL : Type} `{TFlatTyp FT} `{TFlatLiteral FT FL}.

Definition header (h : Headers) (s : string) : Literal FL :=
  match BTreeMap.get h s with
  | None => Literal.none
  | Some vs => Literal.some (LList (map Literal.data vs))
  end.

Definition unique_header (h : Headers) (s : string) : Literal FL :=
  match BTreeMap.get h s with
  | Some [d] => Literal.some (Literal.data d)
  | _ => Literal.none
  end.

Definition headers (h : Headers) : Literal FL := LList (map Literal.str (BTreeMap.keys h)).

Definition pairs (h : Headers) : list (string * bytes) :=
  flat_map (fun kv => map (fun v => (kv.1, v)) kv.2) h.

Definition header_pairs (h : Headers) : Literal FL :=
  LList (map (fun kv => LTuple [Literal.str kv.1; Literal.data kv.2]) (pairs h)).
End headers.

(** A further value goes to the end of the list of its header. *)
Definition set_header (h : Headers) (k : string) (v : bytes) : Headers :=
  match BTreeMap.get h k with
  | Some l => BTreeMap.insert k (l ++ [v]) h
  | None => BTreeMap.insert k [v] h
  end.

Definition of_vec (l : list (string * bytes)) : Headers :=
  foldl (fun h kv => set_header h kv.1 kv.2) [] l.
End Headers.

(** ** Endpoints *)

Module ID.
Definition default : ID := mkID [] [] None [].

(** The derived [PartialEq]. *)
Definition eqb (a b : ID) : bool :=
  list_eqb String.eqb (hosts a) (hosts b) && bool_decide (ips a = ips b)
  && bool_decide (port a = port b) && list_eqb Label.eqb (labels a) (labels b).

(** The first host, unless it is an address. *)
Definition host (i : ID) : option string :=
  match hosts i with
  | name :: _ => match IpAddr.from_str name with None => Some name | Some _ => None end
  | [] => None
  end.

Section literals.
Context {FT FL : Type} `{TFlatTyp FT} `{TFlatLiteral FT FL}.
Definition labels_lit (i : ID) : Literal FL := LList (map Literal.label (labels i)).
Definition hosts_lit (i : ID) : Literal FL := LList (map Literal.str (hosts i)).
Definition ips_lit (i : ID) : Literal FL := LList (map Literal.ip_addr (ips i)).
Definition port_lit (i : ID) : Literal FL :=
  match port i with Some p => Literal.some (Literal.int p) | None => Literal.none end.
(** [From<&ID>] *)
Definition to_lit (i : ID) : Literal FL :=
  LTuple [hosts_lit i; ips_lit i; port_lit i; labels_lit i].
End literals.

Definition add_label (i : ID) (l : Label) : ID :=
  mkID (hosts i) (ips i) (port i) (BTreeSet.insert l (labels i)).
Definition add_host (i : ID) (h : string) : ID :=
  mkID (BTreeSet.insert h (hosts i)) (ips i) (port i) (labels i).
Definition add_ip (i : ID) (ip : IpAddr) : ID :=
  mkID (hosts i) (BTreeSet.insert ip (ips i)) (port i) (labels i).
Definition set_port (i : ID) (p : Z) : ID := mkID (hosts i) (ips i) (Some p) (labels i).

(** The argument is the pattern. *)
Definition find_label (i : ID) (l : Label) : option Label :=
  List.find (fun x => Label.matches_with l x) (labels i).
Definition has_label (i : ID) (l : Label) : bool :=
  existsb (fun x => Label.matches_with l x) (labels i).
Definition has_host (i : ID) (h : string) : bool := existsb (fun x => String.eqb x h) (hosts i).
Definition has_ip (i : ID) (ip : IpAddr) : bool := existsb (fun x => bool_decide (x = ip)) (ips i).

Definition wf (i : ID) : Prop :=
  BTreeSet.wf (hosts i) /\ BTreeSet.wf (ips i) /\ BTreeSet.wf (labels i).
End ID.

Module Connection.
Definition default : Connection := mkConnection ID.default ID.default 0.
Definition eqb (a b : Connection) : bool :=
  ID.eqb (from a) (from b) && ID.eqb (to a) (to b) && (number a =? number b)%Z.

Definition set_from (c : Connection) (i : ID) : Connection := mkConnection i (to c) (number c).
Definition set_to (c : Connection) (i : ID) : Connection := mkConnection (from c) i (number c).
Definition set_number (c : Connection) (n : Z) : Connection := mkConnection (from c) (to c) n.
(** [From<(&ID, &ID, usize)>] *)
Definition of_triple (f t : ID) (n : Z) : Connection := mkConnection f t (wrap_i64 n).

Section literals.
Context {FT FL : Type} `{TFlatTyp FT} `{TFlatLiteral FT FL}.
Definition from_lit (c : Connection) : Literal FL := Literal.id (from c).
Definition to_lit (c : Connection) : Literal FL := Literal.id (to c).
Definition from_to (c : Connection) : Literal FL := LTuple [from_lit c; to_lit c].
Definition number_lit (c : Connection) : Literal FL := Literal.int (number c).
Definition literal (f t : ID) (n : Z) : Literal FL := FlatLit (mk_connection (mkConnection f t n)).
(** [From<&Connection>] *)
Definition tuple (c : Connection) : Literal FL :=
  LTuple [ID.to_lit (from c); ID.to_lit (to c); Literal.int (number c)].
End literals.
End Connection.

Definition headers_eqb (a b : Headers) : bool := bool_decide (a = b).

Module HttpRequest.
Definition default : HttpRequest := mkHttpRequest GET HTTP_11 "" "" [] Connection.default.
Definition of_method (m : Method) : HttpRequest := mkHttpRequest m HTTP_11 "" "" [] Connection.default.

Definition eqb (a b : HttpRequest) : bool :=
  bool_decide (req_method a = req_method b) && bool_decide (req_version a = req_version b)
  && String.eqb (req_path a) (req_path b) && String.eqb (req_query a) (req_query b)
  && headers_eqb (req_headers a) (req_headers b)
  && Connection.eqb (req_connection a) (req_connection b).

(** An unknown method or version is replaced by the default. *)
Definition new (method version path query : string) (hs : list (string * bytes)) (c : Connection)
    : HttpRequest :=
  mkHttpRequest (unwrap_or GET (Method.from_str method)) (unwrap_or HTTP_11 (Version.from_str version))
    path query (Headers.of_vec hs) c.

Definition set_connection (r : HttpRequest) (c : Connection) : HttpRequest :=
  mkHttpRequest (req_method r) (req_version r) (req_path r) (req_query r) (req_headers r) c.
Definition set_path (r : HttpRequest) (s : string) : HttpRequest :=
  mkHttpRequest (req_method r) (req_version r) s (req_query r) (req_headers r) (req_connection r).
Definition set_query (r : HttpRequest) (s : string) : HttpRequest :=
  mkHttpRequest (req_method r) (req_version r) (req_path r) s (req_headers r) (req_connection r).
Definition set_header (r : HttpRequest) (k : string) (v : bytes) : HttpRequest :=
  mkHttpRequest (req_method r) (req_version r) (req_path r) (req_query r)
    (Headers.set_header (req_headers r) k v) (req_connection r).
Definition set_from (r : HttpRequest) (i : ID) : HttpRequest :=
  set_connection r (Connection.set_from (req_connection r) i).
Definition set_to (r : HttpRequest) (i : ID) : HttpRequest :=
  set_connection r (Connection.set_to (req_connection r) i).

Section literals.
Context {FT FL : Type} `{TFlatTyp FT} `{TFlatLiteral FT FL}.
Definition connection (r : HttpRequest) : Literal FL := Literal.connection (req_connection r).
Definition method (r : HttpRequest) : Literal FL := Literal.str (Method.to_string (req_method r)).
Definition version (r : HttpRequest) : Literal FL := Literal.str (Version.to_string (req_version r)).
Definition path (r : HttpRequest) : Literal FL := Literal.str (req_path r).
Definition query (r : HttpRequest) : Literal FL := Literal.str (req_query r).
Definition route (r : HttpRequest) : Literal FL :=
  LList (map Literal.str (split "/" (trim_char "/" (req_path r)))).
(** The url crate parses the query; [None] when it rejects the address. *)
Definition query_pairs (url_query_pairs : string -> option (list (string * string))) (r : HttpRequest)
    : Literal FL :=
  match url_query_pairs ("http://x/?" ^^ req_query r) with
  | Some l => LList (map (fun '(k, v) => LTuple [Literal.str k; Literal.str v]) l)
  | None => LList []
  end.
Definition header (r : HttpRequest) (s : string) : Literal FL := Headers.header (req_headers r) s.
Definition unique_header (r : HttpRequest) (s : string) : Literal FL :=
  Headers.unique_header (req_headers r) s.
Definition headers (r : HttpRequest) : Literal FL := Headers.headers (req_headers r).
Definition header_pairs (r : HttpRequest) : Literal FL := Headers.header_pairs (req_headers r).
Definition from_lit (r : HttpRequest) : Literal FL := Connection.from_lit (req_connection r).
Definition to_lit (r : HttpRequest) : Literal FL := Connection.to_lit (req_connection r).
Definition from_to (r : HttpRequest) : Literal FL := Connection.from_to (req_connection r).
(** [From<&HttpRequest>] *)
Definition tuple (r : HttpRequest) : Literal FL :=
  LTuple [method r; version r; path r; query r; header_pairs r; Connection.tuple (req_connection r)].
End literals.
End HttpRequest.

Module HttpResponse.
Definition default : HttpResponse := mkHttpResponse HTTP_11 0 [] None Connection.default.

Definition eqb (a b : HttpResponse) : bool :=
  bool_decide (res_version a = res_version b) && (res_status a =? res_status b)%Z
  && headers_eqb (res_headers a) (res_headers b) && bool_decide (res_reason a = res_reason b)
  && Connection.eqb (res_connection a) (res_connection b).

Definition new (version : string) (status : Z) (reason : option string) (hs : list (string * bytes))
    (c : Connection) : HttpResponse :=
  mkHttpResponse (unwrap_or HTTP_11 (Version.from_str version)) status (Headers.of_vec hs) reason c.

Definition set_connection (r : HttpResponse) (c : Connection) : HttpResponse :=
  mkHttpResponse (res_version r) (res_status r) (res_headers r) (res_reason r) c.
Definition set_reason (r : HttpResponse) (s : string) : HttpResponse :=
  mkHttpResponse (res_version r) (res_status r) (res_headers r) (Some s) (res_connection r).
Definition set_header (r : HttpResponse) (k : string) (v : bytes) : HttpResponse :=
  mkHttpResponse (res_version r) (res_status r) (Headers.set_header (res_headers r) k v)
    (res_reason r) (res_connection r).
Definition set_from (r : HttpResponse) (i : ID) : HttpResponse :=
  set_connection r (Connection.set_from (res_connection r) i).
Definition set_to (r : HttpResponse) (i : ID) : HttpResponse :=
  set_connection r (Connection.set_to (res_connection r) i).

Section literals.
Context {FT FL : Type} `{TFlatTyp FT} `{TFlatLiteral FT FL}.
Definition literal (status : Z) : Literal FL :=
  Literal.http_response (mkHttpResponse HTTP_11 status [] None Connection.default).
Definition connection (r : HttpResponse) : Literal FL := Literal.connection (res_connection r).
Definition status (r : HttpResponse) : Literal FL := Literal.int (res_status r).
Definition version (r : HttpResponse) : Literal FL := Literal.str (Version.to_string (res_version r)).
Definition reason (r : HttpResponse) : Literal FL :=
  match res_reason r with Some s => Literal.some (Literal.str s) | None => Literal.none end.
Definition header (r : HttpResponse) (s : string) : Literal FL := Headers.header (res_headers r) s.
Definition unique_header (r : HttpResponse) (s : string) : Literal FL :=
  Headers.unique_header (res_headers r) s.
Definition headers (r : HttpResponse) : Literal FL := Headers.headers (res_headers r).
Definition header_pairs (r : HttpResponse) : Literal FL := Headers.header_pairs (res_headers r).
Definition from_lit (r : HttpResponse) : Literal FL := Connection.from_lit (res_connection r).
Definition to_lit (r : HttpResponse) : Literal FL := Connection.to_lit (res_connection r).
Definition from_to (r : HttpResponse) : Literal FL := Connection.from_to (res_connection r).
(** [From<&HttpResponse>] *)
Definition tuple (r : HttpResponse) : Literal FL :=
  LTuple [version r; status r; header_pairs r; Connection.tuple (res_connection r)].
End literals.
End HttpResponse.

(** ** Flat literals of the data plane *)

Module FlatLiteral.
Definition typ (l : FlatLiteral) : FlatTyp :=
  match l with
  | LBool _ => TBool | LConnection _ => TConnection | LData _ => TData | LFloat _ => TF64
  | LHttpRequest _ => THttpRequest | LHttpResponse _ => THttpResponse | LID _ => TID
  | LInt _ => TI64 | LIpAddr _ => TIpAddr | LLabel _ => TLabel | LRegex _ => TRegex
  | LStr _ => TStr | LUnit => TUnit
  end.

(** The derived [PartialEq]. *)
Definition eqb (a b : FlatLiteral) : bool :=
  match a, b with
  | LBool x, LBool y => Bool.eqb x y
  | LConnection x, LConnection y => Connection.eqb x y
  | LData x, LData y => bool_decide (x = y)
  | LFloat x, LFloat y => SFeqb x y
  | LHttpRequest x, LHttpRequest y => HttpRequest.eqb x y
  | LHttpResponse x, LHttpResponse y => HttpResponse.eqb x y
  | LID x, LID y => ID.eqb x y
  | LInt x, LInt y => (x =? y)%Z
  | LIpAddr x, LIpAddr y => bool_decide (x = y)
  | LLabel x, LLabel y => Label.eqb x y
  | LRegex x, LRegex y => Pat.eqb x y
  | LStr x, LStr y => String.eqb x y
  | LUnit, LUnit => true
  | _, _ => false
  end.

Definition dest_bool (l : FlatLiteral) : option bool := match l with LBool b => Some b | _ => None end.
Definition dest_data (l : FlatLiteral) : option bytes := match l with LData d => Some d | _ => None end.
Definition dest_label (l : FlatLiteral) : option Label := match l with LLabel x => Some x | _ => None end.
Definition dest_str (l : FlatLiteral) : option string := match l with LStr s => Some s | _ => None end.
Definition is_unit (l : FlatLiteral) : bool := eqb l LUnit.
End FlatLiteral.

#[export] Instance DP_TFlatLiteral : TFlatLiteral FlatTyp FlatLiteral := {
  flat_typ := FlatLiteral.typ; flat_eqb := FlatLiteral.eqb;
  mk_bool := LBool; flat_dest_bool := FlatLiteral.dest_bool;
  mk_connection := LConnection; mk_data := LData; flat_dest_data := FlatLiteral.dest_data;
  mk_float := LFloat; mk_http_request := LHttpRequest; mk_http_response := LHttpResponse;
  mk_id := LID; mk_int := LInt; mk_ip_addr := LIpAddr;
  mk_label := LLabel; flat_dest_label := FlatLiteral.dest_label; mk_regex := LRegex;
  mk_str := LStr; flat_dest_str := FlatLiteral.dest_str;
  mk_unit := LUnit; flat_is_unit := FlatLiteral.is_unit;
}.

Definition DPLiteral := Literal FlatLiteral.

(** ** Laws *)

Section header_laws.
Implicit Types (h : Headers) (l : list (string * bytes)).

(** The values given for a name, in order. *)
Definition values_for (k : string) l : list bytes :=
  map snd (List.filter (fun kv => String.eqb kv.1 k) l).

Definition values_of h k : list bytes := match BTreeMap.get h k with Some vs => vs | None => [] end.

(** No name is kept without a value. *)
Definition no_empty h : Prop := forall k, BTreeMap.get h k <> Some [].

Lemma set_header_wf h k v : BTreeMap.wf h -> BTreeMap.wf (Headers.set_header h k v).
Proof. intros Hh. unfold Headers.set_header. destruct (BTreeMap.get h k); by apply BTreeMap.wf_insert. Qed.

Lemma get_set_header h k v k' :
  BTreeMap.wf h ->
  BTreeMap.get (Headers.set_header h k v) k' =
  if String.eqb k k' then Some (values_of h k ++ [v]) else BTreeMap.get h k'.
Proof.
  intros Hh. unfold Headers.set_header, values_of. destruct (String.eqb_spec k k') as [<-|Hne].
  - destruct (BTreeMap.get h k); by rewrite BTreeMap.get_insert_eq.
  - destruct (BTreeMap.get h k); by apply BTreeMap.get_insert_ne.
Qed.

Lemma of_vec_get l k :
  BTreeMap.wf (Headers.of_vec l) /\
  BTreeMap.get (Headers.of_vec l) k =
  match values_for k l with [] => None | vs => Some vs end.
Proof.
  unfold Headers.of_vec. revert k. induction l as [|[k0 v] l IH] using rev_ind; intros k.
  { split; [constructor|done]. }
  rewrite foldl_app. simpl. destruct (IH k) as [Hwf Hk]. split; [by apply set_header_wf|].
  rewrite get_set_header by done. unfold values_for. rewrite List.filter_app, map_app. simpl.
  destruct (String.eqb_spec k0 k) as [->|Hne]; simpl.
  - unfold values_of. rewrite Hk. unfold values_for. by destruct (map snd _).
  - rewrite app_nil_r. apply Hk.
Qed.
End header_laws.

Section id_laws.
Lemma add_label_wf i l : ID.wf i -> ID.wf (ID.add_label i l).
Proof. intros (?&?&?). split_and!; try done. by apply BTreeSet.set_wf_insert. Qed.
Lemma add_host_wf i h : ID.wf i -> ID.wf (ID.add_host i h).
Proof. intros (?&?&?). split_and!; try done. by apply BTreeSet.set_wf_insert. Qed.
Lemma add_ip_wf i ip : ID.wf i -> ID.wf (ID.add_ip i ip).
Proof. intros (?&?&?). split_and!; try done. by apply BTreeSet.set_wf_insert. Qed.
Lemma set_port_wf i p : ID.wf i -> ID.wf (ID.set_port i p).
Proof. done. Qed.
End id_laws.
#[export] Hint Resolve add_label_wf add_host_wf add_ip_wf set_port_wf : armour.

Section vecset_laws.
Context {FT FL : Type} `{TFlatTyp FT} `{TFlatLiteral FT FL}.

Lemma filter_nil {A} (f : A -> bool) l : List.filter f l = [] <-> forallb (fun x => negb (f x)) l = true.
Proof.
  induction l as [|x l IH]; simpl; [done|]. destruct (f x); simpl; [done|]. done.
Qed.

Lemma forallb_negb {A} (f : A -> bool) l : forallb (fun x => negb (f x)) l = negb (existsb f l).
Proof. induction l as [|x l IH]; simpl; [done|]. by rewrite IH, negb_orb. Qed.

Lemma filter_partition {A} (f : A -> bool) l :
  l ≡ₚ List.filter f l ++ List.filter (fun x => negb (f x)) l.
Proof.
  induction l as [|x l IH]; simpl; [done|]. destruct (f x); simpl.
  - by rewrite <- IH.
  - by rewrite <- Permutation_middle, <- IH.
Qed.
End vecset_laws.

(** ** Properties *)

(** The headers built from a list of pairs hold, for each name, exactly
    the values given for it, in order; a name without values is absent. *)
Theorem headers_of_vec_multimap (l : list (string * bytes)) (k : string) :
  BTreeMap.wf (Headers.of_vec l) /\
  Headers.header (FL := FlatLiteral) (Headers.of_vec l) k =
  (match values_for k l with
   | [] => Literal.none
   | vs => Literal.some (LList (map Literal.data vs))
   end) /\
  Headers.unique_header (FL := FlatLiteral) (Headers.of_vec l) k =
  (match values_for k l with
   | [v] => Literal.some (Literal.data v)
   | _ => Literal.none
   end).
Proof.
  destruct (of_vec_get l k) as [Hwf Hg]. split; [done|].
  unfold Headers.header, Headers.unique_header. rewrite Hg.
  by destruct (values_for k l) as [|v [|]].
Qed.

(** The list operations of the language agree with each other as set
    operations: a list is a subset of another exactly when the difference is
    empty, disjoint exactly when the intersection is empty, and intersection
    and difference split the list. *)
Theorem vecset_laws {FT FL} `{TFlatTyp FT} `{TFlatLiteral FT FL} (x y : list (Literal FL)) :
  (exists d i, VecSet.difference x y = LList d /\ VecSet.intersection x y = LList i /\ x ≡ₚ i ++ d /\
    VecSet.is_subset x y = Literal.bool (match d with [] => true | _ => false end) /\
    VecSet.is_disjoint x y = Literal.bool (match i with [] => true | _ => false end)).
Proof.
  do 2 eexists. split; [reflexivity|]. split; [reflexivity|]. split; [apply filter_partition|]. split.
  - unfold VecSet.is_subset. f_equal.
    destruct (List.filter (fun e => negb (VecSet.mem y e)) x) eqn:E.
    + apply filter_nil in E. rewrite <- E. clear E. induction x; simpl; [done|].
      rewrite negb_involutive. by f_equal.
    + apply not_true_iff_false. intros Hf.
      assert (List.filter (fun e => negb (VecSet.mem y e)) x = []) as E'; [|congruence].
      apply filter_nil. rewrite <- Hf. clear. induction x; simpl; [done|].
      rewrite negb_involutive. by f_equal.
  - unfold VecSet.is_disjoint. f_equal. rewrite <- forallb_negb.
    destruct (List.filter (VecSet.mem y) x) eqn:E.
    + by apply filter_nil in E.
    + apply not_true_iff_false. intros Hf%filter_nil. congruence.
Qed.
