(* ===== verification/Nom.v ===== *)
(** * Parser combinators

    The macros of the nom crate that lexer.rs and parser.rs are written with,
    as its documentation defines them: a parser consumes a prefix of its input
    and returns a value, or fails with an error, which lets an alternative be
    tried, or because the input is too short, which does not.  A parser may
    also panic, and a recursive one run out of fuel.

    The lemmas: what a parser that never runs out of fuel, and consumes, is
    made of. *)

From Stdlib Require Import ZArith Lia String Ascii List.
From stdpp Require Import base tactics list.
From S2P Require Import Prelude.

Local Open Scope list_scope.

(** [IResult]: [Err::Error] and [Err::Incomplete]; the code never makes an
    [Err::Failure]. *)
Inductive IResult (I A : Type) :=
| Done (rest : I) (a : A)
| NError
| Incomplete
| NPanic
| NFuel.
Arguments Done {I A} rest a.
Arguments NError {I A}.
Arguments Incomplete {I A}.
Arguments NPanic {I A}.
Arguments NFuel {I A}.

Definition Parser (I A : Type) := I -> IResult I A.

(** How much input there is. *)
Class Input (I : Type) := size : I -> nat.
#[export] Instance list_input {T} : Input (list T) := fun l => length l.

#[export] Instance Parser_ret {I} : MRet (Parser I) := fun A a i => Done i a.
#[export] Instance Parser_bind {I} : MBind (Parser I) := fun A B f p i =>
  match p i with
  | Done i' a => f a i'
  | NError => NError
  | Incomplete => Incomplete
  | NPanic => NPanic
  | NFuel => NFuel
  end.
#[export] Instance Parser_fmap {I} : FMap (Parser I) := fun A B f p => a ← p; mret (f a).

Module Nom.
Section nom.
Context {I : Type} `{Input I}.
Notation P := (Parser I).

Definition error {A} : P A := fun _ => NError.
Definition panics {A} : P A := fun _ => NPanic.

(** [complete!] *)
Definition complete {A} (p : P A) : P A := fun i => match p i with Incomplete => NError | r => r end.

(** [alt!] of two parsers. *)
Definition or {A} (p q : P A) : P A := fun i => match p i with NError => q i | r => r end.
(** [alt!] of [complete!] parsers. *)
Fixpoint alt {A} (ps : list (P A)) : P A :=
  match ps with [] => error | p :: ps => or (complete p) (alt ps) end.

(** [alt!] of parsers as they are. *)
Fixpoint first {A} (ps : list (P A)) : P A :=
  match ps with [] => error | p :: ps => or p (first ps) end.

(** [opt!] *)
Definition opt {A} (p : P A) : P (option A) := fun i =>
  match p i with
  | Done i' a => Done i' (Some a)
  | NError => Done i None
  | Incomplete => Incomplete
  | NPanic => NPanic
  | NFuel => NFuel
  end.

(** [many0!] ends at an error, and is one when nothing was consumed.  There
    are at most as many iterations as there is input. *)
Fixpoint many0_go {A} (p : P A) (n : nat) : P (list A) := fun i =>
  match n with
  | O => NFuel
  | S n =>
    match p i with
    | Done i' a => if Nat.eqb (size i') (size i) then NError else (cons a <$> many0_go p n) i'
    | NError => Done i []
    | Incomplete => Incomplete
    | NPanic => NPanic
    | NFuel => NFuel
    end
  end.
Definition many0 {A} (p : P A) : P (list A) := fun i => many0_go p (S (size i)) i.
(** [many1!] *)
Definition many1 {A} (p : P A) : P (list A) := a ← p; cons a <$> many0 p.

Definition preceded {A B} (p : P A) (q : P B) : P B := _ ← p; q.
Definition terminated {A B} (p : P A) (q : P B) : P A := a ← p; _ ← q; mret a.
Definition delimited {A B C} (p : P A) (q : P B) (r : P C) : P B := _ ← p; b ← q; _ ← r; mret b.
Definition value {A B} (b : B) (p : P A) : P B := _ ← p; mret b.
(** [p], then [many0!] of [preceded!(sep, p)]. *)
Definition separated {A B} (sep : P A) (p : P B) : P (list B) := b ← p; cons b <$> many0 (preceded sep p).
End nom.
End Nom.

(** ** Laws *)

(** A parser that leaves at most its input, or less, when it consumes. *)
Section laws.
Context {I : Type} `{Input I}.
Notation P := (Parser I).

(** On an input of size less than [n], [p] neither runs out of fuel nor grows
    the input. *)
Definition good {A} (n : nat) (p : P A) : Prop :=
  forall i, size i < n -> match p i with Done i' _ => size i' <= size i | NFuel => False | _ => True end.
(** And shrinks it. *)
Definition eats {A} (n : nat) (p : P A) : Prop :=
  forall i, size i < n -> match p i with Done i' _ => size i' < size i | NFuel => False | _ => True end.

Lemma eats_good {A} n (p : P A) : eats n p -> good n p.
Proof. intros Hp i Hi. specialize (Hp i Hi). destruct (p i); try done. lia. Qed.

Lemma good_le {A} n m (p : P A) : m <= n -> good n p -> good m p.
Proof. intros Hm Hp i Hi. apply Hp. lia. Qed.
Lemma eats_le {A} n m (p : P A) : m <= n -> eats n p -> eats m p.
Proof. intros Hm Hp i Hi. apply Hp. lia. Qed.

Lemma good_ret {A} n (a : A) : good n (mret a : P A).
Proof. intros i Hi. simpl. lia. Qed.
Lemma good_error {A} n : good n (Nom.error : P A).
Proof. by intros i Hi. Qed.
Lemma eats_error {A} n : eats n (Nom.error : P A).
Proof. by intros i Hi. Qed.
Lemma good_panics {A} n : good n (Nom.panics : P A).
Proof. by intros i Hi. Qed.

Lemma good_bind {A B} n (p : P A) (f : A -> P B) :
  good n p -> (forall a, good n (f a)) -> good n (p ≫= f).
Proof.
  intros Hp Hf i Hi. unfold mbind, Parser_bind. specialize (Hp i Hi). destruct (p i) as [i' a| | | |]; try done.
  specialize (Hf a i' ltac:(lia)). destruct (f a i'); try done. lia.
Qed.

(** After a parser that consumes, the rest sees a smaller input. *)
Lemma eats_bind {A B} n (p : P A) (f : A -> P B) :
  eats n p -> (forall a, good (n - 1) (f a)) -> eats n (p ≫= f).
Proof.
  intros Hp Hf i Hi. unfold mbind, Parser_bind. specialize (Hp i Hi). destruct (p i) as [i' a| | | |]; try done.
  specialize (Hf a i' ltac:(lia)). destruct (f a i'); try done. lia.
Qed.

Lemma eats_bind_r {A B} n (p : P A) (f : A -> P B) :
  good n p -> (forall a, eats n (f a)) -> eats n (p ≫= f).
Proof.
  intros Hp Hf i Hi. unfold mbind, Parser_bind. specialize (Hp i Hi). destruct (p i) as [i' a| | | |]; try done.
  specialize (Hf a i' ltac:(lia)). destruct (f a i'); try done. lia.
Qed.

Lemma good_fmap {A B} n (f : A -> B) (p : P A) : good n p -> good n (f <$> p).
Proof. intros Hp. apply good_bind; [done|]. intros. apply good_ret. Qed.

Lemma good_complete {A} n (p : P A) : good n p -> good n (Nom.complete p).
Proof. intros Hp i Hi. unfold Nom.complete. specialize (Hp i Hi). by destruct (p i). Qed.
Lemma eats_complete {A} n (p : P A) : eats n p -> eats n (Nom.complete p).
Proof. intros Hp i Hi. unfold Nom.complete. specialize (Hp i Hi). by destruct (p i). Qed.

Lemma good_or {A} n (p q : P A) : good n p -> good n q -> good n (Nom.or p q).
Proof. intros Hp Hq i Hi. unfold Nom.or. specialize (Hp i Hi). destruct (p i); try done. by apply Hq. Qed.
Lemma eats_or {A} n (p q : P A) : eats n p -> eats n q -> eats n (Nom.or p q).
Proof. intros Hp Hq i Hi. unfold Nom.or. specialize (Hp i Hi). destruct (p i); try done. by apply Hq. Qed.

Lemma eats_alt {A} n (ps : list (P A)) : Forall (eats n) ps -> eats n (Nom.alt ps).
Proof. induction 1; simpl; [apply eats_error|]. apply eats_or; [by apply eats_complete|done]. Qed.
Lemma good_alt {A} n (ps : list (P A)) : Forall (good n) ps -> good n (Nom.alt ps).
Proof. induction 1; simpl; [apply good_error|]. apply good_or; [by apply good_complete|done]. Qed.

Lemma eats_first {A} n (ps : list (P A)) : Forall (eats n) ps -> eats n (Nom.first ps).
Proof. induction 1; simpl; [apply eats_error|by apply eats_or]. Qed.

Lemma good_opt {A} n (p : P A) : good n p -> good n (Nom.opt p).
Proof. intros Hp i Hi. unfold Nom.opt. specialize (Hp i Hi). destruct (p i); try done. Qed.

Lemma good_many0 {A} n (p : P A) : good n p -> good n (Nom.many0 p).
Proof.
  intros Hp i Hi. unfold Nom.many0.
  assert (forall k i, size i < k -> size i < n ->
    match Nom.many0_go p k i with Done i' _ => size i' <= size i | NFuel => False | _ => True end) as Hgo.
  { clear i Hi. induction k as [|k IH]; intros i Hk Hi; [lia|]. simpl. specialize (Hp i Hi).
    destruct (p i) as [i' a| | | |]; try done. destruct (Nat.eqb_spec (size i') (size i)) as [|Hne]; [done|].
    unfold fmap, Parser_fmap, mbind, Parser_bind. specialize (IH i' ltac:(lia) ltac:(lia)).
    destruct (Nom.many0_go p k i'); try done. simpl. lia. }
  apply Hgo; lia.
Qed.

(** [many0!] of a parser that always consumes and is never short of input. *)
Lemma many0_total {A} n (p : P A) i :
  eats n p -> (forall i, p i <> Incomplete) -> size i < n ->
  match Nom.many0 p i with Done _ _ | NPanic => True | _ => False end.
Proof.
  intros Hp Hq Hi. unfold Nom.many0.
  assert (forall k i, size i < k -> size i < n ->
    match Nom.many0_go p k i with Done _ _ | NPanic => True | _ => False end) as Hgo; [|apply Hgo; lia].
  clear i Hi. induction k as [|k IH]; intros i Hk Hi; [lia|]. simpl. specialize (Hp i Hi). specialize (Hq i).
  destruct (p i) as [i' a| | | |]; try done. destruct (Nat.eqb_spec (size i') (size i)) as [|Hne]; [lia|].
  unfold fmap, Parser_fmap, mbind, Parser_bind. specialize (IH i' ltac:(lia) ltac:(lia)).
  by destruct (Nom.many0_go p k i').
Qed.

(** [many0!] ends where the parser fails. *)
Lemma many0_stop {A} (p : P A) i r l : Nom.many0 p i = Done r l -> p r = NError.
Proof.
  unfold Nom.many0. generalize (S (size i)). intros n. revert i r l.
  induction n as [|n IH]; intros i r l; simpl; [done|]. destruct (p i) as [i' a| | | |] eqn:E; try done.
  - destruct (Nat.eqb _ _); [done|]. unfold fmap, Parser_fmap, mbind, Parser_bind.
    destruct (Nom.many0_go p n i') as [i'' l'| | | |] eqn:E'; try done. intros [= <- <-]. by apply IH in E'.
  - by intros [= <- <-].
Qed.

Lemma eats_many1 {A} n (p : P A) : eats n p -> eats n (Nom.many1 p).
Proof.
  intros Hp. apply eats_bind; [done|]. intros a. apply good_fmap, good_many0, eats_good. by apply (eats_le n); [lia|].
Qed.
End laws.
