(* ===== verification/Ast.v ===== *)
(** * Abstract syntax (src/src/armour-lang/src/parser.rs, data types)

    What the parser hands to the checker: located expressions, statements,
    blocks, function heads and declarations.  [LocExpr] is the pair of the
    source; the fields that the source keeps private are read through the
    accessors below. *)

From Stdlib Require Import ZArith Lia String Ascii List.
From stdpp Require Import base tactics list strings sets.
From S2P Require Import Prelude.
From S2P Require Import Ordered.
From S2P Require Import Strings.
From S2P Require Import Labels.
From S2P Require Import Syntax.
From S2P Require Import Types.
From S2P Require Import Net.
From S2P Require Import Literals.

Local Open Scope string_scope.
Local Open Scope list_scope.

(** [parser::Pattern] *)
Inductive PPattern := PRegex (p : Pat) | PLabel (l : Label).

Inductive PExpr (FL : Type) :=
| PIdent (i : Ident)
| PLit (l : Literal FL)
| PList (es : list (LocExpr FL))
| PTup (es : list (LocExpr FL))
| PPrefix (p : Prefix) (e : LocExpr FL)
| PInfix (op : Infix) (e1 e2 : LocExpr FL)
| PIter (op : Iter) (idents : list LocIdent) (expr : LocExpr FL) (body : BlockStmt FL)
    (accumulator : option (LocIdent * LocExpr FL))
| PIf (cond : LocExpr FL) (consequence : BlockStmt FL) (alternative : option (BlockStmt FL))
| PIfMatch (matches : list (LocExpr FL * PPattern)) (consequence : BlockStmt FL)
    (alternative : option (BlockStmt FL))
| PIfSomeMatch (var : LocIdent) (expr : LocExpr FL) (consequence : BlockStmt FL)
    (alternative : option (BlockStmt FL))
| PCall (loc : Loc) (function : string) (arguments : list (LocExpr FL))
with LocExpr (FL : Type) :=
| mkLocExpr (l : Loc) (e : PExpr FL)
with Stmt (FL : Type) :=
| LetStmt (ids : list LocIdent) (e : LocExpr FL)
| ReturnStmt (e : LocExpr FL)
| ExprStmt (exp : PExpr FL) (async_tag semi : bool)
with LocStmt (FL : Type) :=
| mkLocStmt (l : Loc) (s : Stmt FL)
with BlockStmt (FL : Type) :=
| mkBlock (statements : list (LocStmt FL)) (async_tag : bool).
Arguments PIdent {FL} i.
Arguments PLit {FL} l.
Arguments PList {FL} es.
Arguments PTup {FL} es.
Arguments PPrefix {FL} p e.
Arguments PInfix {FL} op e1 e2.
Arguments PIter {FL} op idents expr body accumulator.
Arguments PIf {FL} cond consequence alternative.
Arguments PIfMatch {FL} matches consequence alternative.
Arguments PIfSomeMatch {FL} var expr consequence alternative.
Arguments PCall {FL} loc function arguments.
Arguments mkLocExpr {FL} l e.
Arguments LetStmt {FL} ids e.
Arguments ReturnStmt {FL} e.
Arguments ExprStmt {FL} exp async_tag semi.
Arguments mkLocStmt {FL} l s.
Arguments mkBlock {FL} statements async_tag.

Module LocExpr.
Definition loc {FL} (e : LocExpr FL) : Loc := match e with mkLocExpr l _ => l end.
Definition expr {FL} (e : LocExpr FL) : PExpr FL := match e with mkLocExpr _ e => e end.
End LocExpr.

Module LocStmt.
Definition loc {FL} (s : LocStmt FL) : Loc := match s with mkLocStmt l _ => l end.
Definition stmt {FL} (s : LocStmt FL) : Stmt FL := match s with mkLocStmt _ s => s end.
(** [LocStmt::expr_stmt] *)
Definition expr_stmt {FL} (e : LocExpr FL) (async_tag semi : bool) : LocStmt FL :=
  mkLocStmt (LocExpr.loc e) (ExprStmt (LocExpr.expr e) async_tag semi).
End LocStmt.

Module BlockStmt.
Definition statements {FL} (b : BlockStmt FL) : list (LocStmt FL) := match b with mkBlock s _ => s end.
Definition async_tag {FL} (b : BlockStmt FL) : bool := match b with mkBlock _ t => t end.
Definition loc {FL} (b : BlockStmt FL) (default : Loc) : Loc :=
  match statements b with [] => default | s :: _ => LocStmt.loc s end.
(** [From<LocExpr>] *)
Definition of_expr {FL} (e : LocExpr FL) : BlockStmt FL := mkBlock [LocStmt.expr_stmt e false false] false.
End BlockStmt.

(** ** Declarations *)

Record Head := mkHead { head_id : LocIdent; head_typs : option (list PTyp); head_typ : option PTyp }.
Record Param := mkParam { param_id : LocIdent; param_typ : PTyp }.
Record FnHead := mkFnHead { fn_id : LocIdent; fn_params : list Param; fn_typ : option PTyp }.
Record FnDecl (FL : Type) := mkFnDecl { decl_head : FnHead; decl_body : BlockStmt FL }.
Arguments mkFnDecl {FL} decl_head decl_body.
Arguments decl_head {FL} f.
Arguments decl_body {FL} f.
Record External := mkExternal { ext_name : LocIdent; ext_url : LocIdent; ext_headers : list Head }.

Inductive Decl (FL : Type) := DExternal (e : External) | DFnDecl (d : FnDecl FL).
Arguments DExternal {FL} e.
Arguments DFnDecl {FL} d.

Module Param.
Definition name (p : Param) : string := Syntax.id (param_id p).
End Param.

Module FnDecl.
Section decl.
Context {FT FL : Type} `{TFlatTyp FT}.
Definition name (d : FnDecl FL) : string := Syntax.id (fn_id (decl_head d)).
Definition args (d : FnDecl FL) : list Param := fn_params (decl_head d).
Definition loc (d : FnDecl FL) : Loc := li_loc (fn_id (decl_head d)).

(** [FnDecl::typ]: the declared signature; the result type is unit when
    absent. *)
Definition typ (d : FnDecl FL) : result (Signature FT) (TypeError FT) :=
  let ty := match fn_typ (decl_head d) with Some t => Typ.from_parse t | None => Ok Typ.unit end in
  match ty with
  | Err e => Err e
  | Ok ty =>
    match collect_results (fun a => Typ.from_parse (param_typ a)) (args d) with
    | Err e => Err e
    | Ok tys => Ok (Signature.new tys ty)
    end
  end.
End decl.
End FnDecl.

Module Head.
Section head.
Context {FT : Type} `{TFlatTyp FT}.
Definition name (h : Head) : string := Syntax.id (head_id h).
Definition loc (h : Head) : Loc := li_loc (head_id h).

(** [Head::typ]: without declared arguments any arguments are accepted. *)
Definition typ (h : Head) : result (Signature FT) (TypeError FT) :=
  let ty := match head_typ h with Some t => Typ.from_parse t | None => Ok Typ.unit end in
  match ty with
  | Err e => Err e
  | Ok ty =>
    match head_typs h with
    | Some args =>
      match collect_results Typ.from_parse args with
      | Err e => Err e
      | Ok tys => Ok (Signature.new tys ty)
      end
    | None => Ok (Signature.any ty)
    end
  end.
End head.
End Head.

(** The function name of a call, from an identifier or a path. *)
Module PExpr.
Fixpoint eval_call_function {FL} (e : PExpr FL) : option string :=
  match e with
  | PIdent i => Some i
  | PInfix Module_ (mkLocExpr _ e1) (mkLocExpr _ e2) =>
    match eval_call_function e1, eval_call_function e2 with
    | Some s1, Some s2 => Some (s1 ^^ "::" ^^ s2)
    | _, _ => None
    end
  | _ => None
  end.
End PExpr.

(** ** Induction over the syntax, through lists and blocks *)

Section ast_ind.
Context {FL : Type}.
Variable P : PExpr FL -> Prop.

Definition on_loc (e : LocExpr FL) : Prop := match e with mkLocExpr _ e => P e end.
Definition on_stmt (s : LocStmt FL) : Prop :=
  match s with
  | mkLocStmt _ (LetStmt _ e) | mkLocStmt _ (ReturnStmt e) => on_loc e
  | mkLocStmt _ (ExprStmt e _ _) => P e
  end.
Definition on_block (b : BlockStmt FL) : Prop := match b with mkBlock s _ => Forall on_stmt s end.
Definition on_opt {A} (Q : A -> Prop) (o : option A) : Prop := match o with Some a => Q a | None => True end.

Hypothesis HIdent : forall i, P (PIdent i).
Hypothesis HLit : forall l, P (PLit l).
Hypothesis HList : forall es, Forall on_loc es -> P (PList es).
Hypothesis HTup : forall es, Forall on_loc es -> P (PTup es).
Hypothesis HPrefix : forall p e, on_loc e -> P (PPrefix p e).
Hypothesis HInfix : forall op e1 e2, on_loc e1 -> on_loc e2 -> P (PInfix op e1 e2).
Hypothesis HIter : forall op ids e b acc,
  on_loc e -> on_block b -> on_opt (fun a => on_loc a.2) acc -> P (PIter op ids e b acc).
Hypothesis HIf : forall c b a, on_loc c -> on_block b -> on_opt on_block a -> P (PIf c b a).
Hypothesis HIfMatch : forall ms b a,
  Forall (fun m => on_loc m.1) ms -> on_block b -> on_opt on_block a -> P (PIfMatch ms b a).
Hypothesis HIfSome : forall v e b a,
  on_loc e -> on_block b -> on_opt on_block a -> P (PIfSomeMatch v e b a).
Hypothesis HCall : forall l f args, Forall on_loc args -> P (PCall l f args).

Fixpoint PExpr_ind' (e : PExpr FL) : P e :=
  let loc (e : LocExpr FL) : on_loc e := match e with mkLocExpr _ e => PExpr_ind' e end in
  let locs := fix go (es : list (LocExpr FL)) : Forall on_loc es :=
    match es with
    | [] => Forall_nil_2 _
    | e :: es' =>
      Forall_cons_2 _ e es' (match e return on_loc e with mkLocExpr _ e => PExpr_ind' e end) (go es')
    end in
  let block (b : BlockStmt FL) : on_block b :=
    match b with
    | mkBlock s _ =>
      (fix go (s : list (LocStmt FL)) : Forall on_stmt s :=
         match s with
         | [] => Forall_nil_2 _
         | x :: s' =>
           Forall_cons_2 _ x s'
             (match x return on_stmt x with
              | mkLocStmt _ (LetStmt _ (mkLocExpr _ e)) => PExpr_ind' e
              | mkLocStmt _ (ReturnStmt (mkLocExpr _ e)) => PExpr_ind' e
              | mkLocStmt _ (ExprStmt e _ _) => PExpr_ind' e
              end) (go s')
         end) s
    end in
  let opt (o : option (BlockStmt FL)) : on_opt on_block o :=
    match o with Some b => block b | None => I end in
  match e with
  | PIdent i => HIdent i
  | PLit l => HLit l
  | PList es => HList es (locs es)
  | PTup es => HTup es (locs es)
  | PPrefix p e => HPrefix p e (loc e)
  | PInfix op e1 e2 => HInfix op e1 e2 (loc e1) (loc e2)
  | PIter op ids e b acc =>
    HIter op ids e b acc (loc e) (block b)
      (match acc with Some (_, a) => loc a | None => I end)
  | PIf c b a => HIf c b a (loc c) (block b) (opt a)
  | PIfMatch ms b a =>
    HIfMatch ms b a
      ((fix go (ms : list (LocExpr FL * PPattern)) : Forall (fun m => on_loc m.1) ms :=
          match ms with
          | [] => Forall_nil_2 _
          | m :: ms' => Forall_cons_2 _ m ms' (loc m.1) (go ms')
          end) ms) (block b) (opt a)
  | PIfSomeMatch v e b a => HIfSome v e b a (loc e) (block b) (opt a)
  | PCall l f args => HCall l f args (locs args)
  end.

Lemma on_block_all (H : forall e, P e) b : on_block b.
Proof.
  destruct b as [s t]. simpl. induction s as [|[l [ids [? e]|[? e]|e ? ?]] s IH]; constructor; simpl; auto.
Qed.
End ast_ind.
