(* ===== verification/FnHeaders.v ===== *)
(** * Function headers (src/src/armour-lang/src/headers.rs)

    The signatures of the builtin functions and of the internal services, and
    the table of the functions a program declares.  Builtin names shadow the
    declared ones; a name that is a number is the projection of a tuple. *)

From Stdlib Require Import ZArith String Ascii List.
From stdpp Require Import base tactics list strings.
From S2P Require Import Prelude.
From S2P Require Import Ordered.
From S2P Require Import Strings.
From S2P Require Import Syntax.
From S2P Require Import Types.

Local Open Scope string_scope.
Local Open Scope list_scope.

(** The trait [TBuiltin]: the signatures that flat types declare. *)
Class TBuiltin (FT : Type) := {
  flat_builtins : string -> option (Signature FT);
  flat_internal_service : string -> option (Signature FT);
}.

(** The [match] on a function name. *)
Fixpoint assoc {A} (k : string) (l : list (string * A)) : option A :=
  match l with
  | [] => None
  | (k', v) :: l' => if String.eqb k k' then Some v else assoc k l'
  end.

Lemma assoc_elem {A} k (l : list (string * A)) v : assoc k l = Some v -> (k, v) ∈ l.
Proof.
  induction l as [|[k' v'] l IH]; simpl; [done|].
  destruct (String.eqb_spec k k') as [->|]; [intros; simplify_eq; by left|right; auto].
Qed.

Module FlatBuiltins.
(** [sig]: flat arguments and a flat result. *)
Definition sig (s : list FlatTyp * FlatTyp) : DPSignature :=
  Signature.new (map Flat s.1) (Flat s.2).

Definition table : list (string * (list FlatTyp * FlatTyp)) :=
  [
    ("option::Some", ([TReturn], TReturn));
    ("i64::abs", ([TI64], TI64));
    ("i64::to_str", ([TI64], TStr));
    ("str::len", ([TStr], TI64));
    ("str::to_lowercase", ([TStr], TStr));
    ("str::to_uppercase", ([TStr], TStr));
    ("str::trim_start", ([TStr], TStr));
    ("str::trim_end", ([TStr], TStr));
    ("str::as_bytes", ([TStr], TData));
    ("str::from_utf8", ([TData], TStr));
    ("str::to_base64", ([TStr], TStr));
    ("str::is_match", ([TStr; TRegex], TBool));
    ("regex::is_match", ([TRegex; TStr], TBool));
    ("data::to_base64", ([TData], TStr));
    ("data::len", ([TData], TI64));
    ("i64::pow", ([TI64; TI64], TI64));
    ("i64::min", ([TI64; TI64], TI64));
    ("i64::max", ([TI64; TI64], TI64));
    ("str::starts_with", ([TStr; TStr], TBool));
    ("str::ends_with", ([TStr; TStr], TBool));
    ("str::contains", ([TStr; TStr], TBool));
    ("HttpRequest::GET", ([], THttpRequest));
    ("HttpRequest::POST", ([], THttpRequest));
    ("HttpRequest::PUT", ([], THttpRequest));
    ("HttpRequest::DELETE", ([], THttpRequest));
    ("HttpRequest::HEAD", ([], THttpRequest));
    ("HttpRequest::OPTIONS", ([], THttpRequest));
    ("HttpRequest::CONNECT", ([], THttpRequest));
    ("HttpRequest::PATCH", ([], THttpRequest));
    ("HttpRequest::TRACE", ([], THttpRequest));
    ("HttpRequest::connection", ([THttpRequest], TConnection));
    ("HttpRequest::from", ([THttpRequest], TID));
    ("HttpRequest::to", ([THttpRequest], TID));
    ("HttpRequest::set_from", ([THttpRequest; TID], THttpRequest));
    ("HttpRequest::set_to", ([THttpRequest; TID], THttpRequest));
    ("HttpRequest::method", ([THttpRequest], TStr));
    ("HttpRequest::version", ([THttpRequest], TStr));
    ("HttpRequest::path", ([THttpRequest], TStr));
    ("HttpRequest::query", ([THttpRequest], TStr));
    ("HttpRequest::set_path", ([THttpRequest; TStr], THttpRequest));
    ("HttpRequest::set_query", ([THttpRequest; TStr], THttpRequest));
    ("HttpRequest::set_header", ([THttpRequest; TStr; TData], THttpRequest));
    ("HttpRequest::set_connection", ([THttpRequest; TConnection], THttpRequest));
    ("HttpResponse::new", ([TI64], THttpResponse));
    ("HttpResponse::connection", ([THttpResponse], TConnection));
    ("HttpResponse::from", ([THttpResponse], TID));
    ("HttpResponse::to", ([THttpResponse], TID));
    ("HttpResponse::set_from", ([THttpResponse; TID], THttpResponse));
    ("HttpResponse::set_to", ([THttpResponse; TID], THttpResponse));
    ("HttpResponse::status", ([THttpResponse], TI64));
    ("HttpResponse::version", ([THttpResponse], TStr));
    ("HttpResponse::set_reason", ([THttpResponse; TStr], THttpResponse));
    ("HttpResponse::set_header", ([THttpResponse; TStr; TData], THttpResponse));
    ("HttpResponse::set_connection", ([THttpResponse; TConnection], THttpResponse));
    ("IpAddr::localhost", ([], TIpAddr));
    ("IpAddr::from", ([TI64; TI64; TI64; TI64], TIpAddr));
    ("ID::default", ([], TID));
    ("ID::add_label", ([TID; TLabel], TID));
    ("ID::add_host", ([TID; TStr], TID));
    ("ID::add_ip", ([TID; TIpAddr], TID));
    ("ID::set_port", ([TID; TI64], TID));
    ("ID::has_label", ([TID; TLabel], TBool));
    ("ID::has_host", ([TID; TStr], TBool));
    ("ID::has_ip", ([TID; TIpAddr], TBool));
    ("Connection::default", ([], TConnection));
    ("Connection::new", ([TID; TID; TI64], TConnection));
    ("Connection::from", ([TConnection], TID));
    ("Connection::to", ([TConnection], TID));
    ("Connection::number", ([TConnection], TI64));
    ("Connection::set_from", ([TConnection; TID], TConnection));
    ("Connection::set_to", ([TConnection; TID], TConnection));
    ("Connection::set_number", ([TConnection; TI64], TConnection));
    ("Label::is_match", ([TLabel; TLabel], TBool));
    ("System::getCurrentTime", ([], TI64))
  ].

Definition builtins (f : string) : option DPSignature := sig <$> assoc f table.

Definition services : list (string * (list FlatTyp * FlatTyp)) :=
  [
    ("Ingress::has_label", ([TLabel], TBool));
    ("Egress::set_id", ([], TUnit));
    ("Egress::has_label", ([TLabel], TBool));
    ("Egress::push", ([TData], TUnit));
    ("Egress::add_label", ([TLabel], TUnit));
    ("Egress::remove_label", ([TLabel], TUnit));
    ("Egress::wipe", ([], TUnit))
  ].

Definition internal_service (f : string) : option DPSignature := sig <$> assoc f services.
End FlatBuiltins.

#[export] Instance DP_TBuiltin : TBuiltin FlatTyp := {
  flat_builtins := FlatBuiltins.builtins;
  flat_internal_service := FlatBuiltins.internal_service;
}.

Module TypBuiltins.
Section builtins.
Context {FT : Type} `{TFlatTyp FT} `{TBuiltin FT}.

Definition sig (s : list (Typ FT) * Typ FT) : Signature FT := Signature.new s.1 s.2.

Definition table : list (string * (list (Typ FT) * Typ FT)) :=
[
  ("option::is_none", ([Typ.any_option], Typ.bool));
  ("option::is_some", ([Typ.any_option], Typ.bool));
  ("list::len", ([ListT Typ.rreturn], Typ.i64));
  ("list::reduce", ([ListT Typ.rreturn], Typ.option Typ.rreturn));
  ("list::is_subset", ([ListT Typ.rreturn; ListT Typ.rreturn], Typ.bool));
  ("list::is_disjoint", ([ListT Typ.rreturn; ListT Typ.rreturn], Typ.bool));
  ("list::difference", ([ListT Typ.rreturn; ListT Typ.rreturn], ListT Typ.rreturn));
  ("list::intersection", ([ListT Typ.rreturn; ListT Typ.rreturn], ListT Typ.rreturn));
  ("HttpRequest::query_pairs", ([Typ.http_request], ListT (Tuple [Typ.str; Typ.str])));
  ("HttpRequest::from_to", ([Typ.http_request], Tuple [Typ.id; Typ.id]));
  ("HttpRequest::header", ([Typ.http_request; Typ.str], Typ.option (ListT Typ.data)));
  ("HttpRequest::header_pairs", ([Typ.http_request], ListT (Tuple [Typ.str; Typ.data])));
  ("HttpResponse::reason", ([Typ.http_response], Typ.option Typ.str));
  ("HttpRequest::unique_header", ([Typ.http_request; Typ.str], Typ.option Typ.data));
  ("HttpResponse::from_to", ([Typ.http_response], Tuple [Typ.id; Typ.id]));
  ("HttpResponse::header", ([Typ.http_response; Typ.str], Typ.option (ListT Typ.data)));
  ("HttpResponse::headers", ([Typ.http_response], ListT Typ.str));
  ("HttpResponse::header_pairs", ([Typ.http_response], ListT (Tuple [Typ.str; Typ.data])));
  ("HttpResponse::unique_header", ([Typ.http_response; Typ.str], Typ.option Typ.data));
  ("IpAddr::lookup", ([Typ.str], Typ.option (ListT Typ.ip_addr)));
  ("IpAddr::octets", ([Typ.ip_addr], Tuple [Typ.i64; Typ.i64; Typ.i64; Typ.i64]));
  ("ID::find_label", ([Typ.id; Typ.label], Typ.option Typ.label));
  ("ID::labels", ([Typ.id], ListT Typ.label));
  ("ID::hosts", ([Typ.id], ListT Typ.str));
  ("ID::ips", ([Typ.id], ListT Typ.ip_addr));
  ("ID::port", ([Typ.id], Typ.option Typ.i64));
  ("Label::captures", ([Typ.label; Typ.label], Typ.option (ListT (Tuple [Typ.str; Typ.str]))));
  ("Label::concat", ([Typ.label; Typ.label], Typ.label));
  ("Label::parts", ([Typ.label], Typ.option (ListT Typ.str)))
].

Definition builtins (f : string) : option (Signature FT) :=
  match assoc f table with Some s => Some (sig s) | None => flat_builtins f end.

Definition services : list (string * (list (Typ FT) * Typ FT)) :=
[
  ("Egress::find_label", ([Typ.label], Typ.option Typ.label));
  ("Egress::id", ([], Typ.option Typ.label));
  ("Egress::data", ([], ListT Typ.data));
  ("Egress::pop", ([], Typ.option Typ.data));
  ("Ingress::id", ([], Typ.option Typ.label));
  ("Ingress::data", ([], ListT Typ.data));
  ("Ingress::find_label", ([Typ.label], Typ.option Typ.label))
].

Definition internal_service (f : string) : option (Signature FT) :=
  match assoc f services with Some s => Some (sig s) | None => flat_internal_service f end.
End builtins.
End TypBuiltins.

Module CPBuiltins.
Definition convertsig (s : DPSignature) : CPSignature :=
  match Signature.split s with
  | (None, ty) => Signature.any (CPTyp.from_dp ty)
  | (Some args, ty) => Signature.new (map CPTyp.from_dp args) (CPTyp.from_dp ty)
  end.

Definition table : list (string * (list CPTyp * CPTyp)) :=
  [
    ("allow_egress", ([], CPTyp.policy));
    ("allow_ingress", ([], CPTyp.policy));
    ("Primitive::allow_rest_request", ([], CPTyp.primitive));
    ("Primitive::allow_rest_response", ([], CPTyp.primitive));
    ("Primitive::allow_tcp_connection", ([], CPTyp.primitive));
    ("compile_egress", ([CPTyp.primitive; Typ.id], CPTyp.policy));
    ("compile_ingress", ([CPTyp.primitive; Typ.id], CPTyp.policy));
    ("deny_egress", ([], CPTyp.policy));
    ("deny_ingress", ([], CPTyp.policy));
    ("Primitive::on_tcp_disconnect", ([], CPTyp.primitive));
    ("ControlPlane::onboard", ([Typ.id], Typ.bool));
    ("ControlPlane::onboarded", ([CPTyp.onboarding_data], Typ.option Typ.id));
    ("ControlPlane::newID", ([CPTyp.onboarding_data], Typ.id));
    ("ControlPlane::verify_credentials", ([CPTyp.onboarding_data; Typ.label], Typ.bool));
    ("Label::new", ([Typ.str], Typ.label));
    ("Label::login_time", ([Typ.i64], Typ.label));
    ("OnboardingData::proposed_labels", ([CPTyp.onboarding_data], ListT Typ.label));
    ("OnboardingData::has_proposed_label", ([CPTyp.onboarding_data; Typ.label], Typ.bool));
    ("OnboardingData::has_ip", ([CPTyp.onboarding_data; Typ.ip_addr], Typ.bool));
    ("OnboardingData::host", ([CPTyp.onboarding_data], Typ.label));
    ("OnboardingData::service", ([CPTyp.onboarding_data], Typ.label));
    ("OnboardingResult::Ok", ([Typ.id; CPTyp.policy; CPTyp.policy], CPTyp.onboarding_result));
    ("OnboardingResult::Err", ([Typ.str; Typ.id; CPTyp.policy; CPTyp.policy], CPTyp.onboarding_result));
    ("OnboardingResult::ErrID", ([Typ.str; Typ.id], CPTyp.onboarding_result));
    ("OnboardingResult::ErrStr", ([Typ.str], CPTyp.onboarding_result))
  ].

Definition builtins (f : string) : option CPSignature :=
  match assoc f table with
  | Some s => Some (Signature.new s.1 s.2)
  | None => convertsig <$> FlatBuiltins.builtins f
  end.

Definition internal_service (f : string) : option CPSignature :=
  convertsig <$> FlatBuiltins.internal_service f.
End CPBuiltins.

#[export] Instance CP_TBuiltin : TBuiltin CPFlatTyp := {
  flat_builtins := CPBuiltins.builtins;
  flat_internal_service := CPBuiltins.internal_service;
}.

(** [headers::Headers]: the functions of a program and their signatures. *)
Definition FnHeaders (FT : Type) := BTreeMap string (Signature FT).

Module FnHeaders.
(** A module and a method. *)
Definition split (name : string) : option (string * string) :=
  match Strings.split "::" name with
  | [module; method] => Some (module, method)
  | _ => None
  end.

Section headers.
Context {FT : Type} `{TFlatTyp FT} `{TBuiltin FT}.

Definition merge (h1 h2 : FnHeaders FT) : FnHeaders FT := BTreeMap.collect (h1 ++ h2).

Definition add_function (h : FnHeaders FT) (name : string) (s : Signature FT)
    : result unit Error * FnHeaders FT :=
  let r := match BTreeMap.get h name with
           | Some _ => Err (mkError ("duplicate function " ^^ quote "{}") [name])
           | None => Ok tt
           end in
  (r, BTreeMap.insert name s h).

Definition cut (h : FnHeaders FT) (set : list string) : FnHeaders FT :=
  foldl (fun h s => BTreeMap.remove s h) h set.

Definition typ (h : FnHeaders FT) (name : string) : option (Signature FT) :=
  match TypBuiltins.builtins name with
  | Some s => Some s
  | None =>
    match TypBuiltins.internal_service name with
    | Some s => Some s
    | None => BTreeMap.get h name
    end
  end.

Definition return_typ (h : FnHeaders FT) (name : string) : result (Typ FT) Error :=
  match typ h name with
  | Some s => Ok (sig_typ s)
  | None => Err (error_new "no current function")
  end.

Definition is_builtin (name : string) : bool :=
  bool_decide (is_Some (TypBuiltins.builtins name)) || bool_decide (is_Some (parse_usize name)).

Definition is_internal (name : string) : bool :=
  bool_decide (is_Some (TypBuiltins.internal_service name)) || is_builtin name.

(** The method of a builtin whose first argument has the module's type. *)
Definition method (name : string) : option string :=
  match TypBuiltins.builtins name with
  | Some (mkSignature (Some (ty :: _)) _) =>
    match split name with
    | Some (module, method) =>
      if String.eqb module (Typ.to_string ty) then Some method else None
    | None => None
    end
  | _ => None
  end.

(** A method call [.::f] is the builtin of the type of its first argument,
    when there is one; it panics without arguments. *)
Definition resolve (name : string) (typs : list (Typ FT)) : Outcome string :=
  if starts_with name ".::" then
    let rest := trim_start_str ".::" name in
    ty ← unwrap (typs !! 0);
    match Typ.intrinsic ty with
    | Some intrinsic =>
      let s := intrinsic ^^ "::" ^^ rest in
      mret (if is_builtin s then s else rest)
    | None => mret rest
    end
  else mret name.
End headers.
End FnHeaders.
