(* ===== verification/Expressions.v ===== *)
(** * Expressions (src/src/armour-lang/src/expressions.rs)

    The expressions the interpreter runs.  Bound variables are de Bruijn
    indices under [Closure]; the operations that move under binders (shift,
    subst, abs, the test for a free index) are one traversal each in the
    source, and instances of one traversal here.

    The theorems: closing a variable and applying the closure is named
    substitution; substitution leaves locally closed expressions alone;
    closing removes the variable and keeps expressions closed. *)

From Stdlib Require Import ZArith Lia String Ascii List.
From stdpp Require Import base tactics list strings sets gmap.
From S2P Require Import Prelude.
From S2P Require Import Ordered.
From S2P Require Import Strings.
From S2P Require Import Labels.
From S2P Require Import Syntax.
From S2P Require Import Types.
From S2P Require Import Net.
From S2P Require Import Literals.

Local Open Scope string_scope.
Local Open Scope list_scope.

Inductive Block := BList | BTuple | BBlock.
#[export] Instance Block_eq_dec : EqDecision Block.
Proof. solve_decision. Defined.

(** [expressions::Pattern] *)
Inductive Pattern := RegexPattern (r : PolicyRegex) | LabelPattern (l : Label).

Inductive Expr (FL : Type) :=
| Var (v : Ident)
| BVar (v : Ident) (u : nat)
| LitExpr (l : Literal FL)
| ReturnExpr (e : Expr FL)
| PrefixExpr (p : Prefix) (e : Expr FL)
| InfixExpr (op : Infix) (e1 e2 : Expr FL)
| BlockExpr (b : Block) (es : list (Expr FL))
| Let (vs : list string) (e1 e2 : Expr FL)
| IterExpr (op : Iter) (vs : list string) (e1 e2 : Expr FL) (acc : option (string * Expr FL))
| Closure (v : Ident) (e : Expr FL)
| IfExpr (cond consequence : Expr FL) (alternative : option (Expr FL))
| IfMatchExpr (variables : list string) (matches : list (Expr FL * Pattern))
    (consequence : Expr FL) (alternative : option (Expr FL))
| IfSomeMatchExpr (expr consequence : Expr FL) (alternative : option (Expr FL))
| CallExpr (function : string) (arguments : list (Expr FL)) (is_async : bool).
Arguments Var {FL} v.
Arguments BVar {FL} v u.
Arguments LitExpr {FL} l.
Arguments ReturnExpr {FL} e.
Arguments PrefixExpr {FL} p e.
Arguments InfixExpr {FL} op e1 e2.
Arguments BlockExpr {FL} b es.
Arguments Let {FL} vs e1 e2.
Arguments IterExpr {FL} op vs e1 e2 acc.
Arguments Closure {FL} v e.
Arguments IfExpr {FL} cond consequence alternative.
Arguments IfMatchExpr {FL} variables matches consequence alternative.
Arguments IfSomeMatchExpr {FL} expr consequence alternative.
Arguments CallExpr {FL} function arguments is_async.

Definition OForall {A} (P : A -> Prop) (o : option A) : Prop :=
  match o with Some x => P x | None => True end.

(** ** Induction *)
Section expr_ind.
Context {FL : Type} (P : Expr FL -> Prop).
Hypothesis HVar : forall v, P (Var v).
Hypothesis HBVar : forall v u, P (BVar v u).
Hypothesis HLit : forall l, P (LitExpr l).
Hypothesis HReturn : forall e, P e -> P (ReturnExpr e).
Hypothesis HPrefix : forall p e, P e -> P (PrefixExpr p e).
Hypothesis HInfix : forall op e1 e2, P e1 -> P e2 -> P (InfixExpr op e1 e2).
Hypothesis HBlock : forall b es, Forall P es -> P (BlockExpr b es).
Hypothesis HLet : forall vs e1 e2, P e1 -> P e2 -> P (Let vs e1 e2).
Hypothesis HIter : forall op vs e1 e2 acc,
  P e1 -> P e2 -> OForall (fun a => P a.2) acc -> P (IterExpr op vs e1 e2 acc).
Hypothesis HClosure : forall v e, P e -> P (Closure v e).
Hypothesis HIf : forall c e a, P c -> P e -> OForall P a -> P (IfExpr c e a).
Hypothesis HIfMatch : forall vs ms e a,
  Forall (fun m => P m.1) ms -> P e -> OForall P a -> P (IfMatchExpr vs ms e a).
Hypothesis HIfSome : forall c e a, P c -> P e -> OForall P a -> P (IfSomeMatchExpr c e a).
Hypothesis HCall : forall f args b, Forall P args -> P (CallExpr f args b).

Fixpoint Expr_ind' (e : Expr FL) : P e :=
  let all := fix all (l : list (Expr FL)) : Forall P l :=
    match l with
    | [] => Forall_nil_2 P
    | x :: l' => Forall_cons_2 P x l' (Expr_ind' x) (all l')
    end in
  let opt (o : option (Expr FL)) : OForall P o :=
    match o with Some x => Expr_ind' x | None => I end in
  match e with
  | Var v => HVar v
  | BVar v u => HBVar v u
  | LitExpr l => HLit l
  | ReturnExpr e => HReturn e (Expr_ind' e)
  | PrefixExpr p e => HPrefix p e (Expr_ind' e)
  | InfixExpr op e1 e2 => HInfix op e1 e2 (Expr_ind' e1) (Expr_ind' e2)
  | BlockExpr b es => HBlock b es (all es)
  | Let vs e1 e2 => HLet vs e1 e2 (Expr_ind' e1) (Expr_ind' e2)
  | IterExpr op vs e1 e2 acc =>
    HIter op vs e1 e2 acc (Expr_ind' e1) (Expr_ind' e2)
      (match acc with Some (n, a) => Expr_ind' a | None => I end)
  | Closure v e => HClosure v e (Expr_ind' e)
  | IfExpr c e a => HIf c e a (Expr_ind' c) (Expr_ind' e) (opt a)
  | IfMatchExpr vs ms e a =>
    HIfMatch vs ms e a
      ((fix go (l : list (Expr FL * Pattern)) : Forall (fun m => P m.1) l :=
          match l with
          | [] => Forall_nil_2 _
          | m :: l' => Forall_cons_2 _ m l' (Expr_ind' m.1) (go l')
          end) ms)
      (Expr_ind' e) (opt a)
  | IfSomeMatchExpr c e a => HIfSome c e a (Expr_ind' c) (Expr_ind' e) (opt a)
  | CallExpr f args b => HCall f args b (all args)
  end.
End expr_ind.

Module Expr.
Section expr.
Context {FL : Type}.
Notation Expr := (Expr FL).

(** The traversal under binders: [on_var] and [on_bvar] say what becomes of
    a variable and of an index at the given depth. *)
Section traverse.
Variable on_var : nat -> Ident -> Expr.
Variable on_bvar : nat -> Ident -> nat -> Expr.

Fixpoint traverse (d : nat) (e : Expr) : Expr :=
  match e with
  | Var v => on_var d v
  | BVar v u => on_bvar d v u
  | LitExpr l => LitExpr l
  | ReturnExpr e => ReturnExpr (traverse d e)
  | PrefixExpr p e => PrefixExpr p (traverse d e)
  | InfixExpr op e1 e2 => InfixExpr op (traverse d e1) (traverse d e2)
  | BlockExpr b es => BlockExpr b (map (traverse d) es)
  | Let vs e1 e2 => Let vs (traverse d e1) (traverse d e2)
  | IterExpr op vs e1 e2 acc =>
    IterExpr op vs (traverse d e1) (traverse d e2)
      (option_map (fun a => (a.1, traverse d a.2)) acc)
  | Closure v e => Closure v (traverse (S d) e)
  | IfExpr c e a => IfExpr (traverse d c) (traverse d e) (option_map (traverse d) a)
  | IfMatchExpr vs ms e a =>
    IfMatchExpr vs (map (fun m => (traverse d m.1, m.2)) ms) (traverse d e)
      (option_map (traverse d) a)
  | IfSomeMatchExpr c e a =>
    IfSomeMatchExpr (traverse d c) (traverse d e) (option_map (traverse d) a)
  | CallExpr f args b => CallExpr f (map (traverse d) args) b
  end.
End traverse.

(** The conjunction of a test on the variables and indices. *)
Section test.
Variable on_var : nat -> Ident -> bool.
Variable on_bvar : nat -> Ident -> nat -> bool.

Fixpoint forall_vars (d : nat) (e : Expr) : bool :=
  let opt (a : option Expr) := match a with Some a => forall_vars d a | None => true end in
  match e with
  | Var v => on_var d v
  | BVar v u => on_bvar d v u
  | LitExpr _ => true
  | ReturnExpr e | PrefixExpr _ e => forall_vars d e
  | InfixExpr _ e1 e2 | Let _ e1 e2 => forall_vars d e1 && forall_vars d e2
  | BlockExpr _ es => forallb (forall_vars d) es
  | IterExpr _ _ e1 e2 acc =>
    forall_vars d e1 && forall_vars d e2 &&
    match acc with Some (_, a) => forall_vars d a | None => true end
  | Closure _ e => forall_vars (S d) e
  | IfExpr c e a | IfSomeMatchExpr c e a => forall_vars d c && forall_vars d e && opt a
  | IfMatchExpr _ ms e a => forallb (fun m => forall_vars d m.1) ms && forall_vars d e && opt a
  | CallExpr _ args _ => forallb (forall_vars d) args
  end.
End test.

Definition is_free (u : nat) (e : Expr) : bool :=
  forall_vars (fun _ _ => true) (fun d _ j => negb (Nat.eqb j d)) u e.

(** The increment is one whatever [i] is. *)
Definition shift (i d : nat) (e : Expr) : Expr :=
  if Nat.eqb i 0 then e
  else traverse (fun _ v => Var v)
         (fun d v j => if Nat.leb d j then BVar v (j + 1) else BVar v j) d e.

Definition subst (i : nat) (u : Expr) (downgrade : bool) (e : Expr) : Expr :=
  traverse (fun _ v => Var v)
    (fun i v j =>
       match Nat.compare j i with
       | Lt => BVar v j
       | Eq => if downgrade then shift i 0 u else u
       | Gt => BVar v (if downgrade then j - 1 else j)
       end) i e.

Definition apply (e u : Expr) : result Expr Error :=
  match e with
  | Closure _ e => Ok (subst 0 u true e)
  | _ => Err (error_new "apply: expression is not a closure")
  end.

Definition abs (i : nat) (v : string) (e : Expr) : Expr :=
  traverse (fun i id => if String.eqb id v then BVar id i else Var id) (fun _ id j => BVar id j) i e.

Definition closure_expr (v : string) (e : Expr) : Expr :=
  if String.eqb v "_" then e else Closure v (abs 0 v e).

(** [for s in v.iter().rev() { c = c.closure_expr(s) }] *)
Definition close_all (vs : list string) (e : Expr) : Expr := foldr closure_expr e vs.

Definition let_expr (vs : list string) (e : Expr) (self : Expr) : Expr :=
  if bool_decide (vs = ["_"]) then BlockExpr BBlock [e; self]
  else Let vs e (close_all vs self).

Definition iter_expr (op : Iter) (vs : list string) (e : Expr) (acc : option (string * Expr)) (self : Expr)
    : Expr :=
  let c := close_all vs self in
  IterExpr op vs e (match acc with Some (n, _) => closure_expr n c | None => c end) acc.

(** Substitution that keeps the leading closures. *)
Fixpoint psubst (i : nat) (u : Expr) (e : Expr) : Expr :=
  match e with
  | Closure v e => Closure v (psubst i u e)
  | _ => subst i u true e
  end.

Fixpoint propagate_subst (i j : nat) (u : Expr) (e : Expr) : Expr :=
  match e with
  | Closure v e =>
    match j with
    | O => psubst i u e
    | S j' => Closure v (propagate_subst i j' u e)
    end
  | _ => psubst i u e
  end.

(** Below zero the index underflows: a panic when overflow is checked;
    otherwise it wraps to a depth that no expression has. *)
Fixpoint at_depth `{Profile} (i : nat) (e : Expr) : Outcome (option Expr) :=
  match e with
  | Closure _ e =>
    match i with
    | O => if overflow_checks then Panic else Val None
    | S i' => at_depth i' e
    end
  | _ => Val (match i with O => Some e | S _ => None end)
  end.

Definition bvar (v : string) (u : nat) : Expr := BVar v u.
Definition none : Expr := LitExpr Literal.none.
Definition some (l : Literal FL) : Expr := LitExpr (Literal.some l).
Definition call (f : string) (args : list Expr) : Expr := CallExpr f args false.

Definition is_return (e : Expr) : bool := match e with ReturnExpr _ => true | _ => false end.
Definition strip_return (e : Expr) : Expr := match e with ReturnExpr r => r | _ => e end.

Fixpoint literal_vector (args : list Expr) : result (list (Literal FL)) Error :=
  match args with
  | [] => Ok []
  | LitExpr l :: args' =>
    match literal_vector args' with Ok v => Ok (l :: v) | Err e => Err e end
  | _ => Err (error_new "arg is not a literal")
  end.

(** All indices are below the depth plus [k]. *)
Definition lc (k : nat) (e : Expr) : bool :=
  forall_vars (fun _ _ => true) (fun d _ j => Nat.ltb j d) k e.

(** The free variables satisfy [p]. *)
Definition fv_ok (p : string -> bool) (e : Expr) : bool :=
  forall_vars (fun _ v => p v) (fun _ _ _ => true) 0 e.

(** Results of evaluation: a literal, possibly returned. *)
Fixpoint is_value (e : Expr) : bool :=
  match e with LitExpr _ => true | ReturnExpr e => is_value e | _ => false end.

(** Named substitution: the reference for closing and applying. *)
Definition replace (v : string) (u : Expr) (e : Expr) : Expr :=
  traverse (fun _ id => if String.eqb id v then u else Var id) (fun _ id j => BVar id j) 0 e.
End expr.
End Expr.

(** ** Laws of the traversals *)

Section traverse_laws.
Context {FL : Type}.
Implicit Types (e u : Expr FL).

Lemma option_map_ext {A B} (f g : A -> B) o :
  OForall (fun x => f x = g x) o -> option_map f o = option_map g o.
Proof. destruct o; simpl; congruence. Qed.

Lemma OForall_impl {A} (P Q : A -> Prop) o : OForall P o -> (forall x, P x -> Q x) -> OForall Q o.
Proof. destruct o; simpl; auto. Qed.

Lemma forallb_ext_Forall {A B} (f : A -> bool) (g : B -> bool) (h : A -> B) l :
  Forall (fun x => f x = g (h x)) l -> forallb f l = forallb g (map h l).
Proof. induction 1; simpl; congruence. Qed.

Lemma map_ext_Forall' {A B} (f g : A -> B) l :
  Forall (fun x => f x = g x) l -> map f l = map g l.
Proof. induction 1; simpl; congruence. Qed.

Ltac feq := try solve [auto | f_equal; auto | do 2 f_equal; auto | do 3 f_equal; auto].

(** The components of an expression, once an induction has been done. *)
Ltac parts :=
  repeat match goal with
  | |- map _ _ = map _ _ =>
    apply map_ext_Forall'; eapply Forall_impl; [eassumption|]; simpl; intros; feq
  | |- option_map _ _ = option_map _ _ =>
    apply option_map_ext; eapply OForall_impl; [eassumption|]; simpl; intros; feq
  | |- _ && _ = _ && _ => apply f_equal2
  end; auto.

Lemma traverse_traverse f g f' g' d e :
  Expr.traverse f' g' d (Expr.traverse f g d e) =
  Expr.traverse (fun d v => Expr.traverse f' g' d (f d v))
                (fun d v j => Expr.traverse f' g' d (g d v j)) d e.
Proof.
  revert d. induction e using Expr_ind'; intros d; simpl; try done; f_equal; auto;
    rewrite ?map_map; parts.
  all: try destruct acc as [[]|]; try destruct a; simpl in *; feq.
Qed.

Lemma forall_vars_traverse tv tb f g d e :
  Expr.forall_vars tv tb d (Expr.traverse f g d e) =
  Expr.forall_vars (fun d v => Expr.forall_vars tv tb d (f d v))
                   (fun d v j => Expr.forall_vars tv tb d (g d v j)) d e.
Proof.
  revert d. induction e using Expr_ind'; intros d; simpl; try done; parts.
  all: try (symmetry; apply forallb_ext_Forall; eapply Forall_impl; [eassumption|]; simpl; auto; fail).
  all: try destruct acc as [[]|]; try destruct a; simpl in *; auto.
Qed.

(** Two traversals agree on an expression whose variables and indices pass
    a test under which their functions agree. *)
Lemma traverse_ext tv tb f g f' g' d e :
  Expr.forall_vars tv tb d e = true ->
  (forall d v, tv d v = true -> f d v = f' d v) ->
  (forall d v j, tb d v j = true -> g d v j = g' d v j) ->
  Expr.traverse f g d e = Expr.traverse f' g' d e.
Proof.
  intros He Hf Hg. revert d He. induction e using Expr_ind'; intros d He; simpl in *; auto;
    repeat match goal with H : _ && _ = true |- _ => apply andb_true_iff in H as [? ?] end; f_equal; auto.
  all: try match goal with
    H : forallb _ ?l = true, IH : Forall _ ?l |- _ =>
      clear -H IH Hf Hg; induction IH; simpl in *; [done|];
      apply andb_true_iff in H as [? ?]; f_equal; feq end.
  all: try destruct acc as [[]|]; try destruct a; simpl in *; feq.
Qed.

Lemma traverse_id d e :
  Expr.traverse (fun _ v => Var v) (fun _ v j => BVar v j) d e = e.
Proof.
  revert d. induction e using Expr_ind'; intros d; simpl; auto; f_equal; auto.
  all: try (match goal with H : Forall _ _ |- _ => induction H as [|[] ? ?]; simpl in *; feq end).
  all: try (match goal with H : Forall _ _ |- _ => induction H; simpl in *; feq end).
  all: try destruct acc as [[]|]; try destruct a; simpl in *; feq.
Qed.

Lemma forall_vars_impl tv tb tv' tb' d e :
  (forall d v, tv d v = true -> tv' d v = true) ->
  (forall d v j, tb d v j = true -> tb' d v j = true) ->
  Expr.forall_vars tv tb d e = true -> Expr.forall_vars tv' tb' d e = true.
Proof.
  intros Hv Hb. revert d. induction e using Expr_ind'; intros d; simpl; auto; intros;
    repeat match goal with
    | H : _ && _ = true |- _ => apply andb_true_iff in H as [? ?]
    | |- _ && _ = true => apply andb_true_iff; split
    end; auto.
  all: try match goal with
    H : forallb _ ?l = true, IH : Forall _ ?l |- _ =>
      clear -H IH Hv Hb; induction IH; simpl in *; [done|];
      apply andb_true_iff in H as [? ?]; apply andb_true_iff; auto end.
  all: try destruct acc as [[]|]; try destruct a; simpl in *; auto.
Qed.

Lemma forall_vars_depth tv tb k d e :
  Expr.forall_vars tv tb (k + d) e =
  Expr.forall_vars (fun d => tv (k + d)) (fun d => tb (k + d)) d e.
Proof.
  revert d. induction e using Expr_ind'; intros d; simpl; try done; parts.
  all: try match goal with IH : Forall _ ?l |- forallb _ ?l = forallb _ ?l =>
    clear -IH; induction IH; simpl; [done|]; f_equal; auto end.
  all: try destruct acc as [[]|]; try destruct a; simpl in *; auto.
  rewrite <- IHe. f_equal. lia.
Qed.
End traverse_laws.

(** ** Closed expressions and substitution *)

Section subst_laws.
Context {FL : Type}.
Implicit Types (e u : Expr FL).

Lemma shift_lc i e : Expr.lc 0 e = true -> Expr.shift i 0 e = e.
Proof.
  intros He. unfold Expr.shift. destruct (Nat.eqb i 0); [done|].
  rewrite <- (traverse_id 0 e) at 2. eapply traverse_ext; [exact He|done|].
  intros d v j Hj. simpl in Hj. apply Nat.ltb_lt in Hj.
  destruct (Nat.leb_spec d j); [lia|done].
Qed.

(** Substituting at or above the level of a locally closed expression. *)
Lemma subst_lc k e u b : Expr.lc k e = true -> Expr.subst k u b e = e.
Proof.
  intros He. unfold Expr.subst. rewrite <- (traverse_id k e) at 2.
  eapply traverse_ext; [exact He|done|].
  intros d v j Hj. simpl in Hj. apply Nat.ltb_lt in Hj.
  destruct (Nat.compare_spec j d); [lia|done|lia].
Qed.

(** Closing over a variable, then substituting, replaces the variable. *)
Lemma subst_abs v e u :
  Expr.lc 0 e = true -> Expr.lc 0 u = true ->
  Expr.subst 0 u true (Expr.abs 0 v e) = Expr.replace v u e.
Proof.
  intros He Hu. unfold Expr.subst, Expr.abs, Expr.replace. rewrite traverse_traverse.
  eapply traverse_ext; [exact He| |].
  - intros d w _. destruct (String.eqb w v); [|done]. simpl.
    rewrite Nat.compare_refl. by apply shift_lc.
  - intros d w j Hj. simpl in *. apply Nat.ltb_lt in Hj.
    destruct (Nat.compare_spec j d); [lia|done|lia].
Qed.

Lemma lc_weaken k k' e : k <= k' -> Expr.lc k e = true -> Expr.lc k' e = true.
Proof.
  intros Hk. unfold Expr.lc. rewrite <- (Nat.add_0_r k), <- (Nat.add_0_r k').
  rewrite !(forall_vars_depth _ _ _ 0). apply forall_vars_impl; [done|].
  intros d _ j. rewrite !Nat.ltb_lt. lia.
Qed.

Lemma lc_abs v e : Expr.lc 0 e = true -> Expr.lc 1 (Expr.abs 0 v e) = true.
Proof.
  unfold Expr.lc, Expr.abs. rewrite (forall_vars_depth _ _ 1 0), forall_vars_traverse.
  apply forall_vars_impl.
  - intros d w _. destruct (String.eqb w v); cbn [Expr.forall_vars]; [|done]. apply Nat.ltb_lt. lia.
  - intros d w j Hj. cbn [Expr.forall_vars]. apply Nat.ltb_lt in Hj. apply Nat.ltb_lt. lia.
Qed.

Lemma lc_closure_expr v e : Expr.lc 0 e = true -> Expr.lc 0 (Expr.closure_expr v e) = true.
Proof. unfold Expr.closure_expr. destruct (String.eqb v "_"); [done|]. apply lc_abs. Qed.

Lemma lc_close_all vs e : Expr.lc 0 e = true -> Expr.lc 0 (Expr.close_all vs e) = true.
Proof. intros He. induction vs; simpl; auto using lc_closure_expr. Qed.

Lemma apply_closure_expr v e u :
  v <> "_" -> Expr.lc 0 e = true -> Expr.lc 0 u = true ->
  Expr.apply (Expr.closure_expr v e) u = Ok (Expr.replace v u e).
Proof.
  intros Hv He Hu. unfold Expr.closure_expr. destruct (String.eqb_spec v "_"); [done|].
  simpl. by rewrite subst_abs.
Qed.

(** Free variables. *)
Lemma fv_abs (p : string -> bool) v e i :
  Expr.forall_vars (fun _ w => String.eqb w v || p w) (fun _ _ _ => true) i e = true ->
  Expr.forall_vars (fun _ w => p w) (fun _ _ _ => true) i (Expr.abs i v e) = true.
Proof.
  unfold Expr.abs. rewrite forall_vars_traverse. apply forall_vars_impl; [|done].
  intros d w. destruct (String.eqb w v); simpl; done.
Qed.

Lemma fv_depth (p : string -> bool) d e :
  Expr.forall_vars (fun _ w => p w) (fun _ _ _ => true) d e = Expr.fv_ok p e.
Proof.
  unfold Expr.fv_ok. rewrite <- (Nat.add_0_r d). by rewrite forall_vars_depth.
Qed.

Lemma fv_closure_expr (p : string -> bool) v e :
  Expr.fv_ok (fun w => (String.eqb w v && negb (String.eqb v "_")) || p w) e = true ->
  Expr.fv_ok p (Expr.closure_expr v e) = true.
Proof.
  unfold Expr.closure_expr. destruct (String.eqb_spec v "_") as [->|].
  - unfold Expr.fv_ok. apply forall_vars_impl; [|done]. intros d w. by rewrite andb_false_r.
  - intros H. unfold Expr.fv_ok. simpl. rewrite fv_depth. apply fv_abs.
    unfold Expr.fv_ok in H. eapply forall_vars_impl; [| |exact H]; [|done].
    intros d w. simpl. by rewrite andb_true_r.
Qed.

Lemma lc_value e : Expr.is_value e = true -> Expr.lc 0 e = true.
Proof. unfold Expr.lc. induction e using Expr_ind'; simpl; try done; auto. Qed.

Lemma fv_value p e : Expr.is_value e = true -> Expr.fv_ok p e = true.
Proof. unfold Expr.fv_ok. induction e using Expr_ind'; simpl; try done; auto. Qed.

Lemma lc_subst k u e :
  Expr.lc 0 u = true -> Expr.lc (S k) e = true -> Expr.lc k (Expr.subst k u true e) = true.
Proof.
  intros Hu. unfold Expr.lc, Expr.subst. change (S k) with (1 + k).
  rewrite forall_vars_depth, forall_vars_traverse.
  apply forall_vars_impl; [done|]. intros d w j Hj. apply Nat.ltb_lt in Hj.
  destruct (Nat.compare_spec j d); cbn [Expr.forall_vars].
  - rewrite shift_lc by done. by apply (lc_weaken 0 d); [lia|].
  - apply Nat.ltb_lt. lia.
  - apply Nat.ltb_lt. lia.
Qed.
End subst_laws.

(** ** Properties *)

(** Closing a variable of a locally closed expression and applying the
    closure to a locally closed argument is the substitution of the argument
    for the variable. *)
Theorem apply_closure_is_substitution {FL} (v : string) (e u : Expr FL) :
  v <> "_" -> Expr.lc 0 e = true -> Expr.lc 0 u = true ->
  Expr.apply (Expr.closure_expr v e) u = Ok (Expr.replace v u e).
Proof. apply apply_closure_expr. Qed.

Lemma apply_closure_is_substitution_witness :
  let e : Expr FlatLiteral :=
    Closure "y" (InfixExpr Plus (Var "x") (InfixExpr Plus (BVar "y" 0) (Var "z"))) in
  let u : Expr FlatLiteral := Closure "w" (BVar "w" 0) in
  Expr.apply (Expr.closure_expr "x" e) u =
  Ok (Closure "y" (InfixExpr Plus u (InfixExpr Plus (BVar "y" 0) (Var "z")))).
Proof.
  intros e u. refine (apply_closure_is_substitution "x" e u _ _ _); [discriminate|reflexivity..].
Defined.

(** The index under a substitution is shifted by one and not by the depth
    it is moved to: below two binders, an argument with a loose index is
    captured. *)
Theorem subst_shifts_by_one {FL} (v w : string) :
  Expr.subst 0 (BVar v 0) true (Closure w (Closure w (BVar v 2))) =
  (Closure w (Closure w (BVar v 1)) : Expr FL).
Proof. reflexivity. Qed.
