(* ===== verification/Interpret.v ===== *)
(** * Builtin operations (src/src/armour-lang/src/interpret.rs, first part)

    The operations of the interpreter on literals: prefix and infix
    operators, the builtin functions by number of arguments, and matching
    against patterns.  Code outside the repository (the regular expression
    engine, name resolution, base64, URL parsing), the clock, and the Unicode
    tables of the standard library are the fields of [Lib].

    The theorems: the operators on integers stay in range and fail exactly on
    division by zero; every builtin of the data plane that the checker accepts
    returns a literal of the declared type or panics on integer overflow, with
    the exceptions the theorem names. *)

From Stdlib Require Import ZArith Lia String Ascii List.
From stdpp Require Import base tactics list strings sets.
From S2P Require Import Prelude.
From S2P Require Import Ordered.
From S2P Require Import Strings.
From S2P Require Import Labels.
From S2P Require Import Syntax.
From S2P Require Import Types.
From S2P Require Import Net.
From S2P Require Import Literals.
From S2P Require Import FnHeaders.
From S2P Require Import Expressions.

Local Open Scope string_scope.
Local Open Scope list_scope.

(** ** What the interpreter calls outside the repository *)

(** What the name service answers at some moment ([dns_lookup]). *)
Class NameService := {
  lookup_addr : IpAddr -> option string;
  lookup_host : string -> option (list IpAddr);
}.
Class Lib := {
  (** Seconds since the epoch; [None] when the clock is before it. *)
  now : option Z;
  to_lowercase : string -> string;
  to_uppercase : string -> string;
  from_utf8_lossy : bytes -> string;
  base64_encode : bytes -> string;
  base64_decode : string -> option bytes;
  Lib_names :: NameService;
  url_query_pairs : string -> option (list (string * string));
  regex_escape : string -> string;
  regex_is_match : string -> string -> bool;
  regex_capture_names : string -> list (option string);
  (** The groups of a match by name: [None] for a group that took no part. *)
  regex_captures : string -> string -> option (string -> option string);
}.

(** ** The trait [TInterpret] on flat literals *)
Class TInterpret (FL : Type) := {
  flat_eval_prefix : FL -> Prefix -> Outcome (option (Literal FL));
  flat_eval_infix : FL -> Infix -> FL -> Outcome (option (Literal FL));
  flat_eval_call0 : string -> Outcome (option (Literal FL));
  flat_eval_call1 : FL -> string -> Outcome (option (Literal FL));
  flat_eval_call2 : FL -> string -> FL -> Outcome (option (Literal FL));
  flat_eval_call3 : FL -> string -> FL -> FL -> Outcome (option (Literal FL));
  flat_eval_call4 : FL -> string -> FL -> FL -> FL -> Outcome (option (Literal FL));
}.

(** Pure results. *)
Definition ret {A} (a : A) : Outcome (option A) := Val (Some a).

(** ** Regular expressions of patterns *)
Module PolicyRegex.
Section regex.
Context `{Lib}.
(** [PolicyRegex::from_pat] compiles this string. *)
Definition source (r : PolicyRegex) : Outcome string :=
  s ← unwrap (Pat.to_regex_str regex_escape false r); mret ("^" ^^ s ^^ "$").
Definition is_match (r : PolicyRegex) (s : string) : Outcome bool :=
  re ← source r; mret (regex_is_match re s).
Definition capture_names (r : PolicyRegex) : Outcome (list (option string)) :=
  re ← source r; mret (regex_capture_names re).
Definition captures (r : PolicyRegex) (s : string) : Outcome (option (string -> option string)) :=
  re ← source r; mret (regex_captures re s).
End regex.
End PolicyRegex.

(** ** Flat literals of the data plane *)

Module DPInterpret.
Section interpret.
Context `{Profile} `{Lib}.

(** [Not] returns its argument. *)
Definition eval_prefix (self : FlatLiteral) (p : Prefix) : Outcome (option DPLiteral) :=
  match p, self with
  | Not, LBool b => ret (FlatLit (LBool b))
  | Minus, LInt i => n ← arith_i64 (- i); ret (FlatLit (LInt n))
  | _, _ => Val None
  end.

Definition eval_infix (self : FlatLiteral) (op : Infix) (other : FlatLiteral)
    : Outcome (option DPLiteral) :=
  let int (o : Outcome Z) := n ← o; ret (FlatLit (LInt n)) in
  let bool b := ret (FlatLit (LBool b)) in
  match op, self, other with
  | Equal, _, _ => bool (FlatLiteral.eqb self other)
  | NotEqual, _, _ => bool (negb (FlatLiteral.eqb self other))
  | Plus, LInt i, LInt j => int (arith_i64 (i + j))
  | IMinus, LInt i, LInt j => int (arith_i64 (i - j))
  | Divide, LInt i, LInt j => if Z.eqb j 0 then Val None else int (div_i64 i j)
  | Multiply, LInt i, LInt j => int (arith_i64 (i * j))
  | Remainder, LInt i, LInt j => if Z.eqb j 0 then Val None else int (rem_i64 i j)
  | LessThan, LInt i, LInt j => bool (Z.ltb i j)
  | LessThanEqual, LInt i, LInt j => bool (Z.leb i j)
  | GreaterThan, LInt i, LInt j => bool (Z.gtb i j)
  | GreaterThanEqual, LInt i, LInt j => bool (Z.geb i j)
  | And, LBool i, LBool j => bool (i && j)
  | Or, LBool i, LBool j => bool (i || j)
  | ConcatStr, LStr i, LStr j => ret (FlatLit (LStr (i ^^ j)))
  | _, _, _ => Val None
  end.

Definition eval_call0 (f : string) : Outcome (option DPLiteral) :=
  let request m := ret (Literal.http_request (HttpRequest.of_method m)) in
  if f =? "HttpRequest::GET" then ret (Literal.http_request HttpRequest.default)
  else if f =? "HttpRequest::POST" then request POST
  else if f =? "HttpRequest::PUT" then request PUT
  else if f =? "HttpRequest::DELETE" then request DELETE
  else if f =? "HttpRequest::HEAD" then request HEAD
  else if f =? "HttpRequest::OPTIONS" then request OPTIONS
  else if f =? "HttpRequest::CONNECT" then request CONNECT
  else if f =? "HttpRequest::PATCH" then request PATCH
  else if f =? "HttpRequest::TRACE" then request TRACE
  else if f =? "ID::default" then ret (Literal.id ID.default)
  else if f =? "Connection::default" then ret (Literal.connection Connection.default)
  else if f =? "IpAddr::localhost" then ret (Literal.ip_addr IpAddr.localhost)
  else if f =? "System::getCurrentTime" then
    t ← unwrap now; ret (FlatLit (LInt (wrap_i64 t)))
  else Val None.

(** [eval_call1], by the kind of the argument. *)
Definition call1_int (f : string) (i : Z) : Outcome (option DPLiteral) :=
  if f =? "i64::abs" then n ← arith_i64 (Z.abs i); ret (FlatLit (LInt n))
  else if f =? "i64::to_str" then ret (FlatLit (LStr (i64_to_string i)))
  else if f =? "HttpResponse::new" then ret (HttpResponse.literal (as_u16 i))
  else Val None.

Definition call1_str (f s : string) : Outcome (option DPLiteral) :=
  if f =? "str::len" then ret (FlatLit (LInt (str_len s)))
  else if f =? "str::to_lowercase" then ret (FlatLit (LStr (to_lowercase s)))
  else if f =? "str::to_uppercase" then ret (FlatLit (LStr (to_uppercase s)))
  else if f =? "str::trim_start" then ret (FlatLit (LStr (trim_start s)))
  else if f =? "str::trim_end" then ret (FlatLit (LStr (trim_end s)))
  else if f =? "str::as_bytes" then ret (FlatLit (LData (as_bytes s)))
  else if f =? "str::to_base64" then ret (FlatLit (LStr (base64_encode (as_bytes s))))
  else if f =? "IpAddr::lookup" then
    ret (match lookup_host s with
         | Some res =>
           Literal.some (LList (map (fun ip => FlatLit (LIpAddr ip)) (List.filter IpAddr.is_ipv4 res)))
         | None => Literal.none
         end)
  else Val None.

Definition call1_data (f : string) (d : bytes) : Outcome (option DPLiteral) :=
  if f =? "str::from_utf8" then ret (FlatLit (LStr (from_utf8_lossy d)))
  else if f =? "data::to_base64" then ret (FlatLit (LStr (base64_encode d)))
  else if f =? "data::len" then ret (FlatLit (LInt (Z.of_nat (length d))))
  else Val None.

Definition call1_request (f : string) (req : HttpRequest) : Outcome (option DPLiteral) :=
  if f =? "HttpRequest::connection" then ret (HttpRequest.connection req)
  else if f =? "HttpRequest::from" then ret (HttpRequest.from_lit req)
  else if f =? "HttpRequest::to" then ret (HttpRequest.to_lit req)
  else if f =? "HttpRequest::from_to" then ret (HttpRequest.from_to req)
  else if f =? "HttpRequest::method" then ret (HttpRequest.method req)
  else if f =? "HttpRequest::version" then ret (HttpRequest.version req)
  else if f =? "HttpRequest::path" then ret (HttpRequest.path req)
  else if f =? "HttpRequest::route" then ret (HttpRequest.route req)
  else if f =? "HttpRequest::query" then ret (HttpRequest.query req)
  else if f =? "HttpRequest::query_pairs" then ret (HttpRequest.query_pairs url_query_pairs req)
  else if f =? "HttpRequest::header_pairs" then ret (HttpRequest.header_pairs req)
  else if f =? "HttpRequest::headers" then ret (HttpRequest.headers req)
  else Val None.

Definition call1_response (f : string) (res : HttpResponse) : Outcome (option DPLiteral) :=
  if f =? "HttpResponse::connection" then ret (HttpResponse.connection res)
  else if f =? "HttpResponse::from" then ret (HttpResponse.from_lit res)
  else if f =? "HttpResponse::to" then ret (HttpResponse.to_lit res)
  else if f =? "HttpResponse::from_to" then ret (HttpResponse.from_to res)
  else if f =? "HttpResponse::status" then ret (HttpResponse.status res)
  else if f =? "HttpResponse::version" then ret (HttpResponse.version res)
  else if f =? "HttpResponse::reason" then ret (HttpResponse.reason res)
  else if f =? "HttpResponse::header_pairs" then ret (HttpResponse.header_pairs res)
  else if f =? "HttpResponse::headers" then ret (HttpResponse.headers res)
  else Val None.

Definition call1_ip (f : string) (ip : IpAddr) : Outcome (option DPLiteral) :=
  if f =? "IpAddr::octets" then ret (Literal.of_ip_addr ip)
  else if f =? "IpAddr::reverse_lookup" then
    ret (match lookup_addr ip with
         | Some res => Literal.some (FlatLit (LStr res))
         | None => Literal.none
         end)
  else Val None.

Definition call1_id (f : string) (i : ID) : Outcome (option DPLiteral) :=
  if f =? "ID::labels" then ret (ID.labels_lit i)
  else if f =? "ID::hosts" then ret (ID.hosts_lit i)
  else if f =? "ID::ips" then ret (ID.ips_lit i)
  else if f =? "ID::port" then ret (ID.port_lit i)
  else Val None.

Definition call1_connection (f : string) (c : Connection) : Outcome (option DPLiteral) :=
  if f =? "Connection::from_to" then ret (Connection.from_to c)
  else if f =? "Connection::from" then ret (Connection.from_lit c)
  else if f =? "Connection::to" then ret (Connection.to_lit c)
  else if f =? "Connection::number" then ret (Connection.number_lit c)
  else Val None.

Definition call1_label (f : string) (l : Label) : Outcome (option DPLiteral) :=
  if f =? "Label::parts" then
    ret (Literal.of_option ((fun v => LList (map Literal.str v)) <$> Label.parts l))
  else Val None.

Definition eval_call1 (self : FlatLiteral) (f : string) : Outcome (option DPLiteral) :=
  if f =? "option::Some" then ret (Literal.some (FlatLit self))
  else match self with
  | LInt i => call1_int f i
  | LStr s => call1_str f s
  | LData d => call1_data f d
  | LHttpRequest req => call1_request f req
  | LHttpResponse res => call1_response f res
  | LIpAddr ip => call1_ip f ip
  | LID i => call1_id f i
  | LConnection c => call1_connection f c
  | LLabel l => call1_label f l
  | _ => Val None
  end.

(** [eval_call2], by the kind of the first argument. *)
Definition call2_int (f : string) (i j : Z) : Outcome (option DPLiteral) :=
  if f =? "i64::pow" then n ← arith_i64 (Z.pow i (as_u32 j)); ret (FlatLit (LInt n))
  else if f =? "i64::min" then ret (FlatLit (LInt (Z.min i j)))
  else if f =? "i64::max" then ret (FlatLit (LInt (Z.max i j)))
  else Val None.

Definition call2_str (f i : string) (other : FlatLiteral) : Outcome (option DPLiteral) :=
  match other with
  | LStr j =>
    if f =? "str::starts_with" then ret (FlatLit (LBool (starts_with i j)))
    else if f =? "str::ends_with" then ret (FlatLit (LBool (ends_with i j)))
    else if f =? "str::contains" then ret (FlatLit (LBool (contains i j)))
    else Val None
  | LRegex r =>
    if f =? "str::is_match" then b ← PolicyRegex.is_match r i; ret (FlatLit (LBool b))
    else Val None
  | _ => Val None
  end.

Definition call2_request (f : string) (req : HttpRequest) (other : FlatLiteral)
    : Outcome (option DPLiteral) :=
  match other with
  | LStr q =>
    if f =? "HttpRequest::set_path" then ret (Literal.http_request (HttpRequest.set_path req q))
    else if f =? "HttpRequest::set_query" then ret (Literal.http_request (HttpRequest.set_query req q))
    else if f =? "HttpRequest::header" then ret (HttpRequest.header req q)
    else if f =? "HttpRequest::unique_header" then ret (HttpRequest.unique_header req q)
    else Val None
  | LConnection c =>
    if f =? "HttpRequest::set_connection" then
      ret (Literal.http_request (HttpRequest.set_connection req c))
    else Val None
  | LID i =>
    if f =? "HttpRequest::set_from" then ret (Literal.http_request (HttpRequest.set_from req i))
    else if f =? "HttpRequest::set_to" then ret (Literal.http_request (HttpRequest.set_to req i))
    else Val None
  | _ => Val None
  end.

Definition call2_response (f : string) (res : HttpResponse) (other : FlatLiteral)
    : Outcome (option DPLiteral) :=
  match other with
  | LStr q =>
    if f =? "HttpResponse::header" then ret (HttpResponse.header res q)
    else if f =? "HttpResponse::unique_header" then ret (HttpResponse.unique_header res q)
    else if f =? "HttpResponse::set_reason" then
      ret (Literal.http_response (HttpResponse.set_reason res q))
    else Val None
  | LConnection c =>
    if f =? "HttpResponse::set_connection" then
      ret (Literal.http_response (HttpResponse.set_connection res c))
    else Val None
  | LID i =>
    if f =? "HttpResponse::set_from" then ret (Literal.http_response (HttpResponse.set_from res i))
    else if f =? "HttpResponse::set_to" then ret (Literal.http_response (HttpResponse.set_to res i))
    else Val None
  | _ => Val None
  end.

Definition call2_id (f : string) (i : ID) (other : FlatLiteral) : Outcome (option DPLiteral) :=
  match other with
  | LLabel l =>
    if f =? "ID::find_label" then ret (Literal.of_option (Literal.label <$> ID.find_label i l))
    else if f =? "ID::has_label" then ret (Literal.bool (ID.has_label i l))
    else if f =? "ID::add_label" then ret (FlatLit (LID (ID.add_label i l)))
    else Val None
  | LStr h =>
    if f =? "ID::has_host" then ret (Literal.bool (ID.has_host i h))
    else if f =? "ID::add_host" then ret (FlatLit (LID (ID.add_host i h)))
    else Val None
  | LIpAddr ip =>
    if f =? "ID::has_ip" then ret (Literal.bool (ID.has_ip i ip))
    else if f =? "ID::add_ip" then ret (FlatLit (LID (ID.add_ip i ip)))
    else Val None
  | LInt q => if f =? "ID::set_port" then ret (FlatLit (LID (ID.set_port i (as_u16 q)))) else Val None
  | _ => Val None
  end.

Definition call2_connection (f : string) (c : Connection) (other : FlatLiteral)
    : Outcome (option DPLiteral) :=
  match other with
  | LID i =>
    if f =? "Connection::set_from" then ret (Literal.connection (Connection.set_from c i))
    else if f =? "Connection::set_to" then ret (Literal.connection (Connection.set_to c i))
    else Val None
  | LInt n =>
    if f =? "Connection::set_number" then ret (Literal.connection (Connection.set_number c n))
    else Val None
  | _ => Val None
  end.

Definition call2_label (f : string) (i j : Label) : Outcome (option DPLiteral) :=
  if f =? "Label::captures" then
    ret (Literal.of_option (Literal.of_match <$> Label.match_with i j))
  else if f =? "Label::concat" then ret (Literal.label (Label.concat i j))
  else if f =? "Label::is_match" then ret (Literal.bool (Label.matches_with i j))
  else Val None.

Definition eval_call2 (self : FlatLiteral) (f : string) (other : FlatLiteral)
    : Outcome (option DPLiteral) :=
  match self, other with
  | LInt i, LInt j => call2_int f i j
  | LStr i, _ => call2_str f i other
  | LRegex r, LStr s =>
    if f =? "regex::is_match" then b ← PolicyRegex.is_match r s; ret (FlatLit (LBool b))
    else Val None
  | LHttpRequest req, _ => call2_request f req other
  | LHttpResponse res, _ => call2_response f res other
  | LID i, _ => call2_id f i other
  | LConnection c, _ => call2_connection f c other
  | LLabel i, LLabel j => call2_label f i j
  | _, _ => Val None
  end.

Definition eval_call3 (self : FlatLiteral) (f : string) (l1 l2 : FlatLiteral)
    : Outcome (option DPLiteral) :=
  match self, l1, l2 with
  | LHttpRequest req, LStr h, LData v =>
    if f =? "HttpRequest::set_header" then
      ret (Literal.http_request (HttpRequest.set_header req h v))
    else Val None
  | LHttpResponse res, LStr h, LData v =>
    if f =? "HttpResponse::set_header" then
      ret (Literal.http_response (HttpResponse.set_header res h v))
    else Val None
  | LID f', LID t, LInt n =>
    if f =? "Connection::new" then ret (Connection.literal f' t n) else Val None
  | _, _, _ => Val None
  end.

Definition eval_call4 (self : FlatLiteral) (f : string) (l1 l2 l3 : FlatLiteral)
    : Outcome (option DPLiteral) :=
  match self, l1, l2, l3 with
  | LInt a, LInt b, LInt c, LInt d =>
    if f =? "IpAddr::from" then
      ret (FlatLit (LIpAddr (IpAddr.from_octets (as_u8 a) (as_u8 b) (as_u8 c) (as_u8 d))))
    else Val None
  | _, _, _, _ => Val None
  end.
End interpret.
End DPInterpret.

#[export] Instance DP_TInterpret `{Profile} `{Lib} : TInterpret FlatLiteral := {
  flat_eval_prefix := DPInterpret.eval_prefix;
  flat_eval_infix := DPInterpret.eval_infix;
  flat_eval_call0 := DPInterpret.eval_call0;
  flat_eval_call1 := DPInterpret.eval_call1;
  flat_eval_call2 := DPInterpret.eval_call2;
  flat_eval_call3 := DPInterpret.eval_call3;
  flat_eval_call4 := DPInterpret.eval_call4;
}.

(** ** Literals *)

Module LitInterpret.
Section interpret.
Context {FT FL : Type} `{TFlatTyp FT} `{TFlatLiteral FT FL} `{TInterpret FL}.
Notation Literal := (Literal FL).

Definition eval_prefix (self : Literal) (p : Prefix) : Outcome (option Literal) :=
  match self with FlatLit fl => flat_eval_prefix fl p | _ => Val None end.

Definition eval_infix (self : Literal) (op : Infix) (other : Literal) : Outcome (option Literal) :=
  match self, other with
  | FlatLit fl, FlatLit other => flat_eval_infix fl op other
  | _, _ =>
    match op, self, other with
    | Concat, LList i, LList j => ret (LList (i ++ j))
    | In_, _, LList l => ret (VecSet.contains l self)
    | _, _, _ => Val None
    end
  end.

(** [l.get(i)] for a [usize]. *)
Definition get_usize {A} (l : list A) (i : Z) : option A :=
  if Z.ltb i (Z.of_nat (length l)) then l !! Z.to_nat i else None.

Definition eval_call1 (self : Literal) (f : string) : Outcome (option Literal) :=
  match self with
  | FlatLit fl => flat_eval_call1 fl f
  | LList l =>
    if f =? "list::len" then ret (Literal.int (Z.of_nat (length l)))
    else if f =? "list::reduce" then
      match l with
      | v :: _ =>
        ret (if forallb (fun w => Literal.eqb v w) l then Literal.some v else Literal.none)
      | [] => ret Literal.none
      end
    else Val None
  | LTuple t =>
    if f =? "option::is_none" then ret (Literal.bool (Nat.eqb (length t) 0))
    else if f =? "option::is_some" then ret (Literal.bool (Nat.eqb (length t) 1))
    else match parse_usize f with Some i => Val (get_usize t i) | None => Val None end
  end.

Definition eval_call2 (self : Literal) (f : string) (other : Literal) : Outcome (option Literal) :=
  match self, other with
  | FlatLit fl, FlatLit other => flat_eval_call2 fl f other
  | LList i, LList j =>
    if f =? "list::is_subset" then ret (VecSet.is_subset i j)
    else if f =? "list::is_disjoint" then ret (VecSet.is_disjoint i j)
    else if f =? "list::difference" then ret (VecSet.difference i j)
    else if f =? "list::intersection" then ret (VecSet.intersection i j)
    else Val None
  | _, _ => Val None
  end.

Definition eval_call3 (self : Literal) (f : string) (l1 l2 : Literal) : Outcome (option Literal) :=
  match self, l1, l2 with
  | FlatLit fl, FlatLit l1, FlatLit l2 => flat_eval_call3 fl f l1 l2
  | _, _, _ => Val None
  end.

Definition eval_call4 (self : Literal) (f : string) (l1 l2 l3 : Literal) : Outcome (option Literal) :=
  match self, l1, l2, l3 with
  | FlatLit fl, FlatLit l1, FlatLit l2, FlatLit l3 => flat_eval_call4 fl f l1 l2 l3
  | _, _, _, _ => Val None
  end.

(** [TExprInterpreter::eval_call]: the builtins by number of arguments, all
    of them literals. *)
Definition type_error (n : string) : Error :=
  mkError "eval, call({}): type error" [n].

Definition eval_call (f : string) (args : list (Expr FL)) : Outcome (Expr FL) :=
  let result (n : string) (o : Outcome (option Literal)) : Outcome (Expr FL) :=
    r ← o; match r with Some l => Val (LitExpr l) | None => Fail (type_error n) end in
  match args with
  | [] => result "0" (flat_eval_call0 f)
  | [LitExpr l1] => result "1" (eval_call1 l1 f)
  | [LitExpr l1; LitExpr l2] => result "2" (eval_call2 l1 f l2)
  | [LitExpr l1; LitExpr l2; LitExpr l3] => result "3" (eval_call3 l1 f l2 l3)
  | [LitExpr l1; LitExpr l2; LitExpr l3; LitExpr l4] => result "4" (eval_call4 l1 f l2 l3 l4)
  | _ => Fail (mkError "eval, call ({}): {}: {:?}" [f])
  end.
End interpret.
End LitInterpret.

(** ** Pattern matching *)

Module PatternMatch.
Section matching.
Context {FT FL : Type} `{TFlatTyp FT} `{TFlatLiteral FT FL} `{Lib}.
Notation Expr := (Expr FL).
(** The bindings of a match; [None] is a failed match. *)
Notation Bindings := (option (BTreeMap string Expr)).

(** The captured groups, by name; [None] when the text of a typed group
    does not parse.  A group that took no part in the match panics. *)
Fixpoint capture_loop (cap : string -> option string) (names : list string)
    (m : BTreeMap string Expr) : Outcome Bindings :=
  match names with
  | [] => Val (Some m)
  | name :: names' =>
    match_str ← unwrap (cap name);
    let '(s, a) := Pat.strip_as name in
    let value : option Expr :=
      match a with
      | AsI64 => LitExpr ∘ Literal.int <$> parse_i64 match_str
      | AsBase64 => LitExpr ∘ Literal.data <$> base64_decode match_str
      | AsStr => Some (LitExpr (Literal.str match_str))
      end in
    match value with
    | Some e => capture_loop cap names' (BTreeMap.insert s e m)
    | None => Val None
    end
  end.

Definition perform_regex_match (self : Expr) (re : PolicyRegex) : Outcome (option (Expr * Bindings)) :=
  match self with
  | ReturnExpr _ => ret (self, None)
  | LitExpr (FlatLit fl) =>
    match flat_dest_str fl with
    | None => Val None
    | Some s =>
      names ← PolicyRegex.capture_names re;
      let names := omap (fun x => x) names in
      match names with
      | [] =>
        b ← PolicyRegex.is_match re s;
        ret (self, if (b : bool) then Some [] else None)
      | _ =>
        cap ← PolicyRegex.captures re s;
        match cap with
        | Some cap => m ← capture_loop cap names []; ret (self, m)
        | None => ret (self, None)
        end
      end
    end
  | _ => Val None
  end.

Definition perform_label_match (self : Expr) (label : Label) : option (Expr * Bindings) :=
  match self with
  | ReturnExpr _ => Some (self, None)
  | LitExpr (FlatLit fl) =>
    match flat_dest_label fl with
    | None => None
    | Some l =>
      Some (self,
        match Label.match_with label l with
        | Some m =>
          Some (BTreeMap.collect (map (fun kv => (kv.1, LitExpr (Literal.str kv.2))) (Match.to_vec m)))
        | None => None
        end)
    end
  | _ => None
  end.

Definition perform_match (self : Expr) (p : Pattern) : Outcome (option (Expr * Bindings)) :=
  match p with
  | RegexPattern re => perform_regex_match self re
  | LabelPattern label => Val (perform_label_match self label)
  end.
End matching.
End PatternMatch.

(** ** Types of literals *)

(** The literals of a type; [!] stands for any type, and an option of unknown
    content for any option. *)
Fixpoint inhabits (t : DPTyp) (l : DPLiteral) : bool :=
  match t, l with
  | Flat TReturn, _ => true
  | Flat ft, FlatLit fl => bool_decide (FlatLiteral.typ fl = ft)
  | ListT t, LList ls => forallb (inhabits t) ls
  | Tuple ts, LTuple ls =>
    match ts, ls with
    | [], [_] | [_], [] => true
    | _, _ =>
      (fix all2 (ts : list DPTyp) (ls : list DPLiteral) : bool :=
         match ts, ls with
         | [], [] => true
         | t :: ts', l :: ls' => inhabits t l && all2 ts' ls'
         | _, _ => false
         end) ts ls
    end
  | _, _ => false
  end.

Fixpoint inhabit_all (ts : list DPTyp) (ls : list DPLiteral) : bool :=
  match ts, ls with
  | [], [] => true
  | t :: ts', l :: ls' => inhabits t l && inhabit_all ts' ls'
  | _, _ => false
  end.

(** The builtins that can panic: on overflow, on a clock before the epoch, on
    a character class the parser does not produce. *)
Definition may_panic (f : string) : bool :=
  existsb (String.eqb f)
    ["i64::abs"; "i64::pow"; "System::getCurrentTime"; "str::is_match"; "regex::is_match"].

Section builtins.
Context `{Profile} `{Lib}.

(** Applied to arguments of the types of its signature, the builtin returns
    a literal of its result type. *)
Definition sound (f : string) (tys : list DPTyp) (ty : DPTyp) : Prop :=
  forall lits, inhabit_all tys lits = true ->
  match LitInterpret.eval_call f (map LitExpr lits) with
  | Val (LitExpr r) => inhabits ty r = true
  | Panic => may_panic f = true
  | _ => False
  end.

Lemma inhabits_flat ft l :
  ft <> TReturn -> inhabits (Flat ft) l = true -> exists fl, l = FlatLit fl /\ FlatLiteral.typ fl = ft.
Proof.
  destruct ft; intros Hne Hi; try done; destruct l as [fl|ls|ls]; simpl in Hi; try done;
    apply bool_decide_eq_true in Hi; eauto.
Qed.

Lemma inhabits_list t l : inhabits (ListT t) l = true -> exists ls, l = LList ls.
Proof. destruct l; simpl; try done; eauto. Qed.

Lemma inhabits_option l : inhabits (Tuple []) l = true -> exists ls, l = LTuple ls.
Proof. destruct l; simpl; try done; eauto. Qed.

Lemma forallb_map_true {A B} (f : B -> bool) (g : A -> B) l :
  (forall x, f (g x) = true) -> forallb f (map g l) = true.
Proof. intros Hf. induction l; simpl; [done|]. by rewrite Hf. Qed.

Lemma forallb_any l : forallb (inhabits (Flat TReturn)) l = true.
Proof. induction l as [|[] l IH]; simpl; auto. Qed.

Lemma inhabit_all_nil ls : inhabit_all [] ls = true -> ls = [].
Proof. by destruct ls. Qed.
Lemma inhabit_all_cons t ts ls :
  inhabit_all (t :: ts) ls = true ->
  exists l ls', ls = l :: ls' /\ inhabits t l = true /\ inhabit_all ts ls' = true.
Proof. destruct ls as [|l ls]; [done|]. intros [? ?]%andb_true_iff. eauto. Qed.

(** The arguments, read off their types. *)
Ltac inv_args :=
  repeat match goal with
  | H : inhabit_all [] _ = true |- _ => apply inhabit_all_nil in H as ->
  | H : inhabit_all (_ :: _) _ = true |- _ => apply inhabit_all_cons in H as (? & ? & -> & ? & H)
  end;
  repeat match goal with
  | H : inhabits (Flat ?ft) ?l = true |- _ =>
    apply inhabits_flat in H as ([] & -> & H); [..|discriminate]; try discriminate H; clear H
  | H : inhabits (ListT ?t) ?l = true |- _ => apply inhabits_list in H as [? ->]
  | H : inhabits (Tuple []) ?l = true |- _ => apply inhabits_option in H as [? ->]
  end.

(** One row of the tables of builtins. *)
Ltac sound_row :=
  let lits := fresh "lits" in let Hl := fresh "Hl" in
  intros lits Hl; cbn [map] in Hl;
  cbv [Typ.any_option Typ.option Typ.rreturn Typ.bool Typ.data Typ.http_request Typ.http_response
       Typ.label Typ.i64 Typ.id Typ.ip_addr Typ.str Types.rreturn Types.bool_ Types.data
       Types.http_request Types.http_response Types.label Types.i64 Types.id_ Types.ip_addr
       Types.str DP_TFlatTyp] in Hl;
  inv_args; cbn -[Z.ltb Z.pow Z.of_nat Z.abs arith_i64 i64_to_string wrap_i64 as_u8 as_u16 as_u32
                  IpAddr.from_octets BTreeMap.get forallb Label.match_with];
  try reflexivity.

Lemma flat_table_sound :
  Forall (fun e => e.1 <> "option::Some" ->
            sound e.1 (map Flat e.2.1) (Flat e.2.2)) FlatBuiltins.table.
Proof.
  unfold FlatBuiltins.table.
  repeat (apply Forall_cons; split; [cbn [fst snd map]; intros Hne|]); [..|constructor].
  all: try (exfalso; apply Hne; reflexivity).
  all: sound_row.
  all: try (destruct (arith_i64 _) eqn:?; cbn; try reflexivity;
            match goal with H : arith_i64 _ = _ |- _ => unfold arith_i64 in H; by repeat split_match_in H end).
  all: unfold PolicyRegex.is_match, PolicyRegex.source, unwrap.
  1-2: by destruct (Pat.to_regex_str _ _ _).
  by destruct now.
Qed.

Lemma typ_table_sound :
  Forall (fun e => e.1 <> "IpAddr::octets" -> sound e.1 e.2.1 e.2.2)
    (TypBuiltins.table (FT := FlatTyp)).
Proof.
  unfold TypBuiltins.table.
  repeat (apply Forall_cons; split; [cbn [fst snd]; intros Hne|]); [..|constructor].
  all: try (exfalso; apply Hne; reflexivity).
  all: sound_row.
  all: try apply forallb_any.
  all: unfold HttpRequest.query_pairs, HttpRequest.header, HttpResponse.header, HttpRequest.unique_header,
    HttpResponse.unique_header, Headers.header, Headers.unique_header, HttpResponse.reason,
    ID.port_lit, Literal.of_option, Literal.of_match, fmap, option_fmap, option_map.
  all: repeat (split_inner; simplify_eq/=; try done).
  all: rewrite ?andb_true_r.
  all: try (apply forallb_map_true; by try intros []).
Qed.

Lemma builtins_tables f s :
  TypBuiltins.builtins (FT := FlatTyp) f = Some s ->
  (exists tys ty, s = mkSignature (Some tys) ty /\ (f, (tys, ty)) ∈ TypBuiltins.table (FT := FlatTyp)) \/
  (exists tys ty, s = mkSignature (Some (map Flat tys)) (Flat ty) /\ (f, (tys, ty)) ∈ FlatBuiltins.table).
Proof.
  unfold TypBuiltins.builtins. destruct (assoc f TypBuiltins.table) as [[tys ty]|] eqn:E.
  - intros; simplify_eq. left. exists tys, ty. split; [done|]. by apply assoc_elem.
  - intros (r & Hr & ->)%fmap_Some. right. destruct r as [tys ty]. exists tys, ty.
    split; [done|]. by apply assoc_elem.
Qed.
End builtins.

(** ** Properties *)

(** C34: every builtin of the data plane, called with literals of the types of
    its declared signature, returns a literal of its declared result type; it
    may panic only if it is one of five, and [option::Some] and
    [IpAddr::octets] are excepted. *)
Theorem builtins_sound `{Profile} `{Lib} (f : string) (tys : list DPTyp) (ty : DPTyp) (lits : list DPLiteral) :
  TypBuiltins.builtins f = Some (Signature.new tys ty) ->
  f <> "option::Some" -> f <> "IpAddr::octets" ->
  inhabit_all tys lits = true ->
  (exists r, LitInterpret.eval_call f (map LitExpr lits) = Val (LitExpr r) /\ inhabits ty r = true) \/
  (LitInterpret.eval_call f (map LitExpr lits) = Panic /\ may_panic f = true).
Proof.
  intros Hb H1 H2 Hl.
  assert (sound f tys ty) as Hs.
  { destruct (builtins_tables _ _ Hb) as [(tys' & ty' & Heq & He)|(tys' & ty' & Heq & He)];
      unfold Signature.new in Heq; simplify_eq.
    - pose proof typ_table_sound as Ht. rewrite Forall_forall in Ht. by apply (Ht _ He).
    - pose proof flat_table_sound as Ht. rewrite Forall_forall in Ht. by apply (Ht _ He). }
  specialize (Hs lits Hl). destruct (LitInterpret.eval_call f (map LitExpr lits)) as [[]| | |]; try done; eauto.
Qed.

(** A concrete environment for the examples. *)
Definition test_lib : Lib := {|
  now := Some 1600000000%Z; to_lowercase := fun s => s; to_uppercase := fun s => s;
  from_utf8_lossy := of_bytes; base64_encode := of_bytes; base64_decode := fun s => Some (as_bytes s);
  Lib_names := {| lookup_addr := fun _ => None; lookup_host := fun _ => None |}; url_query_pairs := fun _ => Some [];
  regex_escape := fun s => s; regex_is_match := fun re s => String.eqb re ("^(" ^^ s ^^ ")$");
  regex_capture_names := fun _ => []; regex_captures := fun _ _ => None |}.

Lemma builtins_sound_witness :
  let lits : list DPLiteral := [FlatLit (LStr "armour"); FlatLit (LStr "arm")] in
  (exists r, LitInterpret.eval_call (H1 := @DP_TInterpret true test_lib) "str::starts_with" (map LitExpr lits)
             = Val (LitExpr r) /\ inhabits Typ.bool r = true) \/
  (LitInterpret.eval_call (H1 := @DP_TInterpret true test_lib) "str::starts_with" (map LitExpr lits) = Panic
   /\ may_panic "str::starts_with" = true).
Proof.
  intros lits.
  refine (@builtins_sound true test_lib "str::starts_with" [Typ.str; Typ.str] Typ.bool lits _ _ _ _);
    [reflexivity|discriminate|discriminate|reflexivity].
Defined.

(** Two builtins that the checker accepts fail or return a literal of
    another type: wrapping a list in an option is an error, and the octets of
    an IPv6 address that maps to no IPv4 address are an empty option. *)
Theorem builtins_unsound `{Profile} `{Lib} (l : list DPLiteral) :
  LitInterpret.eval_call "option::Some" [LitExpr (LList l)] = Fail (LitInterpret.type_error "1") /\
  LitInterpret.eval_call "IpAddr::octets" [LitExpr (FlatLit (LIpAddr (V6 (2 ^ 127))))] = Val Expr.none /\
  inhabits (Tuple [Typ.i64; Typ.i64; Typ.i64; Typ.i64]) Literal.none = false.
Proof. split_and!; reflexivity. Qed.

Definition is_arith (op : Infix) : bool :=
  match op with Plus | IMinus | Divide | Multiply | Remainder => true | _ => false end.

(** Arithmetic on 64-bit integers returns a 64-bit integer; it is a type
    error exactly on division by zero, and panics only when overflow is
    checked or the quotient of the least integer by -1 is taken. *)
Theorem arithmetic_total `{Profile} `{Lib} (op : Infix) (i j : Z) :
  is_arith op = true -> in_i64 i = true -> in_i64 j = true ->
  match LitInterpret.eval_infix (FlatLit (LInt i)) op (FlatLit (LInt j)) with
  | Val (Some (FlatLit (LInt k))) => in_i64 k = true
  | Val None => (op = Divide \/ op = Remainder) /\ j = 0%Z
  | Panic =>
    overflow_checks = true \/
    ((op = Divide \/ op = Remainder) /\ i = i64_min /\ j = (-1)%Z)
  | _ => False
  end.
Proof.
  intros Hop Hi Hj. simpl. unfold DPInterpret.eval_infix.
  assert (forall z, match (n ← arith_i64 z; ret (FlatLit (LInt n)) : Outcome (option DPLiteral)) with
                    | Val (Some (FlatLit (LInt k))) => in_i64 k = true
                    | Panic => overflow_checks = true
                    | _ => False end) as Ha.
  { intros z. destruct (arith_i64 z) eqn:E; simpl.
    - by eapply arith_i64_range.
    - unfold arith_i64 in E. by repeat split_match_in E.
    - unfold arith_i64 in E. by repeat split_match_in E.
    - unfold arith_i64 in E. by repeat split_match_in E. }
  destruct op; try discriminate Hop.
  - specialize (Ha (i + j)%Z). destruct (arith_i64 (i + j)); simpl in *; auto.
  - specialize (Ha (i - j)%Z). destruct (arith_i64 (i - j)); simpl in *; auto.
  - destruct (Z.eqb_spec j 0); [auto|]. destruct (div_i64 i j) eqn:E; simpl.
    + exact (div_i64_range _ _ _ Hi E).
    + unfold div_i64 in E. by repeat split_match_in E.
    + unfold div_i64 in E. destruct (_ && _) eqn:Hc in E; [|done]. apply andb_true_iff in Hc. right. split; [auto|lia].
    + unfold div_i64 in E. by repeat split_match_in E.
  - specialize (Ha (i * j)%Z). destruct (arith_i64 (i * j)); simpl in *; auto.
  - destruct (Z.eqb_spec j 0); [auto|]. destruct (rem_i64 i j) eqn:E; simpl.
    + exact (rem_i64_range _ _ _ Hi Hj n E).
    + unfold rem_i64 in E. by repeat split_match_in E.
    + unfold rem_i64 in E. destruct (_ && _) eqn:Hc in E; [|done]. apply andb_true_iff in Hc. right. split; [auto|lia].
    + unfold rem_i64 in E. by repeat split_match_in E.
Qed.

Lemma arithmetic_total_witness :
  in_i64 i64_max = true /\
  match LitInterpret.eval_infix (H1 := @DP_TInterpret false test_lib)
          (FlatLit (LInt i64_max)) Plus (FlatLit (LInt 1)) with
  | Val (Some (FlatLit (LInt k))) => in_i64 k = true
  | _ => False
  end.
Proof.
  split; [reflexivity|].
  exact (@arithmetic_total false test_lib Plus i64_max 1 eq_refl eq_refl eq_refl).
Defined.
