(* ===== verification/TypeCheck.v ===== *)
(** * The checker and compiler of expressions
    (src/src/armour-lang/src/expressions.rs, lines 105-205 and 712-1543)

    One pass checks types, resolves calls and translates the parsed syntax to
    expressions with de Bruijn indices.  The type of the [return] statements
    of a function is a mutable cell of the source: the state of a [Comp] here.
    Errors keep the message of the source up to formatting.  The iteration
    order of a [HashMap] is a parameter. *)

From Stdlib Require Import ZArith Lia String Ascii List.
From stdpp Require Import base tactics list strings sets.
From S2P Require Import Prelude.
From S2P Require Import Ordered.
From S2P Require Import Strings.
From S2P Require Import Labels.
From S2P Require Import Syntax.
From S2P Require Import Types.
From S2P Require Import Net.
From S2P Require Import Literals.
From S2P Require Import Ast.
From S2P Require Import FnHeaders.
From S2P Require Import Expressions.
From S2P Require Import Interpret.

Local Open Scope string_scope.
Local Open Scope list_scope.

(** The order in which a [HashMap] is iterated over. *)
Class HashOrder := {
  hash_order : list (string * As) -> list (string * As);
  hash_order_perm l : hash_order l ≡ₚ l;
}.

(** [Regex::new]: the source of a pattern compiles, or its error. *)
Class RegexNew := { regex_new : string -> result unit Error }.

(** [expressions::Call]; [Calls] is a set. *)
Record CallSite := mkCallSite { cs_loc : Loc; cs_name : string }.
#[export] Instance CallSite_eq_dec : EqDecision CallSite.
Proof. solve_decision. Defined.
Definition Calls := list CallSite.

Module Calls.
Definition insert (c : CallSite) (s : Calls) : Calls := if decide (c ∈ s) then s else s ++ [c].
Definition extend (s c : Calls) : Calls := foldl (fun s c => insert c s) s c.
(** [ExprAndMeta::new] *)
Definition union (v : list Calls) : Calls := foldl extend [] v.
End Calls.

Record ExprAndMeta (FT FL : Type) := mkEM { em_expr : Expr FL; em_typ : Typ FT; em_calls : Calls }.
Arguments mkEM {FT FL} em_expr em_typ em_calls.
Arguments em_expr {FT FL} e.
Arguments em_typ {FT FL} e.
Arguments em_calls {FT FL} e.

Definition ExprAndMeta_new {FT FL} (e : Expr FL) (t : Typ FT) (v : list Calls) : ExprAndMeta FT FL :=
  mkEM e t (Calls.union v).

Record Context (FT : Type) := mkContext { variables : BTreeMap string (Typ FT); async_tag : bool }.
Arguments mkContext {FT} variables async_tag.
Arguments variables {FT} c.
Arguments async_tag {FT} c.

Module Context.
Section context.
Context {FT : Type}.
Definition new : Context FT := mkContext [] false.
Definition add_var (c : Context FT) (name : string) (t : Typ FT) : Context FT :=
  mkContext (BTreeMap.insert name t (variables c)) (async_tag c).
Definition update_async_tag (c : Context FT) (b : bool) : Context FT :=
  mkContext (variables c) (async_tag c || b).
Definition var (c : Context FT) (name : string) : option (Typ FT) := BTreeMap.get (variables c) name.
(** [for (id, ty) in ids.iter().zip(tys) { vars = vars.add_var(id, ty) }] *)
Definition add_vars (c : Context FT) (vs : list (string * Typ FT)) : Context FT :=
  foldl (fun c v => add_var c v.1 v.2) c vs.
End context.
End Context.

(** ** Errors of types, printed *)
Module TypeError.
Section print.
Context {FT : Type} `{TFlatTyp FT}.
Definition newline : string := String (ascii_of_nat 10) EmptyString.
Definition loc_typ (t : LocType FT) : string :=
  Typ.to_string t.2 ^^ match t.1 with Some l => " on " ^^ Loc.to_string l | None => "" end ^^ newline.
Definition to_string (e : TypeError FT) : string :=
  match e with
  | TParse s => "expecting type, got " ^^ s ^^ newline
  | TArgs s i j =>
    "type error in " ^^ quote s ^^ ": expecting " ^^ i64_to_string (Z.of_nat j) ^^ " value(s), got "
      ^^ i64_to_string (Z.of_nat i) ^^ newline
  | TMismatch s t1 t2 =>
    "type error in " ^^ quote s ^^ "." ^^ newline ^^ "mismatch:" ^^ newline
      ^^ "> " ^^ loc_typ t1 ^^ "< " ^^ loc_typ t2
  | TDest => "expecting Option<..> type"
  end.
(** [From<types::Error> for Error] *)
Definition into {A} (r : result A (TypeError FT)) : result A Error :=
  match r with Ok a => Ok a | Err e => Err (error_new (to_string e)) end.
End print.
End TypeError.

(** [PolicyRegex::from_pat] and the variables of a pattern. *)
Module PPattern.
Section pattern.
Context {FT : Type} `{TFlatTyp FT} `{Lib} `{RegexNew}.
Definition typ (p : PPattern) : Typ FT := match p with PRegex _ => Typ.str | PLabel _ => Typ.label end.

Definition from_pat (p : Pat) : Outcome PolicyRegex :=
  s ← PolicyRegex.source p; _ ← try (regex_new s); Val p.

(** The variables with their kinds, in the order they are inserted. *)
Definition vars (p : PPattern) : Outcome (list (string * As)) :=
  match p with
  | PRegex r =>
    re ← from_pat r;
    names ← PolicyRegex.capture_names re;
    Val (map Pat.strip_as (omap (fun x => x) names))
  | PLabel l => Val (map (fun x => (x, AsStr)) (Label.vars l))
  end.
Definition compile (p : PPattern) : Pattern :=
  match p with PRegex r => RegexPattern r | PLabel l => LabelPattern l end.
End pattern.
End PPattern.

Definition iter_name (op : Iter) : string :=
  match op with
  | All => "all" | Any_ => "any" | Filter => "filter" | FilterMap => "filter_map"
  | Map => "map" | ForEach => "foreach" | Fold => "fold"
  end.

Module TypeCheck.
Section check.
Context {FT FL : Type} `{TFlatTyp FT} `{TFlatLiteral FT FL} `{TBuiltin FT} `{Lib} `{RegexNew} `{HashOrder}.
Notation Expr := (Expr FL).
Notation Context := (Context FT).
Notation EM := (ExprAndMeta FT FL).
(** [ReturnType]: the type of the first [return] met. *)
Notation ReturnType := (option (Typ FT)).
Notation M := (Comp ReturnType).

Variable headers : FnHeaders FT.

Definition err {A} (e : Error) : M A := fail e.
Definition ret_get : M ReturnType := fun r => (Val r, r).
Definition ret_set (t : Typ FT) : M unit := fun _ => (Val tt, Some t).
Definition type_check (s : string) (v1 v2 : list (LocType FT)) : M unit :=
  lift (try (TypeError.into (Typ.type_check s v1 v2))).
Definition error_at (s : string) (l : Loc) : Error := mkError (s ^^ " at {}") [Loc.to_string l].

Definition map_m {A B} (f : A -> M B) : list A -> M (list B) :=
  fix go l := match l with [] => mret [] | x :: l' => y ← f x; ys ← go l'; mret (y :: ys) end.

(** The loop of a list expression: each element is checked against the type
    of those before it. *)
Definition list_elems (f : LocExpr FL -> M EM) : list (LocExpr FL) -> Typ FT -> M (list EM * Typ FT) :=
  fix go es typ :=
    match es with
    | [] => mret ([], typ)
    | e :: es' =>
      em ← f e;
      _ ← type_check "list" [(Some (LocExpr.loc e), em_typ em)] [(None, typ)];
      '(ems, typ) ← go es' (Typ.unify typ (em_typ em));
      mret (em :: ems, typ)
    end.

(** The operands of an infix operator. *)
Definition check_infix (op : Infix) (l1 l2 : Loc) (typ1 typ2 : Typ FT) : M (Typ FT) :=
  '(t1, t2, typ) ← lift (Typ.infix_typ op);
  _ ← (if Typ.eqb t1 Typ.rreturn then
         if Typ.eqb t2 Typ.rreturn then
           type_check "equality/inequality/concat" [(Some l1, typ1)] [(Some l2, typ2)]
         else type_check "in" [(Some l1, ListT typ1)] [(Some l2, typ2)]
       else type_check "infix" [(Some l1, typ1); (Some l2, typ2)] [(None, t1); (None, t2)]);
  mret typ.

(** The variables of [if match]: a name may occur once. *)
Fixpoint insert_vars (l : Loc) (vs : list (string * As)) (map : list (string * As)) : result (list (string * As)) Error :=
  match vs with
  | [] => Ok map
  | (k, v) :: vs' =>
    if existsb (fun x => x.1 =? k) map then
      Err (mkError "{}: repeated variable {} in if match" [Loc.to_string l; k])
    else insert_vars l vs' (map ++ [(k, v)])
  end.

Fixpoint match_vars (ms : list (LocExpr FL * PPattern)) (map : list (string * As)) : Outcome (list (string * As)) :=
  match ms with
  | [] => Val map
  | (e, p) :: ms' =>
    vs ← PPattern.vars p;
    map ← try (insert_vars (LocExpr.loc e) vs map);
    match_vars ms' map
  end.

Definition as_typ (a : As) : Typ FT :=
  match a with AsI64 => Typ.i64 | AsBase64 => Typ.data | AsStr => Typ.str end.

(** The variables of an iteration and the types of what they range over. *)
Definition iter_vars (op : Iter) (l : Loc) (idents : list LocIdent) (typ1 : Typ FT) (ctxt : Context)
    : result (list string * Context) Error :=
  let err := Err (mkError "{} over expression of type {} at {} "
                    [iter_name op; Typ.to_string typ1; Loc.to_string l]) in
  let vs := map Syntax.id idents in
  match typ1 with
  | ListT lty =>
    match idents with
    | [i] => Ok ([Syntax.id i], Context.add_var ctxt (Syntax.id i) lty)
    | _ =>
      match lty with
      | Tuple tys =>
        if Nat.eqb (length idents) (length tys) then Ok (vs, Context.add_vars ctxt (combine vs tys)) else err
      | _ => err
      end
    end
  | _ => err
  end.

(** The type of an iteration without accumulator. *)
Definition iter_typ (op : Iter) (l : Loc) (typ1 typ2 : Typ FT) : Outcome (Typ FT) :=
  match op with
  | All | Any_ => Val Typ.bool
  | Filter => Val typ1
  | FilterMap =>
    match Typ.dest_option typ2 with Ok t => Val (ListT t) | Err _ => Panic end
  | ForEach => Val Typ.unit
  | Fold => Fail (mkError "{} can not be defined without an accumulator at {} " [iter_name op; Loc.to_string l])
  | Map => Val (ListT typ2)
  end.

Definition check_iter_body (op : Iter) (l : Loc) (typ2 : Typ FT) : M unit :=
  match op with
  | FilterMap => type_check "filter_map-expression" [(Some l, typ2)] [(None, Typ.any_option)]
  | Map | ForEach | Fold => mret tt
  | _ => type_check "all/any/filter-expression" [(Some l, typ2)] [(None, Typ.bool)]
  end.

(** The result type of a call, which three builtins take from their
    arguments. *)
Definition call_typ (function : string) (types : list (Typ FT)) (typ : Typ FT) : Outcome (Typ FT) :=
  if function =? "list::reduce" then
    t ← unwrap (types !! 0); t ← unwrap (Typ.dest_list t); mret (Typ.option t)
  else if (function =? "list::difference") || (function =? "list::intersection") then unwrap (types !! 0)
  else mret typ.

(** A call, once its arguments are compiled. *)
Definition check_call (eloc loc : Loc) (function : string) (arg_locs : list Loc) (ems : list EM)
    (ctxt : Context) : M EM :=
  let expressions := map em_expr ems in
  let calls := map em_calls ems in
  let types := map em_typ ems in
  function ← lift (FnHeaders.resolve function types);
  match FnHeaders.typ headers function with
  | Some s =>
    let '(args, typ) := Signature.split s in
    _ ← match args with
        | Some args =>
          type_check function (combine (map Some arg_locs) types) (map (fun t => (None, t)) args)
        | None => mret tt
        end;
    typ ← lift (call_typ function types typ);
    mret (ExprAndMeta_new
            (CallExpr function expressions (Typ.eqb typ Typ.unit && async_tag ctxt)) typ
            (calls ++ [[mkCallSite loc function]]))
  | None =>
    match parse_usize function with
    | Some i =>
      match types with
      | [Tuple l] =>
        if Z.ltb i (Z.of_nat (length l)) then
          t ← lift (unwrap (l !! Z.to_nat i));
          mret (ExprAndMeta_new (Expr.call function expressions) t calls)
        else err (mkError "tuple index function {} called on tuple with just {} elements at {}"
                    [function; i64_to_string (Z.of_nat (length l)); Loc.to_string eloc])
      | _ => err (mkError "tuple index function {} called on non-tuple ({}) at {}"
                    [function; join "," (map Typ.to_string types); Loc.to_string eloc])
      end
    | None => err (mkError "undeclared function {} at {}" [function; Loc.to_string eloc])
    end
  end.

(** [return] statements agree with the first. *)
Definition check_return (l : Loc) (typ : Typ FT) : M unit :=
  rt ← ret_get;
  match rt with
  | Some rtype => type_check "return" [(Some l, typ)] [(None, rtype)]
  | None => ret_set typ
  end.

(** An expression statement before the rest of a block. *)
Definition seq_expr (e1 e2 : Expr) : Expr :=
  match e2 with
  | BlockExpr BBlock b => BlockExpr BBlock (e1 :: b)
  | _ => BlockExpr BBlock [e1; e2]
  end.

Definition let_vars (l : Loc) (ids : list LocIdent) (typ1 : Typ FT) (ctxt : Context)
    : result (list string * Context) Error :=
  let err := Err (mkError "{} variables in let expression of type {} at {} "
                    [i64_to_string (Z.of_nat (length ids)); Typ.to_string typ1; Loc.to_string l]) in
  let vs := map Syntax.id ids in
  match ids with
  | [i] => Ok ([Syntax.id i], Context.add_var ctxt (Syntax.id i) typ1)
  | _ =>
    match typ1 with
    | Tuple tys =>
      if Nat.eqb (length ids) (length tys) then Ok (vs, Context.add_vars ctxt (combine vs tys)) else err
    | _ => err
    end
  end.

Fixpoint from_expr (eloc : Loc) (e : PExpr FL) (ctxt : Context) {struct e} : M EM :=
  match e with
  | PIdent id =>
    match Context.var ctxt id with
    | Some typ => mret (ExprAndMeta_new (Var id) typ [])
    | None => err (mkError "undeclared variable {} at {}" [id; Loc.to_string eloc])
    end
  | PLit l => mret (ExprAndMeta_new (LitExpr l) (Literal.typ l) [])
  | PList es =>
    '(ems, typ) ← list_elems (fun e => from_loc_expr e ctxt) es Typ.rreturn;
    mret (ExprAndMeta_new (BlockExpr BList (map em_expr ems)) (ListT typ) (map em_calls ems))
  | PTup es =>
    ems ← map_m (fun e => from_loc_expr e ctxt) es;
    mret (ExprAndMeta_new (BlockExpr BTuple (map em_expr ems)) (Tuple (map em_typ ems)) (map em_calls ems))
  | PPrefix p e1 =>
    em ← from_loc_expr e1 ctxt;
    let '(t1, t2) := Typ.prefix_typ p in
    _ ← type_check "prefix" [(Some (LocExpr.loc e1), em_typ em)] [(None, t1)];
    mret (ExprAndMeta_new (PrefixExpr p (em_expr em)) t2 [em_calls em])
  | PInfix op e1 e2 =>
    em1 ← from_loc_expr e1 ctxt;
    em2 ← from_loc_expr e2 ctxt;
    typ ← check_infix op (LocExpr.loc e1) (LocExpr.loc e2) (em_typ em1) (em_typ em2);
    mret (ExprAndMeta_new (InfixExpr op (em_expr em1) (em_expr em2)) typ [em_calls em1; em_calls em2])
  | PIf cond consequence alternative =>
    em1 ← from_loc_expr cond ctxt;
    em2 ← from_block_stmt consequence ctxt;
    match alternative with
    | None =>
      _ ← type_check "if-expression"
            [(Some (LocExpr.loc cond), em_typ em1); (Some (BlockStmt.loc consequence eloc), em_typ em2)]
            [(None, Typ.bool); (None, Typ.unit)];
      mret (ExprAndMeta_new (IfExpr (em_expr em1) (em_expr em2) None) Typ.unit [em_calls em1; em_calls em2])
    | Some alt =>
      em3 ← from_block_stmt alt ctxt;
      _ ← type_check "if-else-expression"
            [(Some (LocExpr.loc cond), em_typ em1); (Some (BlockStmt.loc consequence eloc), em_typ em2)]
            [(None, Typ.bool); (Some (BlockStmt.loc alt eloc), em_typ em3)];
      mret (ExprAndMeta_new (IfExpr (em_expr em1) (em_expr em2) (Some (em_expr em3)))
              (Typ.unify (em_typ em2) (em_typ em3)) [em_calls em1; em_calls em2; em_calls em3])
    end
  | PIfSomeMatch var expr consequence alternative =>
    em1 ← from_loc_expr expr ctxt;
    typ1 ← lift (match Typ.dest_option (em_typ em1) with
                 | Ok t => Val t
                 | Err _ => Fail (error_at "expecting option type in if-let" eloc)
                 end);
    let id := Syntax.id var in
    em2 ← from_block_stmt consequence (Context.add_var ctxt id typ1);
    match alternative with
    | None =>
      _ ← type_check "if-let-expression"
            [(Some (BlockStmt.loc consequence eloc), em_typ em2)] [(None, Typ.unit)];
      mret (ExprAndMeta_new (IfSomeMatchExpr (em_expr em1) (Expr.closure_expr id (em_expr em2)) None)
              Typ.unit [em_calls em1; em_calls em2])
    | Some alt =>
      em3 ← from_block_stmt alt ctxt;
      _ ← type_check "if-let-else-expression"
            [(Some (BlockStmt.loc consequence eloc), em_typ em2)]
            [(Some (BlockStmt.loc alt eloc), em_typ em3)];
      mret (ExprAndMeta_new
              (IfSomeMatchExpr (em_expr em1) (Expr.closure_expr id (em_expr em2)) (Some (em_expr em3)))
              (Typ.unify (em_typ em2) (em_typ em3)) [em_calls em1; em_calls em2; em_calls em3])
    end
  | PIfMatch matches consequence alternative =>
    ems ← map_m (fun m => from_loc_expr m.1 ctxt) matches;
    _ ← type_check "if-match-expression"
          (combine (map (fun m => Some (LocExpr.loc m.1)) matches) (map em_typ ems))
          (map (fun m => (None, PPattern.typ m.2)) matches);
    vars ← lift (match_vars matches []);
    let extend_vars := Context.add_vars ctxt (map (fun v => (v.1, as_typ v.2)) vars) in
    em1 ← from_block_stmt consequence extend_vars;
    let variables := map fst (hash_order vars) in
    let expr1 := Expr.close_all variables (em_expr em1) in
    let compiled := combine (map em_expr ems) (map (fun m => PPattern.compile m.2) matches) in
    let calls := map em_calls ems ++ [em_calls em1] in
    match alternative with
    | None =>
      _ ← type_check "if-match-expression"
            [(Some (BlockStmt.loc consequence eloc), em_typ em1)] [(None, Typ.unit)];
      mret (ExprAndMeta_new (IfMatchExpr variables compiled expr1 None) Typ.unit calls)
    | Some a =>
      em2 ← from_block_stmt a ctxt;
      _ ← type_check "if-match-else-expression"
            [(Some (BlockStmt.loc consequence eloc), em_typ em1)]
            [(Some (BlockStmt.loc a eloc), em_typ em2)];
      mret (ExprAndMeta_new (IfMatchExpr variables compiled expr1 (Some (em_expr em2)))
              (Typ.unify (em_typ em1) (em_typ em2)) (calls ++ [em_calls em2]))
    end
  | PIter op idents expr body accumulator =>
    em1 ← from_loc_expr expr ctxt;
    '(vs, iter_ctxt) ← lift (try (iter_vars op eloc idents (em_typ em1) ctxt));
    iter_ctxt ← match accumulator with
                | Some (acc_name, acc) =>
                  if bool_decide (op = Fold) then
                    em ← from_loc_expr acc ctxt;
                    mret (Context.add_var iter_ctxt (Syntax.id acc_name) (em_typ em))
                  else mret iter_ctxt
                | None => mret iter_ctxt
                end;
    em2 ← from_block_stmt body iter_ctxt;
    _ ← check_iter_body op (BlockStmt.loc body eloc) (em_typ em2);
    match accumulator with
    | None =>
      typ ← lift (iter_typ op eloc (em_typ em1) (em_typ em2));
      mret (ExprAndMeta_new (Expr.iter_expr op vs (em_expr em1) None (em_expr em2)) typ
              [em_calls em1; em_calls em2])
    | Some (acc_name, acc) =>
      if bool_decide (op = Fold) then
        em3 ← from_loc_expr acc ctxt;
        _ ← type_check "fold-expression"
              [(Some (BlockStmt.loc body eloc), em_typ em2)] [(None, em_typ em3)];
        mret (ExprAndMeta_new
                (Expr.iter_expr op vs (em_expr em1) (Some (Syntax.id acc_name, em_expr em3)) (em_expr em2))
                (em_typ em3) [em_calls em1; em_calls em2; em_calls em3])
      else err (mkError "{} can have an accumulator at {} " [iter_name op; Loc.to_string eloc])
    end
  | PCall loc function arguments =>
    ems ← map_m (fun e => from_loc_expr e ctxt) arguments;
    match ems with
    | [em] =>
      if function =? "option::Some" then
        mret (ExprAndMeta_new (Expr.call function [em_expr em]) (Tuple [em_typ em]) [em_calls em])
      else check_call eloc loc function (map LocExpr.loc arguments) ems ctxt
    | _ => check_call eloc loc function (map LocExpr.loc arguments) ems ctxt
    end
  end
with from_loc_expr (e : LocExpr FL) (ctxt : Context) {struct e} : M EM :=
  match e with mkLocExpr l e => from_expr l e ctxt end
with from_block_stmt (b : BlockStmt FL) (ctxt : Context) {struct b} : M EM :=
  match b with
  | mkBlock statements tag =>
    (fix from_stmts (statements : list (LocStmt FL)) (ctxt : Context) : M EM :=
       let ctxt := Context.update_async_tag ctxt tag in
       match statements with
       | [] => mret (ExprAndMeta_new (BlockExpr BBlock []) Typ.unit [])
       | stmt :: rest =>
         match stmt with
         | mkLocStmt sloc (ReturnStmt re) =>
           match rest with
           | [] =>
             em ← from_loc_expr re ctxt;
             _ ← check_return (LocExpr.loc re) (em_typ em);
             mret (ExprAndMeta_new (BlockExpr BBlock [ReturnExpr (em_expr em)]) Typ.rreturn [em_calls em])
           | _ => err (error_at "unreachable code after return" sloc)
           end
         | mkLocStmt sloc (ExprStmt exp tag' semi) =>
           em1 ← from_expr sloc exp (Context.update_async_tag ctxt tag');
           match rest with
           | [] => mret (ExprAndMeta_new (em_expr em1) (if semi then Typ.unit else em_typ em1) [em_calls em1])
           | _ =>
             if semi then
               em2 ← from_stmts rest ctxt;
               mret (ExprAndMeta_new (seq_expr (em_expr em1) (em_expr em2)) (em_typ em2)
                       [em_calls em1; em_calls em2])
             else err (error_at "missing semi-colon after expression" sloc)
           end
         | mkLocStmt sloc (LetStmt ids le) =>
           em1 ← from_loc_expr le ctxt;
           '(vs, let_ctxt) ← lift (try (let_vars sloc ids (em_typ em1) ctxt));
           em2 ← from_stmts rest let_ctxt;
           mret (ExprAndMeta_new (Expr.let_expr vs (em_expr em1) (em_expr em2)) (em_typ em2)
                   [em_calls em1; em_calls em2])
         end
       end) statements ctxt
  end.

(** A block or an expression on its own; [name] is the function it is the
    body of. *)
Definition check_from_block_stmt (block : BlockStmt FL) (ctxt : Context) (name : option string) : Outcome EM :=
  let '(r, ret) := from_block_stmt block ctxt None in
  em ← r;
  _ ← match ret with
      | Some rtype =>
        try (TypeError.into (Typ.type_check (unwrap_or "REPL" name) [(None, em_typ em)] [(None, rtype)]))
      | None => Val tt
      end;
  _ ← match name with
      | Some name =>
        rt ← try (FnHeaders.return_typ headers name);
        try (TypeError.into (Typ.type_check name [(None, em_typ em)] [(None, rt)]))
      | None => Val tt
      end;
  Val em.

Definition check_from_loc_expr (e : LocExpr FL) (ctxt : Context) : Outcome EM :=
  let '(r, ret) := from_loc_expr e ctxt None in
  em ← r;
  _ ← match ret with
      | Some rtype => try (TypeError.into (Typ.type_check "REPL" [(None, em_typ em)] [(None, rtype)]))
      | None => Val tt
      end;
  Val em.

(** The context of the body: the last declaration added wins. *)
Fixpoint decl_context (args : list Param) : result Context Error :=
  match args with
  | [] => Ok Context.new
  | a :: args' =>
    match decl_context args' with
    | Err e => Err e
    | Ok c =>
      match TypeError.into (Typ.from_parse (param_typ a)) with
      | Err e => Err e
      | Ok t => Ok (Context.add_var c (Param.name a) t)
      end
    end
  end.

Definition from_decl (decl : FnDecl FL) : Outcome (string * Expr * Calls) :=
  ctxt ← try (decl_context (FnDecl.args decl));
  let name := FnDecl.name decl in
  em ← check_from_block_stmt (decl_body decl) ctxt (Some name);
  Val (name, Expr.close_all (map Param.name (FnDecl.args decl)) (em_expr em), em_calls em).
End check.
End TypeCheck.
