(* ===== verification/Lexer.v ===== *)
(** * The lexer (src/src/armour-lang/src/lexer.rs)

    Tokens, texts with their positions, and [lex], which splits a text into
    tokens.  What nom does with floating point numbers is a parameter. *)

From Stdlib Require Import ZArith Lia String Ascii List SpecFloat.
From stdpp Require Import base tactics list strings.
From S2P Require Import Prelude.
From S2P Require Import Ordered.
From S2P Require Import Strings.
From S2P Require Import Labels.
From S2P Require Import Syntax.
From S2P Require Import Nom.

Local Open Scope string_scope.
Local Open Scope list_scope.

(** The constructors that other types share have a [T]. *)
Inductive Token :=
| Illegal (s : string) | EOF | Comment (s : string) | TIdent (s : string) | BoolLiteral (b : bool)
| DataLiteral (d : bytes) | FloatLiteral (f : spec_float) | IntLiteral (i : Z) | LabelLiteral (l : Label)
| StringLiteral (s : string) | TSome | TRegex
| Assign | TIf | TElse | TAsync
| TPlus | TMinus | TDivide | TMultiply | TEqual | TNotEqual | TGreaterThanEqual | TLessThanEqual
| TGreaterThan | TLessThan | TNot | TAnd | TOr | TDot | PlusPlus | Percent | QuestionMark
| TFunction | TAll | TAny | TFilter | TFilterMap | TForEach | TFold | TMap | TLet | TReturn | TIn | TMatches
| TAs | TExternal | TWhere
| Comma | Colon | SemiColon | LParen | RParen | LBrace | RBrace | LBracket | RBracket
| Underscore | Arrow | Bar | ColonColon | At.

Module Token.
(** [PartialEq], derived. *)
Definition eqb (t u : Token) : bool :=
  match t, u with
  | Illegal s, Illegal s' | Comment s, Comment s' | TIdent s, TIdent s' | StringLiteral s, StringLiteral s' => String.eqb s s'
  | BoolLiteral b, BoolLiteral b' => Bool.eqb b b'
  | DataLiteral d, DataLiteral d' => bool_decide (d = d')
  | FloatLiteral f, FloatLiteral f' => SFeqb f f'
  | IntLiteral i, IntLiteral i' => Z.eqb i i'
  | LabelLiteral l, LabelLiteral l' => Label.eqb l l'
  | EOF, EOF | TSome, TSome | TRegex, TRegex | Assign, Assign | TIf, TIf | TElse, TElse | TAsync, TAsync
  | TPlus, TPlus | TMinus, TMinus | TDivide, TDivide | TMultiply, TMultiply | TEqual, TEqual
  | TNotEqual, TNotEqual | TGreaterThanEqual, TGreaterThanEqual | TLessThanEqual, TLessThanEqual
  | TGreaterThan, TGreaterThan | TLessThan, TLessThan | TNot, TNot | TAnd, TAnd | TOr, TOr | TDot, TDot
  | PlusPlus, PlusPlus | Percent, Percent | QuestionMark, QuestionMark
  | TFunction, TFunction | TAll, TAll | TAny, TAny | TFilter, TFilter | TFilterMap, TFilterMap
  | TForEach, TForEach | TFold, TFold | TMap, TMap | TLet, TLet | TReturn, TReturn | TIn, TIn
  | TMatches, TMatches | TAs, TAs | TExternal, TExternal | TWhere, TWhere
  | Comma, Comma | Colon, Colon | SemiColon, SemiColon | LParen, LParen | RParen, RParen
  | LBrace, LBrace | RBrace, RBrace | LBracket, LBracket | RBracket, RBracket
  | Underscore, Underscore | Arrow, Arrow | Bar, Bar | ColonColon, ColonColon | At, At => true
  | _, _ => false
  end.
End Token.

(** A token with the place where it starts. *)
Record LocToken := mkLocToken { tok_loc : Loc; tok : Token }.
Notation Tokens := (list LocToken).

(** ** Text

    A span is a part of the text with the place where it starts, as in the
    nom_locate crate.  A character is its UTF-8 bytes. *)

Record Span := mkSpan { sp_line : Z; sp_offset : Z; fragment : string }.
#[export] Instance span_input : Input Span := fun i => String.length (fragment i).

Module Span.
Definition new (buf : string) : Span := mkSpan 1 0 buf.

Fixpoint newlines (s : string) : Z :=
  match s with
  | "" => 0
  | String c s => if Ascii.eqb c (ascii_of_nat 10) then 1 + newlines s else newlines s
  end.
(** The first [n] bytes, and the rest. *)
Definition take (n : nat) (i : Span) : Span := mkSpan (sp_line i) (sp_offset i) (String.substring 0 n (fragment i)).
Definition drop (n : nat) (i : Span) : Span :=
  mkSpan (sp_line i + newlines (String.substring 0 n (fragment i))) (sp_offset i + Z.of_nat n) (drop_str n (fragment i)).
End Span.

(** The length of the character that a byte begins. *)
Definition utf8_len (c : ascii) : nat :=
  let n := N_of_ascii c in if (n <? 192)%N then 1 else if (n <? 224)%N then 2 else if (n <? 240)%N then 3 else 4.
Definition first_char (s : string) : option string :=
  match s with "" => None | String c _ => Some (String.substring 0 (utf8_len c) s) end.

(** What the lexer uses of nom on floats and lines, and Rust's tables of
    Unicode characters. *)
Inductive FloatResult := FloatOk (float : string) | FloatError | FloatFailure.
Class LexLib := {
  (** The longest prefix that is a floating point number. *)
  recognize_float : string -> FloatResult;
  (** The rest of a line; an error at a carriage return without a newline. *)
  not_line_ending : string -> option string;
  is_alphanumeric : string -> bool;
}.

(** What of it the theorems rely on.  A number has a sign or not, and then a
    digit, or a dot and a digit. *)
Definition starts_digit (s : string) : bool := match s with String c _ => is_digit c | "" => false end.
Definition starts_decimal (s : string) : bool :=
  starts_digit s || match s with String "." s => starts_digit s | _ => false end.
Definition starts_number (s : string) : bool :=
  starts_decimal s || match s with String "-" s | String "+" s => starts_decimal s | _ => false end.
(** No number goes on here. *)
Definition ends_int (s : string) : bool :=
  match s with "" => true | String c _ => negb (is_digit c || existsb (Ascii.eqb c) ["."; "e"; "E"]%char) end.
Class LexLaws `{LexLib} := {
  float_prefix s f : recognize_float s = FloatOk f -> starts_with s f = true;
  float_parses s f : recognize_float s = FloatOk f -> parse_f64 f <> None;
  float_int g d s : g = "" \/ g = "-" -> d <> "" -> forall_chars is_digit d = true -> ends_int s = true ->
    recognize_float (g ^^ d ^^ s) = FloatOk (g ^^ d);
  no_float s : starts_number s = false -> recognize_float s = FloatError;
  ascii_alphanumeric c : (N_of_ascii c < 128)%N -> is_alphanumeric (String c "") = is_alnum c;
}.

Notation L := (Parser Span).

Definition taken (n : nat) : L Span := fun i => Done (Span.drop n i) (Span.take n i).
(** [tag!], which asks for more input when it is a prefix of the tag. *)
Definition ltag (t : string) : L Span := fun i =>
  if starts_with (fragment i) t then taken (String.length t) i
  else if starts_with t (fragment i) then Incomplete
  else NError.
(** [take!(1)] *)
Definition take1 : L Span := fun i =>
  match first_char (fragment i) with None => Incomplete | Some c => taken (String.length c) i end.

(** How many bytes of a text are characters that satisfy [f]. *)
Fixpoint span_while (f : string -> bool) (n : nat) (s : string) : nat :=
  match n with
  | O => 0
  | S n =>
    match first_char s with
    | Some c => if f c then String.length c + span_while f n (drop_str (String.length c) s) else 0
    | None => 0
    end
  end.
Definition take_while (f : string -> bool) : L Span := fun i => taken (span_while f (size i) (fragment i)) i.
Definition take_while1 (f : string -> bool) : L Span := fun i =>
  match span_while f (size i) (fragment i) with O => NError | S n => taken (S n) i end.
Definition one_of (cs : list string) (c : string) : bool := existsb (String.eqb c) cs.

Definition multispace0 : L Span :=
  take_while (one_of [" "; String (ascii_of_nat 9) ""; String (ascii_of_nat 10) ""; String (ascii_of_nat 13) ""]).
Definition digit1 : L Span := take_while1 (forall_chars is_digit).

(** ** Tokens of a text *)

(** The lexer's [LocToken]: its span; the column of a span is counted by the
    nom_locate crate. *)
Record SToken := mkSToken { st_span : Span; st_tok : Token }.
Definition with_fragment (i : Span) (s : string) : Span := mkSpan (sp_line i) (sp_offset i) s.

(** After the first character of an operator: the character that makes it a
    longer one. *)
Definition lex_longer (i : Span) (c s : string) (t : Token) : L SToken :=
  _ ← ltag c; mret (mkSToken (with_fragment i s) t).
Definition lex_shorter (i : Span) (s : string) (t : Token) : L SToken := mret (mkSToken (with_fragment i s) t).

Section lexer.
Context `{LexLib}.

Definition lex_comment : L SToken := fun i =>
  match not_line_ending (fragment i) with
  | Some s => (t ← taken (String.length s); mret (mkSToken t (Comment (fragment t)))) i
  | None => NError
  end.

(** Operators of one character; those that a second character makes longer,
    with what they are with it and without. *)
Definition single : list (string * Token) :=
  [("@", At); ("?", QuestionMark); (".", TDot); ("_", Underscore); ("*", TMultiply); ("%", Percent); (",", Comma);
   (";", SemiColon); ("(", LParen); (")", RParen); ("{", LBrace); ("}", RBrace); ("[", LBracket); ("]", RBracket)].
Definition longer : list (string * (string * Token * Token)) :=
  [("+", ("+", PlusPlus, TPlus)); (":", (":", ColonColon, Colon)); ("|", ("|", TOr, Bar)); ("-", (">", Arrow, TMinus));
   ("<", ("=", TLessThanEqual, TLessThan)); (">", ("=", TGreaterThanEqual, TGreaterThan)); ("=", ("=", TEqual, Assign));
   ("!", ("=", TNotEqual, TNot))].
Definition assoc {A} (s : string) (l : list (string * A)) : option A := snd <$> find (fun x => x.1 =? s) l.

Definition lex_operator : L SToken :=
  i ← take1;
  let s := fragment i in
  match assoc s single, assoc s longer with
  | Some t, _ => mret (mkSToken i t)
  | None, Some (c, t, u) => Nom.or (lex_longer i c (s ^^ c) t) (lex_shorter i s u)
  | None, None =>
    if s =? "/" then Nom.or (_ ← ltag "/"; lex_comment) (lex_shorter i "/" TDivide)
    else if s =? "&" then lex_longer i "&" "&&" TAnd
    else Nom.error
  end.

(** The parses of a number's text are unwrapped. *)
Definition unwrap_parse {A} (o : option A) : L A := match o with Some a => mret a | None => Nom.panics end.

Definition lex_number : L SToken := fun input =>
  match recognize_float (fragment input) with
  | FloatOk float =>
    if ends_with float "." then
      if starts_with float "-" then (t ← ltag "-"; mret (mkSToken t TMinus)) input
      else (i ← digit1; n ← unwrap_parse (parse_i64 (fragment i)); mret (mkSToken i (IntLiteral n))) input
    else if starts_with float "." && negb (contains float "e") then (t ← ltag "."; mret (mkSToken t TDot)) input
    else match parse_i64 float with
         | Some number => (_ ← Nom.opt (ltag "-"); t ← digit1; mret (mkSToken t (IntLiteral number))) input
         | None =>
           (t ← taken (String.length float); f ← unwrap_parse (parse_f64 float); mret (mkSToken t (FloatLiteral f))) input
         end
  | FloatError | FloatFailure => NError
  end.

Definition reserved : list (string * Token) :=
  [("all", TAll); ("any", TAny); ("as", TAs); ("async", TAsync); ("else", TElse); ("external", TExternal);
   ("false", BoolLiteral false); ("filter_map", TFilterMap); ("filter", TFilter); ("fn", TFunction);
   ("foreach", TForEach); ("fold", TFold); ("if", TIf); ("in", TIn); ("where", TWhere); ("let", TLet); ("map", TMap);
   ("matches", TMatches); ("Regex", TRegex); ("return", TReturn); ("Some", TSome); ("true", BoolLiteral true)].
Definition parse_reserved (t : Span) : SToken :=
  mkSToken t
    match assoc (fragment t) reserved with Some r => r | None => TIdent (fragment t) end.

(** The text before a quote; a text that is no label is as if it were not
    there. *)
Fixpoint find_char (c : ascii) (s : string) : option nat :=
  match s with "" => None | String d s => if Ascii.eqb d c then Some 0 else S <$> find_char c s end.
Definition label_token (span : Span) : L SToken := fun i =>
  match Label.from_str (fragment span) with
  | Ok label => Done i (mkSToken span (LabelLiteral label))
  | Err _ => Incomplete
  end.
Definition lex_label_inner : L SToken := fun i =>
  match find_char (ascii_of_nat 39) (fragment i) with
  | Some n => (taken n ≫= label_token) i
  | None => NError
  end.
Definition lex_label : L SToken := Nom.delimited (ltag "'") lex_label_inner (ltag "'").

Definition lex_reserved_ident : L SToken := fun i =>
  match take_while1 (fun c => is_alphanumeric c || (c =? "_")) i with
  | Done rest t => if starts_with (fragment t) "_" then Incomplete else Done rest (parse_reserved t)
  | NError => NError
  | Incomplete => Incomplete
  | NPanic => NPanic
  | NFuel => NFuel
  end.

(** [escaped!]: the length of the text in which quotes and backslashes have a
    backslash before them. *)
Definition backslash : string := "\".
Fixpoint escaped_len (n : nat) (s : string) : IResult nat nat :=
  match n with
  | O => NFuel
  | S n =>
    match first_char s with
    | None => Incomplete
    | Some c =>
      let next k := match escaped_len n (drop_str k s) with Done r m => Done r (k + m) | r => r end in
      if c =? dquote then Done 0 0
      else if c =? backslash then
        match first_char (drop_str 1 s) with
        | None => Incomplete
        | Some d => if (d =? dquote) || (d =? backslash) then next 2 else NError
        end
      else next (String.length c)
    end
  end.
Definition escaped : L Span := fun i =>
  match escaped_len (S (size i)) (fragment i) with
  | Done _ n => taken n i
  | NError => NError
  | Incomplete => Incomplete
  | NPanic => NPanic
  | NFuel => NFuel
  end.

(** [s.replace(from, to)] *)
Definition replace (from to s : string) : string := join to (split from s).
Definition unescape (s : string) : string := replace (backslash ^^ backslash) backslash (replace (backslash ^^ dquote) dquote s).

Definition lex_string : L SToken :=
  b ← Nom.first [ltag ("b" ^^ dquote); ltag dquote];
  t ← Nom.opt escaped;
  _ ← ltag dquote;
  let s := match t with Some s => unescape (fragment s) | None => "" end in
  mret (mkSToken b (if starts_with (fragment b) "b" then DataLiteral (as_bytes s) else StringLiteral s)).

Definition lex_illegal : L SToken := t ← take1; mret (mkSToken t (Illegal (fragment t))).

Definition lex_token : L SToken :=
  Nom.alt [lex_number; lex_string; lex_label; lex_reserved_ident; lex_operator; lex_illegal].
Definition lex_tokens : L (list SToken) := Nom.many0 (Nom.delimited multispace0 lex_token multispace0).

Definition is_comment (t : Token) : bool := match t with Comment _ => true | _ => false end.
(** The result of [lex_tokens] is unwrapped. *)
Definition lex (buf : string) : Outcome (list SToken) :=
  match lex_tokens (Span.new buf) with
  | Done loc tokens => Val (List.filter (fun t => negb (is_comment (st_tok t))) (tokens ++ [mkSToken loc EOF]))
  | NError | Incomplete | NPanic => Panic
  | NFuel => OutOfFuel
  end.
End lexer.

(** ** An implementation that the examples run *)

Definition sign_text (s : string) : string * string :=
  match s with
  | String c s' => if Ascii.eqb c "+" || Ascii.eqb c "-" then (String c "", s') else ("", s)
  | "" => ("", "")
  end.
(** A fraction: the dot and its digits, which may be missing. *)
Definition fraction_text (s : string) : string * string :=
  match s with
  | String c s' => if Ascii.eqb c "." then let '(d, r) := take_digits s' in (String c d, r) else ("", s)
  | "" => ("", "")
  end.
(** An exponent, whose digits must be there. *)
Definition exponent_text (s : string) : option string :=
  match s with
  | String c s' =>
    if Ascii.eqb c "e" || Ascii.eqb c "E" then
      let '(g, s') := sign_text s' in
      let '(d, _) := take_digits s' in
      if d =? "" then None else Some (String c (g ^^ d))
    else Some ""
  | "" => Some ""
  end.
Definition float_text (s : string) : FloatResult :=
  let '(g, s1) := sign_text s in
  let '(d, s2) := take_digits s1 in
  let '(f, s3) := fraction_text s2 in
  if (d =? "") && Nat.leb (String.length f) 1 then FloatError
  else match exponent_text s3 with Some e => FloatOk (g ^^ d ^^ f ^^ e) | None => FloatFailure end.

(** A line and whether a newline follows. *)
Fixpoint line_text (s : string) : option string :=
  match s with
  | "" => Some ""
  | String c s' =>
    if Ascii.eqb c (ascii_of_nat 10) then Some ""
    else if Ascii.eqb c (ascii_of_nat 13) then
      match s' with String d _ => if Ascii.eqb d (ascii_of_nat 10) then Some "" else None | "" => None end
    else String c <$> line_text s'
  end.

Definition test_lexlib : LexLib := {|
  recognize_float := float_text; not_line_ending := line_text; is_alphanumeric := forall_chars is_alnum |}.
