(* ===== verification/Parser.v ===== *)
(** * The parser (src/src/armour-lang/src/parser.rs, TParser)

    The grammar of policies over tokens, with the alternatives in the order
    of the source and the loop on operator precedence.  Parsers call each
    other through a record, which is tied with fuel: [parse_program] and the
    other entries give as much as there are tokens. *)

From Stdlib Require Import ZArith Lia String Ascii List.
From stdpp Require Import base tactics list strings.
From S2P Require Import Prelude.
From S2P Require Import Ordered.
From S2P Require Import Strings.
From S2P Require Import Labels.
From S2P Require Import Syntax.
From S2P Require Import Types.
From S2P Require Import Net.
From S2P Require Import Literals.
From S2P Require Import Nom.
From S2P Require Import Ast.
From S2P Require Import Expressions.
From S2P Require Import Interpret.
From S2P Require Import TypeCheck.
From S2P Require Import Lexer.

Local Open Scope string_scope.
Local Open Scope list_scope.

Notation P := (Parser Tokens).

(** ** Tokens *)

Definition take_token : P LocToken := fun i => match i with [] => Incomplete | t :: i => Done i t end.

(** [tag_token!] *)
Definition tag_token (t : Token) : P LocToken := fun i =>
  match i with
  | [] => Incomplete
  | u :: i => if Token.eqb (tok u) t then Done i u else NError
  end.

(** The parsers of a token with a value, such as [parse_ident!]. *)
Definition token_value {A} (f : LocToken -> option A) : P A := fun i =>
  match i with
  | [] => Incomplete
  | t :: i => match f t with Some a => Done i a | None => NError end
  end.

Definition parse_ident : P LocIdent :=
  token_value (fun t => match tok t with TIdent s => Some (mkLocIdent (tok_loc t) s) | _ => None end).
Definition parse_string_as_ident : P LocIdent :=
  token_value (fun t => match tok t with StringLiteral s => Some (mkLocIdent (tok_loc t) s) | _ => None end).
Definition parse_int_literal : P (Loc * Z) :=
  token_value (fun t => match tok t with IntLiteral i => Some (tok_loc t, i) | _ => None end).
Definition parse_label_literal : P (Loc * Label) :=
  token_value (fun t => match tok t with LabelLiteral l => Some (tok_loc t, l) | _ => None end).

(** ** Types, parameters and heads *)

(** [parse_type]: types nest in types, through the fuel. *)
Definition parse_types (parse_type : P PTyp) : P (list PTyp) := Nom.separated (tag_token Comma) parse_type.
Definition parse_atom_type (parse_type : P PTyp) : P PTyp :=
  t ← parse_ident;
  oty ← Nom.opt (Nom.delimited (tag_token TLessThan) parse_type (tag_token TGreaterThan));
  mret match oty with Some ty => PCons t ty | None => PAtom t end.
Definition parse_tuple_type (parse_type : P PTyp) : P PTyp :=
  _ ← tag_token LParen;
  typs ← Nom.opt (parse_types parse_type);
  _ ← tag_token RParen;
  mret (PTuple (unwrap_or [] typs)).
Fixpoint parse_type_fuel (n : nat) : P PTyp := fun i =>
  match n with
  | O => NFuel
  | S n => Nom.alt [parse_atom_type (parse_type_fuel n); parse_tuple_type (parse_type_fuel n)] i
  end.
Definition parse_type : P PTyp := fun i => parse_type_fuel (S (length i)) i.

Definition parse_param : P Param :=
  name ← parse_ident;
  _ ← tag_token Colon;
  typ ← parse_type;
  mret (mkParam name typ).
Definition parse_params : P (list Param) := Nom.separated (tag_token Comma) parse_param.

Definition tuple_ident : P LocIdent :=
  Nom.alt [u ← tag_token Underscore; mret (mkLocIdent (tok_loc u) "_"); parse_ident].

Definition parse_idents : P (list LocIdent) :=
  Nom.or
    (Nom.alt
       [(_ ← tag_token LParen;
         id ← tuple_ident;
         ids ← Nom.many1 (Nom.preceded (tag_token Comma) tuple_ident);
         _ ← tag_token RParen;
         mret (id :: ids));
        (id ← parse_ident; mret [id])])
    (Nom.value [mkLocIdent Loc.dummy "_"] (tag_token Underscore)).

Definition parse_head : P Head :=
  _ ← tag_token TFunction;
  id ← parse_ident;
  _ ← tag_token LParen;
  typs ← Nom.alt
    [Nom.value None (tag_token Underscore);
     (typs ← Nom.opt (parse_types parse_type); mret (Some (unwrap_or [] typs)))];
  _ ← tag_token RParen;
  typ ← Nom.opt (Nom.preceded (tag_token Arrow) parse_type);
  mret (mkHead id typs typ).

Definition parse_external : P External :=
  _ ← tag_token TExternal;
  name ← parse_ident;
  _ ← tag_token At;
  url ← parse_string_as_ident;
  headers ← Nom.delimited (tag_token LBrace) (Nom.many0 parse_head) (tag_token RBrace);
  mret (mkExternal name url headers).

Definition parse_fn_head : P FnHead :=
  _ ← tag_token TFunction;
  id ← parse_ident;
  _ ← tag_token LParen;
  params ← Nom.opt parse_params;
  _ ← tag_token RParen;
  typ ← Nom.opt (Nom.preceded (tag_token Arrow) parse_type);
  mret (mkFnHead id (unwrap_or [] params) typ).

(** ** Patterns *)

Definition CLASSES : list string := ["alpha"; "alphanum"; "base64"; "digit"; "hex_digit"; "s"].

Definition parse_pat_literal : P Pat :=
  token_value (fun t => match tok t with StringLiteral s => Some (PatLit s) | _ => None end).
Definition parse_pat_class : P Pat :=
  token_value (fun t => match tok t with
    | TIdent name => if existsb (String.eqb name) CLASSES then Some (PatClass name) else None
    | _ => None end).
Definition parse_pat_typ : P As :=
  token_value (fun t => match tok t with
    | TIdent s => if s =? "i64" then Some AsI64 else if s =? "base64" then Some AsBase64
                  else if s =? "str" then Some AsStr else None
    | _ => None end).
Definition parse_as_pat : P Pat :=
  _ ← tag_token LBracket;
  i ← parse_ident;
  j ← Nom.opt (Nom.preceded (tag_token TAs) parse_pat_typ);
  _ ← tag_token RBracket;
  mret (PatAs (id i) (unwrap_or AsStr j)).

Section pat.
Variable parse_pat : P Pat.
Definition parse_atom_pat : P Pat :=
  Nom.alt
    [parse_pat_literal;
     Nom.value PatAny (tag_token TDot);
     Nom.delimited (tag_token Colon) parse_pat_class (tag_token Colon);
     parse_as_pat;
     Nom.delimited (tag_token LParen) parse_pat (tag_token RParen)].
Definition postfix_pat : P (Pat -> Pat) :=
  Nom.alt
    [Nom.value PatStar (tag_token TMultiply);
     Nom.value PatPlus (tag_token TPlus);
     Nom.value PatOpt (tag_token QuestionMark);
     Nom.value PatCaseInsensitive (tag_token TNot);
     Nom.value PatIgnoreWhitespace (tag_token Percent)].
Definition parse_postfix_pat : P Pat :=
  a ← parse_atom_pat;
  postfix ← Nom.many0 postfix_pat;
  mret (foldl (fun r p => p r) a postfix).
Definition parse_pat_seq : P Pat :=
  p ← Nom.many1 parse_postfix_pat;
  mret match p with [p] => p | _ => PatSeq p end.
Definition parse_pat_step : P Pat :=
  p ← parse_pat_seq;
  ps ← Nom.many0 (Nom.preceded (tag_token Bar) parse_pat_seq);
  mret match ps with [] => p | _ => PatAlt (p :: ps) end.
End pat.
Fixpoint parse_pat_fuel (n : nat) : P Pat := fun i =>
  match n with O => NFuel | S n => parse_pat_step (parse_pat_fuel n) i end.
Definition parse_pat : P Pat := fun i => parse_pat_fuel (S (length i)) i.

(** ** Operators *)

Inductive Assoc := LeftAssoc | RightAssoc.

(** [Precedence], which is ordered. *)
Definition Precedence := nat.
Definition PLowest : Precedence := 0.
Definition POr : Precedence := 1.
Definition PAnd : Precedence := 2.
Definition PEquals : Precedence := 3.
Definition PLessGreater : Precedence := 4.
Definition PIn : Precedence := 5.
Definition PSum : Precedence := 6.
Definition PProduct : Precedence := 7.
Definition PDot : Precedence := 8.
Definition PCallExpr : Precedence := 9.
Definition PModule : Precedence := 10.

Definition infix_op (t : Token) : Precedence * option (Assoc * Infix) :=
  match t with
  | TEqual => (PEquals, Some (RightAssoc, Equal))
  | TNotEqual => (PEquals, Some (RightAssoc, NotEqual))
  | TLessThanEqual => (PLessGreater, Some (RightAssoc, LessThanEqual))
  | TGreaterThanEqual => (PLessGreater, Some (RightAssoc, GreaterThanEqual))
  | TLessThan => (PLessGreater, Some (RightAssoc, LessThan))
  | TGreaterThan => (PLessGreater, Some (RightAssoc, GreaterThan))
  | TOr => (POr, Some (RightAssoc, Or))
  | TAnd => (PAnd, Some (RightAssoc, And))
  | TPlus => (PSum, Some (LeftAssoc, Plus))
  | TMinus => (PSum, Some (LeftAssoc, IMinus))
  | At => (PSum, Some (RightAssoc, Concat))
  | PlusPlus => (PSum, Some (RightAssoc, ConcatStr))
  | TMultiply => (PProduct, Some (LeftAssoc, Multiply))
  | TDivide => (PProduct, Some (LeftAssoc, Divide))
  | Percent => (PProduct, Some (LeftAssoc, Remainder))
  | TIn => (PIn, Some (LeftAssoc, In_))
  | TDot => (PDot, None)
  | LParen => (PCallExpr, None)
  | ColonColon => (PModule, Some (RightAssoc, Module_))
  | _ => (PLowest, None)
  end.

(** ** Expressions, statements and blocks *)

(** What expressions, blocks and conditionals need of each other. *)
Record Parsers (FL : Type) := mkParsers {
  pratt_expr : Precedence -> P (LocExpr FL);
  go_pratt_expr : Precedence -> LocExpr FL -> P (LocExpr FL);
  block_stmt : P (BlockStmt FL);
  if_expr : P (LocExpr FL);
}.
Arguments mkParsers {FL} pratt_expr go_pratt_expr block_stmt if_expr.
Arguments pratt_expr {FL} p.
Arguments go_pratt_expr {FL} p.
Arguments block_stmt {FL} p.
Arguments if_expr {FL} p.

(** [LocExprOrMatches] *)
Inductive IfHead (FL : Type) :=
| HExpr (e : LocExpr FL)
| HMatches (ms : list (LocExpr FL * PPattern))
| HSomeMatch (i : LocIdent) (e : LocExpr FL).
Arguments HExpr {FL} e.
Arguments HMatches {FL} ms.
Arguments HSomeMatch {FL} i e.

Section parser.
Context {FT FL : Type} `{TFlatTyp FT} `{TFlatLiteral FT FL} `{Lib} `{RegexNew}.
Notation LE := (LocExpr FL).

(** [parse_literal!] *)
Definition parse_literal : P LE :=
  token_value (fun t =>
    let lit l := Some (mkLocExpr (tok_loc t) (PLit l)) in
    match tok t with
    | BoolLiteral b => lit (Literal.bool b)
    | DataLiteral d => lit (Literal.data d)
    | FloatLiteral f => lit (Literal.float f)
    | TIdent s => if s =? "None" then lit Literal.none else None
    | IntLiteral i => lit (Literal.int i)
    | LabelLiteral l => lit (Literal.label l)
    | StringLiteral s => lit (Literal.str s)
    | _ => None
    end).

(** The number after a dot: text that is no float panics. *)
Definition dot_float (i : Loc * Z) : P LE :=
  match parse_f64 ("." ^^ i64_to_string i.2) with
  | Some f => mret (mkLocExpr i.1 (PLit (Literal.float f)))
  | None => Nom.panics
  end.

Definition parse_pat_no_bind : P PolicyRegex := fun input =>
  match parse_pat input with
  | Done rest p =>
    if Pat.has_as p then NError
    else match PPattern.from_pat p with
         | Val r => Done rest r
         | Fail _ => NError
         | Panic => NPanic
         | OutOfFuel => NFuel
         end
  | NError => NError
  | Incomplete => Incomplete
  | NPanic => NPanic
  | NFuel => NFuel
  end.

Definition parse_lit_expr : P LE :=
  Nom.alt
    [_ ← tag_token TDot; i ← parse_int_literal; dot_float i;
     parse_literal;
     (t ← tag_token TRegex;
      _ ← tag_token LParen;
      regex ← parse_pat_no_bind;
      _ ← tag_token RParen;
      mret (mkLocExpr (tok_loc t) (PLit (Literal.regex regex))))].

Definition parse_ident_expr : P LE :=
  Nom.alt
    [ident ← parse_ident; mret (mkLocExpr (li_loc ident) (PIdent (id ident)));
     t ← tag_token TSome; mret (mkLocExpr (tok_loc t) (PIdent "option::Some"))].

Definition parse_pattern : P PPattern :=
  Nom.alt [PRegex <$> parse_pat; p ← parse_label_literal; mret (PLabel p.2)].

(** The operation of an iterator token. *)
Definition iter_op (t : Token) : option Iter :=
  match t with
  | TAll => Some All | TAny => Some Any_ | TFilter => Some Filter | TFilterMap => Some FilterMap
  | TForEach => Some ForEach | TMap => Some Map | TFold => Some Fold | _ => None
  end.
(** [unreachable!()] for other tokens. *)
Definition op_of (t : LocToken) : P Iter := match iter_op (tok t) with Some op => mret op | None => Nom.panics end.

Section rec.
Variable rec : Parsers FL.

Definition parse_expr : P LE := pratt_expr rec PLowest.
Definition parse_exprs : P (list LE) := Nom.separated (tag_token Comma) parse_expr.

Definition parse_prefix_expr : P LE :=
  t ← Nom.alt [tag_token TMinus; tag_token TNot];
  e ← parse_expr;
  match tok t with
  | TMinus => mret (mkLocExpr (tok_loc t) (PPrefix Minus e))
  | TNot => mret (mkLocExpr (tok_loc t) (PPrefix Not e))
  | _ => Nom.error
  end.

Definition parse_paren_expr : P LE :=
  t ← tag_token LParen;
  es ← Nom.opt parse_exprs;
  _ ← tag_token RParen;
  mret (mkLocExpr (tok_loc t)
    match unwrap_or [] es with
    | [] => PLit Literal.unit
    | [e] => LocExpr.expr e
    | es => PTup es
    end).

Definition parse_list_expr : P LE :=
  t ← tag_token LBracket;
  items ← Nom.opt parse_exprs;
  _ ← tag_token RBracket;
  mret (mkLocExpr (tok_loc t) (PList (unwrap_or [] items))).

Definition parse_iter_expr : P LE :=
  t ← Nom.first [tag_token TAll; tag_token TAny; tag_token TFilter; tag_token TFilterMap; tag_token TForEach;
                 tag_token TMap];
  idents ← parse_idents;
  _ ← tag_token TIn;
  expr ← parse_expr;
  body ← block_stmt rec;
  op ← op_of t;
  mret (mkLocExpr (tok_loc t) (PIter op idents expr body None)).

Definition parse_iter_acc_expr : P LE :=
  t ← tag_token TFold;
  idents ← parse_idents;
  _ ← tag_token TIn;
  expr ← parse_expr;
  body ← block_stmt rec;
  _ ← tag_token TWhere;
  acc_ident ← parse_ident;
  _ ← tag_token Assign;
  acc_expr ← parse_expr;
  op ← op_of t;
  mret (mkLocExpr (tok_loc t) (PIter op idents expr body (Some (acc_ident, acc_expr)))).

Definition parse_all_any_expr : P LE :=
  t ← Nom.first [tag_token TAll; tag_token TAny];
  expr ← parse_list_expr;
  op ← op_of t;
  mret (mkLocExpr (tok_loc t)
    (PIter op [mkLocIdent Loc.dummy "x"] expr (BlockStmt.of_expr (mkLocExpr Loc.dummy (PIdent "x"))) None)).

Definition parse_some_match : P (LocIdent * LE) :=
  _ ← tag_token TLet;
  _ ← tag_token TSome;
  id ← Nom.delimited (tag_token LParen) parse_ident (tag_token RParen);
  _ ← tag_token Assign;
  e ← parse_expr;
  mret (id, e).

Definition parse_match_expr : P (LE * PPattern) :=
  e ← parse_expr;
  _ ← tag_token TMatches;
  pat ← parse_pattern;
  mret (e, pat).
Definition parse_match_exprs : P (list (LE * PPattern)) := Nom.separated (tag_token TAnd) parse_match_expr.

Definition parse_else_expr : P (BlockStmt FL) :=
  Nom.preceded (tag_token TElse) (Nom.alt [block_stmt rec; BlockStmt.of_expr <$> if_expr rec]).

Definition if_head : P (IfHead FL) :=
  Nom.alt
    [HMatches <$> parse_match_exprs;
     (s ← parse_some_match; mret (HSomeMatch s.1 s.2));
     HExpr <$> parse_expr].

Definition parse_if_expr : P LE :=
  t ← tag_token TIf;
  b ← if_head;
  consequence ← block_stmt rec;
  alternative ← Nom.opt parse_else_expr;
  mret (mkLocExpr (tok_loc t)
    match b with
    | HExpr e => PIf e consequence alternative
    | HMatches ms => PIfMatch ms consequence alternative
    | HSomeMatch i e => PIfSomeMatch i e consequence alternative
    end).

Definition parse_atom_expr : P LE :=
  Nom.alt
    [parse_lit_expr; parse_ident_expr; parse_prefix_expr; parse_paren_expr; parse_list_expr; parse_if_expr;
     parse_iter_expr; parse_iter_acc_expr; parse_all_any_expr].

(** The operand of a binary operator binds as tight as the operator. *)
Definition parse_infix_expr (left : LE) : P LE :=
  t ← take_token;
  let '(precedence, maybe_op) := infix_op (tok t) in
  match maybe_op with
  | None => Nom.error
  | Some (_, op) =>
    right ← pratt_expr rec precedence;
    mret (mkLocExpr (tok_loc t) (PInfix op left right))
  end.

Definition parse_call_expr (fn_handle : LE) : P LE :=
  _ ← tag_token LParen;
  arguments ← Nom.opt parse_exprs;
  _ ← tag_token RParen;
  match PExpr.eval_call_function (LocExpr.expr fn_handle) with
  | Some f => mret (mkLocExpr (LocExpr.loc fn_handle) (PCall (LocExpr.loc fn_handle) f (unwrap_or [] arguments)))
  | None => Nom.error
  end.

(** The call of a method: of another expression is [unreachable!()]. *)
Definition method_call (left call : LE) : P LE :=
  match LocExpr.expr call with
  | PCall loc function arguments =>
    mret (mkLocExpr (LocExpr.loc left) (PCall loc (".::" ^^ function) (left :: arguments)))
  | _ => Nom.panics
  end.

Definition parse_dot_expr (left : LE) : P LE :=
  Nom.alt
    [(_ ← tag_token TDot;
      i ← parse_int_literal;
      mret (mkLocExpr (LocExpr.loc left) (PCall i.1 (i64_to_string i.2) [left])));
     (_ ← tag_token TDot;
      id ← parse_ident_expr;
      call ← parse_call_expr id;
      method_call left call)].

Definition parse_let_stmt : P (LocStmt FL) :=
  t ← tag_token TLet;
  idents ← parse_idents;
  _ ← tag_token Assign;
  expr ← parse_expr;
  _ ← tag_token SemiColon;
  mret (mkLocStmt (tok_loc t) (LetStmt idents expr)).
Definition parse_return_stmt : P (LocStmt FL) :=
  t ← tag_token TReturn;
  expr ← parse_expr;
  mret (mkLocStmt (tok_loc t) (ReturnStmt expr)).
Definition parse_expr_stmt : P (LocStmt FL) :=
  async_tag ← Nom.opt (tag_token TAsync);
  expr ← parse_expr;
  semi ← Nom.opt (tag_token SemiColon);
  mret (LocStmt.expr_stmt expr (bool_decide (is_Some async_tag)) (bool_decide (is_Some semi))).
Definition parse_stmt : P (LocStmt FL) := Nom.alt [parse_let_stmt; parse_return_stmt; parse_expr_stmt].

(** The steps that tie the knot. *)
Definition parse_block_stmt : P (BlockStmt FL) :=
  async_tag ← Nom.opt (tag_token TAsync);
  statements ← Nom.delimited (tag_token LBrace) (Nom.many0 parse_stmt) (tag_token RBrace);
  mret (mkBlock statements (bool_decide (is_Some async_tag))).

Definition parse_pratt_expr (precedence : Precedence) : P LE :=
  left ← parse_atom_expr;
  go_pratt_expr rec precedence left.

Definition go_parse_pratt_expr (precedence : Precedence) (left : LE) : P LE := fun input =>
  match input with
  | [] => Incomplete
  | t :: _ =>
    let '(peek, op) := infix_op (tok t) in
    if Nat.eqb peek PDot && Nat.ltb precedence PDot then
      (left2 ← parse_dot_expr left; go_pratt_expr rec precedence left2) input
    else if Nat.eqb peek PCallExpr && Nat.ltb precedence PCallExpr then
      (left2 ← parse_call_expr left; go_pratt_expr rec precedence left2) input
    else if match op with Some (RightAssoc, _) => Nat.leb precedence peek | _ => false end || Nat.ltb precedence peek then
      (left2 ← parse_infix_expr left; go_pratt_expr rec precedence left2) input
    else Done input left
  end.
End rec.

Fixpoint parsers (n : nat) : Parsers FL :=
  match n with
  | O => mkParsers (fun _ _ => NFuel) (fun _ _ _ => NFuel) (fun _ => NFuel) (fun _ => NFuel)
  | S n =>
    let rec := parsers n in
    mkParsers (parse_pratt_expr rec) (go_parse_pratt_expr rec) (parse_block_stmt rec) (parse_if_expr rec)
  end.

(** With as much fuel as there are tokens. *)
Definition enough {A} (p : Parsers FL -> P A) : P A := fun i => p (parsers (S (length i))) i.

Definition parse_fn_expr : P (FnDecl FL) :=
  head ← parse_fn_head;
  body ← enough block_stmt;
  mret (mkFnDecl head body).

(** The entries: a program, a block and an expression. *)
Definition parse_program : P (list (Decl FL)) :=
  Nom.terminated
    (Nom.many0 (Nom.alt [DFnDecl <$> parse_fn_expr; DExternal <$> parse_external]))
    (tag_token EOF).
Definition parse_block_stmt_eof : P (BlockStmt FL) := Nom.terminated (enough block_stmt) (tag_token EOF).
Definition parse_expr_eof : P LE := Nom.terminated (enough parse_expr) (tag_token EOF).
End parser.
