(* ===== verification/ParserTheory.v ===== *)
(** * What the parser guarantees

    Parsing ends: as many recursive calls as there are tokens are enough. *)

From Stdlib Require Import ZArith Lia String Ascii List.
From stdpp Require Import base tactics list strings.
From S2P Require Import Prelude.
From S2P Require Import Ordered.
From S2P Require Import Strings.
From S2P Require Import Labels.
From S2P Require Import Syntax.
From S2P Require Import Types.
From S2P Require Import Net.
From S2P Require Import Literals.
From S2P Require Import Nom.
From S2P Require Import Ast.
From S2P Require Import Expressions.
From S2P Require Import Interpret.
From S2P Require Import TypeCheck.
From S2P Require Import Lexer.
From S2P Require Import Parser.

Local Open Scope string_scope.
Local Open Scope list_scope.

(** ** Fuel *)

Lemma eats_tag n t : eats n (tag_token t).
Proof. intros [|u i] Hi; simpl; [done|]. destruct (Token.eqb _ _); simpl; [unfold size, list_input; simpl; lia|done]. Qed.
Lemma eats_take n : eats n take_token.
Proof. intros [|u i] Hi; simpl; [done|]. unfold size, list_input; simpl; lia. Qed.
Lemma eats_value n {A} (f : LocToken -> option A) : eats n (token_value f).
Proof. intros [|u i] Hi; simpl; [done|]. destruct (f u); simpl; [unfold size, list_input; simpl; lia|done]. Qed.

Create HintDb parse.
#[export] Hint Resolve eats_tag eats_take eats_value good_ret good_error eats_error good_panics : parse.

#[export] Hint Extern 1 (_ <= _) => lia : parse.

(** Decide that a parser is [good] or [eats] by its structure. *)
Ltac parse_leaf := solve [eauto with parse].
Ltac parse_step :=
  lazymatch goal with
  | |- Forall _ _ => constructor
  | |- eats _ (Nom.alt _) => apply eats_alt
  | |- eats _ (Nom.first _) => apply eats_first
  | |- eats _ (Nom.or _ _) => apply eats_or
  | |- eats _ (Nom.many1 _) => apply eats_many1
  | |- eats _ (Nom.value _ _) => apply eats_bind; [|intros ?]
  | |- eats _ (Nom.preceded _ _) => apply eats_bind; [|intros ?]
  | |- eats _ (Nom.delimited _ _ _) => apply eats_bind; [|intros ?]
  | |- eats _ (Nom.separated _ _) => apply eats_bind; [|intros ?]
  | |- good _ (Nom.opt _) => apply good_opt
  | |- good _ (Nom.alt _) => apply good_alt
  | |- good _ (Nom.many0 _) => apply good_many0
  | |- good _ (_ <$> _) => apply good_fmap
  | |- eats _ (_ <$> _) => apply eats_bind; [|intros ?]
  | |- eats _ (_ ≫= _) => first [apply eats_bind; [solve [repeat first [parse_leaf|parse_step]]|intros ?]
                                |apply eats_bind_r; [|intros ?]]
  | |- good _ (_ ≫= _) => first [apply eats_good, eats_bind; [solve [repeat first [parse_leaf|parse_step]]|intros ?]
                                |apply good_bind; [|intros ?]]
  | |- good _ (match _ with _ => _ end) => split_match
  | |- good _ _ => apply eats_good
  end.
Ltac parse_tac := repeat first [parse_leaf|parse_step].

Lemma eats_type_fuel k : eats k (parse_type_fuel k).
Proof.
  induction k as [|k IH]; [intros i Hi; lia|].
  assert (forall m, m <= k -> eats m (parse_type_fuel k)) as Hle by (intros m Hm; by apply (eats_le k)).
  change (eats (S k) (Nom.alt [parse_atom_type (parse_type_fuel k); parse_tuple_type (parse_type_fuel k)])).
  unfold parse_atom_type, parse_tuple_type, parse_types, parse_ident. parse_tac.
Qed.
Lemma eats_type n : eats n parse_type.
Proof. intros i Hi. apply (eats_type_fuel (S (length i))). unfold size, list_input. lia. Qed.

Lemma eats_pat_step k pat : (forall m, m <= k -> eats m pat) -> eats (S k) (parse_pat_step pat).
Proof.
  intros Hpat. unfold parse_pat_step, parse_pat_seq, parse_postfix_pat, parse_atom_pat, postfix_pat, parse_as_pat,
    parse_pat_literal, parse_pat_class, parse_ident, parse_pat_typ. parse_tac.
Qed.
Lemma eats_pat_fuel k : eats k (parse_pat_fuel k).
Proof.
  induction k as [|k IH]; [intros i Hi; lia|]. apply (eats_pat_step k). intros m Hm. by apply (eats_le k).
Qed.
Lemma eats_pat n : eats n parse_pat.
Proof. intros i Hi. apply (eats_pat_fuel (S (length i))). unfold size, list_input. lia. Qed.

#[export] Hint Resolve eats_type eats_pat : parse.

Lemma eats_idents n : eats n parse_idents.
Proof. unfold parse_idents, tuple_ident, parse_ident. parse_tac. Qed.
Lemma eats_head n : eats n parse_head.
Proof. unfold parse_head, parse_types, parse_ident. parse_tac. Qed.
#[export] Hint Resolve eats_idents eats_head : parse.
Lemma eats_external n : eats n parse_external.
Proof. unfold parse_external, parse_ident, parse_string_as_ident. parse_tac. Qed.
Lemma eats_fn_head n : eats n parse_fn_head.
Proof. unfold parse_fn_head, parse_params, parse_param, parse_ident. parse_tac. Qed.

Section fuel.
Context {FT FL : Type} `{TFlatTyp FT} `{TFlatLiteral FT FL} `{Lib} `{RegexNew}.

(** Parsers that are right for inputs of less than [n] tokens. *)
Record ready (n : nat) (rec : Parsers FL) : Prop := {
  ready_pratt m p : m <= n -> eats m (pratt_expr rec p);
  ready_go m p l : m <= n -> good m (go_pratt_expr rec p l);
  ready_block m : m <= n -> eats m (block_stmt rec);
  ready_if m : m <= n -> eats m (if_expr rec);
}.
#[local] Hint Resolve ready_pratt ready_go ready_block ready_if : parse.

Lemma eats_no_bind n : eats n parse_pat_no_bind.
Proof.
  intros i Hi. unfold parse_pat_no_bind. pose proof (eats_pat n i Hi). destruct (parse_pat i) as [i' p| | | |]; try done.
  destruct (Pat.has_as p); [done|]. unfold PPattern.from_pat, mbind, Outcome_bind, try.
  unfold PolicyRegex.source, unwrap. destruct (Pat.to_regex_str _ _ p); [|done]. simpl. by destruct (regex_new _).
Qed.
Lemma good_dot_float n i : good n (dot_float i : P (LocExpr FL)).
Proof. unfold dot_float. destruct (parse_f64 _); parse_tac. Qed.
Lemma good_op n t : good n (op_of t).
Proof. unfold op_of. destruct (iter_op _); parse_tac. Qed.
#[local] Hint Resolve eats_no_bind good_dot_float good_op : parse.

Lemma eats_lit n : eats n (parse_lit_expr : P (LocExpr FL)).
Proof. unfold parse_lit_expr, parse_int_literal, parse_literal. parse_tac. Qed.
Lemma eats_ident_expr n : eats n (parse_ident_expr : P (LocExpr FL)).
Proof. unfold parse_ident_expr, parse_ident. parse_tac. Qed.
Lemma eats_pattern n : eats n parse_pattern.
Proof. unfold parse_pattern, parse_label_literal. parse_tac. Qed.
#[local] Hint Resolve eats_lit eats_ident_expr eats_pattern : parse.

Section rec.
Variable k : nat.
Variable rec : Parsers FL.
Hypothesis Hrec : ready k rec.

Lemma eats_expr m : m <= k -> eats m (parse_expr rec).
Proof. intros. by eapply ready_pratt. Qed.
#[local] Hint Resolve eats_expr : parse.
Lemma eats_exprs m : m <= k -> eats m (parse_exprs rec).
Proof. intros. unfold parse_exprs. parse_tac. Qed.
#[local] Hint Resolve eats_exprs : parse.
Lemma eats_prefix : eats (S k) (parse_prefix_expr rec).
Proof. unfold parse_prefix_expr. parse_tac. Qed.
Lemma eats_paren : eats (S k) (parse_paren_expr rec).
Proof. unfold parse_paren_expr. parse_tac. Qed.
Lemma eats_list m : m <= S k -> eats m (parse_list_expr rec).
Proof. intros. apply (eats_le (S k)); [done|]. unfold parse_list_expr. parse_tac. Qed.
#[local] Hint Resolve eats_prefix eats_paren eats_list : parse.
Lemma eats_iter : eats (S k) (parse_iter_expr rec).
Proof. unfold parse_iter_expr. parse_tac. Qed.
Lemma eats_iter_acc : eats (S k) (parse_iter_acc_expr rec).
Proof. unfold parse_iter_acc_expr, parse_ident. parse_tac. Qed.
Lemma eats_all_any : eats (S k) (parse_all_any_expr rec).
Proof. unfold parse_all_any_expr. parse_tac. Qed.
Lemma eats_match m : m <= k -> eats m (parse_match_expr rec).
Proof. intros. unfold parse_match_expr. parse_tac. Qed.
#[local] Hint Resolve eats_match : parse.
Lemma eats_if_head m : m <= k -> eats m (if_head rec).
Proof. intros. unfold if_head, parse_match_exprs, parse_some_match, parse_ident. parse_tac. Qed.
#[local] Hint Resolve eats_if_head : parse.
Lemma eats_else m : m <= k -> eats m (parse_else_expr rec).
Proof. intros. unfold parse_else_expr. parse_tac. Qed.
#[local] Hint Resolve eats_else : parse.
Lemma eats_if : eats (S k) (parse_if_expr rec).
Proof. unfold parse_if_expr. parse_tac. Qed.
#[local] Hint Resolve eats_iter eats_iter_acc eats_all_any eats_if : parse.
Lemma eats_atom : eats (S k) (parse_atom_expr rec).
Proof. unfold parse_atom_expr. parse_tac. Qed.
Lemma eats_infix l : eats (S k) (parse_infix_expr rec l).
Proof. unfold parse_infix_expr. parse_tac. Qed.
Lemma eats_call l m : m <= S k -> eats m (parse_call_expr rec l).
Proof.
  intros. apply (eats_le (S k)); [done|]. unfold parse_call_expr. parse_tac.
Qed.
#[local] Hint Resolve eats_atom eats_infix eats_call : parse.
Lemma good_method m l c : good m (method_call l c : P (LocExpr FL)).
Proof. unfold method_call. destruct (LocExpr.expr c); parse_tac. Qed.
#[local] Hint Resolve good_method : parse.
Lemma eats_dot l : eats (S k) (parse_dot_expr rec l).
Proof. unfold parse_dot_expr, parse_int_literal. parse_tac. Qed.
#[local] Hint Resolve eats_dot : parse.
Lemma eats_stmt m : m <= k -> eats m (parse_stmt rec).
Proof. intros. unfold parse_stmt, parse_let_stmt, parse_return_stmt, parse_expr_stmt. parse_tac. Qed.
#[local] Hint Resolve eats_stmt : parse.
Lemma eats_block : eats (S k) (parse_block_stmt rec).
Proof. unfold parse_block_stmt. parse_tac. Qed.
Lemma eats_pratt p : eats (S k) (parse_pratt_expr rec p).
Proof. unfold parse_pratt_expr. parse_tac. Qed.
Lemma good_go p l : good (S k) (go_parse_pratt_expr rec p l).
Proof.
  intros i Hi. unfold go_parse_pratt_expr. destruct i as [|t i]; [done|]. destruct (infix_op (tok t)) as [peek op].
  destruct (_ && _); [|destruct (_ && _); [|destruct (_ || _); [|done]]];
    match goal with |- match ?p (t :: i) with _ => _ end =>
      assert (good (S k) p) as Hg by parse_tac; exact (Hg (t :: i) Hi) end.
Qed.
End rec.

Lemma parsers_ready n : ready n (parsers n).
Proof.
  induction n as [|n IH]; [split; intros m; intros; intros i Hi; lia|]. split; intros m.
  - intros p Hm. apply (eats_le (S n)); [done|]. by apply eats_pratt.
  - intros p l Hm. apply (good_le (S n)); [done|]. by apply good_go.
  - intros Hm. apply (eats_le (S n)); [done|]. by apply eats_block.
  - intros Hm. apply (eats_le (S n)); [done|]. by apply eats_if.
Qed.

Lemma eats_enough_block n : eats n (enough block_stmt : P (BlockStmt FL)).
Proof. intros i Hi. apply (ready_block _ _ (parsers_ready (S (length i))) _ (le_n _)). unfold size, list_input. lia. Qed.
Lemma eats_enough_expr n : eats n (enough parse_expr : P (LocExpr FL)).
Proof. intros i Hi. apply (ready_pratt _ _ (parsers_ready (S (length i))) _ PLowest (le_n _)). unfold size, list_input. lia. Qed.
End fuel.
#[export] Hint Resolve eats_enough_block eats_enough_expr eats_fn_head eats_external : parse.

Lemma good_program {FT FL} `{TFlatTyp FT} `{TFlatLiteral FT FL} `{Lib} `{RegexNew} n : good n (parse_program : P (list (Decl FL))).
Proof. unfold parse_program, parse_fn_expr, Nom.terminated. parse_tac. Qed.

(** Parsing ends: on any tokens, a program, a block or an expression is
    parsed or refused (or the parser panics) before the fuel runs out, which
    is the number of tokens. *)
Theorem parser_terminates {FT FL} `{TFlatTyp FT} `{TFlatLiteral FT FL} `{Lib} `{RegexNew} (ts : Tokens) :
  (parse_program ts : IResult Tokens (list (Decl FL))) <> NFuel /\
  (parse_block_stmt_eof ts : IResult Tokens (BlockStmt FL)) <> NFuel /\
  (parse_expr_eof ts : IResult Tokens (LocExpr FL)) <> NFuel.
Proof.
  assert (forall A (p : P A), good (S (length ts)) p -> p ts <> NFuel) as Hg.
  { intros A p Hp Hf. specialize (Hp ts ltac:(unfold size, list_input; lia)). by rewrite Hf in Hp. }
  split_and!; apply Hg; unfold parse_program, parse_block_stmt_eof, parse_expr_eof, parse_fn_expr, Nom.terminated; parse_tac.
Qed.
