(* ===== verification/Unparse.v ===== *)
(** * Printing syntax to tokens, and parsing it back

    The source has no printer of the parsed syntax; the reference printer here
    puts parentheses around every operation, call, iteration and conditional.
    It prints the syntax that a program can denote: the parser gives back the
    same syntax, with its locations erased. *)

From Stdlib Require Import ZArith Lia String Ascii List.
From stdpp Require Import base tactics list strings.
From S2P Require Import Prelude.
From S2P Require Import Ordered.
From S2P Require Import Strings.
From S2P Require Import Labels.
From S2P Require Import Syntax.
From S2P Require Import Types.
From S2P Require Import Net.
From S2P Require Import Literals.
From S2P Require Import Nom.
From S2P Require Import Ast.
From S2P Require Import Expressions.
From S2P Require Import Interpret.
From S2P Require Import TypeCheck.
From S2P Require Import Lexer.
From S2P Require Import Parser.

Local Open Scope string_scope.
Local Open Scope list_scope.

Notation PE := (PExpr FlatLiteral).

Definition toks (l : list Token) : Tokens := map (mkLocToken Loc.dummy) l.

(** ** The printer *)

Fixpoint intersperse (sep : Token) (ls : list (list Token)) : list Token :=
  match ls with [] => [] | [l] => l | l :: ls => l ++ sep :: intersperse sep ls end.
Definition commas : list (list Token) -> list Token := intersperse Comma.
Definition parens (l : list Token) : list Token := LParen :: l ++ [RParen].

Definition show_as (a : As) : Token :=
  TIdent match a with AsStr => "str" | AsI64 => "i64" | AsBase64 => "base64" end.

Fixpoint show_pat (p : Pat) : list Token :=
  match p with
  | PatAny => [TDot]
  | PatLit s => [StringLiteral s]
  | PatClass s => [Colon; TIdent s; Colon]
  | PatAlt ps => parens (intersperse Bar (map show_pat ps))
  | PatSeq ps => parens (concat (map show_pat ps))
  | PatAs i a => [LBracket; TIdent i; TAs; show_as a; RBracket]
  | PatOpt p => show_pat p ++ [QuestionMark]
  | PatStar p => show_pat p ++ [TMultiply]
  | PatPlus p => show_pat p ++ [TPlus]
  | PatCaseInsensitive p => show_pat p ++ [TNot]
  | PatIgnoreWhitespace p => show_pat p ++ [Percent]
  end.

Definition show_pattern (p : PPattern) : list Token :=
  match p with PRegex p => show_pat p | PLabel l => [LabelLiteral l] end.

Definition show_lit (l : Literal FlatLiteral) : list Token :=
  match l with
  | FlatLit (LBool b) => [BoolLiteral b]
  | FlatLit (LData d) => [DataLiteral d]
  | FlatLit (LFloat f) => [FloatLiteral f]
  | FlatLit (LInt i) => [IntLiteral i]
  | FlatLit (LLabel l) => [LabelLiteral l]
  | FlatLit (LStr s) => [StringLiteral s]
  | FlatLit (LRegex p) => TRegex :: parens (show_pat p)
  | FlatLit LUnit => [LParen; RParen]
  | _ => [TIdent "None"]
  end.

Definition prefix_token (p : Prefix) : Token := match p with Minus => TMinus | Not => TNot end.
Definition infix_token (op : Infix) : Token :=
  match op with
  | Equal => TEqual | NotEqual => TNotEqual | Plus => TPlus | IMinus => TMinus | Divide => TDivide
  | Multiply => TMultiply | Remainder => Percent | GreaterThanEqual => TGreaterThanEqual
  | LessThanEqual => TLessThanEqual | GreaterThan => TGreaterThan | LessThan => TLessThan
  | And => TAnd | Or => TOr | Concat => At | ConcatStr => PlusPlus | Module_ => ColonColon
  | In_ => TIn | Dot => TDot
  end.
Definition iter_token (op : Iter) : Token :=
  match op with
  | All => TAll | Any_ => TAny | Filter => TFilter | FilterMap => TFilterMap | ForEach => TForEach
  | Fold => TFold | Map => TMap
  end.

Definition show_ident (i : LocIdent) : Token := if id i =? "_" then Underscore else TIdent (id i).
Definition show_idents (ids : list LocIdent) : list Token :=
  match ids with [i] => [show_ident i] | _ => parens (commas (map (fun i => [show_ident i]) ids)) end.

(** How a call is printed: a method, the element of a tuple, or a path. *)
Definition method_of (f : string) : option string :=
  if starts_with f ".::" then Some (drop_str 3 f) else None.
Definition index_of (f : string) : option Z :=
  match parse_i64 f with Some i => if i64_to_string i =? f then Some i else None | None => None end.
Definition show_path (f : string) : list Token :=
  intersperse ColonColon (map (fun s => [TIdent s]) (split "::" f)).
Definition show_call (f : string) (args : list (list Token)) : list Token :=
  match method_of f, index_of f, args with
  | Some m, _, arg :: args => arg ++ TDot :: TIdent m :: parens (commas args)
  | None, Some i, [arg] => arg ++ [TDot; IntLiteral i]
  | _, _, _ => show_path f ++ parens (commas args)
  end.

Definition show_else (a : option (list Token)) : list Token := match a with Some l => TElse :: l | None => [] end.

Fixpoint show (e : PE) : list Token :=
  match e with
  | PIdent i => [TIdent i]
  | PLit l => show_lit l
  | PList es => LBracket :: commas (map show_loc es) ++ [RBracket]
  | PTup es => parens (commas (map show_loc es))
  | PPrefix p e => parens (prefix_token p :: show_loc e)
  | PInfix op e1 e2 => parens (show_loc e1 ++ infix_token op :: show_loc e2)
  | PIter op ids e b acc =>
    parens (iter_token op :: show_idents ids ++ TIn :: show_loc e ++ show_block b ++
            match acc with Some (i, a) => TWhere :: TIdent (id i) :: Assign :: show_loc a | None => [] end)
  | PIf c b a => parens (TIf :: show_loc c ++ show_block b ++ show_else (show_block <$> a))
  | PIfMatch ms b a =>
    parens (TIf :: intersperse TAnd (map (fun '(e, p) => show_loc e ++ TMatches :: show_pattern p) ms) ++
            show_block b ++ show_else (show_block <$> a))
  | PIfSomeMatch i e b a =>
    parens (TIf :: TLet :: TSome :: LParen :: TIdent (id i) :: RParen :: Assign :: show_loc e ++ show_block b ++
            show_else (show_block <$> a))
  | PCall _ f args => parens (show_call f (map show_loc args))
  end
with show_loc (e : LocExpr FlatLiteral) : list Token := match e with mkLocExpr _ e => show e end
with show_stmt (s : LocStmt FlatLiteral) : list Token :=
  match s with
  | mkLocStmt _ (LetStmt ids e) => TLet :: show_idents ids ++ Assign :: show_loc e ++ [SemiColon]
  | mkLocStmt _ (ReturnStmt e) => TReturn :: show_loc e
  | mkLocStmt _ (ExprStmt e async_tag semi) =>
    (if async_tag then [TAsync] else []) ++ show e ++ (if semi then [SemiColon] else [])
  end
with show_block (b : BlockStmt FlatLiteral) : list Token :=
  match b with
  | mkBlock s async_tag => (if async_tag then [TAsync] else []) ++ LBrace :: concat (map show_stmt s) ++ [RBrace]
  end.

(** ** What can be printed *)

Fixpoint pat_ok (p : Pat) : bool :=
  match p with
  | PatAny | PatLit _ | PatAs _ _ => true
  | PatClass s => existsb (String.eqb s) CLASSES
  | PatAlt ps | PatSeq ps => Nat.leb 2 (length ps) && forallb pat_ok ps
  | PatOpt p | PatStar p | PatPlus p | PatCaseInsensitive p | PatIgnoreWhitespace p => pat_ok p
  end.

Section printable.
Context `{Lib} `{RegexNew}.

Definition lit_ok (l : Literal FlatLiteral) : bool :=
  match l with
  | FlatLit (LBool _) | FlatLit (LData _) | FlatLit (LFloat _) | FlatLit (LInt _) | FlatLit (LLabel _)
  | FlatLit (LStr _) | FlatLit LUnit | LTuple [] => true
  | FlatLit (LRegex p) => pat_ok p && negb (Pat.has_as p) && match PPattern.from_pat p with Val _ => true | _ => false end
  | _ => false
  end.

Definition pattern_ok (p : PPattern) : bool := match p with PRegex p => pat_ok p | PLabel _ => true end.

(** Identifiers: [None] is a literal. *)
Definition name_ok (i : LocIdent) : bool := bool_decide (li_loc i = Loc.dummy).
Definition idents_ok (ids : list LocIdent) : bool := negb (bool_decide (ids = [])) && forallb name_ok ids.

(** A path is of identifiers; an index is of one expression. *)
Definition path_ok (f : string) : bool := forallb (fun s => negb (s =? "None")) (split "::" f).
Definition call_ok (f : string) (args : nat) : bool :=
  match method_of f, index_of f with
  | Some m, _ => negb (Nat.eqb args 0)
  | None, Some i => Nat.eqb args 1
  | None, None => path_ok f
  end.

(** A statement without a semicolon goes on with an argument list. *)
Definition ends (s : LocStmt FlatLiteral) : bool :=
  match LocStmt.stmt s with LetStmt _ _ => true | ReturnStmt _ => false | ExprStmt _ _ semi => semi end.
Definition starts_paren (l : list Token) : bool := match l with LParen :: _ => true | _ => false end.
Fixpoint stmts_ok (s : list (LocStmt FlatLiteral)) : bool :=
  match s with
  | x :: (y :: _) as s' => (ends x || negb (starts_paren (show_stmt y))) && stmts_ok s'
  | _ => true
  end.

Fixpoint printable (e : PE) : bool :=
  match e with
  | PIdent i => negb (i =? "None")
  | PLit l => lit_ok l
  | PList es => forallb printable_loc es
  | PTup es => Nat.leb 2 (length es) && forallb printable_loc es
  | PPrefix p e => printable_loc e
  | PInfix op e1 e2 => negb (bool_decide (op = Dot)) && printable_loc e1 && printable_loc e2
  | PIter op ids e b acc =>
    idents_ok ids && printable_loc e && printable_block b &&
    Bool.eqb (bool_decide (op = Fold)) (bool_decide (is_Some acc)) &&
    match acc with Some (i, a) => name_ok i && printable_loc a | None => true end
  | PIf c b a => printable_loc c && printable_block b && match a with Some a => printable_block a | None => true end
  | PIfMatch ms b a =>
    negb (Nat.eqb (length ms) 0) && forallb (fun '(e, p) => printable_loc e && pattern_ok p) ms &&
    printable_block b && match a with Some a => printable_block a | None => true end
  | PIfSomeMatch i e b a =>
    name_ok i && printable_loc e && printable_block b && match a with Some a => printable_block a | None => true end
  | PCall l f args => bool_decide (l = Loc.dummy) && call_ok f (length args) && forallb printable_loc args
  end
with printable_loc (e : LocExpr FlatLiteral) : bool :=
  match e with mkLocExpr l e => bool_decide (l = Loc.dummy) && printable e end
with printable_stmt (s : LocStmt FlatLiteral) : bool :=
  match s with
  | mkLocStmt l (LetStmt ids e) => bool_decide (l = Loc.dummy) && idents_ok ids && printable_loc e
  | mkLocStmt l (ReturnStmt e) => bool_decide (l = Loc.dummy) && printable_loc e
  | mkLocStmt l (ExprStmt e _ _) => bool_decide (l = Loc.dummy) && printable e
  end
with printable_block (b : BlockStmt FlatLiteral) : bool :=
  match b with mkBlock s _ => stmts_ok s && forallb printable_stmt s end.
End printable.

(** ** Reading *)

(** [p] reads exactly the tokens [l] before [rest]. *)
Definition reads {A} (p : P A) (l : list Token) (a : A) (rest : Tokens) : Prop := p (toks l ++ rest) = Done rest a.
Notation tk := (mkLocToken Loc.dummy).

Lemma toks_app l1 l2 : toks (l1 ++ l2) = toks l1 ++ toks l2.
Proof. apply map_app. Qed.
Lemma length_toks l : length (toks l) = length l.
Proof. apply length_map. Qed.

Lemma reads_bind {A B} (p : P A) (f : A -> P B) l1 l2 a b rest :
  reads p l1 a (toks l2 ++ rest) -> reads (f a) l2 b rest -> reads (p ≫= f) (l1 ++ l2) b rest.
Proof.
  unfold reads, mbind, Parser_bind. rewrite toks_app, <- app_assoc. by intros -> ->.
Qed.
Lemma reads_last {A B} (p : P A) (f : A -> P B) l a b rest :
  reads p l a rest -> reads (f a) [] b rest -> reads (p ≫= f) l b rest.
Proof. intros Hp Hf. rewrite <- (app_nil_r l). by eapply reads_bind. Qed.
Lemma reads_ret {A} (a : A) rest : reads (mret a) [] a rest.
Proof. done. Qed.
Lemma reads_fmap {A B} (f : A -> B) (p : P A) l a rest : reads p l a rest -> reads (f <$> p) l (f a) rest.
Proof. intros Hp. by apply (reads_last _ _ _ a). Qed.
Lemma reads_token {A B} (p : P A) (f : A -> P B) t l a b rest :
  (forall i, p (tk t :: i) = Done i a) -> reads (f a) l b rest -> reads (p ≫= f) (t :: l) b rest.
Proof. intros Hp Hf. apply (reads_bind p f [t] l a); [apply Hp|done]. Qed.

Lemma reads_token_at {A B} (p : P A) (f : A -> P B) t l a b rest :
  reads p [t] a (toks l ++ rest) -> reads (f a) l b rest -> reads (p ≫= f) (t :: l) b rest.
Proof. apply (reads_bind p f [t] l). Qed.

Lemma reads_opt {A B} (p : P A) (f : option A -> P B) l1 l2 a b rest :
  reads p l1 a (toks l2 ++ rest) -> reads (f (Some a)) l2 b rest -> reads (Nom.opt p ≫= f) (l1 ++ l2) b rest.
Proof. intros Hp Hf. apply (reads_bind _ _ _ _ (Some a)); [|done]. unfold reads, Nom.opt. by rewrite Hp. Qed.
Lemma reads_no_opt {A B} (p : P A) (f : option A -> P B) l b rest :
  p (toks l ++ rest) = NError -> reads (f None) l b rest -> reads (Nom.opt p ≫= f) l b rest.
Proof. intros Hp Hf. unfold reads, mbind, Parser_bind, Nom.opt. by rewrite Hp. Qed.

Lemma reads_some {A} (p : P A) l a rest : reads p l a rest -> reads (Nom.opt p) l (Some a) rest.
Proof. unfold reads, Nom.opt. by intros ->. Qed.

Lemma alt_take {A} (p : P A) ps i r a : p i = Done r a -> Nom.alt (p :: ps) i = Done r a.
Proof. intros Hp. simpl. unfold Nom.or, Nom.complete. by rewrite Hp. Qed.
Lemma alt_skip {A} (p : P A) ps i : p i = NError -> Nom.alt (p :: ps) i = Nom.alt ps i.
Proof. intros Hp. simpl. unfold Nom.or, Nom.complete. by rewrite Hp. Qed.

(** Iterations that each consume. *)
Inductive many {A} (p : P A) : Tokens -> list A -> Tokens -> Prop :=
| many_nil i : many p i [] i
| many_cons i a i' l r : p i = Done i' a -> length i' < length i -> many p i' l r -> many p i (a :: l) r.

Lemma many_app {A} (p : P A) i l1 i' l2 r : many p i l1 i' -> many p i' l2 r -> many p i (l1 ++ l2) r.
Proof. induction 1; simpl; [done|]. intros. econstructor; eauto. Qed.
Lemma many_one {A} (p : P A) i a r : p i = Done r a -> length r < length i -> many p i [a] r.
Proof. intros. econstructor; eauto. constructor. Qed.

Lemma many0_done {A} (p : P A) i l r : many p i l r -> p r = NError -> Nom.many0 p i = Done r l.
Proof.
  intros Hm Hr. unfold Nom.many0. change (size i) with (length i).
  assert (forall n, length i < n -> Nom.many0_go p n i = Done r l) as Hn; [|apply Hn; lia].
  induction Hm as [i|i a i' l r Hp Hl _ IH]; intros [|n] Hn; try lia; simpl.
  - by rewrite Hr.
  - rewrite Hp. destruct (Nat.eqb_spec (size i') (size i)) as [He|_]; [change (length i' = length i) in He; lia|].
    unfold fmap, Parser_fmap, mbind, Parser_bind. cbv beta. by rewrite (IH Hr n ltac:(lia)).
Qed.
Lemma many1_done {A} (p : P A) i a l r : many p i (a :: l) r -> p r = NError -> Nom.many1 p i = Done r (a :: l).
Proof.
  intros Hm Hr. inversion Hm as [|? ? i' ? ? Hp Hl Hm']; subst. unfold Nom.many1, mbind, Parser_bind at 1. rewrite Hp.
  unfold fmap, Parser_fmap, mbind, Parser_bind. by rewrite (many0_done _ _ _ _ Hm' Hr).
Qed.

(** A list with separators, each element printed by [sh]; what follows an
    element satisfies [Q]. *)
Lemma many_separated {A} (sep : Token) (p : P A) (sh : A -> list Token) (Q : Tokens -> Prop) l rest :
  Token.eqb sep sep = true -> (forall i, Q (tk sep :: i)) -> Q rest ->
  Forall (fun a => forall r, Q r -> reads p (sh a) a r) l ->
  many (Nom.preceded (tag_token sep) p) (toks (concat (map (fun a => sep :: sh a) l)) ++ rest) l rest.
Proof.
  intros Hs Hsep Hrest. induction 1 as [|a l Ha _ IH]; simpl; [constructor|].
  assert (Q (toks (concat (map (fun a => sep :: sh a) l)) ++ rest)) as HQ by (destruct l; [done|apply Hsep]).
  eapply many_cons; [|..|exact IH].
  - unfold Nom.preceded, mbind, Parser_bind. simpl. rewrite Hs, toks_app, <- app_assoc. by apply Ha.
  - simpl. rewrite !length_app, !length_toks, length_app. lia.
Qed.

Lemma intersperse_cons sep a ls : intersperse sep (a :: ls) = a ++ concat (map (cons sep) ls).
Proof.
  revert a. induction ls as [|b ls IH]; intros a; simpl; [by rewrite app_nil_r|].
  f_equal. f_equal. specialize (IH b). simpl in IH. exact IH.
Qed.

Lemma reads_separated {A} (sep : Token) (p : P A) (sh : A -> list Token) (Q : Tokens -> Prop) l rest :
  Token.eqb sep sep = true -> (forall i, Q (tk sep :: i)) -> Q rest -> tag_token sep rest = NError -> l <> [] ->
  Forall (fun a => forall r, Q r -> reads p (sh a) a r) l ->
  reads (Nom.separated (tag_token sep) p) (intersperse sep (map sh l)) l rest.
Proof.
  intros Hs Hsep Hrest Hno Hl Hall. destruct l as [|a l]; [done|]. apply Forall_cons in Hall as [Ha Hall].
  simpl map. rewrite intersperse_cons, map_map. apply (reads_bind _ _ _ _ a).
  - apply Ha. destruct l; [done|apply Hsep].
  - apply reads_fmap. apply many0_done; [by apply (many_separated _ _ _ Q)|].
    unfold Nom.preceded, mbind, Parser_bind. by rewrite Hno.
Qed.

(** ** Patterns *)

(** What may follow a pattern: nothing that goes on with it. *)
Definition ends_pat (rest : Tokens) : Prop :=
  exists t r, rest = t :: r /\ match tok t with RParen | LBrace | TAnd | TAsync => True | _ => False end.

Lemma ends_pat_stops n rest :
  ends_pat rest ->
  postfix_pat rest = NError /\ parse_postfix_pat (parse_pat_fuel n) rest = NError /\ tag_token Bar rest = NError.
Proof. intros (t & r & -> & Ht). destruct t as [l t]. simpl in Ht. by destruct t. Qed.

(** A pattern begins with an atom, which no operator is; then come operators. *)
Definition pat_start (t : Token) : bool :=
  match t with StringLiteral _ | TDot | Colon | LBracket | LParen => true | _ => false end.

Lemma show_pat_start p : pat_ok p = true -> exists t l, show_pat p = t :: l /\ pat_start t = true.
Proof.
  induction p; simpl; intros Hp; try (by eexists _, _);
    destruct (IHp Hp) as (t & l & -> & Ht); by eexists _, _.
Qed.

Lemma start_no_postfix t i : pat_start t = true -> postfix_pat (tk t :: i) = NError.
Proof. by destruct t. Qed.

Definition pat_steps (pat : P Pat) (p : Pat) : Prop := forall rest,
  exists i a fs,
    parse_atom_pat pat (toks (show_pat p) ++ rest) = Done i a /\ length i < length (toks (show_pat p) ++ rest) /\
    many postfix_pat i fs rest /\ foldl (fun r f => f r) a fs = p.

Lemma pat_steps_atom pat p :
  (forall rest, parse_atom_pat pat (toks (show_pat p) ++ rest) = Done rest p) -> show_pat p <> [] -> pat_steps pat p.
Proof.
  intros Hp Hne rest. exists rest, p, []. split_and!; [done| |constructor|done].
  rewrite length_app, length_toks. destruct (show_pat p); simpl; [done|lia].
Qed.

Lemma pat_steps_postfix pat p t f :
  show_pat (f p) = show_pat p ++ [t] -> (forall i, postfix_pat (tk t :: i) = Done i f) -> pat_steps pat p ->
  pat_steps pat (f p).
Proof.
  intros Hs Ht Hp rest. destruct (Hp (tk t :: rest)) as (i & a & fs & Ha & Hl & Hm & Hf).
  exists i, a, (fs ++ [f]). rewrite Hs, toks_app, <- app_assoc. split_and!; [done|done| |].
  - eapply many_app; [exact Hm|]. apply many_one; [apply Ht|simpl; lia].
  - by rewrite foldl_app, Hf.
Qed.

Lemma pat_steps_reads pat p rest : pat_steps pat p -> postfix_pat rest = NError -> reads (parse_postfix_pat pat) (show_pat p) p rest.
Proof.
  intros Hp Hr. destruct (Hp rest) as (i & a & fs & Ha & _ & Hm & Hf).
  unfold reads, parse_postfix_pat, mbind, Parser_bind. rewrite Ha. rewrite (many0_done _ _ _ _ Hm Hr). simpl.
  by rewrite Hf.
Qed.

(** Patterns in a row. *)
Lemma reads_pats pat ps rest :
  Forall (fun p => pat_ok p = true /\ pat_steps pat p) ps -> postfix_pat rest = NError ->
  many (parse_postfix_pat pat) (toks (concat (map show_pat ps)) ++ rest) ps rest.
Proof.
  induction 1 as [|p ps [Hok Hp] Hps IH]; intros Hr; simpl; [constructor|].
  rewrite toks_app, <- app_assoc. eapply many_cons; [|..|by apply IH].
  - apply pat_steps_reads; [done|]. destruct Hps as [|q ps [Hq _] _]; [done|]. simpl.
    destruct (show_pat_start q Hq) as (t & l & -> & Ht). by apply start_no_postfix.
  - rewrite !length_app, !length_toks. destruct (show_pat_start p Hok) as (t & l & -> & _). simpl. lia.
Qed.

Lemma reads_pat_seq pat ps rest :
  ps <> [] -> Forall (fun p => pat_ok p = true /\ pat_steps pat p) ps -> postfix_pat rest = NError ->
  parse_postfix_pat pat rest = NError ->
  reads (parse_pat_seq pat) (concat (map show_pat ps)) (match ps with [p] => p | _ => PatSeq ps end) rest.
Proof.
  intros Hne Hps Hr Hr'. destruct ps as [|p ps]; [done|]. unfold parse_pat_seq.
  apply (reads_last _ _ _ (p :: ps)); [|done]. apply many1_done; [by apply reads_pats|done].
Qed.

Lemma reads_pat_one pat p rest :
  pat_ok p = true -> pat_steps pat p -> postfix_pat rest = NError -> parse_postfix_pat pat rest = NError ->
  reads (parse_pat_seq pat) (show_pat p) p rest.
Proof.
  intros Hok Hp Hr Hr'. pose proof (reads_pat_seq pat [p] rest) as Hs. simpl in Hs. rewrite app_nil_r in Hs.
  by apply Hs; [|repeat constructor| |].
Qed.

Lemma reads_pat_alone pat p l rest :
  reads (parse_pat_seq pat) l p rest -> tag_token Bar rest = NError -> reads (parse_pat_step pat) l p rest.
Proof.
  intros Hp Hr. unfold parse_pat_step. apply (reads_last _ _ _ p); [done|]. apply (reads_last _ _ _ []); [|done].
  unfold reads. simpl. apply many0_done; [constructor|]. unfold Nom.preceded, mbind, Parser_bind. by rewrite Hr.
Qed.

(** Induction with hypotheses for the patterns of a list. *)
Section pat_ind.
Variable Q : Pat -> Prop.
Hypothesis QAny : Q PatAny.
Hypothesis QLit : forall s, Q (PatLit s).
Hypothesis QClass : forall s, Q (PatClass s).
Hypothesis QAlt : forall ps, Forall Q ps -> Q (PatAlt ps).
Hypothesis QSeq : forall ps, Forall Q ps -> Q (PatSeq ps).
Hypothesis QAs : forall i a, Q (PatAs i a).
Hypothesis QOpt : forall p, Q p -> Q (PatOpt p).
Hypothesis QStar : forall p, Q p -> Q (PatStar p).
Hypothesis QPlus : forall p, Q p -> Q (PatPlus p).
Hypothesis QCase : forall p, Q p -> Q (PatCaseInsensitive p).
Hypothesis QIgnore : forall p, Q p -> Q (PatIgnoreWhitespace p).

Fixpoint Pat_ind' (p : Pat) : Q p :=
  let go := fix go (ps : list Pat) : Forall Q ps :=
    match ps with [] => Forall_nil_2 Q | p :: ps => Forall_cons_2 Q p ps (Pat_ind' p) (go ps) end in
  match p with
  | PatAny => QAny | PatLit s => QLit s | PatClass s => QClass s
  | PatAlt ps => QAlt ps (go ps) | PatSeq ps => QSeq ps (go ps) | PatAs i a => QAs i a
  | PatOpt p => QOpt p (Pat_ind' p) | PatStar p => QStar p (Pat_ind' p) | PatPlus p => QPlus p (Pat_ind' p)
  | PatCaseInsensitive p => QCase p (Pat_ind' p) | PatIgnoreWhitespace p => QIgnore p (Pat_ind' p)
  end.
End pat_ind.

Lemma length_intersperse sep ls l : l ∈ ls -> length l <= length (intersperse sep ls).
Proof.
  destruct ls as [|a ls]; [by intros ?%elem_of_nil|]. rewrite intersperse_cons, length_app.
  intros [->|Hl]%elem_of_cons; [lia|]. transitivity (length (concat (map (cons sep) ls))); [|lia].
  induction ls as [|b ls IH]; [by apply elem_of_nil in Hl|]. simpl. rewrite length_app.
  apply elem_of_cons in Hl as [->|Hl]; [lia|]. specialize (IH Hl). lia.
Qed.
Lemma length_concat l (ls : list (list Token)) : l ∈ ls -> length l <= length (concat ls).
Proof.
  induction ls as [|b ls IH]; [by intros ?%elem_of_nil|]. simpl. rewrite length_app.
  intros [->|Hl]%elem_of_cons; [lia|]. specialize (IH Hl). lia.
Qed.
Lemma length_parens l : length (parens l) = S (S (length l)).
Proof. unfold parens. simpl. rewrite length_app. simpl. lia. Qed.

(** A pattern in parentheses. *)
Lemma reads_pat_paren pat l p rest :
  (forall r, reads pat l p (tk RParen :: r)) -> parse_atom_pat pat (toks (parens l) ++ rest) = Done rest p.
Proof.
  intros Hp. unfold parse_atom_pat, parens. do 4 rewrite alt_skip by done. apply alt_take.
  apply (reads_token (tag_token LParen) _ LParen (l ++ [RParen]) (tk LParen)); [done|].
  apply (reads_bind _ _ _ _ p); [apply Hp|]. by apply (reads_token _ _ _ _ (tk RParen)).
Qed.

Lemma pat_list_ok n ps (sh : list (list Token) -> list Token) :
  Forall (fun p => pat_ok p = true -> forall n, length (show_pat p) <= n -> pat_steps (parse_pat_fuel n) p) ps ->
  forallb pat_ok ps = true -> (forall l, l ∈ map show_pat ps -> length l <= length (sh (map show_pat ps))) ->
  length (sh (map show_pat ps)) <= n -> Forall (fun p => pat_ok p = true /\ pat_steps (parse_pat_fuel n) p) ps.
Proof.
  rewrite forallb_Forall, !Forall_forall. intros Hps Hok Hle Hn p Hp. split; [by apply Hok|].
  apply Hps; [done|by apply Hok|]. specialize (Hle (show_pat p) (list_elem_of_fmap_2 _ _ _ Hp)). lia.
Qed.

Lemma rparen_no_pat n r : parse_postfix_pat (parse_pat_fuel n) (tk RParen :: r) = NError.
Proof. by destruct n. Qed.
Lemma bar_no_pat n r : parse_postfix_pat (parse_pat_fuel n) (tk Bar :: r) = NError.
Proof. by destruct n. Qed.

(** Alternatives of patterns, each of which is one. *)
Lemma reads_pat_alt n ps r :
  Forall (fun p => pat_ok p = true /\ pat_steps (parse_pat_fuel n) p) ps -> 2 <= length ps ->
  reads (parse_pat_step (parse_pat_fuel n)) (intersperse Bar (map show_pat ps)) (PatAlt ps) (tk RParen :: r).
Proof.
  intros Hps Hlen. destruct ps as [|p1 [|p2 ps]]; simpl in Hlen; try lia.
  pose (Q := fun i : Tokens => exists t r, i = tk t :: r /\ (t = Bar \/ t = RParen)).
  assert (Forall (fun p => forall i, Q i -> reads (parse_pat_seq (parse_pat_fuel n)) (show_pat p) p i) (p1 :: p2 :: ps)) as Hall.
  { eapply Forall_impl; [exact Hps|]. intros p [Hok Hp] i (t & r' & -> & [-> | ->]); by apply reads_pat_one. }
  apply Forall_cons in Hall as [H1 Hall]. simpl map. rewrite intersperse_cons, <- (map_cons show_pat), map_map.
  unfold parse_pat_step. apply (reads_bind _ _ _ _ p1); [apply H1; by eexists Bar, _; split; [|left]|].
  apply (reads_last _ _ _ (p2 :: ps)); [|done].
  apply many0_done; [|done]. apply (many_separated Bar _ _ Q); [done| | |done].
  - intros i. by eexists Bar, _; split; [|left].
  - by eexists RParen, _; split; [|right].
Qed.

Lemma pat_steps_ok p : pat_ok p = true -> forall n, length (show_pat p) <= n -> pat_steps (parse_pat_fuel n) p.
Proof.
  induction p as [|s|s|ps IH|ps IH|i a|p IH|p IH|p IH|p IH|p IH] using Pat_ind'; intros Hok n Hn; simpl in Hok.
  - by apply pat_steps_atom.
  - by apply pat_steps_atom.
  - apply pat_steps_atom; [|done]. intros rest. simpl. unfold parse_atom_pat, Nom.alt, Nom.or, Nom.complete.
    simpl. unfold Nom.delimited, mbind, Parser_bind, parse_pat_class, token_value. simpl. by rewrite Hok.
  - apply andb_true_iff in Hok as [Hlen Hok]. cbn [show_pat] in Hn. rewrite length_parens in Hn.
    apply pat_steps_atom; [|done]. intros rest. destruct n as [|[|n]]; [lia|lia|]. apply reads_pat_paren. intros r.
    pose proof (pat_list_ok (S n) ps (intersperse Bar) IH Hok (fun l => length_intersperse Bar _ l) ltac:(lia)) as Hps.
    apply reads_pat_alt; [done|]. by apply Nat.leb_le.
  - apply andb_true_iff in Hok as [Hlen Hok]. cbn [show_pat] in Hn. rewrite length_parens in Hn.
    apply pat_steps_atom; [|done]. intros rest. destruct n as [|[|n]]; [lia|lia|]. apply reads_pat_paren. intros r.
    pose proof (pat_list_ok (S n) ps (@concat _) IH Hok (fun l => length_concat l _) ltac:(lia)) as Hps.
    apply reads_pat_alone; [|done]. pose proof (reads_pat_seq (parse_pat_fuel (S n)) ps (tk RParen :: r)) as Hs.
    destruct ps as [|p1 [|p2 ps]]; try done. by apply Hs.
  - apply pat_steps_atom; [|done]. intros rest. by destruct a.
  - simpl in Hn. rewrite length_app in Hn. apply (pat_steps_postfix _ _ QuestionMark PatOpt); [done..|]. apply IH; [done|lia].
  - simpl in Hn. rewrite length_app in Hn. apply (pat_steps_postfix _ _ TMultiply PatStar); [done..|]. apply IH; [done|lia].
  - simpl in Hn. rewrite length_app in Hn. apply (pat_steps_postfix _ _ TPlus PatPlus); [done..|]. apply IH; [done|lia].
  - simpl in Hn. rewrite length_app in Hn. apply (pat_steps_postfix _ _ TNot PatCaseInsensitive); [done..|]. apply IH; [done|lia].
  - simpl in Hn. rewrite length_app in Hn. apply (pat_steps_postfix _ _ Percent PatIgnoreWhitespace); [done..|].
    apply IH; [done|lia].
Qed.

Lemma reads_show_pat p rest : pat_ok p = true -> ends_pat rest -> reads parse_pat (show_pat p) p rest.
Proof.
  intros Hok Hr. unfold reads, parse_pat. rewrite length_app, length_toks.
  set (n := length (show_pat p) + length rest).
  destruct (ends_pat_stops n rest Hr) as (Hr1 & Hr2 & Hr3).
  apply reads_pat_alone; [|done]. apply reads_pat_one; [done| |done..]. apply pat_steps_ok; [done|lia].
Qed.

(** ** Expressions *)

Section exprs.
Context `{Lib} `{RegexNew}.
Notation parsers := (parsers (FL := FlatLiteral)).
Notation at0 e := (mkLocExpr Loc.dummy e).

(** What no operator goes on with. *)
Definition lowest (rest : Tokens) : Prop := exists t r, rest = t :: r /\ infix_op (tok t) = (PLowest, None).

Lemma go_stops rec p (l : LocExpr FlatLiteral) rest : lowest rest -> go_parse_pratt_expr rec p l rest = Done rest l.
Proof.
  intros (t & r & -> & Ht). unfold go_parse_pratt_expr. rewrite Ht. simpl.
  destruct (Nat.ltb p PLowest) eqn:E; [by apply Nat.ltb_lt in E|done].
Qed.

(** Where an expression begins. *)
Definition expr_start (t : Token) : bool :=
  match t with
  | TIdent _ | BoolLiteral _ | DataLiteral _ | FloatLiteral _ | IntLiteral _ | LabelLiteral _ | StringLiteral _
  | TRegex | LParen | LBracket => true
  | _ => false
  end.
Lemma show_start e : exists t l, show e = t :: l /\ expr_start t = true.
Proof.
  destruct e as [i|l|es|es|p e|op e1 e2|op ids e b acc|c b a|ms b a|v e b a|l f args]; try (by eexists _, _).
  destruct l as [[]| |]; by eexists _, _.
Qed.
Lemma length_show e : 1 <= length (show e).
Proof. destruct (show_start e) as (t & l & -> & _). simpl. lia. Qed.

Definition atom_ok (n : nat) (e : PE) : Prop := forall rest, reads (parse_atom_expr (parsers n)) (show e) (at0 e) rest.
Definition loc_ok (n : nat) (e : LocExpr FlatLiteral) : Prop := forall p rest,
  lowest rest -> reads (pratt_expr (parsers n) p) (show_loc e) e rest.
Definition block_ok (n : nat) (b : BlockStmt FlatLiteral) : Prop := forall rest,
  reads (block_stmt (parsers n)) (show_block b) b rest.

Lemma atom_pratt n p l e rest :
  reads (parse_atom_expr (parsers (S n))) l e rest -> lowest rest -> reads (pratt_expr (parsers (S (S n))) p) l e rest.
Proof.
  intros Ha Hr. change (reads (parse_pratt_expr (parsers (S n)) p) l e rest). unfold parse_pratt_expr.
  apply (reads_last _ _ _ e); [done|]. by apply go_stops.
Qed.

Lemma atom_loc n e : 1 <= n -> atom_ok n e -> loc_ok (S n) (at0 e).
Proof. intros Hn Ha p rest Hr. destruct n as [|n]; [lia|]. by apply atom_pratt. Qed.

(** Some tokens begin no expression. *)
Lemma no_expr n t i :
  match t with RParen | RBracket | RBrace | TLet => True | _ => False end ->
  parse_expr (parsers (S n)) (tk t :: i) = NError.
Proof. intros Ht. change (parse_pratt_expr (parsers n) PLowest (tk t :: i) = NError). by destruct t. Qed.

Definition closing (rest : Tokens) : Prop := exists t r, rest = tk t :: r /\ (t = RParen \/ t = RBracket).

Lemma reads_exprs n es rest :
  Forall (loc_ok n) es -> es <> [] -> closing rest ->
  reads (parse_exprs (parsers n)) (commas (map show_loc es)) es rest.
Proof.
  intros Hes Hne (t & r & -> & Ht).
  pose (Q := fun i : Tokens => exists t r, i = tk t :: r /\ (t = Comma \/ t = RParen \/ t = RBracket)).
  apply (reads_separated Comma _ show_loc Q); try done.
  - intros i. eexists Comma, _. by split; [|left].
  - eexists t, _. split; [done|]. by right.
  - by destruct Ht as [-> | ->].
  - eapply Forall_impl; [exact Hes|]. intros e He i (t' & r' & -> & Ht'). apply He. eexists _, _. split; [done|].
    by destruct Ht' as [-> |[-> | ->]].
Qed.

Lemma reads_opt_exprs {B} (f : option (list (LocExpr FlatLiteral)) -> P B) n es b l rest :
  Forall (loc_ok (S n)) es -> closing (toks l ++ rest) -> (forall o, unwrap_or [] o = es -> reads (f o) l b rest) ->
  reads (Nom.opt (parse_exprs (parsers (S n))) ≫= f) (commas (map show_loc es) ++ l) b rest.
Proof.
  intros Hes Hc Hf. destruct es as [|e es].
  - apply reads_no_opt; [|by apply Hf]. destruct Hc as (t & r & Hr & Ht).
    change (commas (map show_loc []) ++ l) with l. rewrite Hr.
    unfold parse_exprs, Nom.separated, mbind, Parser_bind. rewrite no_expr; [done|]. by destruct Ht as [-> | ->].
  - apply (reads_opt _ _ _ _ (e :: es)); [by apply reads_exprs|by apply Hf].
Qed.

Lemma reads_paren n l e rest :
  (forall r, reads (pratt_expr (parsers (S n)) PLowest) l (at0 e) (tk RParen :: r)) ->
  reads (parse_atom_expr (parsers (S n))) (parens l) (at0 e) rest.
Proof.
  intros Hl. unfold reads, parse_atom_expr. do 3 rewrite alt_skip by done. apply alt_take.
  apply (reads_token (tag_token LParen) _ LParen (l ++ [RParen]) (tk LParen)); [done|].
  apply (reads_opt _ _ _ _ [at0 e]); [|by apply (reads_token _ _ _ _ (tk RParen))].
  apply (reads_last _ _ _ (at0 e)); [apply Hl|]. apply (reads_last _ _ _ []); [|done].
  by apply many0_done; [constructor|].
Qed.

(** *** Literals *)

Lemma reads_lit n l : lit_ok l = true -> 1 <= n -> atom_ok n (PLit l).
Proof.
  intros Hl Hn rest. destruct l as [l|l|[|l ls]]; try done. destruct l; try done.
  - unfold reads, parse_atom_expr. apply alt_take. unfold parse_lit_expr. do 2 rewrite alt_skip by done. apply alt_take.
    simpl in Hl. apply andb_true_iff in Hl as [[Hp Ha]%andb_true_iff Hf]. apply negb_true_iff in Ha.
    destruct (PPattern.from_pat r) as [r'| | |] eqn:Er; try done.
    assert (r' = r) as ->.
    { unfold PPattern.from_pat in Er. destruct (PolicyRegex.source r); try done. simpl in Er.
      by destruct (regex_new _); simplify_eq/=. }
    apply (reads_token (tag_token TRegex) _ TRegex (parens (show_pat r)) (tk TRegex)); [done|].
    apply (reads_token (tag_token LParen) _ LParen (show_pat r ++ [RParen]) (tk LParen)); [done|].
    apply (reads_bind _ _ _ _ r); [|by apply (reads_token _ _ _ _ (tk RParen))].
    unfold reads, parse_pat_no_bind. rewrite (reads_show_pat r (toks [RParen] ++ rest) Hp); [by rewrite Ha, Er|].
    by eexists _, _.
  - destruct n as [|n]; [lia|]. unfold reads, parse_atom_expr. do 3 rewrite alt_skip by done. apply alt_take.
    apply (reads_token (tag_token LParen) _ LParen [RParen] (tk LParen)); [done|].
    apply (reads_opt_exprs _ n [] _ [RParen]); [done|eexists RParen, _; split; [done|by left]|].
    intros o Ho. apply (reads_token _ _ _ _ (tk RParen)); [done|]. by rewrite Ho.
Qed.

(** *** Statements and blocks *)

Lemma reads_ident_list ids rest :
  forallb name_ok ids = true ->
  many (Nom.preceded (tag_token Comma) tuple_ident) (toks (concat (map (fun i => [Comma; show_ident i]) ids)) ++ rest) ids rest.
Proof.
  induction ids as [|[l i] ids IH]; simpl; intros Hok; [constructor|]. apply andb_true_iff in Hok as [Hi Hok].
  apply bool_decide_eq_true in Hi. simpl in Hi. subst l. eapply many_cons; [|..|by apply IH].
  - unfold show_ident. simpl. destruct (i =? "_") eqn:E; [apply String.eqb_eq in E as ->|]; done.
  - simpl. lia.
Qed.

Lemma reads_tuple_ident i l rest : name_ok i = true -> tuple_ident (toks (show_ident i :: l) ++ rest) = Done (toks l ++ rest) i.
Proof.
  destruct i as [l' i]. intros Hi%bool_decide_eq_true. simpl in Hi. subst l'. unfold show_ident. simpl.
  destruct (i =? "_") eqn:E; [apply String.eqb_eq in E as ->|]; done.
Qed.

Lemma reads_idents ids rest : idents_ok ids = true -> reads parse_idents (show_idents ids) ids rest.
Proof.
  unfold idents_ok. intros [Hne Hok]%andb_true_iff. destruct ids as [|i [|j ids]]; [done| |].
  - unfold reads, show_idents. simpl in Hok. rewrite andb_true_r in Hok. destruct i as [l i].
    apply bool_decide_eq_true in Hok. simpl in Hok. subst l. unfold show_ident. simpl id.
    destruct (i =? "_") eqn:E; [by apply String.eqb_eq in E as ->|done].
  - unfold reads, parse_idents, Nom.or. erewrite alt_take; [done|]. cbn [show_idents]. simpl forallb in Hok.
    apply andb_true_iff in Hok as [Hi Hok].
    apply (reads_token (tag_token LParen) _ LParen _ (tk LParen)); [done|]. unfold commas. simpl map.
    rewrite intersperse_cons, <- (map_cons (fun i => [show_ident i])), map_map, <- app_assoc.
    apply (reads_bind _ _ _ _ i); [by apply (reads_tuple_ident i [])|].
    apply (reads_bind _ _ _ _ (j :: ids)); [|by apply (reads_token _ _ _ _ (tk RParen))].
    apply many1_done; [|done]. by apply (reads_ident_list (j :: ids)).
Qed.

(** What may follow a statement without a semicolon. *)
Definition follows (rest : Tokens) : Prop :=
  exists t r, rest = tk t :: r /\ infix_op t = (PLowest, None) /\ Token.eqb t SemiColon = false.

Lemma follows_lowest rest : follows rest -> lowest rest.
Proof. intros (t & r & -> & Ht & _). by exists (tk t), r. Qed.

Lemma stmt_start s : starts_paren (show_stmt s) = false -> exists t l,
  show_stmt s = t :: l /\ infix_op t = (PLowest, None) /\ Token.eqb t SemiColon = false.
Proof.
  destruct s as [l [ids e|e|e async_tag semi]]; simpl; intros Hs; [by eexists _, _..|].
  destruct async_tag; [by eexists _, _|]. destruct (show_start e) as (t & l' & He & Ht). rewrite He in *. simpl in *.
  eexists _, _. split; [done|]. by destruct t.
Qed.

Lemma stmt_loc s : printable_stmt s = true -> LocStmt.loc s = Loc.dummy.
Proof. destruct s as [l [ids e|e|e async_tag semi]]; simpl; intros; bool_to_prop; done. Qed.

Definition stmt_expr_ok (n : nat) (s : LocStmt FlatLiteral) : Prop :=
  match LocStmt.stmt s with
  | LetStmt _ e | ReturnStmt e => loc_ok n e
  | ExprStmt e _ _ => loc_ok n (at0 e)
  end.

Lemma reads_stmt n s rest :
  printable_stmt s = true -> stmt_expr_ok n s -> ends s = true \/ follows rest ->
  reads (parse_stmt (parsers n)) (show_stmt s) s rest.
Proof.
  destruct s as [l [ids e|e|e async_tag semi]]; unfold stmt_expr_ok; simpl; intros Hs He Hr.
  - apply andb_true_iff in Hs as [[Hl%bool_decide_eq_true Hi]%andb_true_iff _]. subst l.
    unfold reads, parse_stmt. apply alt_take.
    apply (reads_token (tag_token TLet) _ TLet _ (tk TLet)); [done|].
    apply (reads_bind _ _ _ _ ids); [by apply reads_idents|]. apply (reads_token _ _ _ _ (tk Assign)); [done|].
    apply (reads_bind _ _ _ _ e); [apply He; by eexists _, _|]. by apply (reads_token _ _ _ _ (tk SemiColon)).
  - apply andb_true_iff in Hs as [Hl%bool_decide_eq_true _]. subst l.
    unfold reads, parse_stmt. rewrite alt_skip by done. apply alt_take.
    apply (reads_token (tag_token TReturn) _ TReturn _ (tk TReturn)); [done|].
    apply (reads_last _ _ _ e); [|done]. apply He. destruct Hr as [|Hr]; [done|by apply follows_lowest].
  - apply andb_true_iff in Hs as [Hl%bool_decide_eq_true _]. subst l.
    destruct (show_start e) as (t & l' & Hsh & Ht).
    unfold reads, parse_stmt. rewrite Hsh. rewrite alt_skip by (by destruct async_tag; [|destruct t]).
    rewrite alt_skip by (by destruct async_tag; [|destruct t]). rewrite <- Hsh. apply alt_take.
    assert (forall a, reads (expr ← parse_expr (parsers n); semi ← Nom.opt (tag_token SemiColon);
              mret (LocStmt.expr_stmt expr (bool_decide (is_Some a)) (bool_decide (is_Some semi))))
              (show e ++ (if semi then [SemiColon] else []))
              (mkLocStmt Loc.dummy (ExprStmt e (bool_decide (is_Some (a : option LocToken))) semi)) rest) as Hrest.
    { intros a. apply (reads_bind _ _ _ _ (at0 e)).
      - apply He. destruct semi; [by eexists _, _|]. destruct Hr as [|Hr]; [done|by apply follows_lowest].
      - destruct semi; [by apply (reads_opt _ _ [SemiColon] [] (tk SemiColon))|].
        apply reads_no_opt; [|done]. destruct Hr as [|(t' & r & -> & _ & Ht')]; [done|]. simpl. by rewrite Ht'. }
    destruct async_tag.
    + apply (reads_opt _ _ [TAsync] _ (tk TAsync)); [done|]. apply Hrest.
    + apply reads_no_opt; [|apply (Hrest None)]. rewrite Hsh. by destruct t.
Qed.

Lemma reads_stmts n s rest :
  Forall (fun s => printable_stmt s = true /\ stmt_expr_ok n s) s -> stmts_ok s = true -> follows rest ->
  many (parse_stmt (parsers n)) (toks (concat (map show_stmt s)) ++ rest) s rest.
Proof.
  induction 1 as [|x s [Hx He] Hs IH]; intros Hok Hr; simpl; [constructor|].
  rewrite toks_app, <- app_assoc. eapply many_cons; [apply reads_stmt; try done| |apply IH; [|done]].
  - destruct s as [|y s]; [by right|]. simpl in Hok. apply andb_true_iff in Hok as [[Hx'|Hy]%orb_true_iff _]; [by left|].
    right. apply negb_true_iff in Hy. destruct (stmt_start y Hy) as (t & l & Hl & Ht). simpl. rewrite Hl. by eexists _, _.
  - rewrite !length_app, !length_toks. assert (1 <= length (show_stmt x)); [|lia].
    destruct x as [l [ids e|e|e async_tag semi]]; simpl; try lia. pose proof (length_show e). rewrite !length_app. lia.
  - destruct s; [done|]. by apply andb_true_iff in Hok as [_ ?].
Qed.

Lemma reads_block n b :
  stmts_ok (BlockStmt.statements b) = true ->
  Forall (fun s => printable_stmt s = true /\ stmt_expr_ok (S n) s) (BlockStmt.statements b) -> block_ok (S (S n)) b.
Proof.
  destruct b as [s async_tag]. simpl. intros Hok Hs rest.
  change (reads (parse_block_stmt (parsers (S n))) (show_block (mkBlock s async_tag)) (mkBlock s async_tag) rest).
  unfold parse_block_stmt. simpl show_block.
  assert (forall a, reads (statements ← Nom.delimited (tag_token LBrace) (Nom.many0 (parse_stmt (parsers (S n)))) (tag_token RBrace);
            mret (mkBlock statements (bool_decide (is_Some (a : option LocToken)))))
            (LBrace :: concat (map show_stmt s) ++ [RBrace]) (mkBlock s (bool_decide (is_Some a))) rest) as Hrest.
  { intros a. apply (reads_last _ _ _ s); [|done].
    apply (reads_token (tag_token LBrace) _ LBrace _ (tk LBrace)); [done|].
    apply (reads_bind _ _ _ _ s); [|by apply (reads_token _ _ _ _ (tk RBrace))].
    by apply many0_done; [apply reads_stmts; [done..|by eexists _, _]|]. }
  destruct async_tag; [apply (reads_opt _ _ [TAsync] _ (tk TAsync)); [done|apply Hrest]|].
  apply reads_no_opt; [done|apply (Hrest None)].
Qed.
(** *** Operators, iterations and conditionals *)

Lemma reads_prefix_atom n p l e rest :
  reads (pratt_expr (parsers (S n)) PLowest) l e rest ->
  reads (parse_atom_expr (parsers (S n))) (prefix_token p :: l) (at0 (PPrefix p e)) rest.
Proof.
  intros He. unfold reads, parse_atom_expr. do 2 rewrite alt_skip by (by destruct p). apply alt_take.
  apply (reads_token _ _ _ _ (tk (prefix_token p))); [by destruct p|].
  apply (reads_last _ _ _ e); [apply He|]. by destruct p.
Qed.
Lemma reads_prefix n p e rest : loc_ok (S n) e -> reads (pratt_expr (parsers (S (S n))) PLowest)
  (prefix_token p :: show_loc e) (at0 (PPrefix p e)) (tk RParen :: rest).
Proof.
  intros He. change (reads (parse_pratt_expr (parsers (S n)) PLowest) (prefix_token p :: show_loc e) (at0 (PPrefix p e)) (tk RParen :: rest)).
  apply (reads_last _ _ _ (at0 (PPrefix p e))); [|apply go_stops; by eexists _, _].
  apply reads_prefix_atom, He. by eexists _, _.
Qed.

(** The loop at an operator that binds tighter, a call, and a dot. *)
Lemma go_infix rec p (l : LocExpr FlatLiteral) t i prec a op :
  infix_op t = (prec, Some (a, op)) -> prec <> PDot -> prec <> PCallExpr -> p < prec \/ a = RightAssoc /\ p <= prec ->
  go_parse_pratt_expr rec p l (tk t :: i) =
  (right ← pratt_expr rec prec; go_pratt_expr rec p (at0 (PInfix op l right))) i.
Proof.
  intros Ht Hd Hc Hp. unfold go_parse_pratt_expr. simpl tok. rewrite Ht.
  apply Nat.eqb_neq in Hd, Hc. rewrite Hd, Hc. cbn [andb].
  assert (match a with RightAssoc => Nat.leb p prec | LeftAssoc => false end || Nat.ltb p prec = true) as Hcond.
  { apply orb_true_iff. destruct Hp as [Hp|[-> Hp]]; [right; by apply Nat.ltb_lt|left; by apply Nat.leb_le]. }
  destruct a; rewrite Hcond; unfold parse_infix_expr, mbind, Parser_bind; cbn [take_token tok];
    rewrite Ht; unfold mbind, Parser_bind; by destruct (pratt_expr rec prec i).
Qed.

Lemma go_call rec p (l : LocExpr FlatLiteral) i :
  p < PCallExpr ->
  go_parse_pratt_expr rec p l (tk LParen :: i) = (c ← parse_call_expr rec l; go_pratt_expr rec p c) (tk LParen :: i).
Proof. intros Hp. unfold go_parse_pratt_expr. simpl tok. cbn [infix_op]. apply Nat.ltb_lt in Hp. simpl Nat.eqb. by rewrite Hp. Qed.
Lemma go_dot rec p (l : LocExpr FlatLiteral) i :
  p < PDot ->
  go_parse_pratt_expr rec p l (tk TDot :: i) = (c ← parse_dot_expr rec l; go_pratt_expr rec p c) (tk TDot :: i).
Proof. intros Hp. unfold go_parse_pratt_expr. simpl tok. cbn [infix_op]. apply Nat.ltb_lt in Hp. simpl Nat.eqb. by rewrite Hp. Qed.

Lemma infix_token_op op : op <> Dot -> exists prec a,
  infix_op (infix_token op) = (prec, Some (a, op)) /\ prec <> PDot /\ prec <> PCallExpr /\ PLowest < prec.
Proof. intros Hop. destruct op; try done; eexists _, _; (split; [reflexivity|]); split_and!; try discriminate; apply le_n_S, le_0_n. Qed.

Lemma reads_infix n op e1 e2 rest :
  op <> Dot -> 1 <= n -> atom_ok (S (S n)) (LocExpr.expr e1) -> LocExpr.loc e1 = Loc.dummy -> loc_ok (S n) e2 ->
  reads (pratt_expr (parsers (S (S (S n)))) PLowest) (show_loc e1 ++ infix_token op :: show_loc e2)
    (at0 (PInfix op e1 e2)) (tk RParen :: rest).
Proof.
  destruct e1 as [l e1]. simpl. intros Hop Hn H1' -> H2'.
  change (reads (parse_pratt_expr (parsers (S (S n))) PLowest) (show e1 ++ infix_token op :: show_loc e2)
    (at0 (PInfix op (at0 e1) e2)) (tk RParen :: rest)).
  unfold parse_pratt_expr. apply (reads_bind _ _ _ _ (at0 e1)); [apply H1'|].
  destruct (infix_token_op op Hop) as (prec & a & Ho & Hd & Hc & Hl).
  change (go_parse_pratt_expr (parsers (S n)) PLowest (at0 e1) (tk (infix_token op) :: toks (show_loc e2) ++ tk RParen :: rest) =
    Done (tk RParen :: rest) (at0 (PInfix op (at0 e1) e2))).
  rewrite (go_infix _ _ _ _ _ prec a op) by (try done; by left).
  apply (reads_last _ _ _ e2); [apply H2'; by eexists _, _|]. destruct n; [lia|]. apply go_stops. by eexists _, _.
Qed.

Lemma reads_else n a rest :
  match a with Some b => block_ok n b | None => True end ->
  reads (Nom.opt (parse_else_expr (parsers n))) (show_else (show_block <$> a)) a (tk RParen :: rest).
Proof.
  intros Ha. destruct a as [b|]; [|done]. simpl. apply reads_some.
  apply (reads_token (tag_token TElse) _ TElse _ (tk TElse)); [done|]. apply alt_take, Ha.
Qed.

Lemma block_starts b : exists t l, show_block b = t :: l /\ (t = LBrace \/ t = TAsync).
Proof. destruct b as [s []]; eexists _, _; (split; [reflexivity|]); auto. Qed.

Lemma block_lowest b l rest : lowest (toks (show_block b ++ l) ++ rest).
Proof. destruct (block_starts b) as (t & l' & -> & [-> | ->]); by eexists _, _. Qed.

Lemma reads_iter n op ids e b acc rest :
  idents_ok ids = true -> loc_ok (S n) e -> block_ok (S n) b ->
  Bool.eqb (bool_decide (op = Fold)) (bool_decide (is_Some acc)) = true ->
  match acc with Some (i, a) => name_ok i = true /\ loc_ok (S n) a | None => True end ->
  reads (pratt_expr (parsers (S (S n))) PLowest)
    (iter_token op :: show_idents ids ++ TIn :: show_loc e ++ show_block b ++
     match acc with Some (i, a) => TWhere :: TIdent (id i) :: Assign :: show_loc a | None => [] end)
    (at0 (PIter op ids e b acc)) (tk RParen :: rest).
Proof.
  intros Hi He Hb Hop Hacc. 
  match goal with |- reads _ ?l ?a ?r => change (reads (parse_pratt_expr (parsers (S n)) PLowest) l a r) end.
  unfold parse_pratt_expr. apply (reads_last _ _ _ (at0 (PIter op ids e b acc))); [|apply go_stops; by eexists _, _].
  apply eqb_prop in Hop. unfold reads, parse_atom_expr. do 6 rewrite alt_skip by (by destruct op).
  destruct (decide (op = Fold)) as [->|Hne].
  - rewrite alt_skip by done. apply alt_take. destruct acc as [[[l i] a]|]; [|done]. destruct Hacc as [Hn Ha].
    apply bool_decide_eq_true in Hn. simpl in Hn. subst l.
    apply (reads_token (tag_token TFold) _ TFold _ (tk TFold)); [done|].
    apply (reads_bind _ _ _ _ ids); [by apply reads_idents|]. apply (reads_token _ _ _ _ (tk TIn)); [done|].
    apply (reads_bind _ _ _ _ e); [apply He, block_lowest|].
    apply (reads_bind _ _ _ _ b); [apply Hb|]. apply (reads_token _ _ _ _ (tk TWhere)); [done|].
    apply (reads_token _ _ _ _ (mkLocIdent Loc.dummy i)); [done|]. apply (reads_token _ _ _ _ (tk Assign)); [done|].
    apply (reads_last _ _ _ a); [apply Ha; by eexists _, _|done].
  - rewrite (bool_decide_eq_false_2 _ Hne) in Hop. symmetry in Hop. apply bool_decide_eq_false in Hop.
    destruct acc as [|]; [by destruct Hop|]. apply alt_take.
    apply (reads_token _ _ _ _ (tk (iter_token op))); [by destruct op|].
    apply (reads_bind _ _ _ _ ids); [by apply reads_idents|]. apply (reads_token _ _ _ _ (tk TIn)); [done|].
    apply (reads_bind _ _ _ _ e); [apply He, block_lowest|]. rewrite app_nil_r.
    apply (reads_last _ _ _ b); [apply Hb|]. by destruct op.
Qed.

Definition head_expr (h : IfHead FlatLiteral) (b : BlockStmt FlatLiteral) (a : option (BlockStmt FlatLiteral)) : PE :=
  match h with HExpr e => PIf e b a | HMatches ms => PIfMatch ms b a | HSomeMatch i e => PIfSomeMatch i e b a end.

Lemma reads_if n h l b a rest :
  (forall l' r, reads (if_head (parsers (S n))) l h (toks (show_block b ++ l') ++ r)) ->
  block_ok (S n) b -> match a with Some b => block_ok (S n) b | None => True end ->
  reads (pratt_expr (parsers (S (S n))) PLowest) (TIf :: l ++ show_block b ++ show_else (show_block <$> a))
    (at0 (head_expr h b a)) (tk RParen :: rest).
Proof.
  intros Hh Hb Ha.
  match goal with |- reads _ ?l ?a ?r => change (reads (parse_pratt_expr (parsers (S n)) PLowest) l a r) end.
  unfold parse_pratt_expr. apply (reads_last _ _ _ (at0 (head_expr h b a))); [|apply go_stops; by eexists _, _].
  unfold reads, parse_atom_expr. do 5 rewrite alt_skip by done. apply alt_take.
  apply (reads_token (tag_token TIf) _ TIf _ (tk TIf)); [done|].
  apply (reads_bind _ _ _ _ h); [apply Hh|]. apply (reads_bind _ _ _ _ b); [apply Hb|].
  apply (reads_last _ _ _ a); [by apply reads_else|]. by destruct h.
Qed.

Lemma reads_cond n c b l r : loc_ok (S n) c -> LocExpr.loc c = Loc.dummy ->
  reads (if_head (parsers (S n))) (show_loc c) (HExpr c) (toks (show_block b ++ l) ++ r).
Proof.
  intros Hc Hl. unfold reads, if_head. rewrite alt_skip, alt_skip.
  - apply alt_take. apply reads_fmap, Hc, block_lowest.
  - destruct c as [l' c]. simpl. destruct (show_start c) as (t & l'' & -> & Ht). by destruct t.
  - unfold fmap, Parser_fmap, parse_match_exprs, Nom.separated, parse_match_expr, parse_expr, mbind, Parser_bind.
    rewrite (Hc PLowest _ (block_lowest b l r)). by destruct (block_starts b) as (t & l' & -> & [-> | ->]).
Qed.

Lemma reads_pattern p t r :
  pattern_ok p = true -> match t with LBrace | TAnd | TAsync => True | _ => False end ->
  reads parse_pattern (show_pattern p) p (tk t :: r).
Proof.
  intros Hp Ht. destruct p as [p|l]; unfold reads, parse_pattern.
  - apply alt_take. apply reads_fmap, reads_show_pat; [done|]. eexists _, _. split; [done|]. by destruct t.
  - rewrite alt_skip by done. by apply alt_take.
Qed.

Lemma reads_matches n ms b l r :
  ms <> [] -> Forall (fun m : LocExpr FlatLiteral * PPattern => loc_ok (S n) m.1 /\ pattern_ok m.2 = true) ms ->
  reads (if_head (parsers (S n))) (intersperse TAnd (map (fun '(e, p) => show_loc e ++ TMatches :: show_pattern p) ms))
    (HMatches ms) (toks (show_block b ++ l) ++ r).
Proof.
  intros Hne Hms. unfold reads, if_head. apply alt_take. apply reads_fmap.
  pose (Q := fun i : Tokens => exists t r, i = tk t :: r /\ match t with LBrace | TAnd | TAsync => True | _ => False end).
  apply (reads_separated TAnd _ (fun '(e, p) => show_loc e ++ TMatches :: show_pattern p) Q); [done| | | |done|].
  - intros i. by eexists _, _.
  - destruct (block_starts b) as (t & l' & -> & Ht). eexists _, _. split; [done|]. by destruct Ht as [-> | ->].
  - by destruct (block_starts b) as (t & l' & -> & [-> | ->]).
  - eapply Forall_impl; [exact Hms|]. intros [e p] [He Hp] i (t & r' & -> & Ht).
    apply (reads_bind _ _ _ _ e); [apply He; by eexists _, _|]. apply (reads_token _ _ _ _ (tk TMatches)); [done|].
    apply (reads_last _ _ _ p); [by apply reads_pattern|done].
Qed.

Lemma reads_some_match n i e b l r :
  name_ok i = true -> loc_ok (S n) e ->
  reads (if_head (parsers (S n))) (TLet :: TSome :: LParen :: TIdent (id i) :: RParen :: Assign :: show_loc e)
    (HSomeMatch i e) (toks (show_block b ++ l) ++ r).
Proof.
  intros Hi He. unfold reads, if_head. rewrite alt_skip by done. apply alt_take.
  destruct i as [li i]. apply bool_decide_eq_true in Hi. simpl in Hi. subst li. simpl id.
  apply (reads_last _ _ _ (mkLocIdent Loc.dummy i, e)); [|done].
  apply (reads_token (tag_token TLet) _ TLet _ (tk TLet)); [done|].
  apply (reads_token _ _ _ _ (tk TSome)); [done|].
  apply (reads_bind _ _ [LParen; TIdent i; RParen] _ (mkLocIdent Loc.dummy i)); [done|].
  apply (reads_token _ _ _ _ (tk Assign)); [done|]. apply (reads_last _ _ _ e); [apply He, block_lowest|done].
Qed.

(** *** Calls *)

Lemma reads_call n h f args rest :
  LocExpr.loc h = Loc.dummy -> PExpr.eval_call_function (LocExpr.expr h) = Some f -> Forall (loc_ok (S n)) args ->
  reads (parse_call_expr (parsers (S n)) h) (parens (commas (map show_loc args))) (at0 (PCall Loc.dummy f args)) rest.
Proof.
  intros Hl Hf Hargs. unfold parse_call_expr.
  apply (reads_token (tag_token LParen) _ LParen _ (tk LParen)); [done|].
  apply (reads_opt_exprs _ n args); [done|eexists _, _; split; [done|by left]|]. intros o Ho.
  apply (reads_token _ _ _ _ (tk RParen)); [done|]. by rewrite Hf, Hl, Ho.
Qed.

Lemma reads_method n e m args rest :
  atom_ok (S (S n)) (LocExpr.expr e) -> LocExpr.loc e = Loc.dummy -> Forall (loc_ok (S n)) args ->
  reads (pratt_expr (parsers (S (S (S n)))) PLowest)
    (show_loc e ++ TDot :: TIdent m :: parens (commas (map show_loc args)))
    (at0 (PCall Loc.dummy (".::" ^^ m) (e :: args))) (tk RParen :: rest).
Proof.
  destruct e as [l e]. simpl. intros He -> Hargs.
  match goal with |- reads _ ?l ?a ?r => change (reads (parse_pratt_expr (parsers (S (S n))) PLowest) l a r) end.
  unfold parse_pratt_expr. apply (reads_bind _ _ _ _ (at0 e)); [apply He|].
  match goal with |- reads _ (TDot :: ?l) ?a ?r =>
    change (go_parse_pratt_expr (parsers (S n)) PLowest (at0 e) (tk TDot :: toks l ++ r) = Done r a) end.
  rewrite go_dot by (apply le_n_S, le_0_n).
  match goal with |- _ (_ :: toks ?l ++ ?r) = Done _ ?a => apply (reads_last _ _ (TDot :: l) a a r) end;
    [|apply go_stops; by eexists _, _].
  unfold reads, parse_dot_expr. rewrite alt_skip by done. apply alt_take.
  apply (reads_token (tag_token TDot) _ TDot _ (tk TDot)); [done|].
  apply (reads_bind _ _ [TIdent m] _ (at0 (PIdent m))); [done|].
  apply (reads_last _ _ _ (at0 (PCall Loc.dummy m args))); [by apply reads_call|done].
Qed.

Lemma reads_index n e i rest :
  atom_ok (S (S n)) (LocExpr.expr e) -> LocExpr.loc e = Loc.dummy ->
  reads (pratt_expr (parsers (S (S (S n)))) PLowest) (show_loc e ++ [TDot; IntLiteral i])
    (at0 (PCall Loc.dummy (i64_to_string i) [e])) (tk RParen :: rest).
Proof.
  destruct e as [l e]. simpl. intros He ->.
  match goal with |- reads _ ?l ?a ?r => change (reads (parse_pratt_expr (parsers (S (S n))) PLowest) l a r) end.
  unfold parse_pratt_expr. apply (reads_bind _ _ _ _ (at0 e)); [apply He|].
  match goal with |- reads _ (TDot :: ?l) ?a ?r =>
    change (go_parse_pratt_expr (parsers (S n)) PLowest (at0 e) (tk TDot :: toks l ++ r) = Done r a) end.
  rewrite go_dot by (apply le_n_S, le_0_n).
  match goal with |- _ (_ :: toks ?l ++ ?r) = Done _ ?a => apply (reads_last _ _ (TDot :: l) a a r) end;
    [by apply alt_take|apply go_stops; by eexists _, _].
Qed.

(** Paths nest to the right. *)
Fixpoint path_expr (s : string) (segs : list string) : PE :=
  match segs with
  | [] => PIdent s
  | s' :: segs => PInfix Module_ (at0 (PIdent s)) (at0 (path_expr s' segs))
  end.
Definition path_tokens (s : string) (segs : list string) : list Token :=
  TIdent s :: concat (map (fun s => [ColonColon; TIdent s]) segs).

Lemma path_name s segs : PExpr.eval_call_function (path_expr s segs) = Some (join "::" (s :: segs)).
Proof. revert s. induction segs as [|s' segs IH]; intros s; [done|]. simpl. by rewrite IH. Qed.

Lemma reads_ident_atom n s rest : negb (s =? "None") = true -> reads (parse_atom_expr (parsers n)) [TIdent s] (at0 (PIdent s)) rest.
Proof.
  intros Hs%negb_true_iff. unfold reads, parse_atom_expr. rewrite alt_skip; [by apply alt_take|].
  unfold parse_lit_expr. rewrite alt_skip by done. rewrite alt_skip; [done|]. simpl. by rewrite Hs.
Qed.

Lemma reads_path_module segs s n r :
  forallb (fun s => negb (s =? "None")) (s :: segs) = true -> 2 + 2 * length segs <= n ->
  reads (pratt_expr (parsers n) PModule) (path_tokens s segs) (at0 (path_expr s segs)) (tk LParen :: r).
Proof.
  revert s n. induction segs as [|s' segs IH]; intros s n Hs Hn; destruct n as [|[|n]]; simpl in Hn; try lia;
    simpl forallb in Hs; apply andb_true_iff in Hs as [Hs Hss];
    match goal with |- reads _ ?l ?a ?r => change (reads (parse_pratt_expr (parsers (S n)) PModule) l a r) end;
    unfold parse_pratt_expr; apply (reads_token_at _ _ _ _ (at0 (PIdent s)));
    try (by apply reads_ident_atom); [done|].
  match goal with |- reads _ ?l ?a ?r =>
    change (go_parse_pratt_expr (parsers n) PModule (at0 (PIdent s)) (tk ColonColon :: toks (path_tokens s' segs) ++ r) = Done r a) end.
  rewrite (go_infix _ _ _ _ _ PModule RightAssoc Module_) by (try done; by right).
  apply (reads_last _ _ (path_tokens s' segs) (at0 (path_expr s' segs))); [apply IH; [done|lia]|].
  destruct n; [lia|done].
Qed.

(** The call of a path, and the path before it. *)
Lemma reads_path_call n s segs args rest :
  Forall (loc_ok (S n)) args ->
  reads (go_pratt_expr (parsers (S (S n))) PLowest (at0 (path_expr s segs))) (parens (commas (map show_loc args)))
    (at0 (PCall Loc.dummy (join "::" (s :: segs)) args)) (tk RParen :: rest).
Proof.
  intros Hargs.
  match goal with |- reads _ (parens ?l) ?a ?r =>
    change (go_parse_pratt_expr (parsers (S n)) PLowest (at0 (path_expr s segs)) (tk LParen :: toks (l ++ [RParen]) ++ r) = Done r a) end.
  rewrite go_call by (apply le_n_S, le_0_n).
  apply (reads_last _ _ (parens (commas (map show_loc args))) (at0 (PCall Loc.dummy (join "::" (s :: segs)) args))).
  - apply reads_call; [done|apply path_name|done].
  - apply go_stops. by eexists _, _.
Qed.

Lemma reads_path n s segs args rest :
  forallb (fun s => negb (s =? "None")) (s :: segs) = true -> 2 * length segs <= n ->
  Forall (fun e => forall m, n <= m -> loc_ok (S m) e) args ->
  reads (pratt_expr (parsers (S (S (S (S n))))) PLowest) (path_tokens s segs ++ parens (commas (map show_loc args)))
    (at0 (PCall Loc.dummy (join "::" (s :: segs)) args)) (tk RParen :: rest).
Proof.
  intros Hs Hn Hargs. pose proof Hs as Hs'. simpl in Hs'. apply andb_true_iff in Hs' as [Hs0 Hss].
  assert (forall m, n <= m -> Forall (loc_ok (S m)) args) as Hall.
  { intros m Hm. eapply Forall_impl; [exact Hargs|]. intros e He. by apply He. }
  match goal with |- reads _ ?l ?a ?r => change (reads (parse_pratt_expr (parsers (S (S (S n)))) PLowest) l a r) end.
  unfold parse_pratt_expr. apply (reads_token_at _ _ _ _ (at0 (PIdent s))); [by apply reads_ident_atom|].
  destruct segs as [|s' segs]; [apply (reads_path_call (S n) s []), Hall; lia|]. simpl in Hn.
  match goal with |- reads _ ?l ?a ?r =>
    change (go_parse_pratt_expr (parsers (S (S n))) PLowest (at0 (PIdent s)) (tk ColonColon ::
      toks (path_tokens s' segs ++ parens (commas (map show_loc args))) ++ r) = Done r a) end.
  rewrite (go_infix _ _ _ _ _ PModule RightAssoc Module_) by (try done; left; apply le_n_S, le_0_n).
  apply (reads_bind _ _ (path_tokens s' segs) _ (at0 (path_expr s' segs))).
  - apply (reads_path_module segs s' (S (S n))); [done|lia].
  - apply (reads_path_call n s (s' :: segs)), Hall. lia.
Qed.

(** *** The names that are called *)

Lemma substring_all s : String.substring 0 (String.length s) s = s.
Proof. induction s as [|c s IH]; simpl; [done|]. by rewrite IH. Qed.

Lemma method_of_spec f m : method_of f = Some m -> f = ".::" ^^ m.
Proof.
  unfold method_of, starts_with. destruct (String.prefix ".::" f) eqn:E; [|done].
  apply prefix_true_app in E as [t ->]. intros [= <-]. unfold drop_str. f_equal. simpl.
  by rewrite Nat.sub_0_r, substring_all.
Qed.
Lemma index_of_spec f i : index_of f = Some i -> f = i64_to_string i.
Proof.
  unfold index_of. destruct (parse_i64 f) as [j|]; [|done]. destruct (_ =? f) eqn:E; [|done].
  intros [= <-]. symmetry. by apply String.eqb_eq.
Qed.
Lemma split_path f : exists s segs,
  split "::" f = s :: segs /\ f = join "::" (s :: segs) /\ show_path f = path_tokens s segs.
Proof.
  destruct (split_go_nonempty "::" 0 f) as (s & segs & Hs). change (split "::" f = s :: segs) in Hs.
  exists s, segs. split_and!; [done| |].
  - rewrite <- Hs. symmetry. apply join_split.
  - unfold show_path. rewrite Hs. simpl map. rewrite intersperse_cons, map_map. done.
Qed.
Lemma length_path s segs : length (path_tokens s segs) = 1 + 2 * length segs.
Proof. unfold path_tokens. simpl. f_equal. induction segs as [|s' segs IH]; simpl; lia. Qed.

(** *** The induction *)

Definition good_expr (e : PE) : Prop := printable e = true -> forall n, length (show e) <= n -> atom_ok n e.

Lemma good_loc e n :
  on_loc good_expr e -> printable_loc e = true -> S (length (show_loc e)) <= n -> loc_ok n e.
Proof.
  destruct e as [l e]. simpl. intros He [Hl%bool_decide_eq_true Hp]%andb_true_iff Hn. subst l.
  pose proof (length_show e). destruct n as [|n]; [lia|]. apply atom_loc; [lia|]. apply He; [done|lia].
Qed.
Lemma printable_dummy e : printable_loc e = true -> LocExpr.loc e = Loc.dummy.
Proof. destruct e as [l e]. simpl. by intros [Hl%bool_decide_eq_true _]%andb_true_iff. Qed.
Lemma good_atom e n :
  on_loc good_expr e -> printable_loc e = true -> length (show_loc e) <= n -> atom_ok n (LocExpr.expr e).
Proof. destruct e as [l e]. simpl. intros He [_ Hp]%andb_true_iff Hn. by apply He. Qed.

Lemma good_locs es n :
  Forall (on_loc good_expr) es -> forallb printable_loc es = true -> length (commas (map show_loc es)) < n ->
  Forall (loc_ok n) es.
Proof.
  rewrite forallb_Forall, !Forall_forall. intros Hes Hp Hn e He. apply good_loc; [by apply Hes|by apply Hp|].
  pose proof (length_intersperse Comma (map show_loc es) _ (list_elem_of_fmap_2 show_loc _ _ He)). unfold commas in Hn. lia.
Qed.

Lemma good_block b n :
  on_block good_expr b -> printable_block b = true -> length (show_block b) <= n -> block_ok n b.
Proof.
  destruct b as [s async_tag]. cbn [on_block printable_block show_block]. intros Hs [Hok Hp]%andb_true_iff Hn.
  rewrite length_app in Hn. simpl in Hn. rewrite length_app in Hn. simpl in Hn.
  destruct n as [|[|n]]; [lia..|]. apply reads_block; [done|]. cbn [BlockStmt.statements].
  rewrite forallb_Forall in Hp. rewrite Forall_forall in Hp, Hs |- *. intros x Hx.
  specialize (Hs x Hx). specialize (Hp x Hx). split; [done|].
  pose proof (length_concat _ (map show_stmt s) (list_elem_of_fmap_2 show_stmt _ _ Hx)) as Hl.
  destruct x as [l [ids e|e|e a semi]]; unfold stmt_expr_ok; simpl in *; repeat (rewrite length_app in Hl; simpl in Hl).
  - apply andb_true_iff in Hp as [_ Hp]. apply good_loc; [done|done|lia].
  - apply andb_true_iff in Hp as [_ Hp]. apply good_loc; [done|done|lia].
  - apply andb_true_iff in Hp as [_ Hp]. pose proof (length_show e). apply atom_loc; [lia|]. apply Hs; [done|lia].
Qed.
Lemma good_alternative a n :
  on_opt (on_block good_expr) a -> match a with Some a => printable_block a | None => true end = true ->
  length (show_else (show_block <$> a)) <= n -> match a with Some b => block_ok n b | None => True end.
Proof. destruct a as [b|]; simpl; [|done]. intros. apply good_block; [done|done|lia]. Qed.

(** What is in parentheses is read with less fuel. *)
Lemma good_paren e l n :
  show e = parens l -> length (show e) <= n ->
  (forall m r, length l <= m -> reads (pratt_expr (parsers (S (S m))) PLowest) l (at0 e) (tk RParen :: r)) ->
  atom_ok n e.
Proof.
  intros Hs Hn Hl rest. rewrite Hs, ?length_parens in *. destruct n as [|[|n]]; [lia..|]. apply reads_paren. intros r. apply Hl. lia.
Qed.

(** The length of a printed form, and what it leaves for a part. *)
Ltac fuel := repeat (progress (repeat rewrite length_app in *; cbn [length] in *)); lia.

Lemma good_prefix p e : on_loc good_expr e -> good_expr (PPrefix p e).
Proof.
  intros He Hp n Hn. apply (good_paren _ (prefix_token p :: show_loc e)); [done|done|]. intros m r Hm. apply reads_prefix. apply good_loc; [done|done|fuel].
Qed.

Lemma good_infix op e1 e2 : on_loc good_expr e1 -> on_loc good_expr e2 -> good_expr (PInfix op e1 e2).
Proof.
  intros H1' H2' [[Hop%negb_true_iff Hp1]%andb_true_iff Hp2]%andb_true_iff n Hn. apply bool_decide_eq_false in Hop.
  apply (good_paren _ (show_loc e1 ++ infix_token op :: show_loc e2)); [done|done|]. intros m r Hm. destruct e1 as [l1 e1], e2 as [l2 e2].
  pose proof (length_show e1). pose proof (length_show e2). cbn [show_loc] in Hm.
  destruct m as [|[|m]]; [fuel..|]. apply reads_infix; [done|lia| |by apply printable_dummy|].
  - apply (good_atom (mkLocExpr l1 e1)); [done|done|cbn [show_loc]; fuel].
  - apply good_loc; [done|done|cbn [show_loc]; fuel].
Qed.

Lemma good_iter op ids e b acc :
  on_loc good_expr e -> on_block good_expr b -> on_opt (fun a => on_loc good_expr a.2) acc -> good_expr (PIter op ids e b acc).
Proof.
  intros He Hb Ha Hp n Hn. cbn [printable] in Hp.
  apply andb_true_iff in Hp as [[[[Hi Hpe]%andb_true_iff Hpb]%andb_true_iff Hop]%andb_true_iff Hpa].
  apply (good_paren _ (iter_token op :: show_idents ids ++ TIn :: show_loc e ++ show_block b ++
    match acc with Some (i, a) => TWhere :: TIdent (id i) :: Assign :: show_loc a | None => [] end)); [done|done|]. intros m r Hm. apply reads_iter; [done| | |done|].
  - apply good_loc; [done|done|fuel].
  - apply good_block; [done|done|fuel].
  - destruct acc as [[i a]|]; [|done]. apply andb_true_iff in Hpa as [Hi' Hpa]. split; [done|].
    apply good_loc; [done|done|fuel].
Qed.

Lemma good_head h l b a :
  show (head_expr h b a) = parens (TIf :: l ++ show_block b ++ show_else (show_block <$> a)) ->
  (forall m, length l < m -> forall l' r, reads (if_head (parsers (S m))) l h (toks (show_block b ++ l') ++ r)) ->
  on_block good_expr b -> on_opt (on_block good_expr) a -> printable_block b = true ->
  match a with Some a => printable_block a | None => true end = true ->
  forall n, length (show (head_expr h b a)) <= n -> atom_ok n (head_expr h b a).
Proof.
  intros Hs Hh Hb Ha Hpb Hpa n Hn. apply (good_paren _ (TIf :: l ++ show_block b ++ show_else (show_block <$> a))); [done|done|]. clear Hn. intros m r Hm.
  apply reads_if; [apply Hh; fuel|apply good_block; [done|done|fuel]|]. apply good_alternative; [done|done|fuel].
Qed.

Lemma good_if c b a : on_loc good_expr c -> on_block good_expr b -> on_opt (on_block good_expr) a -> good_expr (PIf c b a).
Proof.
  intros Hc Hb Ha Hp. cbn [printable] in Hp. apply andb_true_iff in Hp as [[Hpc Hpb]%andb_true_iff Hpa].
  apply (good_head (HExpr c) (show_loc c)); try done. intros m Hm l r. apply reads_cond; [|by apply printable_dummy].
  apply good_loc; [done|done|lia].
Qed.

Lemma good_if_match ms b a :
  Forall (fun m => on_loc good_expr m.1) ms -> on_block good_expr b -> on_opt (on_block good_expr) a ->
  good_expr (PIfMatch ms b a).
Proof.
  intros Hms Hb Ha Hp. cbn [printable] in Hp.
  apply andb_true_iff in Hp as [[[Hne Hpm]%andb_true_iff Hpb]%andb_true_iff Hpa].
  apply (good_head (HMatches ms) (intersperse TAnd (map (fun '(e, p) => show_loc e ++ TMatches :: show_pattern p) ms)));
    try done. intros k Hk l r. apply reads_matches; [by destruct ms|].
  rewrite forallb_Forall in Hpm. rewrite Forall_forall in Hms, Hpm |- *. intros [e p] Hin.
  specialize (Hms _ Hin). specialize (Hpm _ Hin). simpl in *. apply andb_true_iff in Hpm as [Hpe Hpp]. split; [|done].
  pose proof (length_intersperse TAnd _ _ (list_elem_of_fmap_2 (fun '(e, p) => show_loc e ++ TMatches :: show_pattern p) _ _ Hin)) as Hl.
  apply good_loc; [done|done|]. change (?f <$> ms) with (map f ms) in Hl. fuel.
Qed.

Lemma good_if_some i e b a :
  on_loc good_expr e -> on_block good_expr b -> on_opt (on_block good_expr) a -> good_expr (PIfSomeMatch i e b a).
Proof.
  intros He Hb Ha Hp. cbn [printable] in Hp.
  apply andb_true_iff in Hp as [[[Hi Hpe]%andb_true_iff Hpb]%andb_true_iff Hpa].
  apply (good_head (HSomeMatch i e) (TLet :: TSome :: LParen :: TIdent (id i) :: RParen :: Assign :: show_loc e)); try done.
  intros m Hm l r. apply reads_some_match; [done|]. apply good_loc; [done|done|fuel].
Qed.

Lemma good_tup es : Forall (on_loc good_expr) es -> good_expr (PTup es).
Proof.
  intros Hes [Hlen%Nat.leb_le Hp]%andb_true_iff n Hn rest. cbn [show] in Hn |- *. rewrite length_parens in Hn.
  destruct n as [|n]; [lia|]. unfold reads, parse_atom_expr. do 3 rewrite alt_skip by done. apply alt_take.
  apply (reads_token (tag_token LParen) _ LParen _ (tk LParen)); [done|].
  apply (reads_opt_exprs _ n es); [apply good_locs; [done|done|lia]|eexists _, _; split; [done|by left]|].
  intros o Ho. apply (reads_token _ _ _ _ (tk RParen)); [done|]. rewrite Ho. by destruct es as [|e1 [|e2 es]]; simpl in Hlen; [lia|lia|].
Qed.

Lemma good_list es : Forall (on_loc good_expr) es -> good_expr (PList es).
Proof.
  intros Hes Hp n Hn rest. cbn [show] in Hn |- *. destruct n as [|n]; [fuel|].
  unfold reads, parse_atom_expr. do 4 rewrite alt_skip by done. apply alt_take.
  apply (reads_token (tag_token LBracket) _ LBracket _ (tk LBracket)); [done|].
  apply (reads_opt_exprs _ n es); [apply good_locs; [done|done|fuel]|eexists _, _; split; [done|by right]|].
  intros o Ho. apply (reads_token _ _ _ _ (tk RBracket)); [done|]. by rewrite Ho.
Qed.

Lemma method_read m e args :
  Forall (on_loc good_expr) (e :: args) -> forallb printable_loc (e :: args) = true ->
  forall n, length (show_loc e ++ TDot :: TIdent m :: parens (commas (map show_loc args))) <= n ->
  forall r, reads (pratt_expr (parsers (S (S n))) PLowest) (show_loc e ++ TDot :: TIdent m :: parens (commas (map show_loc args)))
    (at0 (PCall Loc.dummy (".::" ^^ m) (e :: args))) (tk RParen :: r).
Proof.
  intros [He Hargs]%Forall_cons [Hpe Hpa]%andb_true_iff n Hn r. rewrite length_app in Hn. cbn [length] in Hn.
  rewrite length_parens in Hn. destruct n as [|n]; [lia|].
  apply reads_method; [apply good_atom; [done|done|lia]|by apply printable_dummy|].
  apply good_locs; [done|done|lia].
Qed.

Lemma good_index i e :
  on_loc good_expr e -> printable_loc e = true -> forall n, length (show_loc e ++ [TDot; IntLiteral i]) <= n ->
  forall r, reads (pratt_expr (parsers (S (S n))) PLowest) (show_loc e ++ [TDot; IntLiteral i])
    (at0 (PCall Loc.dummy (i64_to_string i) [e])) (tk RParen :: r).
Proof.
  intros He Hp n Hn r. destruct n as [|n]; [fuel|]. apply reads_index; [|by apply printable_dummy].
  apply good_atom; [done|done|fuel].
Qed.

Lemma good_path f args :
  path_ok f = true -> Forall (on_loc good_expr) args -> forallb printable_loc args = true ->
  forall n, length (show_path f ++ parens (commas (map show_loc args))) <= n ->
  forall r, reads (pratt_expr (parsers (S (S n))) PLowest) (show_path f ++ parens (commas (map show_loc args)))
    (at0 (PCall Loc.dummy f args)) (tk RParen :: r).
Proof.
  intros Hf Hargs Hp n Hn r. destruct (split_path f) as (s & segs & Hs & Hj & Hsh). rewrite Hsh in Hn |- *.
  unfold path_ok in Hf. rewrite Hs in Hf. rewrite Hj. rewrite length_app, length_path, length_parens in Hn.
  destruct n as [|[|n]]; [lia..|]. apply reads_path; [done|lia|]. rewrite Forall_forall. intros e He m Hm.
  assert (Forall (loc_ok (S m)) args) as Hall by (apply good_locs; [done|done|lia]).
  rewrite Forall_forall in Hall. by apply Hall.
Qed.

Lemma good_call l f args : Forall (on_loc good_expr) args -> good_expr (PCall l f args).
Proof.
  intros Hargs [[Hl%bool_decide_eq_true Hok]%andb_true_iff Hp]%andb_true_iff n Hn. subst l.
  apply (good_paren _ (show_call f (map show_loc args))); [done|done|]. intros m r Hm. clear Hn.
  unfold call_ok in Hok. unfold show_call in Hm |- *. destruct (method_of f) as [name|] eqn:Ef.
  - destruct args as [|e args]; [done|]. apply method_of_spec in Ef. subst f. by apply method_read.
  - destruct (index_of f) as [i|] eqn:Ei; [|by apply good_path].
    destruct args as [|e [|e' args]]; try done. apply index_of_spec in Ei. subst f.
    apply Forall_cons in Hargs as [He _]. apply andb_true_iff in Hp as [Hp _]. by apply good_index.
Qed.

Lemma every_expr_good e : good_expr e.
Proof.
  induction e using PExpr_ind'.
  - intros Hp n Hn rest. by apply reads_ident_atom.
  - intros Hp n Hn. apply reads_lit; [done|]. pose proof (length_show (PLit l)). lia.
  - by apply good_list.
  - by apply good_tup.
  - by apply good_prefix.
  - by apply good_infix.
  - by apply good_iter.
  - by apply good_if.
  - by apply good_if_match.
  - by apply good_if_some.
  - by apply good_call.
Qed.

(** C11: Parsing inverts printing: for every block of syntax that a program can
    denote, with statements, conditionals, matches, iterations, methods, paths,
    tuples and regular expressions, [parse_block_stmt_eof] on the printed
    tokens gives back that block and leaves no token. *)
Theorem parse_show_block b :
  printable_block b = true ->
  parse_block_stmt_eof (toks (show_block b ++ [EOF])) = Done [] b.
Proof.
  intros Hb. unfold parse_block_stmt_eof, Nom.terminated, enough, mbind, Parser_bind.
  set (n := length (toks (show_block b ++ [EOF]))).
  assert (block_ok (S n) b) as Hok.
  { apply good_block; [apply on_block_all, every_expr_good|done|]. unfold n. rewrite length_toks, length_app. lia. }
  rewrite toks_app. by rewrite (Hok (toks [EOF])).
Qed.
End exprs.

(** *** An example: a block with every kind of statement *)

Definition test_regex_new : RegexNew := {| regex_new := fun _ => Ok tt |}.

Definition test_block : BlockStmt FlatLiteral :=
  let at0 (e : PE) := mkLocExpr Loc.dummy e in
  let at_stmt s := mkLocStmt Loc.dummy s in
  let ident s := mkLocIdent Loc.dummy s in
  let var s := at0 (PIdent s) in
  let int i := at0 (PLit (FlatLit (LInt i))) in
  mkBlock
    [at_stmt (LetStmt [ident "x"; ident "_"] (at0 (PTup [int 1%Z; at0 (PCall Loc.dummy "allow" [var "y"])])));
     at_stmt (ExprStmt (PCall Loc.dummy "i64::abs" [at0 (PPrefix Minus (var "x"))]) true true);
     at_stmt (ExprStmt (PIter Map [ident "z"] (at0 (PList [var "x"; int 2%Z]))
       (mkBlock [at_stmt (ExprStmt (PInfix Plus (var "z") (int 3%Z)) false false)] false) None) false true);
     at_stmt (ReturnStmt (at0 (PIfMatch [(at0 (PCall Loc.dummy ".::path" [var "req"]), PRegex (PatStar (PatClass "alpha")))]
       (mkBlock [at_stmt (ExprStmt (PCall Loc.dummy "0" [var "t"]) false false)] false) None)))]
    false.

Lemma parse_show_block_witness :
  @parse_block_stmt_eof FlatTyp FlatLiteral _ test_lib test_regex_new (toks (show_block test_block ++ [EOF])) = Done [] test_block.
Proof. apply (@parse_show_block test_lib test_regex_new test_block). by vm_compute. Defined.
