(* ===== verification/Operators.v ===== *)
(** * How operators group

    A chain of operands with binary operators between them, without
    parentheses, and the tree that the parser makes of it: the reference puts
    each operator into the tree of those before it, by a table of levels. *)

From Stdlib Require Import ZArith Lia String Ascii List.
From stdpp Require Import base tactics list strings.
From S2P Require Import Prelude.
From S2P Require Import Ordered.
From S2P Require Import Strings.
From S2P Require Import Labels.
From S2P Require Import Syntax.
From S2P Require Import Types.
From S2P Require Import Net.
From S2P Require Import Literals.
From S2P Require Import Nom.
From S2P Require Import Ast.
From S2P Require Import Expressions.
From S2P Require Import Interpret.
From S2P Require Import TypeCheck.
From S2P Require Import Lexer.
From S2P Require Import Parser.
From S2P Require Import Unparse.

Local Open Scope string_scope.
Local Open Scope list_scope.

(** ** Levels *)

(** How tight an operator binds, loosest first, and those that group to the
    left. *)
Definition levels : list (list Infix) :=
  [[Or]; [And]; [Equal; NotEqual]; [GreaterThanEqual; LessThanEqual; GreaterThan; LessThan]; [In_];
   [Plus; IMinus; Concat; ConcatStr]; [Multiply; Divide; Remainder]; [Module_]].
Fixpoint level_in (op : Infix) (ls : list (list Infix)) : nat :=
  match ls with
  | [] => 0
  | l :: ls => if bool_decide (op ∈ l) then 0 else S (level_in op ls)
  end.
Definition level (op : Infix) : nat := level_in op levels.
Definition to_left (op : Infix) : bool := bool_decide (op ∈ [Plus; IMinus; Multiply; Divide; Remainder; In_]).

(** [a op1 b op2 c] is [(a op1 b) op2 c]: the second operator is looser, or as
    tight and groups to the left. *)
Definition groups_left (op1 op2 : Infix) : bool :=
  Nat.ltb (level op2) (level op1) || Nat.eqb (level op2) (level op1) && to_left op2.

(** ** Trees of operators *)

Inductive Tree :=
| Leaf (e : PE)
| Node (op : Infix) (l r : Tree)
| Pre (p : Prefix) (t : Tree)
| Paren (t : Tree).

Fixpoint value (t : Tree) : LocExpr FlatLiteral :=
  match t with
  | Leaf e => mkLocExpr Loc.dummy e
  | Node op l r => mkLocExpr Loc.dummy (PInfix op (value l) (value r))
  | Pre p t => mkLocExpr Loc.dummy (PPrefix p (value t))
  | Paren t => value t
  end.
Fixpoint inorder (t : Tree) : list Token :=
  match t with
  | Leaf e => show e
  | Node op l r => inorder l ++ infix_token op :: inorder r
  | Pre p t => prefix_token p :: inorder t
  | Paren t => parens (inorder t)
  end.

(** What follows a prefix operator at the end of a tree goes on with its
    operand. *)
Fixpoint open_end (t : Tree) : bool :=
  match t with Node _ _ r => open_end r | Pre _ _ => true | _ => false end.

(** A chain, and where its next operator goes: down the right of the tree,
    until it is looser. *)
Fixpoint insert (t : Tree) (op : Infix) (e : PE) : Tree :=
  match t with
  | Leaf _ | Paren _ => Node op t (Leaf e)
  | Pre p t => Pre p (insert t op e)
  | Node op1 l r => if groups_left op1 op then Node op t (Leaf e) else Node op1 l (insert r op e)
  end.
Definition group (e : PE) (ops : list (Infix * PE)) : Tree := foldl (fun t x => insert t x.1 x.2) (Leaf e) ops.
Definition chain_tokens (e : PE) (ops : list (Infix * PE)) : list Token :=
  show e ++ concat (map (fun x => infix_token x.1 :: show x.2) ops).

Definition left_ok (op : Infix) (t : Tree) : bool := match t with Node op1 _ _ => groups_left op1 op | _ => true end.
Definition right_ok (op : Infix) (t : Tree) : bool := 
  match t with Node op2 _ _ => negb (groups_left op op2) | _ => true end.
Fixpoint grouped (t : Tree) : bool :=
  match t with
  | Leaf _ => true
  | Node op l r =>
    negb (bool_decide (op = Dot)) && negb (open_end l) && left_ok op l && right_ok op r && grouped l && grouped r
  | Pre _ t | Paren t => grouped t
  end.

Lemma insert_tokens t op e : inorder (insert t op e) = inorder t ++ infix_token op :: show e.
Proof.
  induction t as [e0|op1 l _ r IH|p t IH|t _]; simpl; [done| |by rewrite IH|done].
  destruct (groups_left op1 op); simpl; [done|]. by rewrite IH, <- app_assoc.
Qed.
Lemma group_tokens e ops : inorder (group e ops) = chain_tokens e ops.
Proof.
  unfold group, chain_tokens. change (show e) with (inorder (Leaf e)). generalize (Leaf e).
  induction ops as [|[op a] ops IH]; intros t; simpl; [by rewrite app_nil_r|].
  rewrite IH, insert_tokens. simpl. by rewrite <- app_assoc.
Qed.

Lemma insert_closed t op e : open_end t = false -> open_end (insert t op e) = false.
Proof. induction t as [e0|op1 l _ r IH|p t _|t _]; simpl; try done. intros Hr. destruct (groups_left op1 op); simpl; auto. Qed.
Lemma insert_grouped t op e :
  grouped t = true -> open_end t = false -> op <> Dot -> grouped (insert t op e) = true.
Proof.
  intros Ht Ho Hop. induction t as [e0|op1 l _ r IH|p t _|t _]; simpl in *; [by rewrite bool_decide_eq_false_2| |done|];
    [|by rewrite bool_decide_eq_false_2, Ht].
  apply andb_true_iff in Ht as [[[[[Hop1 Hol]%andb_true_iff Hl]%andb_true_iff Hr]%andb_true_iff Hgl]%andb_true_iff Hgr].
  destruct (groups_left op1 op) eqn:E; simpl.
  - rewrite bool_decide_eq_false_2 by done. simpl. by rewrite E, Ho, Hop1, Hol, Hl, Hr, Hgl, Hgr.
  - rewrite Hop1, Hol, Hl, Hgl, (IH Hgr Ho). rewrite !andb_true_r. simpl.
    destruct r as [e1|op2 l2 r2|p t2|t2]; simpl; [by rewrite E| |done|by rewrite E].
    simpl in Hr. destruct (groups_left op2 op); simpl; [by rewrite E|done].
Qed.
Lemma group_grouped e ops : Forall (fun x => x.1 <> Dot) ops -> grouped (group e ops) = true.
Proof.
  unfold group. assert (grouped (Leaf e) = true) as Ht by done. assert (open_end (Leaf e) = false) as Ho by done.
  revert Ht Ho. generalize (Leaf e).
  induction ops as [|[op a] ops IH]; intros t Ht Ho Hops; simpl; [done|].
  apply Forall_cons in Hops as [Hop Hops]. apply IH; [by apply insert_grouped|by apply insert_closed|done].
Qed.

(** ** Parsing *)

Section parsing.
Context `{Lib} `{RegexNew}.
Notation parsers := (parsers (FL := FlatLiteral)).
Notation at0 e := (mkLocExpr Loc.dummy e).

Fixpoint leaves_ok (t : Tree) : bool :=
  match t with
  | Leaf e => printable e
  | Node _ l r => leaves_ok l && leaves_ok r
  | Pre _ t | Paren t => leaves_ok t
  end.

(** Whether the loop at a precedence goes on with an operator. *)
Definition prec (op : Infix) : Precedence := (infix_op (infix_token op)).1.
Definition takes (p : Precedence) (op : Infix) : bool := negb (to_left op) && Nat.leb p (prec op) || Nat.ltb p (prec op).

Lemma groups_takes op1 op2 : op1 <> Dot -> op2 <> Dot -> groups_left op1 op2 = negb (takes (prec op1) op2).
Proof. by destruct op1, op2. Qed.
Lemma takes_lowest op : op <> Dot -> takes PLowest op = true.
Proof. by destruct op. Qed.
Lemma takes_trans p op1 op2 : takes p op1 = true -> takes (prec op1) op2 = true -> takes p op2 = true.
Proof.
  unfold takes. rewrite !orb_true_iff, !andb_true_iff, !Nat.leb_le, !Nat.ltb_lt.
  intros [[_ ?]|?] [[Hr ?]|?]; (destruct (to_left op2); [right; lia|left; split; [done|lia]]) || (right; lia).
Qed.

Lemma infix_op_token op : op <> Dot ->
  infix_op (infix_token op) = (prec op, Some (if to_left op then LeftAssoc else RightAssoc, op)) /\
  prec op <> PDot /\ prec op <> PCallExpr.
Proof. by destruct op. Qed.

(** What follows a tree: an operator that the loop leaves, or no operator. *)
Definition leaves (p : Precedence) (rest : Tokens) : Prop :=
  lowest rest \/ exists op r, rest = tk (infix_token op) :: r /\ op <> Dot /\ takes p op = false.

Lemma go_leaves rec p (e : LocExpr FlatLiteral) rest : leaves p rest -> go_parse_pratt_expr rec p e rest = Done rest e.
Proof.
  intros [Hr|(op & r & -> & Hop & Hp)]; [by apply go_stops|]. unfold go_parse_pratt_expr. simpl tok.
  destruct (infix_op_token op Hop) as (-> & Hd%Nat.eqb_neq & Hc%Nat.eqb_neq). rewrite Hd, Hc. cbn [andb].
  unfold takes in Hp. destruct (to_left op); simpl in Hp; by rewrite Hp.
Qed.

Lemma go_takes rec p (l : LocExpr FlatLiteral) op i :
  op <> Dot -> takes p op = true ->
  go_parse_pratt_expr rec p l (tk (infix_token op) :: i) =
  (right ← pratt_expr rec (prec op); go_pratt_expr rec p (at0 (PInfix op l right))) i.
Proof.
  intros Hop Hp. destruct (infix_op_token op Hop) as (Ht & Hd & Hc). apply (go_infix _ _ _ _ _ _ _ _ Ht Hd Hc).
  unfold takes in Hp. rewrite orb_true_iff, andb_true_iff, Nat.leb_le, Nat.ltb_lt in Hp.
  destruct Hp as [[Hl Hp]|Hp]; [right|by left]. by destruct (to_left op).
Qed.

Definition takes_root (p : Precedence) (t : Tree) : bool := match t with Node op _ _ => takes p op | _ => true end.
Definition leaves_root (t : Tree) (rest : Tokens) : Prop :=
  if open_end t then lowest rest else match t with Node op _ _ => leaves (prec op) rest | _ => True end.
Lemma lowest_leaves t rest : lowest rest -> leaves_root t rest.
Proof. unfold leaves_root. intros Hr. destruct (open_end t); [done|]. destruct t; [done|by left|done|done]. Qed.

Lemma length_inorder t : 1 <= length (inorder t).
Proof. destruct t; simpl; [apply length_show| |lia|lia]. rewrite length_app. simpl. lia. Qed.

Lemma takes_left p op t : op <> Dot -> grouped t = true -> takes p op = true -> left_ok op t = true -> takes_root p t = true.
Proof.
  destruct t as [e|op1 l r|q t|t]; [done| |done..]. simpl. intros Hop Hg Hp Hl.
  assert (op1 <> Dot) as Hop1 by (intros ->; done). rewrite groups_takes in Hl by done.
  apply negb_true_iff in Hl. unfold takes in *. 
  apply orb_false_iff in Hl as [Hl1 Hl2]. rewrite orb_true_iff, andb_true_iff, Nat.leb_le, Nat.ltb_lt in *.
  rewrite andb_false_iff, Nat.leb_gt, negb_false_iff in Hl1. apply Nat.ltb_ge in Hl2.
  destruct Hp as [[Hr Hp]|Hp]; [|right; lia]. apply negb_true_iff in Hr. destruct Hl1 as [Hl1|Hl1]; [congruence|right; lia].
Qed.

Lemma leaves_tighter p op rest : takes p op = true -> leaves p rest -> leaves (prec op) rest.
Proof.
  intros Hp [Hr|(op' & r & -> & Hop & Hl)]; [by left|]. right. exists op', r. split_and!; [done..|].
  destruct (takes (prec op) op') eqn:E; [|done]. by rewrite (takes_trans p op op') in Hl.
Qed.

Lemma takes_root_lowest t : grouped t = true -> takes_root PLowest t = true.
Proof. destruct t as [|op l r| |]; [done| |done..]. simpl. intros Hg. apply takes_lowest. by intros ->. Qed.
Lemma value_at t : value t = at0 (LocExpr.expr (value t)).
Proof. by induction t. Qed.

(** Reading a tree is reading its operands in the loop of its precedence. *)
Lemma pratt_tree t : forall n p rest,
  grouped t = true -> leaves_ok t = true -> takes_root p t = true -> leaves_root t rest -> length (inorder t) < n ->
  exists m, n <= m + length (inorder t) /\
    pratt_expr (parsers n) p (toks (inorder t) ++ rest) = go_pratt_expr (parsers m) p (value t) rest.
Proof.
  induction t as [e|op l IHl r IHr|q t IH|t IH]; intros n p rest Hg Hl Hp Hrest Hn; simpl in *.
  - destruct n as [|n]; [lia|]. exists n. pose proof (length_show e). split; [lia|].
    change (parse_pratt_expr (parsers n) p (toks (show e) ++ rest) = go_pratt_expr (parsers n) p (at0 e) rest).
    unfold parse_pratt_expr, mbind, Parser_bind. by rewrite (every_expr_good e Hl n ltac:(lia) rest).
  - apply andb_true_iff in Hg as [[[[[Hop Hol]%andb_true_iff Hgl]%andb_true_iff Hgr]%andb_true_iff Hl']%andb_true_iff Hr'].
    apply negb_true_iff in Hol.
    apply negb_true_iff, bool_decide_eq_false in Hop. apply andb_true_iff in Hl as [Hll Hlr].
    rewrite length_app in Hn |- *. simpl in Hn |- *. pose proof (length_inorder r).
    destruct (IHl n p (tk (infix_token op) :: toks (inorder r) ++ rest) Hl' Hll) as (m & Hm & Heq);
      [by apply (takes_left p op)| |lia|].
    + unfold leaves_root. rewrite Hol. destruct l as [|op1 l1 l2| |]; [done| |done..]. right. exists op, (toks (inorder r) ++ rest). split_and!; [done..|].
      simpl in Hgl. rewrite groups_takes in Hgl; [by apply negb_true_iff|by intros ->|done].
    + destruct m as [|m]; [lia|]. exists m. split; [lia|].
      rewrite toks_app, <- app_assoc. simpl. rewrite Heq.
      change (go_pratt_expr (parsers (S m))) with (go_parse_pratt_expr (parsers m)).
      rewrite go_takes by done. 
      destruct (IHr m (prec op) rest Hr' Hlr) as (m2 & Hm2 & Heq2); [| |lia|].
      * destruct r as [|op2 r1 r2| |]; [done| |done..]. simpl in Hgr |- *.
        rewrite groups_takes, negb_involutive in Hgr; [done|done|by intros ->].
      * unfold leaves_root in *. simpl in Hrest. destruct (open_end r); [done|].
        destruct r as [|op2 r1 r2| |]; [done| |done..]. simpl in Hgr |- *. apply (leaves_tighter (prec op)); [|done].
        rewrite groups_takes, negb_involutive in Hgr; [done|done|by intros ->].
      * unfold mbind, Parser_bind. rewrite Heq2. destruct m2 as [|m2]; [lia|].
        change (go_pratt_expr (parsers (S m2))) with (go_parse_pratt_expr (parsers m2)).
        rewrite go_leaves; [done|]. unfold leaves_root in Hrest. simpl in Hrest. destruct (open_end r); [by left|done].
  - destruct n as [|[|n]]; [lia..|]. exists (S n). split; [lia|]. pose proof (length_inorder t).
    change (parse_pratt_expr (parsers (S n)) p (tk (prefix_token q) :: toks (inorder t) ++ rest) =
      go_pratt_expr (parsers (S n)) p (at0 (PPrefix q (value t))) rest).
    unfold parse_pratt_expr, mbind, Parser_bind.
    rewrite (reads_prefix_atom n q (inorder t) (value t) rest); [done|].
    destruct (IH (S n) PLowest rest Hg Hl) as (m & Hm & Heq); [by apply takes_root_lowest|by apply lowest_leaves|lia|].
    unfold reads. rewrite Heq. destruct m as [|m]; [lia|]. by apply go_stops.
  - rewrite length_app in Hn |- *. simpl in Hn |- *. destruct n as [|[|n]]; [lia..|]. exists (S n). split; [lia|].
    change (parse_pratt_expr (parsers (S n)) p (toks (parens (inorder t)) ++ rest) = go_pratt_expr (parsers (S n)) p (value t) rest).
    unfold parse_pratt_expr. unfold mbind, Parser_bind. erewrite (reads_paren n (inorder t) (LocExpr.expr (value t))).
    { by rewrite <- value_at. }
    intros r. unfold reads. rewrite <- value_at.
    destruct (IH (S n) PLowest (tk RParen :: r) Hg Hl) as (m & Hm & ->); [by apply takes_root_lowest| |lia|].
    + apply lowest_leaves. by eexists _, _.
    + destruct m as [|m]; [lia|]. apply go_stops. by eexists _, _.
Qed.

Lemma parse_tree t n p rest :
  grouped t = true -> leaves_ok t = true -> takes_root p t = true -> lowest rest -> length (inorder t) < n ->
  pratt_expr (parsers n) p (toks (inorder t) ++ rest) = Done rest (value t).
Proof.
  intros Hg Hl Hp Hr Hn. destruct (pratt_tree t n p rest) as (m & Hm & ->); try done; [by apply lowest_leaves|].
  destruct m as [|m]; [lia|]. by apply go_stops.
Qed.

Lemma insert_leaves t op e : leaves_ok (insert t op e) = leaves_ok t && printable e.
Proof.
  induction t as [|op1 l _ r IH|p t IH|t _]; simpl; [done| |done|done]. destruct (groups_left op1 op); simpl; [done|].
  by rewrite IH, andb_assoc.
Qed.
Lemma group_leaves e ops : leaves_ok (group e ops) = printable e && forallb (fun x => printable x.2) ops.
Proof.
  unfold group. change (printable e) with (leaves_ok (Leaf e)). generalize (Leaf e).
  induction ops as [|[op a] ops IH]; intros t; simpl; [by rewrite andb_true_r|].
  by rewrite IH, insert_leaves, andb_assoc.
Qed.

Lemma reads_chain e ops n rest :
  Forall (fun x => x.1 <> Dot) ops -> printable e && forallb (fun x => printable x.2) ops = true ->
  length (chain_tokens e ops) < n -> lowest rest ->
  reads (pratt_expr (parsers n) PLowest) (chain_tokens e ops) (value (group e ops)) rest.
Proof.
  intros Hops Hp Hn Hr. rewrite <- group_leaves in Hp. pose proof (group_grouped e ops Hops) as Hg.
  rewrite <- group_tokens in Hn |- *. apply parse_tree; [done|done|by apply takes_root_lowest|done|done].
Qed.

(** An expression, read with more fuel than it has tokens, and the end. *)
Lemma parse_eof l e :
  (forall n, length l < n -> reads (pratt_expr (parsers n) PLowest) l e (toks [EOF])) ->
  parse_expr_eof (toks (l ++ [EOF])) = Done [] e.
Proof.
  intros Hl. unfold parse_expr_eof, Nom.terminated, enough, parse_expr, mbind, Parser_bind.
  set (n := length (toks (l ++ [EOF]))). rewrite toks_app.
  rewrite (Hl (S n)); [done|]. unfold n. rewrite length_toks, length_app. lia.
Qed.

(** C13: precedence and associativity: a chain of any length of operands with
    binary operators between them, without parentheses, parses to the tree in
    which each operator took its place in the tree of those before it: down
    its right edge, until an operator that binds tighter, or as tight when the
    new one groups to the left. *)
Theorem operators_group e ops :
  Forall (fun x => x.1 <> Dot) ops -> printable e && forallb (fun x => printable x.2) ops = true ->
  parse_expr_eof (toks (chain_tokens e ops ++ [EOF])) = Done [] (value (group e ops)).
Proof.
  intros Hops Hp. apply parse_eof. intros n Hn. apply reads_chain; [done..|by eexists _, _].
Qed.

(** A prefix operator takes the whole chain that follows: [!a && b] is
    [!(a && b)] and [-a + b] is [-(a + b)]. *)
Theorem prefix_takes_chain p e ops :
  Forall (fun x => x.1 <> Dot) ops -> printable e && forallb (fun x => printable x.2) ops = true ->
  parse_expr_eof (toks (prefix_token p :: chain_tokens e ops ++ [EOF])) = Done [] (at0 (PPrefix p (value (group e ops)))).
Proof.
  intros Hops Hp. apply (parse_eof (prefix_token p :: chain_tokens e ops)). intros n Hn. simpl in Hn.
  destruct n as [|[|n]]; [lia..|].
  change (reads (parse_pratt_expr (parsers (S n)) PLowest) (prefix_token p :: chain_tokens e ops)
    (at0 (PPrefix p (value (group e ops)))) (toks [EOF])).
  unfold parse_pratt_expr. apply (reads_last _ _ _ (at0 (PPrefix p (value (group e ops))))); [|apply go_stops; by eexists _, _].
  apply reads_prefix_atom. apply reads_chain; [done..|lia|by eexists _, _].
Qed.
End parsing.

(** ** Examples *)

Definition test_operand (s : string) : PE := PIdent s.
(** [a + b * c - d == e && f] *)
Definition test_ops : list (Infix * PE) :=
  [(Plus, test_operand "b"); (Multiply, test_operand "c"); (IMinus, test_operand "d"); (Equal, test_operand "e");
   (And, test_operand "f")].

Lemma operators_group_witness :
  @parse_expr_eof FlatTyp FlatLiteral _ test_lib test_regex_new (toks (chain_tokens (test_operand "a") test_ops ++ [EOF])) =
  Done [] (value (Node And (Node Equal (Node IMinus (Node Plus (Leaf (test_operand "a"))
    (Node Multiply (Leaf (test_operand "b")) (Leaf (test_operand "c")))) (Leaf (test_operand "d"))) (Leaf (test_operand "e")))
    (Leaf (test_operand "f")))).
Proof. apply (@operators_group test_lib test_regex_new (test_operand "a") test_ops); [by repeat constructor|by vm_compute]. Defined.

Lemma prefix_takes_chain_witness :
  @parse_expr_eof FlatTyp FlatLiteral _ test_lib test_regex_new
    (toks (TNot :: chain_tokens (test_operand "a") [(And, test_operand "b")] ++ [EOF])) =
  Done [] (mkLocExpr Loc.dummy (PPrefix Not (value (Node And (Leaf (test_operand "a")) (Leaf (test_operand "b")))))).
Proof.
  apply (@prefix_takes_chain test_lib test_regex_new Not (test_operand "a") [(And, test_operand "b")]);
    [by repeat constructor|by vm_compute].
Defined.
