(* ===== verification/LexerTheory.v ===== *)
(** * What the lexer guarantees

    Every text is split into tokens, or the lexer panics, and it panics only on
    a number that is too large: [lex_cases].  The implementation of
    [Lexer.LexLib] that the examples use satisfies its laws. *)

From Stdlib Require Import ZArith Lia String Ascii List SpecFloat.
From stdpp Require Import base tactics list strings.
From S2P Require Import Prelude.
From S2P Require Import Ordered.
From S2P Require Import Strings.
From S2P Require Import Labels.
From S2P Require Import Syntax.
From S2P Require Import Nom.
From S2P Require Import Lexer.
From S2P Require Import ParserTheory.

Local Open Scope string_scope.
Local Open Scope list_scope.

(** ** Texts *)

Lemma length_substring n m s : String.length (String.substring n m s) = Nat.min m (String.length s - n).
Proof.
  revert n m. induction s as [|c s IH]; intros [|n] [|m]; cbn [String.substring String.length]; rewrite ?IH; lia.
Qed.
Lemma length_drop n s : String.length (drop_str n s) = String.length s - n.
Proof. unfold drop_str. rewrite length_substring. lia. Qed.
Lemma size_drop n i : size (Span.drop n i) = size i - n.
Proof. apply length_drop. Qed.

Lemma length_first_char s c : first_char s = Some c -> 1 <= String.length c /\ 1 <= String.length s.
Proof.
  destruct s as [|d s]; [done|]. cbn [first_char]. intros Hc.
  assert (c = String.substring 0 (utf8_len d) (String d s)) as -> by congruence. rewrite length_substring.
  assert (1 <= utf8_len d) by (unfold utf8_len; repeat case_match; lia). simpl String.length. lia.
Qed.

Lemma prefix_length p s : String.prefix p s = true -> String.length p <= String.length s.
Proof. intros [t ->]%prefix_true_app. rewrite length_append. lia. Qed.

Lemma span_while_pos f n s : span_while f n s <> 0 -> s <> "".
Proof. destruct n; simpl; [done|]. by destruct s. Qed.

(** The digits of an integer. *)
Lemma digits_all f n acc : (0 <= n)%Z -> forall_chars is_digit acc = true -> forall_chars is_digit (digits_fuel f n acc) = true.
Proof.
  revert n acc. induction f as [|f IH]; intros n acc Hn Ha; simpl; [done|].
  pose proof (Z.mod_pos_bound n 10 ltac:(lia)). 
  destruct (digit_char_value (n mod 10) ltac:(lia)) as [Hd _].
  destruct (n <? 10)%Z; [simpl; by rewrite Hd, Ha|]. apply IH; [by apply Z.div_pos|]. simpl. by rewrite Hd, Ha.
Qed.
Lemma digits_ne n : (0 <= n)%Z -> digits_of n <> "".
Proof. intros Hn. by destruct (digits_of_head n Hn) as (c & s & -> & _). Qed.

(** ** Consumption *)

Lemma good_taken n k : good n (taken k).
Proof. intros i Hi. simpl. rewrite size_drop. lia. Qed.
Lemma eats_ltag n t : t <> "" -> eats n (ltag t).
Proof.
  intros Ht i Hi. unfold ltag, starts_with. destruct (String.prefix t (fragment i)) eqn:E; [|by repeat case_match].
  simpl. rewrite size_drop. apply prefix_length in E. change (size i) with (String.length (fragment i)).
  destruct t; simpl in *; [done|lia].
Qed.
Lemma eats_take1 n : eats n take1.
Proof.
  intros i Hi. unfold take1. destruct (first_char (fragment i)) as [c|] eqn:E; [|done]. simpl. rewrite size_drop.
  apply length_first_char in E. change (size i) with (String.length (fragment i)). lia.
Qed.
Lemma eats_while1 n f : eats n (take_while1 f).
Proof.
  intros i Hi. unfold take_while1. destruct (span_while f (size i) (fragment i)) as [|k] eqn:E; [done|].
  simpl. rewrite size_drop. assert (fragment i <> "") as Hne by (apply (span_while_pos f (size i)); by rewrite E).
  change (size i) with (String.length (fragment i)). destruct (fragment i); simpl; [done|lia].
Qed.
Lemma good_space n : good n multispace0.
Proof. intros i Hi. apply (good_taken n _ i Hi). Qed.

#[export] Hint Resolve good_taken eats_take1 eats_while1 good_space : parse.
#[export] Hint Extern 1 (eats _ (ltag _)) => (by apply eats_ltag) : parse.

Section lexer.
Context `{LexLaws}.

Lemma good_unwrap {A} n (o : option A) : good n (unwrap_parse o).
Proof. destruct o; [apply good_ret|apply good_panics]. Qed.
Hint Resolve good_unwrap : parse.

(** A float takes its text, which is not empty. *)
Lemma eats_float n float i :
  size i < n -> starts_with (fragment i) float = true ->
  match (t ← taken (String.length float); f ← unwrap_parse (parse_f64 float); mret (mkSToken t (FloatLiteral f))) i with
  | Done i' _ => size i' < size i | NFuel => False | _ => True end.
Proof.
  intros Hi Hf. unfold mbind, Parser_bind, taken. destruct float as [|c float]; [done|].
  destruct (parse_f64 (String c float)); simpl; [|done]. rewrite size_drop. apply prefix_length in Hf. simpl in Hf.
  change (size i) with (String.length (fragment i)). lia.
Qed.

Lemma eats_number n : eats n lex_number.
Proof.
  intros i Hi. unfold lex_number. destruct (recognize_float (fragment i)) as [float| |] eqn:E; [|done..].
  pose proof (float_prefix _ _ E) as Hf.
  assert (eats n (t ← ltag "-"; mret (mkSToken t TMinus)) /\ eats n (t ← ltag "."; mret (mkSToken t TDot)) /\
          eats n (i ← digit1; n ← unwrap_parse (parse_i64 (fragment i)); mret (mkSToken i (IntLiteral n))) /\
          forall z, eats n (_ ← Nom.opt (ltag "-"); t ← digit1; mret (mkSToken t (IntLiteral z)))) as (H1' & H2 & H3 & H4).
  { unfold digit1. split_and!; intros; parse_tac. }
  destruct (ends_with float "."); [destruct (starts_with float "-"); [by apply H1'|by apply H3]|].
  destruct (_ && _); [by apply H2|]. destruct (parse_i64 float); [by apply H4|by apply (eats_float n)].
Qed.

Lemma good_escaped_len n : forall s, String.length s < n ->
  match escaped_len n s with NFuel => False | _ => True end.
Proof.
  induction n as [|n IH]; intros s Hs; [lia|]. simpl.
  destruct (first_char s) as [c|] eqn:E; [|done]. apply length_first_char in E as [Hc Hl].
  assert (forall k, 1 <= k -> match escaped_len n (drop_str k s) with NFuel => False | _ => True end) as Hk.
  { intros k Hk. apply IH. rewrite length_drop. lia. }
  destruct (c =? dquote); [done|]. destruct (c =? backslash).
  - destruct (first_char (drop_str 1 s)) as [d|]; [|done]. destruct (_ || _); [|done].
    specialize (Hk 2 ltac:(lia)). by destruct (escaped_len n _).
  - specialize (Hk _ Hc). by destruct (escaped_len n _).
Qed.
Lemma good_escaped n : good n escaped.
Proof.
  intros i Hi. unfold escaped. pose proof (good_escaped_len (S (size i)) (fragment i) (le_n _)) as Hg.
  destruct (escaped_len _ _) as [r k| | | |]; try done. by apply (good_taken n k).
Qed.

Lemma eats_string n : eats n lex_string.
Proof.
  unfold lex_string. apply eats_bind; [apply eats_first; repeat constructor; by apply eats_ltag|intros b].
  apply good_bind; [apply good_opt, good_escaped|intros t]. parse_tac.
Qed.

Lemma eats_label n : eats n lex_label.
Proof.
  unfold lex_label. apply eats_bind; [by apply eats_ltag|intros _]. apply good_bind; [|intros t; parse_tac].
  intros i Hi. unfold lex_label_inner. destruct (find_char _ _) as [k|]; [|done].
  unfold mbind, Parser_bind, taken, label_token. destruct (Label.from_str _); [|done]. rewrite size_drop. lia.
Qed.

Lemma eats_ident n : eats n lex_reserved_ident.
Proof.
  intros i Hi. unfold lex_reserved_ident. pose proof (eats_while1 n (fun c => is_alphanumeric c || (c =? "_")) i Hi) as He.
  destruct (take_while1 _ i) as [r t| | | |]; try done. by destruct (starts_with _ _).
Qed.

Lemma good_comment n : good n lex_comment.
Proof.
  intros i Hi. unfold lex_comment. destruct (not_line_ending _) as [s|]; [|done].
  simpl. rewrite size_drop. lia.
Qed.

Lemma eats_operator n : eats n lex_operator.
Proof.
  unfold lex_operator. apply eats_bind; [apply eats_take1|intros i].
  assert (forall (p q : L SToken), good (n - 1) p -> good (n - 1) q -> good (n - 1) (Nom.or p q)) as Hor by (intros; by apply good_or).
  assert (forall j c s t, c <> "" -> good (n - 1) (lex_longer j c s t)) as Hlong.
  { intros j c s t Hc. unfold lex_longer. apply eats_good, eats_bind; [by apply eats_ltag|intros; apply good_ret]. }
  destruct (assoc _ single); [apply good_ret|]. destruct (assoc _ longer) as [[[c t] u]|] eqn:E.
  - apply Hor; [|apply good_ret]. apply Hlong. unfold assoc in E.
    destruct (find _ longer) as [[s [[c' t'] u']]|] eqn:Ef; [|done]. injection E as -> -> ->.
    apply find_some in Ef as [Hin _]. simpl in Hin. by repeat (destruct Hin as [[= <- <- <- <-]|Hin]; [done|]).
  - destruct (_ =? "/"); [apply Hor; [|apply good_ret]|destruct (_ =? "&"); [by apply Hlong|apply good_error]].
    apply good_bind; [apply eats_good; by apply eats_ltag|intros; apply good_comment].
Qed.

Lemma eats_token n : eats n lex_token.
Proof.
  apply eats_alt. repeat constructor; [apply eats_number|apply eats_string|apply eats_label|apply eats_ident|apply eats_operator|].
  unfold lex_illegal. apply eats_bind; [apply eats_take1|intros; apply good_ret].
Qed.

(** ** Panics *)

(** A text with a number that does not fit. *)
Definition oversized (s : string) : Prop :=
  exists p d r, s = p ^^ d ^^ r /\ d <> "" /\ forall_chars is_digit d = true /\ parse_i64 d = None.

(** [p] leaves a rest of its text, and panics on a number that does not fit. *)
Definition honest {A} (p : L A) : Prop := forall i,
  match p i with
  | Done i' _ => exists t, fragment i = t ^^ fragment i'
  | NPanic => oversized (fragment i)
  | _ => True
  end.

Lemma oversized_app t s : oversized s -> oversized (t ^^ s).
Proof. intros (p & d & r & -> & Hd). exists (t ^^ p), d, r. by rewrite append_assoc. Qed.

Lemma substring_zero s : String.substring 0 0 s = "".
Proof. by destruct s. Qed.
Lemma drop_zero s : drop_str 0 s = s.
Proof. unfold drop_str. rewrite Nat.sub_0_r. induction s as [|c s IH]; simpl; [done|]. by rewrite IH. Qed.
Lemma take_drop n s : String.substring 0 n s ^^ drop_str n s = s.
Proof.
  revert n. induction s as [|c s IH]; intros [|n]; [done|done| |].
  - by rewrite drop_zero.
  - change (String c (String.substring 0 n s ^^ drop_str n s) = String c s). by rewrite IH.
Qed.
Lemma take_app a b s : String.substring 0 (a + b) s = String.substring 0 a s ^^ String.substring 0 b (drop_str a s).
Proof.
  revert a b. induction s as [|c s IH]; intros [|a] b; [by destruct b|by destruct b| |].
  - by rewrite drop_zero.
  - change (String c (String.substring 0 (a + b) s) =
      String c (String.substring 0 a s ^^ String.substring 0 b (drop_str a s))). by rewrite IH.
Qed.
Lemma take_first s c : first_char s = Some c -> String.substring 0 (String.length c) s = c.
Proof.
  destruct s as [|d s]; [done|]. cbn [first_char]. intros Hc.
  assert (c = String.substring 0 (utf8_len d) (String d s)) as -> by congruence. generalize (utf8_len d).
  generalize (String d s). clear. induction s as [|d s IH]; intros [|n]; simpl; try done. by rewrite IH.
Qed.

Lemma honest_ret {A} (a : A) : honest (mret a).
Proof. intros i. by exists "". Qed.
Lemma honest_bind {A B} (p : L A) (f : A -> L B) : honest p -> (forall a, honest (f a)) -> honest (p ≫= f).
Proof.
  intros Hp Hf i. unfold mbind, Parser_bind. specialize (Hp i). destruct (p i) as [i' a| | | |]; try done.
  destruct Hp as [t Ht]. specialize (Hf a i'). rewrite Ht. destruct (f a i') as [i'' b| | | |]; try done.
  - destruct Hf as [t' ->]. exists (t ^^ t'). by rewrite append_assoc.
  - by apply oversized_app.
Qed.
Lemma honest_taken k : honest (taken k).
Proof. intros i. simpl. eexists. symmetry. apply take_drop. Qed.
Lemma honest_error {A} : honest (Nom.error : L A).
Proof. by intros i. Qed.
Lemma honest_ltag t : honest (ltag t).
Proof. intros i. unfold ltag. destruct (starts_with _ t); [apply (honest_taken _ i)|by destruct (starts_with _ _)]. Qed.
Lemma honest_take1 : honest take1.
Proof. intros i. unfold take1. destruct (first_char _); [|done]. apply (honest_taken _ i). Qed.
Lemma honest_while1 f : honest (take_while1 f).
Proof. intros i. unfold take_while1. destruct (span_while _ _ _); [done|]. apply (honest_taken _ i). Qed.
Lemma honest_complete {A} (p : L A) : honest p -> honest (Nom.complete p).
Proof. intros Hp i. unfold Nom.complete. specialize (Hp i). by destruct (p i). Qed.
Lemma honest_or {A} (p q : L A) : honest p -> honest q -> honest (Nom.or p q).
Proof. intros Hp Hq i. unfold Nom.or. specialize (Hp i). destruct (p i); try done. apply Hq. Qed.
Lemma honest_opt {A} (p : L A) : honest p -> honest (Nom.opt p).
Proof. intros Hp i. unfold Nom.opt. specialize (Hp i). destruct (p i); try done. by exists "". Qed.
Lemma honest_alt {A} (ps : list (L A)) : Forall honest ps -> honest (Nom.alt ps).
Proof. induction 1; simpl; [apply honest_error|]. apply honest_or; [by apply honest_complete|done]. Qed.
Lemma honest_first {A} (ps : list (L A)) : Forall honest ps -> honest (Nom.first ps).
Proof. induction 1; simpl; [apply honest_error|]. by apply honest_or. Qed.
Lemma honest_many0 {A} (p : L A) : honest p -> honest (Nom.many0 p).
Proof.
  intros Hp i. unfold Nom.many0. generalize (S (size i)). intros n. revert i.
  induction n as [|n IH]; intros i; simpl; [done|]. specialize (Hp i). destruct (p i) as [i' a| | | |]; try done; [|by exists ""].
  destruct (Nat.eqb _ _); [done|]. destruct Hp as [t Ht]. specialize (IH i'). unfold fmap, Parser_fmap, mbind, Parser_bind.
  rewrite Ht. destruct (Nom.many0_go p n i') as [i'' l| | | |]; try done.
  - destruct IH as [t' ->]. exists (t ^^ t'). by rewrite append_assoc.
  - by apply oversized_app.
Qed.

Hint Resolve honest_ret honest_error honest_taken honest_ltag honest_take1 honest_while1 : honest.
Ltac honest_tac := repeat first [solve [eauto with honest]|apply honest_bind; [|intros ?]|apply honest_or|apply honest_opt
  |apply honest_first|apply Forall_cons; split|apply Forall_nil_2|apply honest_ret].

(** Digits that are taken. *)
Lemma span_digits n s k : span_while (forall_chars is_digit) n s = k -> forall_chars is_digit (String.substring 0 k s) = true.
Proof.
  revert s k. induction n as [|n IH]; intros s k; simpl; [intros <-; by rewrite substring_zero|].
  destruct (first_char s) as [c|] eqn:E; [|intros <-; by rewrite substring_zero].
  destruct (forall_chars is_digit c) eqn:Ec; [|intros <-; by rewrite substring_zero].
  intros <-. rewrite take_app, forall_chars_append, andb_true_iff. split; [|by apply (IH _ _ eq_refl)].
  by rewrite (take_first _ _ E).
Qed.

Lemma honest_integer : honest (i ← digit1; n ← unwrap_parse (parse_i64 (fragment i)); mret (mkSToken i (IntLiteral n))).
Proof.
  intros i. unfold mbind, Parser_bind, digit1, take_while1.
  destruct (span_while _ _ _) as [|k] eqn:E; [done|]. unfold taken, Span.take. cbv beta iota. cbn [fragment].
  destruct (parse_i64 (String.substring 0 (S k) (fragment i))) as [n|] eqn:En; simpl;
    [exists (String.substring 0 (S k) (fragment i)); symmetry; apply take_drop|].
  exists "", (String.substring 0 (S k) (fragment i)), (drop_str (S k) (fragment i)). split_and!.
  - symmetry. apply take_drop.
  - assert (fragment i <> "") as Hne by (apply (span_while_pos (forall_chars is_digit) (size i)); by rewrite E).
    by destruct (fragment i).
  - by apply (span_digits (size i)).
  - done.
Qed.

Lemma honest_number : honest lex_number.
Proof.
  intros i. unfold lex_number. destruct (recognize_float (fragment i)) as [float| |] eqn:E; [|done..].
  pose proof (float_parses _ _ E) as Hf.
  assert (forall c t, honest (u ← ltag c; mret (mkSToken u t))) as Hone by (intros; honest_tac).
  destruct (ends_with float "."); [destruct (starts_with float "-"); [apply Hone|apply honest_integer]|].
  destruct (_ && _); [apply Hone|]. destruct (parse_i64 float) as [z|].
  - assert (honest (_ ← Nom.opt (ltag "-"); t ← digit1; mret (mkSToken t (IntLiteral z)))) as Hz; [|apply Hz].
    unfold digit1. honest_tac.
  - destruct (parse_f64 float) as [f|]; [|done].
    assert (honest (t ← taken (String.length float); f ← (mret f : L spec_float); mret (mkSToken t (FloatLiteral f)))) as Hz;
      [|apply Hz].
    honest_tac.
Qed.

Lemma honest_string : honest lex_string.
Proof.
  assert (honest escaped) as He.
  { intros i. unfold escaped.
    assert (forall n s, escaped_len n s <> NPanic) as Hn.
    { induction n as [|n IH]; intros s; [done|]. simpl. repeat case_match; try done; by destruct (IH _ ltac:(eassumption)). }
    pose proof (Hn (S (size i)) (fragment i)). destruct (escaped_len _ _); try done. apply honest_taken. }
  unfold lex_string. honest_tac.
Qed.

Lemma honest_label : honest lex_label.
Proof.
  unfold lex_label, Nom.delimited. apply honest_bind; [apply honest_ltag|intros _]. apply honest_bind; [|intros t; honest_tac].
  intros i. unfold lex_label_inner. destruct (find_char _ _) as [k|]; [|done].
  unfold mbind, Parser_bind, taken, label_token. destruct (Label.from_str _); [|done]. simpl. eexists. symmetry. apply take_drop.
Qed.
Lemma honest_ident : honest lex_reserved_ident.
Proof.
  intros i. unfold lex_reserved_ident. pose proof (honest_while1 (fun c => is_alphanumeric c || (c =? "_")) i) as Hw.
  destruct (take_while1 _ i) as [r t| | | |]; try done. by destruct (starts_with _ _).
Qed.
Lemma honest_operator : honest lex_operator.
Proof.
  assert (honest lex_comment) as Hc.
  { intros i. unfold lex_comment. destruct (not_line_ending _); [|done].
    match goal with |- context [(?p ≫= ?f) i] => assert (honest (p ≫= f)) as Hp by honest_tac; apply Hp end. }
  assert (forall j c s t, honest (lex_longer j c s t)) as Hlong by (intros; unfold lex_longer; honest_tac).
  unfold lex_operator, lex_shorter. apply honest_bind; [apply honest_take1|intros i].
  destruct (assoc _ single); [apply honest_ret|]. destruct (assoc _ longer) as [[[c t] u]|]; [honest_tac|].
  repeat case_match; honest_tac.
Qed.

Lemma honest_tokens : honest lex_tokens.
Proof.
  apply honest_many0. unfold Nom.delimited, multispace0, take_while.
  assert (forall f, honest (fun i => taken (span_while f (size i) (fragment i)) i)) as Hw by (intros f i; apply honest_taken).
  apply honest_bind; [apply Hw|intros _]. apply honest_bind; [|intros t; apply honest_bind; [apply Hw|intros _; apply honest_ret]].
  apply honest_alt. repeat constructor; [apply honest_number|apply honest_string|apply honest_label|apply honest_ident|
    apply honest_operator|]. unfold lex_illegal. honest_tac.
Qed.

Lemma eats_line n : eats n (Nom.delimited multispace0 lex_token multispace0).
Proof.
  unfold Nom.delimited. apply eats_bind_r; [apply good_space|intros _].
  apply eats_bind; [apply eats_token|intros t; apply good_bind; [apply good_space|intros _; apply good_ret]].
Qed.
Lemma line_not_incomplete i : Nom.delimited multispace0 lex_token multispace0 i <> Incomplete.
Proof.
  unfold Nom.delimited, mbind, Parser_bind, multispace0, take_while, taken. cbv beta iota.
  assert (forall (ps : list (L SToken)) i, Nom.alt ps i <> Incomplete) as Ha.
  { induction ps as [|p ps IH]; intros j; [done|]. simpl. unfold Nom.or, Nom.complete. destruct (p j); try done; apply IH. }
  match goal with |- context [lex_token ?j] => pose proof (Ha _ j : lex_token j <> Incomplete); by destruct (lex_token j) end.
Qed.

(** The lexer on any text: either it gives tokens that end in [EOF] and
    have no comment among them, or it panics, and the text has a run of digits
    that is no [i64]. It never stops before the end of the text. *)
Theorem lex_cases buf :
  (exists ts eof, lex buf = Val (ts ++ [eof]) /\ st_tok eof = EOF /\
     Forall (fun t => is_comment (st_tok t) = false) ts) \/
  (lex buf = Panic /\ oversized buf).
Proof.
  unfold lex. pose proof (honest_tokens (Span.new buf)) as Hh.
  pose proof (many0_total (S (size (Span.new buf))) _ (Span.new buf) (eats_line _) line_not_incomplete (le_n _)) as Ht.
  change (Nom.many0 _ (Span.new buf)) with (lex_tokens (Span.new buf)) in Ht.
  destruct (lex_tokens (Span.new buf)) as [loc ts| | | |]; try done; [left|by right].
  exists (List.filter (fun t => negb (is_comment (st_tok t))) ts), (mkSToken loc EOF). rewrite List.filter_app. split_and!; [done..|].
  rewrite Forall_forall. intros t Hin. apply list_elem_of_In, List.filter_In in Hin as [_ Hin]. by apply negb_true_iff.
Qed.
End lexer.

(** ** The laws of the implementation for examples *)

Lemma take_digits_spec s d r : take_digits s = (d, r) -> s = d ^^ r /\ forall_chars is_digit d = true /\ starts_digit r = false.
Proof.
  revert d r. induction s as [|c s IH]; intros d r; simpl; [by intros [= <- <-]|].
  destruct (is_digit c) eqn:Ec; [|by intros [= <- <-]]. destruct (take_digits s) as [d' r'] eqn:E.
  intros [= <- <-]. destruct (IH _ _ eq_refl) as (-> & Hd & Hr). simpl. by rewrite Ec.
Qed.
Lemma take_digits_app d r : forall_chars is_digit d = true -> starts_digit r = false -> take_digits (d ^^ r) = (d, r).
Proof.
  induction d as [|c d IH]; simpl.
  - intros _ Hr. destruct r as [|c r]; [done|]. simpl in *. by rewrite Hr.
  - intros [Hc Hd]%andb_true_iff Hr. by rewrite Hc, IH.
Qed.
Lemma sign_spec s g r : sign_text s = (g, r) -> s = g ^^ r /\ (g = "" \/ g = "+" \/ g = "-").
Proof.
  destruct s as [|c s]; simpl; [intros [= <- <-]; auto|]. destruct (_ || _) eqn:E; intros [= <- <-]; [|auto].
  split; [done|]. apply orb_true_iff in E as [->%Ascii.eqb_eq| ->%Ascii.eqb_eq]; auto.
Qed.
Lemma fraction_spec s f r : fraction_text s = (f, r) ->
  s = f ^^ r /\ (f = "" \/ exists d, f = "." ^^ d /\ forall_chars is_digit d = true /\ starts_digit r = false).
Proof.
  destruct s as [|c s]; simpl; [intros [= <- <-]; auto|]. destruct (Ascii.eqb c ".") eqn:E; [|intros [= <- <-]; auto].
  apply Ascii.eqb_eq in E as ->. destruct (take_digits s) as [d r'] eqn:Ed. intros [= <- <-].
  apply take_digits_spec in Ed as (-> & Hd & Hr). split; [done|]. right. eauto.
Qed.
Definition is_exponent (e : string) : Prop :=
  e = "" \/ exists c g d, e = String c (g ^^ d) /\ (c = "e" \/ c = "E")%char /\ (g = "" \/ g = "+" \/ g = "-") /\
    d <> "" /\ forall_chars is_digit d = true.
Lemma exponent_spec s e : exponent_text s = Some e -> is_exponent e /\ exists r, s = e ^^ r.
Proof.
  destruct s as [|c s]; simpl; [intros [= <-]; split; [by left|by exists ""]|].
  destruct (_ || _) eqn:E; [|intros [= <-]; split; [by left|by eexists]].
  destruct (sign_text s) as [g s'] eqn:Eg. destruct (take_digits s') as [d r] eqn:Ed.
  apply sign_spec in Eg as [-> Hg]. apply take_digits_spec in Ed as (-> & Hd & Hr).
  destruct (d =? "") eqn:Ene; [done|]. intros [= <-]. apply String.eqb_neq in Ene. split.
  - right. exists c, g, d. split_and!; [done| |done|done|done].
    apply orb_true_iff in E as [->%Ascii.eqb_eq| ->%Ascii.eqb_eq]; auto.
  - exists r. simpl. by rewrite append_assoc.
Qed.

Lemma parse_digits_some s n : forall_chars is_digit s = true -> exists z, parse_digits n s = Some z.
Proof.
  revert n. induction s as [|c s IH]; intros n; simpl; [eauto|]. intros [-> Hs]%andb_true_iff. by apply IH.
Qed.
Lemma take_sign_digit d r : d <> "" -> forall_chars is_digit d = true -> take_sign (d ^^ r) = (false, d ^^ r).
Proof. destruct d as [|c d]; [done|]. intros _ [Hc _]%andb_true_iff. by destruct c as [[] [] [] [] [] [] [] []]. Qed.
Lemma take_sign_app g s : g = "" \/ g = "+" \/ g = "-" -> take_sign s = (false, s) ->
  exists b, take_sign (g ^^ s) = (b, s).
Proof. intros [->|[->| ->]] Hs; simpl; eauto. Qed.

Lemma parse_exponent_some e : is_exponent e -> exists z, parse_exponent e = Some z.
Proof.
  intros [->|(c & g & d & -> & Hc & Hg & Hne & Hd)]; [by eexists|]. unfold parse_exponent.
  assert (Ascii.eqb c "e" || Ascii.eqb c "E" = true) as -> by (by destruct Hc as [->| ->]).
  destruct (take_sign_app g d Hg) as [b ->]. { rewrite <- (append_nil_r d) at 1 2. by apply take_sign_digit. }
  pose proof (take_digits_app d "" Hd eq_refl) as Ht. rewrite append_nil_r in Ht. rewrite Ht.
  rewrite (proj2 (String.eqb_neq d "") Hne). simpl. destruct (parse_digits_some d 0 Hd) as [z ->]. by eexists.
Qed.

Lemma float_text_spec s f : float_text s = FloatOk f -> exists r, s = f ^^ r /\ parse_f64 f <> None.
Proof.
  unfold float_text. destruct (sign_text s) as [g s1] eqn:Eg. destruct (take_digits s1) as [d s2] eqn:Ed.
  destruct (fraction_text s2) as [fr s3] eqn:Ef. apply sign_spec in Eg as [-> Hg].
  apply take_digits_spec in Ed as (-> & Hd & Hr). apply fraction_spec in Ef as [-> Hf].
  destruct (_ && _) eqn:En; [done|]. destruct (exponent_text s3) as [e|] eqn:Ee; [|done]. intros [= <-].
  apply exponent_spec in Ee as (He & r & ->). exists r. split; [by rewrite !append_assoc|].
  assert (starts_digit e = false) as He0 by (destruct He as [->|(c & ? & ? & -> & [->| ->] & _)]; done).
  assert (starts_digit (fr ^^ e) = false) as Hfe by (destruct Hf as [->|(d2 & -> & _)]; done).
  assert (take_sign (d ^^ fr ^^ e) = (false, d ^^ fr ^^ e)) as Hs.
  { destruct d as [|c d]; [|by apply take_sign_digit]. destruct Hf as [->|(d2 & -> & _)]; [done|]. done. }
  unfold parse_f64. destruct (take_sign_app g _ Hg Hs) as [b ->]. rewrite (take_digits_app d) by done.
  destruct (parse_exponent_some e He) as [z Hz].
  assert (exists d2, match fr ^^ e with String "." s' => take_digits s' | _ => ("", fr ^^ e) end = (d2, e) /\
    forall_chars is_digit d2 = true /\ (d =? "") && (d2 =? "") = false) as (d2 & -> & Hd2 & Hne).
  { destruct Hf as [->|(d2 & -> & Hd2 & _)].
    - exists "". split_and!; [|done|by rewrite andb_true_r in *].
      destruct He as [->|(c & ? & ? & -> & [->| ->] & _)]; done.
    - exists d2. split_and!; [|done|by destruct d2; rewrite ?andb_false_r in *]. simpl. by apply take_digits_app. }
  rewrite Hne. destruct (parse_digits_some (d ^^ d2) 0) as [m Hm]; [by rewrite forall_chars_append, Hd, Hd2|].
  by rewrite Hm, Hz.
Qed.

Lemma float_text_int g d s : g = "" \/ g = "-" -> d <> "" -> forall_chars is_digit d = true -> ends_int s = true ->
  float_text (g ^^ d ^^ s) = FloatOk (g ^^ d).
Proof.
  intros Hg Hne Hd Hs. unfold float_text.
  assert (sign_text (g ^^ d ^^ s) = (g, d ^^ s)) as ->.
  { destruct Hg as [->| ->]; [|done]. destruct d as [|c d]; [done|]. apply andb_true_iff in Hd as [Hc _].
    by destruct c as [[] [] [] [] [] [] [] []]. }
  assert (starts_digit s = false /\ fraction_text s = ("", s) /\ exponent_text s = Some "") as (Hsd & Hf & He).
  { destruct s as [|c s]; [done|]. simpl in Hs. apply negb_true_iff, orb_false_iff in Hs as [Hc Hs].
    apply orb_false_iff in Hs as [Hdot [Hle [HlE _]%orb_false_iff]%orb_false_iff]. simpl.
    by rewrite Hc, Hdot, Hle, HlE. }
  rewrite take_digits_app, Hf, (proj2 (String.eqb_neq d "") Hne) by done. simpl. by rewrite He, !append_nil_r.
Qed.

Lemma float_text_none s : starts_number s = false -> float_text s = FloatError.
Proof.
  intros Hs. apply orb_false_iff in Hs as [Hs Hss]. unfold float_text.
  assert (exists g s', sign_text s = (g, s') /\ starts_decimal s' = false) as (g & s' & -> & Hd).
  { destruct s as [|c s]; [by eexists _, _|]. simpl. destruct (Ascii.eqb_spec c "+") as [->|]; [by eexists _, _|].
    destruct (Ascii.eqb_spec c "-") as [->|]; by eexists _, _. }
  unfold starts_decimal in Hd. apply orb_false_iff in Hd as [Hd Hdot].
  assert (take_digits s' = ("", s')) as -> by (apply (take_digits_app ""); done). simpl.
  destruct s' as [|c s']; [done|]. simpl. destruct (Ascii.eqb_spec c ".") as [->|]; [|done].
  assert (take_digits s' = ("", s')) as -> by (apply (take_digits_app ""); done). done.
Qed.

Definition test_lexlaws : @LexLaws test_lexlib.
Proof.
  refine (@Build_LexLaws test_lexlib _ _ float_text_int float_text_none _); simpl.
  - intros s f (r & -> & _)%float_text_spec. apply prefix_refl_app.
  - intros s f (r & _ & Hf)%float_text_spec. done.
  - intros c _. by rewrite andb_true_r.
Qed.
