(* ===== verification/LexerText.v ===== *)
(** * Writing tokens, and reading them back

    A text for every token but floats, whose decimal form the source does not
    define, with a space after it: the lexer gives back the tokens. *)

From Stdlib Require Import ZArith Lia String Ascii List SpecFloat.
From stdpp Require Import base tactics list strings.
From S2P Require Import Prelude.
From S2P Require Import Ordered.
From S2P Require Import Strings.
From S2P Require Import Labels.
From S2P Require Import Syntax.
From S2P Require Import Nom.
From S2P Require Import Lexer.
From S2P Require Import LexerTheory.

Local Open Scope string_scope.
Local Open Scope list_scope.

(** ** The text of a token *)

Definition is_escaped (c : ascii) : bool := Ascii.eqb c (ascii_of_nat 34) || Ascii.eqb c "\".
Fixpoint escape (s : string) : string :=
  match s with
  | "" => ""
  | String c s => if is_escaped c then String "\" (String c (escape s)) else String c (escape s)
  end.
Definition literal_text (s : string) : string := dquote ^^ escape s ^^ dquote.

Definition token_text (t : Token) : string :=
  match t with
  | TIdent s => s
  | BoolLiteral true => "true" | BoolLiteral false => "false"
  | DataLiteral d => "b" ^^ literal_text (of_bytes d)
  | StringLiteral s => literal_text s
  | IntLiteral i => i64_to_string i
  | LabelLiteral l => "'" ^^ Label.to_string l ^^ "'"
  | TSome => "Some" | TRegex => "Regex" | TIf => "if" | TElse => "else" | TAsync => "async" | TFunction => "fn"
  | TAll => "all" | TAny => "any" | TFilter => "filter" | TFilterMap => "filter_map" | TForEach => "foreach"
  | TFold => "fold" | TMap => "map" | TLet => "let" | TReturn => "return" | TIn => "in" | TMatches => "matches"
  | TAs => "as" | TExternal => "external" | TWhere => "where"
  | Assign => "=" | TPlus => "+" | TMinus => "-" | TDivide => "/" | TMultiply => "*" | TEqual => "==" | TNotEqual => "!="
  | TGreaterThanEqual => ">=" | TLessThanEqual => "<=" | TGreaterThan => ">" | TLessThan => "<" | TNot => "!"
  | TAnd => "&&" | TOr => "||" | TDot => "." | PlusPlus => "++" | Percent => "%" | QuestionMark => "?"
  | Comma => "," | Colon => ":" | SemiColon => ";" | LParen => "(" | RParen => ")" | LBrace => "{" | RBrace => "}"
  | LBracket => "[" | RBracket => "]" | Underscore => "_" | Arrow => "->" | Bar => "|" | ColonColon => "::" | At => "@"
  | Illegal _ | EOF | Comment _ | FloatLiteral _ => ""
  end.
Definition written (ts : list Token) : string := foldr (fun t s => token_text t ^^ " " ^^ s) "" ts.

Definition is_ascii (c : ascii) : bool := (N_of_ascii c <? 128)%N.
Definition is_word (c : ascii) : bool := is_alnum c || Ascii.eqb c "_".
Definition writable (t : Token) : bool :=
  match t with
  | TIdent s =>
    match s with String c _ => is_alpha c | "" => false end && forall_chars is_word s &&
    match assoc s reserved with None => true | Some _ => false end
  | DataLiteral d => forall_chars is_ascii (of_bytes d)
  | StringLiteral s => forall_chars is_ascii s
  | IntLiteral i => in_i64 i
  | LabelLiteral l => negb (bool_decide (l = [])) && forallb valid_node l && free_of "'" (Label.to_string l)
  | Illegal _ | EOF | Comment _ | FloatLiteral _ => false
  | _ => true
  end.

(** ** Spans *)

Lemma substring_app p r : String.substring 0 (String.length p) (p ^^ r) = p.
Proof. induction p as [|c p IH]; simpl; [apply substring_zero|]. by rewrite IH. Qed.
Lemma drop_app p r : drop_str (String.length p) (p ^^ r) = r.
Proof. induction p as [|c p IH]; [apply drop_zero|exact IH]. Qed.

(** [p] takes the text [t] before [r] and gives a value that satisfies [Q]. *)
Definition lexes {A} (p : L A) (t r : string) (Q : A -> Prop) : Prop :=
  forall i, fragment i = t ^^ r -> exists i' a, p i = Done i' a /\ fragment i' = r /\ Q a.

Lemma lexes_taken t r : lexes (taken (String.length t)) t r (fun s => fragment s = t).
Proof.
  intros i Hi. eexists _, _. split; [reflexivity|]. unfold Span.drop, Span.take. simpl. rewrite Hi.
  split; [apply drop_app|apply substring_app].
Qed.
Lemma lexes_bind {A B} (p : L A) (f : A -> L B) t1 t2 r Q R :
  lexes p t1 (t2 ^^ r) Q -> (forall a, Q a -> lexes (f a) t2 r R) -> lexes (p ≫= f) (t1 ^^ t2) r R.
Proof.
  intros Hp Hf i Hi. rewrite append_assoc in Hi. destruct (Hp i Hi) as (i' & a & Hd & Hi' & Ha).
  unfold mbind, Parser_bind. rewrite Hd. by apply (Hf a).
Qed.
Lemma lexes_last {A B} (p : L A) (f : A -> L B) t r Q R :
  lexes p t r Q -> (forall a, Q a -> lexes (f a) "" r R) -> lexes (p ≫= f) t r R.
Proof. intros Hp Hf. rewrite <- (append_nil_r t). by apply (lexes_bind p f t "" r Q). Qed.
Lemma lexes_ret {A} (a : A) r (Q : A -> Prop) : Q a -> lexes (mret a) "" r Q.
Proof. intros Ha i Hi. by exists i, a. Qed.
Lemma lexes_ltag t r : lexes (ltag t) t r (fun s => fragment s = t).
Proof.
  intros i Hi. unfold ltag, starts_with. rewrite Hi, prefix_refl_app. by apply lexes_taken.
Qed.
Lemma lexes_opt {A} (p : L A) t r Q : lexes p t r Q -> lexes (Nom.opt p) t r (fun o => exists a, o = Some a /\ Q a).
Proof. intros Hp i Hi. destruct (Hp i Hi) as (i' & a & Hd & Hi' & Ha). unfold Nom.opt. rewrite Hd. eauto 10. Qed.
Lemma lexes_impl {A} (p : L A) t r (Q R : A -> Prop) : lexes p t r Q -> (forall a, Q a -> R a) -> lexes p t r R.
Proof. intros Hp HQ i Hi. destruct (Hp i Hi) as (i' & a & ? & ? & ?). eauto 10. Qed.

(** [p] does not read a text. *)
Definition refuses {A} (p : L A) (t : string) : Prop := forall i, fragment i = t -> Nom.complete p i = NError.
Lemma refuses_ltag c d s : c <> d -> refuses (ltag (String c "")) (String d s).
Proof.
  intros Hc i Hi. unfold Nom.complete, ltag, starts_with. rewrite Hi. simpl.
  destruct (ascii_dec c d); [done|]. by destruct (ascii_dec d c).
Qed.
Lemma refuses_bind {A B} (p : L A) (f : A -> L B) t : refuses p t -> refuses (p ≫= f) t.
Proof. intros Hp i Hi. specialize (Hp i Hi). unfold Nom.complete, mbind, Parser_bind in *. by destruct (p i). Qed.

Lemma lexes_or {A} (p q : L A) t r Q :
  (forall i, fragment i = t ^^ r -> p i = NError) -> lexes q t r Q -> lexes (Nom.or p q) t r Q.
Proof. intros Hp Hq i Hi. unfold Nom.or. rewrite Hp by done. by apply Hq. Qed.
Lemma lexes_or_l {A} (p q : L A) t r Q : lexes p t r Q -> lexes (Nom.or p q) t r Q.
Proof. intros Hp i Hi. destruct (Hp i Hi) as (i' & a & Hd & Hi' & Ha). unfold Nom.or. rewrite Hd. eauto. Qed.
Lemma lexes_alt_take {A} (p : L A) ps t r Q : lexes p t r Q -> lexes (Nom.alt (p :: ps)) t r Q.
Proof.
  intros Hp i Hi. destruct (Hp i Hi) as (i' & a & Hd & Hi' & Ha). simpl. unfold Nom.or, Nom.complete. rewrite Hd. eauto.
Qed.
Lemma lexes_alt_skip {A} (p : L A) ps t r Q : refuses p (t ^^ r) -> lexes (Nom.alt ps) t r Q -> lexes (Nom.alt (p :: ps)) t r Q.
Proof. intros Hp. apply lexes_or. intros i Hi. by apply Hp. Qed.

(** ** Replacing *)

Lemma replace_miss c sep to d s :
  String.prefix (String c sep) (String d s) = false ->
  replace (String c sep) to (String d s) = String d (replace (String c sep) to s).
Proof.
  intros Hp. unfold replace, split. cbn [split_go]. rewrite Hp.
  destruct (split_go_nonempty (String c sep) 0 s) as (q & l & ->). simpl. by destruct l.
Qed.
Lemma replace_hit c sep to s : replace (String c sep) to (String c sep ^^ s) = to ^^ replace (String c sep) to s.
Proof.
  unfold replace. rewrite split_sep. destruct (split_go_nonempty (String c sep) 0 s) as (q & l & Hs).
  unfold split. by rewrite Hs.
Qed.

(** Quotes unescaped, but not backslashes. *)
Fixpoint half_escape (s : string) : string :=
  match s with
  | "" => ""
  | String c s => if Ascii.eqb c "\" then String "\" (String c (half_escape s)) else String c (half_escape s)
  end.
Lemma prefix_two c d e s : c <> e -> String.prefix (String c (String d "")) (String e s) = false.
Proof. intros Hc. simpl. by destruct (ascii_dec c e). Qed.
Lemma prefix_first c d s t : c <> d -> String.prefix (String c s) (String d t) = false.
Proof. intros Hc. simpl. by destruct (ascii_dec c d). Qed.
Lemma prefix_second c d e s : d <> e -> String.prefix (String c (String d "")) (String c (String e s)) = false.
Proof. intros Hd. simpl. destruct (ascii_dec c c); [|done]. by destruct (ascii_dec d e). Qed.

Lemma replace_escape s : replace (backslash ^^ dquote) dquote (escape s) = half_escape s.
Proof.
  unfold backslash, dquote. simpl append. induction s as [|c s IH]; [done|]. cbn [escape half_escape]. unfold is_escaped.
  destruct (Ascii.eqb_spec c (ascii_of_nat 34)) as [->|Hq].
  - cbn [orb]. change (Ascii.eqb (ascii_of_nat 34) "\") with false. cbv iota.
    rewrite (replace_hit "\" (String (ascii_of_nat 34) "") _ (escape s)). simpl append. by rewrite IH.
  - destruct (Ascii.eqb_spec c "\") as [->|Hb]; cbn [orb].
    + rewrite replace_miss by done. rewrite replace_miss, IH; [done|]. destruct s as [|d s]; [done|]. cbn [escape].
      destruct (is_escaped d) eqn:Ed; apply prefix_second; [done|]. by intros <-; vm_compute in Ed.
    + rewrite replace_miss, IH; [done|]. apply prefix_two. congruence.
Qed.
Lemma replace_half s : replace (backslash ^^ backslash) backslash (half_escape s) = s.
Proof.
  unfold backslash. simpl append. induction s as [|c s IH]; [done|]. cbn [half_escape].
  destruct (Ascii.eqb_spec c "\") as [->|Hb].
  - rewrite (replace_hit "\" "\" _ (half_escape s)). simpl append. by rewrite IH.
  - rewrite replace_miss, IH; [done|]. apply prefix_two. congruence.
Qed.
Lemma unescape_escape s : unescape (escape s) = s.
Proof. unfold unescape. by rewrite replace_escape, replace_half. Qed.

(** ** Characters *)

Lemma first_ascii c s : is_ascii c = true -> first_char (String c s) = Some (String c "").
Proof.
  unfold is_ascii. intros Hc%N.ltb_lt. cbn [first_char]. unfold utf8_len.
  destruct (N.ltb_spec (N_of_ascii c) 192); [|lia]. cbn [String.substring]. by rewrite substring_zero.
Qed.
Lemma word_ascii c : is_word c = true -> is_ascii c = true.
Proof. destruct c as [[] [] [] [] [] [] [] []]; done. Qed.
Lemma digit_ascii c : is_digit c = true -> is_ascii c = true.
Proof. destruct c as [[] [] [] [] [] [] [] []]; done. Qed.

Definition stops (f : string -> bool) (s : string) : Prop :=
  match first_char s with Some c => f c = false | None => True end.

Lemma span_while_app f n p r :
  forall_chars (fun c => is_ascii c && f (String c "")) p = true -> stops f r -> String.length (p ^^ r) <= n ->
  span_while f n (p ^^ r) = String.length p.
Proof.
  revert n. induction p as [|c p IH]; intros n Hp Hr Hn.
  - simpl. destruct n; [done|]. simpl. unfold stops in Hr. destruct (first_char r) as [c|]; [by rewrite Hr|done].
  - simpl in Hp. apply andb_true_iff in Hp as [[Hc Hf]%andb_true_iff Hp]. destruct n as [|n]; [simpl in Hn; lia|].
    cbn [span_while String.append]. rewrite first_ascii by done. rewrite Hf.
    change (drop_str (String.length (String c "")) (String c (p ^^ r))) with (drop_str (String.length (String c "")) (String c "" ^^ (p ^^ r))).
    rewrite drop_app. simpl in Hn. rewrite IH by (done || lia). done.
Qed.
Lemma lexes_while1 f p r :
  p <> "" -> forall_chars (fun c => is_ascii c && f (String c "")) p = true -> stops f r ->
  lexes (take_while1 f) p r (fun s => fragment s = p).
Proof.
  intros Hne Hp Hr i Hi. unfold take_while1. change (size i) with (String.length (fragment i)).
  rewrite Hi, span_while_app by done. destruct (String.length p) as [|n] eqn:E; [by destruct p|].
  destruct (lexes_taken p r i Hi) as (i' & a & Hd & ?). rewrite E in Hd. eauto.
Qed.
Lemma lexes_while f p r :
  forall_chars (fun c => is_ascii c && f (String c "")) p = true -> stops f r ->
  lexes (take_while f) p r (fun s => fragment s = p).
Proof.
  intros Hp Hr i Hi. unfold take_while. change (size i) with (String.length (fragment i)).
  rewrite Hi, span_while_app by done. by apply lexes_taken.
Qed.
Lemma refuses_while1 f c s : is_ascii c = true -> f (String c "") = false -> refuses (take_while1 f) (String c s).
Proof.
  intros Hc Hf i Hi. unfold take_while1, Nom.complete. change (size i) with (String.length (fragment i)).
  rewrite Hi. cbn [span_while String.length]. by rewrite first_ascii, Hf.
Qed.
Lemma lexes_take1 c r : is_ascii c = true -> lexes take1 (String c "") r (fun s => fragment s = String c "").
Proof.
  intros Hc i Hi. unfold take1. rewrite Hi. cbn [String.append]. rewrite first_ascii by done. by apply (lexes_taken (String c "")).
Qed.

(** ** Kinds of tokens *)

Section tokens.
Context `{LexLaws}.

(** A character of words, as the lexer tests it. *)
Definition word_char (c : string) : bool := is_alphanumeric c || (c =? "_").
Lemma word_char_ascii c : is_ascii c = true -> word_char (String c "") = is_word c.
Proof.
  intros Hc%N.ltb_lt. unfold word_char, is_word. rewrite ascii_alphanumeric by done. f_equal.
  by destruct c as [[] [] [] [] [] [] [] []].
Qed.

Lemma refuses_number s : starts_number s = false -> refuses lex_number s.
Proof. intros Hs i Hi. unfold Nom.complete, lex_number. by rewrite Hi, no_float. Qed.
Lemma refuses_label c s : c <> "'"%char -> refuses lex_label (String c s).
Proof. intros Hc. apply refuses_bind, refuses_ltag. congruence. Qed.
Lemma refuses_string c s :
  c <> ascii_of_nat 34 -> (forall d s', c = "b"%char -> s = String d s' -> d <> ascii_of_nat 34) ->
  refuses lex_string (String c s).
Proof.
  intros Hc Hb. apply refuses_bind. intros i Hi. unfold Nom.complete, Nom.first, Nom.or.
  assert (ltag dquote i = NError) as Hq.
  { unfold ltag, starts_with, dquote. by rewrite Hi, !prefix_first by congruence. }
  assert (ltag ("b" ^^ dquote) i = NError \/ ltag ("b" ^^ dquote) i = Incomplete) as [->| ->]; [|by rewrite Hq|done].
  unfold ltag. assert (starts_with (fragment i) ("b" ^^ dquote) = false) as ->.
  { unfold starts_with. rewrite Hi. destruct (decide (c = "b"%char)) as [->|Hne].
    - destruct s as [|d s]; [done|]. apply prefix_second. intros Hd. by apply (Hb d s).
    - apply prefix_two. congruence. }
  destruct (starts_with _ _); auto.
Qed.
Lemma refuses_word c s : is_ascii c = true -> is_word c = false -> refuses lex_reserved_ident (String c s).
Proof.
  intros Hc Hw i Hi. pose proof (refuses_while1 word_char c s Hc) as Hr. rewrite word_char_ascii in Hr by done.
  specialize (Hr Hw i Hi). unfold Nom.complete, lex_reserved_ident in *. change (fun c => is_alphanumeric c || (c =? "_")) with word_char.
  by destruct (take_while1 word_char i).
Qed.

Definition is_token (t : Token) (st : SToken) : Prop := st_tok st = t.

(** A text after which a word or a number has ended. *)
Definition ends_word (r : string) : bool :=
  match r with "" => true | String c _ => Ascii.eqb c " " || Ascii.eqb c ")" end.
Lemma ends_word_stops r : ends_word r = true -> stops word_char r.
Proof.
  unfold stops. destruct r as [|c r]; [done|]. cbn [ends_word]. intros [->%Ascii.eqb_eq| ->%Ascii.eqb_eq]%orb_true_iff;
    by rewrite first_ascii, word_char_ascii.
Qed.
Lemma ends_word_int r : ends_word r = true -> ends_int r = true.
Proof. destruct r as [|c r]; [done|]. simpl. by intros [->%Ascii.eqb_eq| ->%Ascii.eqb_eq]%orb_true_iff. Qed.
Lemma ends_word_digit r : ends_word r = true -> stops (forall_chars is_digit) r.
Proof.
  unfold stops. destruct r as [|c r]; [done|]. cbn [ends_word]. intros [->%Ascii.eqb_eq| ->%Ascii.eqb_eq]%orb_true_iff;
    by rewrite first_ascii.
Qed.

(** Words. *)
Lemma lexes_word s r : s <> "" -> forall_chars is_word s = true -> starts_with s "_" = false -> ends_word r = true ->
  lexes lex_reserved_ident s r (is_token match assoc s reserved with Some t => t | None => TIdent s end).
Proof.
  intros Hne Hs Hu Hr i Hi.
  assert (lexes (take_while1 word_char) s r (fun sp => fragment sp = s)) as Hw.
  { apply lexes_while1; [done| |].
    - eapply forall_chars_impl; [|exact Hs]. intros c Hc. apply word_ascii in Hc as Ha. by rewrite Ha, word_char_ascii.
    - by apply ends_word_stops. }
  destruct (Hw i Hi) as (i' & sp & Hd & Hi' & Hsp). exists i', (parse_reserved sp). unfold lex_reserved_ident.
  change (fun c => is_alphanumeric c || (c =? "_")) with word_char. rewrite Hd, Hsp, Hu. split_and!; [done..|].
  unfold is_token, parse_reserved. simpl. by rewrite Hsp.
Qed.

Lemma lexes_word_token s r t :
  match s with String c _ => is_alpha c | "" => false end = true -> forall_chars is_word s = true ->
  match assoc s reserved with Some t => t | None => TIdent s end = t -> ends_word r = true ->
  lexes lex_token s r (is_token t).
Proof.
  intros Ha Hs <- Hr. destruct s as [|c s]; [done|]. unfold lex_token.
  assert (forall d s', s ^^ r = String d s' -> d <> ascii_of_nat 34) as He.
  { intros d' s' He ->. destruct s as [|d s]; cbn [String.append] in He.
    - subst r. done.
    - injection He as -> _. simpl in Hs. by rewrite !andb_false_r in Hs. }
  apply lexes_alt_skip; [|apply lexes_alt_skip; [|apply lexes_alt_skip]]; cbn [String.append].
  - apply refuses_number. by destruct c as [[] [] [] [] [] [] [] []].
  - apply refuses_string; [by intros ->|]. intros d0 s0 _ Hs0. by eapply He.
  - apply refuses_label. by intros ->.
  - apply lexes_alt_take, lexes_word; [done|done| |done]. by destruct c as [[] [] [] [] [] [] [] []].
Qed.

(** Integers. *)
Lemma int_text z : in_i64 z = true -> exists g d,
  i64_to_string z = g ^^ d /\ (g = "" \/ g = "-") /\ d <> "" /\ forall_chars is_digit d = true.
Proof.
  intros _. unfold i64_to_string. destruct (Z.ltb_spec z 0).
  - exists "-", (digits_of (- z)). split_and!; [done|by right|apply digits_ne; lia|by apply digits_all; [lia|]].
  - exists "", (digits_of z). split_and!; [done|by left|by apply digits_ne|by apply digits_all].
Qed.

Lemma last_char p c s : ends_with (s ^^ String c "") p = true -> String.length p = 1 -> p = String c "".
Proof.
  unfold ends_with. intros [_ He%String.eqb_eq]%andb_true_iff Hp. rewrite <- He, Hp.
  rewrite length_append. simpl. replace (String.length s + 1 - 1) with (String.length s) by lia. apply drop_app.
Qed.
Lemma string_snoc d : d <> "" -> exists s c, d = s ^^ String c "".
Proof.
  induction d as [|c d IH]; [done|]. intros _. destruct d as [|c' d]; [by exists "", c|].
  destruct (IH ltac:(done)) as (s & e & Hd). exists (String c s), e. simpl. by rewrite <- Hd.
Qed.

Lemma lexes_int z r : in_i64 z = true -> ends_word r = true ->
  lexes lex_token (i64_to_string z) r (is_token (IntLiteral z)).
Proof.
  intros Hz Hr. destruct (int_text z Hz) as (g & d & Ht & Hg & Hne & Hd). rewrite Ht.
  unfold lex_token. apply lexes_alt_take. intros i Hi. unfold lex_number. rewrite Hi.
  rewrite append_assoc. rewrite float_int by (done || by apply ends_word_int).
  assert (ends_with (g ^^ d) "." = false) as ->.
  { destruct (string_snoc d Hne) as (s & c & ->). rewrite <- append_assoc. apply not_true_is_false. intros He.
    apply last_char in He; [|done]. injection He as <-. rewrite forall_chars_append in Hd. simpl in Hd.
    by rewrite andb_false_r in Hd. }
  assert (starts_with (g ^^ d) "." = false) as ->.
  { destruct Hg as [->| ->]; [|done]. destruct d as [|c d]; [done|]. apply andb_true_iff in Hd as [Hc _].
    by destruct c as [[] [] [] [] [] [] [] []]. }
  cbn [andb]. rewrite <- Ht, parse_i64_to_string by done. rewrite append_assoc in Hi.
  assert (lexes digit1 d r (fun s => fragment s = d)) as Hdig.
  { apply lexes_while1; [done| |by apply ends_word_digit]. eapply forall_chars_impl; [|exact Hd]. intros c Hc. apply digit_ascii in Hc as Ha.
    simpl. by rewrite Ha, Hc. }
  assert (lexes (Nom.opt (ltag "-")) g (d ^^ r) (fun _ => True)) as Hopt.
  { destruct Hg as [->| ->].
    - intros j Hj. exists j, None. split_and!; [|done|done]. unfold Nom.opt, ltag, starts_with.
      destruct d as [|c d]; [done|]. apply andb_true_iff in Hd as [Hc _]. rewrite Hj. cbn [String.append].
      by rewrite !prefix_first by (intros Heq; subst c; done).
    - eapply lexes_impl; [apply lexes_opt, lexes_ltag|done]. }
  rewrite <- append_assoc in Hi.
  apply (lexes_bind _ (fun _ => t ← digit1; mret (mkSToken t (IntLiteral z))) _ _ _ _ _ Hopt); [|done]. intros _ _.
  eapply lexes_last; [exact Hdig|]. intros sp _. by apply lexes_ret.
Qed.

(** Strings and data. *)
Lemma escaped_len_escape s n r :
  forall_chars is_ascii s = true -> String.length (escape s) < n ->
  escaped_len n (escape s ^^ dquote ^^ r) = Done 0 (String.length (escape s)).
Proof.
  revert n. induction s as [|c s IH]; intros n Ha Hn; (destruct n as [|n]; [lia|]).
  { cbn [escape String.append dquote escaped_len]. by rewrite first_ascii. }
  simpl in Ha. apply andb_true_iff in Ha as [Hc Ha]. cbn [escape] in *. cbn [escaped_len].
  assert (forall k p, String.length p = k -> String.length (p ^^ escape s) < S n -> 1 <= k ->
    match escaped_len n (drop_str k ((p ^^ escape s) ^^ dquote ^^ r)) with Done r m => Done r (k + m) | r => r end =
    Done 0 (String.length (p ^^ escape s))) as Hk.
  { intros k p <- Hl Hp. rewrite append_assoc, drop_app. rewrite length_append in *. rewrite IH by (done || lia). done. }
  destruct (is_escaped c) eqn:Ec; cbn [String.append].
  - rewrite first_ascii by done. change (String "\" "" =? dquote) with false. change (String "\" "" =? backslash) with true.
    cbv iota. change (drop_str 1 ?x) with (drop_str 1 x).
    change (String "\" (String c (escape s ^^ dquote ^^ r))) with (String "\" "" ^^ String c (escape s ^^ dquote ^^ r)) at 1.
    rewrite (drop_app (String "\" "")). rewrite first_ascii by done.
    assert ((String c "" =? dquote) || (String c "" =? backslash) = true) as ->.
    { unfold is_escaped in Ec. apply orb_true_iff in Ec as [->%Ascii.eqb_eq| ->%Ascii.eqb_eq]; done. }
    apply (Hk 2 (String "\" (String c ""))); [done|exact Hn|lia].
  - rewrite first_ascii by done. unfold is_escaped in Ec. apply orb_false_iff in Ec as [Hq%Ascii.eqb_neq Hb%Ascii.eqb_neq].
    assert (String c "" =? dquote = false) as -> by (apply String.eqb_neq; unfold dquote; congruence).
    assert (String c "" =? backslash = false) as -> by (apply String.eqb_neq; unfold backslash; congruence).
    apply (Hk 1 (String c "")); [done|exact Hn|lia].
Qed.
Lemma lexes_escaped s r : forall_chars is_ascii s = true ->
  lexes escaped (escape s) (dquote ^^ r) (fun sp => fragment sp = escape s).
Proof.
  intros Hs i Hi. unfold escaped. change (size i) with (String.length (fragment i)). rewrite Hi, escaped_len_escape;
    [by apply lexes_taken|done|]. rewrite length_append. lia.
Qed.

Lemma lexes_quoted b s r Q :
  b = "b" \/ b = "" -> forall_chars is_ascii s = true ->
  (forall sp, fragment sp = b ^^ dquote ->
     Q (mkSToken sp (if starts_with (fragment sp) "b" then DataLiteral (as_bytes s) else StringLiteral s))) ->
  lexes lex_string (b ^^ literal_text s) r Q.
Proof.
  intros Hb Hs HQ. unfold literal_text. rewrite <- append_assoc. unfold lex_string.
  apply (lexes_bind _ _ _ _ _ (fun sp => fragment sp = b ^^ dquote)).
  - unfold Nom.first. destruct Hb as [->| ->]; [apply lexes_or_l, lexes_ltag|].
    apply lexes_or; [|apply lexes_or_l, lexes_ltag]. intros i Hi. unfold ltag, starts_with. rewrite Hi. unfold dquote.
    cbn [String.append]. by rewrite !prefix_first.
  - intros sp Hsp. apply (lexes_bind _ _ _ _ _ _ _ (lexes_opt _ _ _ _ (lexes_escaped s r Hs))).
    intros o (sp' & -> & Hsp'). eapply lexes_last; [apply lexes_ltag|]. intros u _. cbv zeta. apply lexes_ret.
    rewrite Hsp', unescape_escape. by apply HQ.
Qed.
Lemma lexes_str s r : forall_chars is_ascii s = true -> lexes lex_token (literal_text s) r (is_token (StringLiteral s)).
Proof.
  intros Hs. unfold lex_token. apply lexes_alt_skip; [by apply refuses_number|]. apply lexes_alt_take.
  apply (lexes_quoted ""); [by right|done|]. intros sp Hsp. unfold is_token. by rewrite Hsp.
Qed.
Lemma lexes_data d r : forall_chars is_ascii (of_bytes d) = true ->
  lexes lex_token ("b" ^^ literal_text (of_bytes d)) r (is_token (DataLiteral d)).
Proof.
  intros Hs. unfold lex_token. apply lexes_alt_skip; [by apply refuses_number|]. apply lexes_alt_take.
  apply (lexes_quoted "b"); [by left|done|]. intros sp Hsp. unfold is_token. rewrite Hsp. simpl. f_equal.
  apply list_ascii_of_string_of_list_ascii.
Qed.

(** Labels. *)
Lemma find_char_free c s r : free_of c s = true -> find_char c (s ^^ String c r) = Some (String.length s).
Proof.
  induction s as [|d s IH]; simpl; intros Hf; [by rewrite Ascii.eqb_refl|].
  apply andb_true_iff in Hf as [Hd%negb_true_iff Hf]. by rewrite Hd, IH.
Qed.
Lemma lexes_lab l r : writable (LabelLiteral l) = true -> lexes lex_token (token_text (LabelLiteral l)) r (is_token (LabelLiteral l)).
Proof.
  simpl. rewrite !andb_true_iff, forallb_Forall. intros [[Hne%negb_true_iff%bool_decide_eq_false Hv] Hf].
  unfold lex_token. apply lexes_alt_skip; [by apply refuses_number|].
  apply lexes_alt_skip; [by apply refuses_string|]. apply lexes_alt_take. unfold lex_label, Nom.delimited.
  apply (lexes_bind _ _ "'" _ _ _ _ (lexes_ltag _ _)). intros _ _.
  apply (lexes_bind _ _ (Label.to_string l) "'" _ (is_token (LabelLiteral l))).
  - intros i Hi. unfold lex_label_inner. rewrite Hi. simpl append. rewrite find_char_free by done.
    destruct (lexes_taken (Label.to_string l) (String "'" r) i Hi) as (i' & sp & Hd & Hi' & Hsp).
    exists i', (mkSToken sp (LabelLiteral l)). unfold mbind, Parser_bind, label_token. rewrite Hd, Hsp.
    by rewrite label_from_to_string.
  - intros st Hst. eapply lexes_last; [apply lexes_ltag|]. intros _ _. by apply lexes_ret.
Qed.

(** Operators. *)
Lemma lexes_single c t r : is_ascii c = true -> assoc (String c "") single = Some t ->
  lexes lex_operator (String c "") r (is_token t).
Proof.
  intros Hc Ht. unfold lex_operator. eapply lexes_last; [by apply lexes_take1|]. intros sp Hsp. cbv zeta. rewrite Hsp, Ht.
  by apply lexes_ret.
Qed.
Lemma lexes_longer c c2 t u r : is_ascii c = true -> assoc (String c "") single = None ->
  assoc (String c "") longer = Some (c2, t, u) -> lexes lex_operator (String c c2) r (is_token t).
Proof.
  intros Hc Hs Ht. change (String c c2) with (String c "" ^^ c2). unfold lex_operator. eapply lexes_bind; [by apply lexes_take1|]. intros sp Hsp. cbv zeta. rewrite Hsp, Hs, Ht.
  apply lexes_or_l. eapply lexes_last; [apply lexes_ltag|]. intros _ _. by apply lexes_ret.
Qed.
Lemma lexes_shorter c e t u d r : is_ascii c = true -> assoc (String c "") single = None ->
  assoc (String c "") longer = Some (String e "", t, u) -> d <> e ->
  lexes lex_operator (String c "") (String d r) (is_token u).
Proof.
  intros Hc Hs Ht He. unfold lex_operator. eapply lexes_last; [by apply lexes_take1|]. intros sp Hsp. cbv zeta. rewrite Hsp, Hs, Ht.
  apply lexes_or; [|by apply lexes_ret]. intros i Hi. unfold lex_longer, mbind, Parser_bind, ltag, starts_with. rewrite Hi.
  cbn [String.append]. by rewrite !prefix_first by congruence.
Qed.

Lemma lexes_operator_token c s r t :
  starts_number (String c s ^^ r) = false -> c <> ascii_of_nat 34 -> c <> "b"%char -> c <> "'"%char ->
  refuses lex_reserved_ident (String c s ^^ r) -> lexes lex_operator (String c s) r (is_token t) ->
  lexes lex_token (String c s) r (is_token t).
Proof.
  intros Hn Hq Hb Hl Hw Ho. unfold lex_token.
  apply lexes_alt_skip; [by apply refuses_number|].
  apply lexes_alt_skip; [by apply refuses_string|].
  apply lexes_alt_skip; [by apply refuses_label|].
  apply lexes_alt_skip; [done|]. by apply lexes_alt_take.
Qed.

Lemma lexes_slash r : lexes lex_operator "/" (String " " r) (is_token TDivide).
Proof.
  unfold lex_operator. eapply lexes_last; [by apply lexes_take1|]. intros sp Hsp. cbv zeta. rewrite Hsp.
  apply lexes_or; [|by apply lexes_ret]. intros i Hi. unfold mbind, Parser_bind, ltag, starts_with. rewrite Hi.
  cbn [String.append]. by rewrite !prefix_first.
Qed.
Lemma lexes_ampersands r : lexes lex_operator "&&" r (is_token TAnd).
Proof.
  unfold lex_operator. apply (lexes_bind _ _ "&" "&" _ (fun sp => fragment sp = "&")); [by apply lexes_take1|].
  intros sp Hsp. cbv zeta. rewrite Hsp. eapply lexes_last; [apply lexes_ltag|]. intros _ _. by apply lexes_ret.
Qed.
Lemma refuses_underscore r : refuses lex_reserved_ident (String "_" (String " " r)).
Proof.
  intros i Hi. assert (lexes (take_while1 word_char) "_" (String " " r) (fun sp => fragment sp = "_")) as Hw.
  { apply lexes_while1; [done|simpl; by rewrite word_char_ascii|]. unfold stops. rewrite first_ascii by done. by rewrite word_char_ascii. }
  destruct (Hw i Hi) as (i' & sp & Hd & _ & Hsp). unfold Nom.complete, lex_reserved_ident.
  change (fun c => is_alphanumeric c || (c =? "_")) with word_char. by rewrite Hd, Hsp.
Qed.

Ltac operator := apply lexes_operator_token; [done|done|done|done|by apply refuses_word|].

Lemma lexes_spaced_token t r : writable t = true -> lexes lex_token (token_text t) (String " " r) (is_token t).
Proof.
  intros Hw. destruct t; try discriminate Hw; try (by apply lexes_word_token).
  { cbn [writable] in Hw. apply andb_true_iff in Hw as [[Ha Hs]%andb_true_iff Hr]. apply lexes_word_token; [done|done| |done].
    cbn [token_text]. by destruct (assoc s reserved). }
  { destruct b; by apply lexes_word_token. }
  { by apply lexes_data. }
  { by apply lexes_int. }
  { by apply lexes_lab. }
  { by apply lexes_str. }
  all: try (operator; by apply (lexes_single _ _)).
  all: try (operator; by eapply (lexes_longer _ _ _ _ _)).
  all: try (operator; by eapply (lexes_shorter _ _ _ _ _)).
  { operator. apply lexes_slash. }
  { operator. apply lexes_ampersands. }
  { apply lexes_operator_token; [done|done|done|done|apply refuses_underscore|]. by apply (lexes_single _ _). }
Qed.

(** Whether a token is read alone before the text [r]: the tokens that end
    themselves always are, words and numbers before a space or a parenthesis,
    the prefix operators where they do not begin a longer operator or a
    number, and the other operators before a space. *)
Definition after (t : Token) (r : string) : bool :=
  match t with
  | LParen | RParen | StringLiteral _ | DataLiteral _ | LabelLiteral _ => true
  | TIdent _ | BoolLiteral _ | IntLiteral _ => ends_word r
  | TNot => match r with String c _ => negb (Ascii.eqb c "=") | "" => false end
  | TMinus => match r with String c _ => negb (Ascii.eqb c ">") | "" => false end && negb (starts_decimal r)
  | _ => match r with String c _ => Ascii.eqb c " " | "" => false end
  end.
Lemma lexes_token t r : writable t = true -> after t r = true -> lexes lex_token (token_text t) r (is_token t).
Proof.
  intros Hw Ha.
  destruct t; try (destruct r as [|c r]; [done|]; simpl in Ha; apply Ascii.eqb_eq in Ha as ->; by apply lexes_spaced_token).
  - cbn [writable] in Hw. apply andb_true_iff in Hw as [[Hc Hs]%andb_true_iff Hr]. apply lexes_word_token; [done|done| |done].
    cbn [token_text]. by destruct (assoc s reserved).
  - destruct b; by apply lexes_word_token.
  - by apply lexes_data.
  - by apply lexes_int.
  - by apply lexes_lab.
  - by apply lexes_str.
  - destruct r as [|c r]; [done|]. cbn [after] in Ha. apply andb_true_iff in Ha as [Hc%negb_true_iff%Ascii.eqb_neq Hd%negb_true_iff].
    apply lexes_operator_token; [|done|done|done|by apply refuses_word|by eapply (lexes_shorter _ _ _ _ _)].
    unfold starts_number. cbn [String.append]. by rewrite Hd.
  - destruct r as [|c r]; [done|]. cbn [after] in Ha. apply negb_true_iff, Ascii.eqb_neq in Ha.
    operator. by eapply (lexes_shorter _ _ _ _ _).
  - operator. by apply (lexes_single _ _).
  - operator. by apply (lexes_single _ _).
Qed.

(** A text begins with no space. *)
Definition is_space (c : ascii) : bool := existsb (Ascii.eqb c) [" "%char; ascii_of_nat 9; ascii_of_nat 10; ascii_of_nat 13].
Lemma token_head t : writable t = true -> exists c s, token_text t = String c s /\ is_ascii c = true /\ is_space c = false.
Proof.
  destruct t; intros Hw; try discriminate Hw; try (by eexists _, _).
  - cbn [writable] in Hw. destruct s as [|c s]; [done|]. exists c, s. split; [done|].
    apply andb_true_iff in Hw as [[Ha _]%andb_true_iff _]. by destruct c as [[] [] [] [] [] [] [] []].
  - destruct b; by eexists _, _.
  - destruct (int_text i Hw) as (g & d & Ht & Hg & Hne & Hd). simpl. rewrite Ht.
    destruct Hg as [->| ->]; [|by eexists _, _]. destruct d as [|c d]; [done|]. exists c, d. split; [done|].
    apply andb_true_iff in Hd as [Hc _]. by destruct c as [[] [] [] [] [] [] [] []].
Qed.

(** Tokens with a space after them or not. *)
Definition gap (space : bool) : string := if space then " " else "".
Definition spaced (ts : list (Token * bool)) : string := foldr (fun t s => token_text t.1 ^^ gap t.2 ^^ s) "" ts.
Fixpoint readable (ts : list (Token * bool)) : bool :=
  match ts with
  | [] => true
  | (t, space) :: ts => writable t && after t (gap space ^^ spaced ts) && readable ts
  end.

Lemma stops_spaces ts : readable ts = true ->
  stops (one_of [" "; String (ascii_of_nat 9) ""; String (ascii_of_nat 10) ""; String (ascii_of_nat 13) ""]) (spaced ts).
Proof.
  destruct ts as [|[t g] ts]; [done|]. simpl. intros [[Ht _]%andb_true_iff _]%andb_true_iff. destruct (token_head t Ht) as (c & s & -> & Ha & Hs).
  unfold stops. cbn [String.append]. rewrite first_ascii by done. revert Hs. clear. by destruct c as [[] [] [] [] [] [] [] []].
Qed.

Lemma lexes_line t g ts : readable ((t, g) :: ts) = true ->
  lexes (Nom.delimited multispace0 lex_token multispace0) (token_text t ^^ gap g) (spaced ts) (is_token t).
Proof.
  intros Hw. pose proof (stops_spaces _ Hw) as Hs. simpl in Hw. apply andb_true_iff in Hw as [[Ht Ha]%andb_true_iff Hts]. unfold Nom.delimited.
  apply (lexes_bind _ _ "" _ _ (fun _ => True)).
  { eapply lexes_impl; [apply lexes_while; [done|]|done]. rewrite append_assoc. exact Hs. }
  intros _ _. apply (lexes_bind _ _ _ _ _ (is_token t)); [by apply lexes_token|].
  intros st Hst. eapply lexes_last; [apply lexes_while; [by destruct g|by apply stops_spaces]|]. intros _ _. by apply lexes_ret.
Qed.

Lemma line_stops i : fragment i = "" -> Nom.delimited multispace0 lex_token multispace0 i = NError.
Proof.
  intros Hi. assert (forall j, fragment j = "" -> lex_token j = NError) as Ht.
  { intros j Hj. unfold lex_token, Nom.alt, Nom.or. rewrite (refuses_number "") by done.
    destruct j as [l o f]. simpl in Hj. by subst f. }
  unfold Nom.delimited, mbind, Parser_bind, multispace0, take_while, taken. cbv beta iota.
  rewrite Ht; [done|]. unfold Span.drop. cbn [fragment]. rewrite Hi. by destruct (span_while _ _ _).
Qed.

Lemma lex_spaced_go ts : forall n i,
  readable ts = true -> fragment i = spaced ts -> String.length (spaced ts) < n ->
  exists i' sts, Nom.many0_go (Nom.delimited multispace0 lex_token multispace0) n i = Done i' sts /\ map st_tok sts = map fst ts.
Proof.
  induction ts as [|[t g] ts IH]; intros n i Hw Hi Hn; (destruct n as [|n]; [lia|]).
  - exists i, []. simpl. by rewrite line_stops.
  - pose proof Hw as Hw'. simpl in Hw'. apply andb_true_iff in Hw' as [[Ht _]%andb_true_iff Hts].
    destruct (lexes_line t g ts Hw i) as (i' & st & Hd & Hi' & Hst); [by rewrite append_assoc|].
    destruct (token_head t Ht) as (c & s & Hc & _). simpl in Hn. rewrite !length_append, Hc in Hn. simpl in Hn.
    destruct (IH n i' Hts Hi' ltac:(lia)) as (i'' & sts & Hd' & Hsts). exists i'', (st :: sts). simpl. rewrite Hd.
    change (size i) with (String.length (fragment i)). change (size i') with (String.length (fragment i')).
    rewrite Hi, Hi'. simpl. rewrite !length_append, Hc. simpl.
    destruct (Nat.eqb_spec (String.length (spaced ts)) (S (String.length s + (String.length (gap g) + String.length (spaced ts))))); [lia|].
    unfold fmap, Parser_fmap, mbind, Parser_bind. rewrite Hd'. split; [done|]. simpl. by rewrite Hsts, Hst.
Qed.

Lemma lex_spaced ts : readable ts = true -> exists sts, lex (spaced ts) = Val sts /\ map st_tok sts = map fst ts ++ [EOF].
Proof.
  intros Hw. destruct (lex_spaced_go ts (S (String.length (spaced ts))) (Span.new (spaced ts)) Hw eq_refl (le_n _)) as (i & sts & Hd & Hs).
  unfold lex, lex_tokens, Nom.many0. change (size (Span.new (spaced ts))) with (String.length (spaced ts)). rewrite Hd.
  eexists. split; [reflexivity|]. rewrite List.filter_app, map_app. f_equal.
  assert (forallb (fun t => negb (is_comment (st_tok t))) sts = true) as Hc.
  { assert (Forall (fun t => writable t = true) (map fst ts)) as Hts.
    { clear -Hw. induction ts as [|[t g] ts IH]; constructor; simpl in Hw; bool_to_prop; auto. }
    rewrite <- Hs in Hts. rewrite forallb_Forall. apply Forall_map in Hts. eapply Forall_impl; [exact Hts|].
    intros st. simpl. by destruct (st_tok st). }
  rewrite <- Hs. clear -Hc. induction sts as [|st sts IH]; [done|]. simpl in *. apply andb_true_iff in Hc as [-> Hc].
  simpl. by rewrite IH.
Qed.

Lemma written_spaced ts : written ts = spaced (map (fun t => (t, true)) ts).
Proof. induction ts as [|t ts IH]; [done|]. simpl. by rewrite IH. Qed.
Lemma written_readable ts : forallb writable ts = true -> readable (map (fun t => (t, true)) ts) = true.
Proof. induction ts as [|t ts IH]; simpl; [done|]. intros [-> Hts]%andb_true_iff. rewrite IH by done. by destruct t. Qed.

(** C22: the lexer reads back what is written: for every list of tokens of
    identifiers, integers, strings with quotes and backslashes, data, labels,
    reserved words and operators, written with a space after each, [lex] gives
    these tokens and [EOF]. *)
Theorem lex_written ts :
  forallb writable ts = true ->
  exists sts, lex (written ts) = Val sts /\ map st_tok sts = ts ++ [EOF].
Proof.
  intros Hw. rewrite written_spaced. destruct (lex_spaced _ (written_readable ts Hw)) as (sts & Hl & Hs).
  exists sts. split; [done|]. by rewrite Hs, map_map, map_id.
Qed.
End tokens.

Definition test_tokens : list Token :=
  [TLet; TIdent "x_1"; Assign; LParen; IntLiteral (-42); PlusPlus; StringLiteral (dquote ^^ "a\b" ^^ dquote); RParen;
   DataLiteral (as_bytes "x\"); LabelLiteral [Str "a"; Any "b"; RecAny ""]; TMinus; IntLiteral 1; TMatches; Underscore; TAnd;
   TDivide; TLessThan; TFilterMap; TDot].
Lemma lex_written_witness :
  exists sts, @lex test_lexlib (written test_tokens) = Val sts /\ map st_tok sts = test_tokens ++ [EOF].
Proof. apply (@lex_written test_lexlib test_lexlaws test_tokens). by vm_compute. Defined.
