(* ===== verification/ParserSafety.v ===== *)
(** * When the parser panics

    Two places of the grammar are marked unreachable and two results are
    unwrapped.  The first three never fail, whatever the tokens; the last does,
    for a dot before a negative integer: [parser_panics]. *)

From Stdlib Require Import ZArith Lia String Ascii List SpecFloat.
From stdpp Require Import base tactics list strings.
From S2P Require Import Prelude.
From S2P Require Import Ordered.
From S2P Require Import Strings.
From S2P Require Import Labels.
From S2P Require Import Syntax.
From S2P Require Import Types.
From S2P Require Import Net.
From S2P Require Import Literals.
From S2P Require Import Nom.
From S2P Require Import Ast.
From S2P Require Import Expressions.
From S2P Require Import Interpret.
From S2P Require Import TypeCheck.
From S2P Require Import Lexer.
From S2P Require Import Parser.
From S2P Require Import LexerTheory.

Local Open Scope string_scope.
Local Open Scope list_scope.

(** A dot before a negative integer. *)
Definition dot_negative (ts : Tokens) : Prop :=
  exists p t u r z, ts = p ++ t :: u :: r /\ tok t = TDot /\ tok u = IntLiteral z /\ (z < 0)%Z.

(** [p] leaves a rest of its tokens with a value that satisfies [Q], and panics
    at a dot before a negative integer only. *)
Definition gives {A} (Q : A -> Prop) (p : P A) : Prop := forall i,
  match p i with
  | Done i' a => (exists l, i = l ++ i') /\ Q a
  | NPanic => dot_negative i
  | _ => True
  end.
Definition any {A} (_ : A) : Prop := True.
Notation safe p := (gives any p).

Lemma dot_negative_app l ts : dot_negative ts -> dot_negative (l ++ ts).
Proof. intros (p & t & u & r & z & -> & H). exists (l ++ p), t, u, r, z. by rewrite <- app_assoc. Qed.

Lemma gives_impl {A} (Q R : A -> Prop) p : gives Q p -> (forall a, Q a -> R a) -> gives R p.
Proof. intros Hp HQ i. specialize (Hp i). destruct (p i); try done. destruct Hp. auto. Qed.
Lemma gives_any {A} (Q : A -> Prop) p : gives Q p -> safe p.
Proof. intros Hp. by eapply gives_impl. Qed.
Lemma gives_ret {A} (Q : A -> Prop) a : Q a -> gives Q (mret a).
Proof. intros Ha i. split; [by exists []|done]. Qed.
Lemma gives_error {A} (Q : A -> Prop) : gives Q Nom.error.
Proof. by intros i. Qed.
Lemma gives_bind {A B} (Q : A -> Prop) (R : B -> Prop) p (f : A -> P B) :
  gives Q p -> (forall a, Q a -> gives R (f a)) -> gives R (p ≫= f).
Proof.
  intros Hp Hf i. unfold mbind, Parser_bind. specialize (Hp i). destruct (p i) as [i' a| | | |]; try done.
  destruct Hp as [[l Hl] Ha]. specialize (Hf a Ha i'). rewrite Hl. destruct (f a i') as [i'' b| | | |]; try done.
  - destruct Hf as [[l' ->] Hb]. split; [|done]. exists (l ++ l'). by rewrite app_assoc.
  - by apply dot_negative_app.
Qed.
Lemma safe_bind {A B} (R : B -> Prop) (p : P A) (f : A -> P B) : safe p -> (forall a, gives R (f a)) -> gives R (p ≫= f).
Proof. intros Hp Hf. by apply (gives_bind any). Qed.
Lemma gives_complete {A} (Q : A -> Prop) p : gives Q p -> gives Q (Nom.complete p).
Proof. intros Hp i. unfold Nom.complete. specialize (Hp i). by destruct (p i). Qed.
Lemma gives_or {A} (Q : A -> Prop) p q : gives Q p -> gives Q q -> gives Q (Nom.or p q).
Proof. intros Hp Hq i. unfold Nom.or. specialize (Hp i). destruct (p i); try done. apply Hq. Qed.
Lemma gives_alt {A} (Q : A -> Prop) ps : Forall (gives Q) ps -> gives Q (Nom.alt ps).
Proof. induction 1; simpl; [apply gives_error|]. apply gives_or; [by apply gives_complete|done]. Qed.
Lemma gives_first {A} (Q : A -> Prop) ps : Forall (gives Q) ps -> gives Q (Nom.first ps).
Proof. induction 1; simpl; [apply gives_error|]. by apply gives_or. Qed.
Lemma safe_opt {A} (p : P A) : safe p -> safe (Nom.opt p).
Proof. intros Hp i. unfold Nom.opt. specialize (Hp i). destruct (p i); try done. split; [by exists []|done]. Qed.
Lemma gives_many0 {A} (Q : A -> Prop) p : gives Q p -> gives (Forall Q) (Nom.many0 p).
Proof.
  intros Hp i. unfold Nom.many0. generalize (S (size i)). intros n. revert i.
  induction n as [|n IH]; intros i; simpl; [done|]. specialize (Hp i). destruct (p i) as [i' a| | | |]; try done;
    [|split; [by exists []|done]].
  destruct (Nat.eqb _ _); [done|]. destruct Hp as [[l Hl] Ha]. specialize (IH i'). unfold fmap, Parser_fmap, mbind, Parser_bind.
  rewrite Hl. destruct (Nom.many0_go p n i') as [i'' as'| | | |]; try done.
  - destruct IH as [[l' ->] Has]. split; [|by constructor]. exists (l ++ l'). by rewrite app_assoc.
  - by apply dot_negative_app.
Qed.
Lemma gives_many1 {A} (Q : A -> Prop) p : gives Q p -> gives (fun l => l <> [] /\ Forall Q l) (Nom.many1 p).
Proof.
  intros Hp. apply (gives_bind Q); [done|]. intros a Ha. apply (gives_bind (Forall Q)); [by apply gives_many0|].
  intros l Hl. apply gives_ret. split; [done|by constructor].
Qed.
Lemma gives_fmap {A B} (Q : A -> Prop) (R : B -> Prop) (f : A -> B) p :
  gives Q p -> (forall a, Q a -> R (f a)) -> gives R (f <$> p).
Proof. intros Hp Hf. apply (gives_bind Q); [done|]. intros a Ha. by apply gives_ret, Hf. Qed.

Lemma gives_value {A} (Q : A -> Prop) (f : LocToken -> option A) :
  (forall t a, f t = Some a -> Q a) -> gives Q (token_value f).
Proof. intros Hf [|t i]; simpl; [done|]. destruct (f t) eqn:E; simpl; [|done]. split; [by exists [t]|by eapply Hf]. Qed.
Lemma gives_tag t : gives (fun u => Token.eqb (tok u) t = true) (tag_token t).
Proof. intros [|u i]; simpl; [done|]. destruct (Token.eqb _ _) eqn:E; [|done]. split; [by exists [u]|done]. Qed.
Lemma safe_take : safe take_token.
Proof. intros [|u i]; simpl; [done|]. split; [by exists [u]|done]. Qed.
Lemma safe_value {A} (f : LocToken -> option A) : safe (token_value f).
Proof. by apply gives_value. Qed.
Lemma safe_tag t : safe (tag_token t).
Proof. eapply gives_any, gives_tag. Qed.

Create HintDb safe.
#[export] Hint Resolve safe_take safe_value safe_tag gives_error : safe.
#[export] Hint Extern 1 (gives any (mret _)) => (by apply gives_ret) : safe.

Ltac safe_step :=
  lazymatch goal with
  | |- Forall _ _ => constructor
  | |- gives _ (Nom.alt _) => apply gives_alt
  | |- gives _ (Nom.first _) => apply gives_first
  | |- gives _ (Nom.or _ _) => apply gives_or
  | |- gives _ (Nom.opt _) => apply safe_opt
  | |- gives _ (Nom.many0 _) => eapply gives_any, (gives_many0 any)
  | |- gives _ (Nom.many1 _) => eapply gives_any, (gives_many1 any)
  | |- gives _ (Nom.value _ _) => apply safe_bind; [|intros ?]
  | |- gives _ (Nom.preceded _ _) => apply safe_bind; [|intros ?]
  | |- gives _ (Nom.terminated _ _) => apply safe_bind; [|intros ?]
  | |- gives _ (Nom.delimited _ _ _) => apply safe_bind; [|intros ?]
  | |- gives _ (Nom.separated _ _) => apply safe_bind; [|intros ?]
  | |- gives _ (_ <$> _) => apply safe_bind; [|intros ?]
  | |- gives _ (_ ≫= _) => apply safe_bind; [|intros ?]
  | |- gives any (mret _) => by apply gives_ret
  | |- gives _ (match ?x with _ => _ end) => destruct x
  end.
Ltac safe_tac := repeat first [solve [eauto with safe]|safe_step].

(** ** Types and heads *)

Lemma safe_type : safe parse_type.
Proof.
  intros i. unfold parse_type. generalize (S (length i)). intros n. revert i.
  change (safe (parse_type_fuel n)). induction n as [|n IH]; [by intros i|].
  change (safe (Nom.alt [parse_atom_type (parse_type_fuel n); parse_tuple_type (parse_type_fuel n)])).
  unfold parse_atom_type, parse_tuple_type, parse_types, parse_ident. safe_tac.
Qed.
#[export] Hint Resolve safe_type : safe.
Lemma safe_idents : safe parse_idents.
Proof. unfold parse_idents, tuple_ident, parse_ident. safe_tac. Qed.
Lemma safe_head : safe parse_head.
Proof. unfold parse_head, parse_types, parse_ident. safe_tac. Qed.
#[export] Hint Resolve safe_idents safe_head : safe.
Lemma safe_external : safe parse_external.
Proof. unfold parse_external, parse_ident, parse_string_as_ident. safe_tac. Qed.
Lemma safe_fn_head : safe parse_fn_head.
Proof. unfold parse_fn_head, parse_params, parse_param, parse_ident. safe_tac. Qed.

(** ** Patterns: every class is one of those that are compiled *)

Section safety.
Context {FT FL : Type} `{TFlatTyp FT} `{TFlatLiteral FT FL} `{Lib} `{RegexNew}.

Definition compiles (p : Pat) : Prop := forall b, is_Some (Pat.to_regex_str regex_escape b p).

Lemma compiles_list ps b : Forall compiles ps -> exists ss, mapM (Pat.to_regex_str regex_escape b) ps = Some ss.
Proof.
  induction 1 as [|p ps Hp _ [ss Hss]]; [by exists []|]. destruct (Hp b) as [s Hs]. exists (s :: ss).
  simpl. rewrite Hs. simpl. by rewrite Hss.
Qed.
Lemma compiles_alt ps : Forall compiles ps -> compiles (PatAlt ps).
Proof. intros Hps b. destruct (compiles_list ps b Hps) as [ss Hss]. simpl. rewrite Hss. by eexists. Qed.
Lemma compiles_seq ps : Forall compiles ps -> compiles (PatSeq ps).
Proof. intros Hps b. destruct (compiles_list ps b Hps) as [ss Hss]. simpl. rewrite Hss. by eexists. Qed.

Lemma gives_atom_pat pat : gives compiles pat -> gives compiles (parse_atom_pat pat).
Proof.
  intros Hp. unfold parse_atom_pat, Nom.value, Nom.delimited. apply gives_alt. repeat constructor.
  - apply gives_value. intros t a. destruct (tok t); try done. intros [= <-] b. by eexists.
  - apply safe_bind; [safe_tac|intros _]. apply gives_ret. intros b. by eexists.
  - apply safe_bind; [safe_tac|intros _]. apply (gives_bind compiles); [|intros q Hq; apply safe_bind; [safe_tac|intros _; by apply gives_ret]].
    apply gives_value. intros t a. destruct (tok t) as [| | |s| | | | | | | | | | | | | | | | | | | | | | | | | | | | | | | | | | | | | | | | | | | | | | | | | | | | | | | | | |]; try done.
    destruct (existsb _ _) eqn:E; [|done]. intros [= <-] b. apply existsb_exists in E as (c & Hc & ->%String.eqb_eq).
    simpl in Hc. by repeat (destruct Hc as [<-|Hc]; [eexists|]).
  - unfold parse_as_pat, parse_ident, parse_pat_typ. repeat (apply safe_bind; [safe_tac|intros ?]). apply gives_ret.
    intros b. simpl. by destruct (unwrap_or _ _); eexists.
  - apply safe_bind; [safe_tac|intros _]. apply (gives_bind compiles); [done|]. intros q Hq.
    apply safe_bind; [safe_tac|intros _]. by apply gives_ret.
Qed.

Lemma gives_postfix : gives (fun f => forall p, compiles p -> compiles (f p)) postfix_pat.
Proof.
  unfold postfix_pat, Nom.value. apply gives_alt.
  repeat constructor; apply safe_bind; try safe_tac; intros _; apply gives_ret; intros p Hp b; simpl;
    try (by destruct (Hp b) as [s ->]; eexists).
  destruct (Hp true) as [s Hs]. by exists s.
Qed.

Lemma gives_pat_step pat : gives compiles pat -> gives compiles (parse_pat_step pat).
Proof.
  intros Hp.
  assert (gives compiles (parse_postfix_pat pat)) as Hpost.
  { unfold parse_postfix_pat. apply (gives_bind compiles); [by apply gives_atom_pat|]. intros a Ha.
    apply (gives_bind _ _ _ _ (gives_many0 _ _ gives_postfix)). intros fs Hfs. apply gives_ret.
    revert a Ha. induction Hfs as [|f fs Hf _ IH]; intros a Ha; simpl; [done|]. by apply IH, Hf. }
  assert (gives compiles (parse_pat_seq pat)) as Hseq.
  { unfold parse_pat_seq. apply (gives_bind _ _ _ _ (gives_many1 _ _ Hpost)). intros ps [_ Hps]. apply gives_ret.
    destruct Hps as [|p ps Hp1 Hps]; [by apply compiles_seq|].
    destruct ps; [done|]. by apply compiles_seq; constructor. }
  unfold parse_pat_step. apply (gives_bind compiles); [done|]. intros p Hp1.
  apply (gives_bind (Forall compiles)).
  { apply gives_many0. apply safe_bind; [safe_tac|by intros _]. }
  intros ps Hps. apply gives_ret. destruct ps; [done|]. by apply compiles_alt; constructor.
Qed.
Lemma gives_pat : gives compiles parse_pat.
Proof.
  intros i. unfold parse_pat. generalize (S (length i)). intros n. revert i.
  change (gives compiles (parse_pat_fuel n)). induction n as [|n IH]; [by intros i|].
  by apply (gives_pat_step (parse_pat_fuel n)).
Qed.

Lemma safe_no_bind : safe parse_pat_no_bind.
Proof.
  intros i. unfold parse_pat_no_bind. pose proof (gives_pat i) as Hp. destruct (parse_pat i) as [i' p| | | |]; try done.
  destruct Hp as [Hl Hp]. destruct (Pat.has_as p); [done|]. unfold PPattern.from_pat, PolicyRegex.source, try.
  destruct (Hp false) as [s ->]. simpl. by destruct (regex_new _).
Qed.
Hint Resolve safe_no_bind : safe.

(** ** Literals *)

Lemma dot_number z : (0 <= z)%Z -> parse_f64 ("." ^^ i64_to_string z) <> None.
Proof.
  intros Hz. unfold i64_to_string. destruct (Z.ltb_spec z 0); [lia|].
  assert (forall_chars is_digit (digits_of z) = true) as Hd by (by apply digits_all).
  unfold parse_f64. simpl. pose proof (take_digits_app (digits_of z) "" Hd eq_refl) as Ht. rewrite append_nil_r in Ht.
  rewrite Ht. destruct (digits_of_head z Hz) as (c & s & Hs & _). 
  destruct (parse_digits_some (digits_of z) 0 Hd) as [m Hm]. rewrite Hm. rewrite Hs. done.
Qed.

Lemma safe_lit : safe (parse_lit_expr : P (LocExpr FL)).
Proof.
  unfold parse_lit_expr. apply gives_alt. constructor; [|unfold parse_literal; safe_tac].
  intros [|t i]; [done|]. unfold mbind, Parser_bind, tag_token. destruct (Token.eqb (tok t) TDot) eqn:Et; [|done].
  destruct i as [|u i]; [done|]. unfold parse_int_literal, token_value. destruct (tok u) eqn:Eu; try done.
  unfold dot_float. cbn [snd]. destruct (Z.ltb_spec i0 0) as [Hneg|Hpos].
  - destruct (parse_f64 _); [split; [by exists [t; u]|done]|]. exists [], t, u, i, i0. split_and!; [done| |done|done].
    by destruct (tok t).
  - destruct (parse_f64 _) eqn:E; [split; [by exists [t; u]|done]|]. by apply dot_number in E.
Qed.
Hint Resolve safe_lit : safe.
Lemma safe_ident_expr : safe (parse_ident_expr : P (LocExpr FL)).
Proof. unfold parse_ident_expr, parse_ident. safe_tac. Qed.
Lemma safe_pattern : safe parse_pattern.
Proof. unfold parse_pattern, parse_label_literal. pose proof (gives_any _ _ gives_pat). safe_tac. Qed.
Hint Resolve safe_ident_expr safe_pattern : safe.

(** An operation after one of some tokens, each of which has one. *)
Lemma gives_iter_token ts : Forall (fun t => is_Some (iter_op t)) ts ->
  gives (fun u => is_Some (iter_op (tok u))) (Nom.first (map tag_token ts)).
Proof.
  intros Hts. apply gives_first. rewrite Forall_map. eapply Forall_impl; [exact Hts|]. intros t Ht.
  eapply gives_impl; [apply gives_tag|]. intros u Hu. simpl in Hu. by destruct (tok u), t.
Qed.
Lemma gives_op t : is_Some (iter_op (tok t)) -> safe (op_of t).
Proof. intros [op Hop]. unfold op_of. rewrite Hop. by apply gives_ret. Qed.

Record safe_parsers (rec : Parsers FL) : Prop := {
  safe_pratt p : safe (pratt_expr rec p);
  safe_go p l : safe (go_pratt_expr rec p l);
  safe_block : safe (block_stmt rec);
  safe_if : safe (if_expr rec);
}.
Hint Resolve safe_pratt safe_go safe_block safe_if : safe.

Section rec.
Variable rec : Parsers FL.
Hypothesis Hrec : safe_parsers rec.

Lemma safe_expr : safe (parse_expr rec).
Proof. by apply safe_pratt. Qed.
Hint Resolve safe_expr : safe.
Lemma safe_exprs : safe (parse_exprs rec).
Proof. unfold parse_exprs. safe_tac. Qed.
Hint Resolve safe_exprs : safe.
Lemma safe_list : safe (parse_list_expr rec).
Proof. unfold parse_list_expr. safe_tac. Qed.
Hint Resolve safe_list : safe.

Lemma safe_iter : safe (parse_iter_expr rec).
Proof.
  unfold parse_iter_expr. eapply (gives_bind _ _ _ _ (gives_iter_token [TAll; TAny; TFilter; TFilterMap; TForEach; TMap] _)).
  intros t Ht. pose proof (gives_op t Ht). safe_tac. Unshelve. by repeat constructor.
Qed.
Lemma safe_iter_acc : safe (parse_iter_acc_expr rec).
Proof.
  unfold parse_iter_acc_expr, parse_ident. apply (gives_bind _ _ _ _ (gives_tag TFold)). intros t Ht.
  assert (safe (op_of t)) by (apply gives_op; by destruct (tok t)). safe_tac.
Qed.
Lemma safe_all_any : safe (parse_all_any_expr rec).
Proof.
  unfold parse_all_any_expr. eapply (gives_bind _ _ _ _ (gives_iter_token [TAll; TAny] _)).
  intros t Ht. pose proof (gives_op t Ht). safe_tac. Unshelve. by repeat constructor.
Qed.
Lemma safe_if_head : safe (if_head rec).
Proof. unfold if_head, parse_match_exprs, parse_match_expr, parse_some_match, parse_ident. safe_tac. Qed.
Lemma safe_else : safe (parse_else_expr rec).
Proof. unfold parse_else_expr. safe_tac. Qed.
Hint Resolve safe_iter safe_iter_acc safe_all_any safe_if_head safe_else : safe.
Lemma safe_if_expr : safe (parse_if_expr rec).
Proof. unfold parse_if_expr. safe_tac. Qed.
Hint Resolve safe_if_expr : safe.
Lemma safe_atom : safe (parse_atom_expr rec).
Proof. unfold parse_atom_expr, parse_prefix_expr, parse_paren_expr. safe_tac. Qed.
Lemma safe_infix l : safe (parse_infix_expr rec l).
Proof. unfold parse_infix_expr. safe_tac. Qed.

(** A call is a call. *)
Definition is_call (e : LocExpr FL) : Prop := match LocExpr.expr e with PCall _ _ _ => True | _ => False end.
Lemma gives_call l : gives is_call (parse_call_expr rec l).
Proof.
  unfold parse_call_expr. repeat (apply safe_bind; [safe_tac|intros ?]).
  destruct (PExpr.eval_call_function _); [by apply gives_ret|apply gives_error].
Qed.
Lemma safe_dot l : safe (parse_dot_expr rec l).
Proof.
  unfold parse_dot_expr, parse_int_literal. apply gives_alt. repeat constructor; [safe_tac|].
  do 2 (apply safe_bind; [safe_tac|intros ?]). apply (gives_bind _ _ _ _ (gives_call _)). intros c Hc.
  unfold method_call, is_call in *. destruct (LocExpr.expr c); try done. by apply gives_ret.
Qed.
Hint Resolve safe_atom safe_infix safe_dot : safe.
Lemma safe_block_stmt : safe (parse_block_stmt rec).
Proof. unfold parse_block_stmt, parse_stmt, parse_let_stmt, parse_return_stmt, parse_expr_stmt. safe_tac. Qed.
Lemma safe_pratt_expr p : safe (parse_pratt_expr rec p).
Proof. unfold parse_pratt_expr. safe_tac. Qed.
Lemma safe_go_pratt p l : safe (go_parse_pratt_expr rec p l).
Proof.
  pose proof (gives_any _ _ (gives_call l)). intros i. unfold go_parse_pratt_expr. destruct i as [|t i]; [done|].
  destruct (infix_op (tok t)) as [peek op].
  destruct (_ && _); [|destruct (_ && _); [|destruct (_ || _); [|split; [by exists []|done]]]];
    match goal with |- match ?p (t :: i) with _ => _ end => assert (safe p) as Hg by safe_tac; exact (Hg (t :: i)) end.
Qed.
End rec.

Lemma parsers_safe n : safe_parsers (parsers n).
Proof.
  induction n as [|n IH]; [by split; intros; intros i|]. split; intros.
  - by apply (safe_pratt_expr (parsers n)).
  - by apply (safe_go_pratt (parsers n)).
  - by apply (safe_block_stmt (parsers n)).
  - by apply (safe_if_expr (parsers n)).
Qed.
Lemma safe_enough_block : safe (enough block_stmt : P (BlockStmt FL)).
Proof. intros i. apply (safe_block _ (parsers_safe (S (length i)))). Qed.
Lemma safe_enough_expr : safe (enough parse_expr : P (LocExpr FL)).
Proof. intros i. apply (safe_expr _ (parsers_safe (S (length i)))). Qed.
Hint Resolve safe_enough_block safe_enough_expr safe_fn_head safe_external : safe.

Lemma safe_program : safe (parse_program : P (list (Decl FL))).
Proof. unfold parse_program, parse_fn_expr. safe_tac. Qed.

(** The parser panics on nothing but a dot before a negative integer, as in
    [1 + . -2]: on all other tokens a program, a block or an expression is parsed
    or refused; no mark of unreachable code is reached. *)
Theorem parser_panics (ts : Tokens) :
  (parse_program ts : IResult Tokens (list (Decl FL))) = NPanic \/
  (parse_block_stmt_eof ts : IResult Tokens (BlockStmt FL)) = NPanic \/
  (parse_expr_eof ts : IResult Tokens (LocExpr FL)) = NPanic ->
  dot_negative ts.
Proof.
  assert (forall A (p : P A), safe p -> p ts = NPanic -> dot_negative ts) as Hs.
  { intros A p Hp Hf. specialize (Hp ts). by rewrite Hf in Hp. }
  intros [Hp|[Hp|Hp]]; eapply Hs, Hp; [apply safe_program|..]; unfold parse_block_stmt_eof, parse_expr_eof; safe_tac.
Qed.
End safety.

Definition test_panic : Tokens :=
  map (mkLocToken Loc.dummy) [IntLiteral 1; TPlus; TDot; IntLiteral (-2); EOF].
Lemma parser_panics_witness : dot_negative test_panic.
Proof.
  apply (@parser_panics FlatTyp FlatLiteral _ test_lib {| regex_new := fun _ => Ok tt |} test_panic).
  right. right. by vm_compute.
Defined.
