(* ===== verification/Meta.v ===== *)
(** * Metadata of connections (src/src/armour-lang/src/meta.rs)

    The actor that keeps the metadata received with a connection (ingress) and
    the metadata to send with it (egress).  Its handlers are functions on its
    state; a run of the actor is a sequence of calls.

    The theorems: from the initial state, whatever calls are made, the egress
    identifier is the configured one or absent and the label sets stay sorted;
    the calls that the checker knows never change the ingress metadata;
    removing labels removes exactly the labels that match. *)

From Stdlib Require Import ZArith Lia String Ascii List.
From stdpp Require Import base tactics list strings sets.
From S2P Require Import Prelude.
From S2P Require Import Ordered.
From S2P Require Import Strings.
From S2P Require Import Labels.
From S2P Require Import Syntax.
From S2P Require Import Types.
From S2P Require Import Net.
From S2P Require Import Literals.
From S2P Require Import FnHeaders.
From S2P Require Import Expressions.

Local Open Scope string_scope.
Local Open Scope list_scope.

Record Meta := mkMeta { meta_id : option Label; meta_data : list bytes; meta_labels : Labels }.

Module Meta.
Definition default : Meta := mkMeta None [] [].
Definition new (id : Label) : Meta := mkMeta (Some id) [] [].
Definition set_id (m : Meta) (l : Label) : Meta := mkMeta (Some l) (meta_data m) (meta_labels m).
Definition push_data (m : Meta) (d : bytes) : Meta := mkMeta (meta_id m) (meta_data m ++ [d]) (meta_labels m).
(** [Vec::pop]: from the end. *)
Definition pop_data (m : Meta) : option bytes * Meta :=
  (last (meta_data m), mkMeta (meta_id m) (removelast (meta_data m)) (meta_labels m)).
Definition insert_label (m : Meta) (l : Label) : Meta :=
  mkMeta (meta_id m) (meta_data m) (BTreeSet.insert l (meta_labels m)).
Definition has_label (m : Meta) (label : Label) : bool :=
  existsb (fun x => Label.matches_with label x) (meta_labels m).
Definition find_label (m : Meta) (label : Label) : option Label :=
  List.find (fun x => Label.matches_with label x) (meta_labels m).
(** The loop runs over a copy of the set. *)
Definition remove_label (m : Meta) (label : Label) : Meta :=
  mkMeta (meta_id m) (meta_data m)
    (foldl (fun s l => if Label.matches_with label l then BTreeSet.remove l s else s)
       (meta_labels m) (meta_labels m)).
Definition wipe (m : Meta) : Meta := mkMeta None [] [].
Definition is_empty (m : Meta) : bool :=
  match meta_id m, meta_data m, meta_labels m with None, [], [] => true | _, _, _ => false end.

(** [TryFrom<&str>] *)
Definition try_from (s : string) : option Meta := new <$> result_ok (Label.from_str s).
End Meta.

Record IngressEgress := mkIngressEgress { ingress : Meta; egress : Meta; egress_id : Label }.

(** [externals::Call] *)
Record Call (FL : Type) := mkCall { call_external : string; call_method : string; call_args : list (Literal FL) }.
Arguments mkCall {FL} call_external call_method call_args.
Arguments call_external {FL} c.
Arguments call_method {FL} c.
Arguments call_args {FL} c.

Module IngressEgress.
Definition default : IngressEgress := mkIngressEgress Meta.default Meta.default [Str "egress"].
Definition new (ingress : option Meta) (egress_id : Label) : IngressEgress :=
  mkIngressEgress (unwrap_or Meta.default ingress) Meta.default egress_id.

Definition set_ingress (s : IngressEgress) (m : Meta) : IngressEgress :=
  mkIngressEgress m (egress s) (egress_id s).
Definition set_egress (s : IngressEgress) (m : Meta) : IngressEgress :=
  mkIngressEgress (ingress s) m (egress_id s).

Section handle.
Context {FT FL : Type} `{TFlatTyp FT} `{TFlatLiteral FT FL}.
Notation Expr := (Expr FL).

(** The methods, on the metadata of the module: the reply and the new
    metadata. *)
Definition method (egress_id : Label) (meta : Meta) (name : string) (args : list (Literal FL))
    : result Expr Error * Meta :=
  let ok (l : Literal FL) (m : Meta) : result Expr Error * Meta := (Ok (LitExpr l), m) in
  let err : result Expr Error * Meta := (Err (mkError "eval, call: {}::{}: {:?}" [name]), meta) in
  match args with
  | [] =>
    if name =? "id" then ok (Literal.of_option (Literal.label <$> meta_id meta)) meta
    else if name =? "data" then ok (LList (map Literal.data (meta_data meta))) meta
    else if name =? "set_id" then ok Literal.unit (Meta.set_id meta egress_id)
    else if name =? "pop" then
      let '(d, m) := Meta.pop_data meta in ok (Literal.of_option (Literal.data <$> d)) m
    else if name =? "wipe" then ok Literal.unit (Meta.wipe meta)
    else err
  | [FlatLit fl] =>
    match flat_dest_data fl, flat_dest_label fl with
    | Some d, _ => if name =? "push" then ok Literal.unit (Meta.push_data meta d) else err
    | None, Some l =>
      if name =? "add_label" then ok Literal.unit (Meta.insert_label meta l)
      else if name =? "remove_label" then ok Literal.unit (Meta.remove_label meta l)
      else if name =? "has_label" then ok (Literal.bool (Meta.has_label meta l)) meta
      else if name =? "find_label" then
        ok (Literal.of_option (Literal.label <$> Meta.find_label meta l)) meta
      else err
    | None, None => err
    end
  | _ => err
  end.

(** [Handler<Call>] *)
Definition handle (c : Call FL) (s : IngressEgress) : result Expr Error * IngressEgress :=
  if call_external c =? "Ingress" then
    let '(r, m) := method (egress_id s) (ingress s) (call_method c) (call_args c) in
    (r, set_ingress s m)
  else if call_external c =? "Egress" then
    let '(r, m) := method (egress_id s) (egress s) (call_method c) (call_args c) in
    (r, set_egress s m)
  else (Err (mkError "eval, unknown module: {}" [call_external c ^^ "::" ^^ call_method c]), s).

(** A run of the actor: the states after each prefix of a sequence of calls. *)
Inductive reachable (s0 : IngressEgress) : IngressEgress -> Prop :=
| reach_start : reachable s0 s0
| reach_call s c : reachable s0 s -> reachable s0 (handle c s).2.
End handle.

(** [Handler<Egress>] *)
Definition handle_egress (s : IngressEgress) : result Meta Error :=
  if Meta.is_empty (egress s) then Err (error_new "empty egress")
  else Ok (Meta.set_id (egress s) (egress_id s)).
End IngressEgress.

(** ** Laws *)

Definition meta_wf (m : Meta) : Prop := BTreeSet.wf (meta_labels m).

Section laws.
Context {FT FL : Type} `{TFlatTyp FT} `{TFlatLiteral FT FL}.

Lemma remove_loop label (ls s : Labels) :
  BTreeSet.wf s ->
  BTreeSet.wf (foldl (fun s l => if Label.matches_with label l then BTreeSet.remove l s else s) s ls) /\
  forall x, x ∈ foldl (fun s l => if Label.matches_with label l then BTreeSet.remove l s else s) s ls <->
    x ∈ s /\ ~ (x ∈ ls /\ Label.matches_with label x = true).
Proof.
  revert s. induction ls as [|l ls IH]; intros s Hs; simpl.
  { split; [done|]. intros x. set_solver. }
  destruct (Label.matches_with label l) eqn:E.
  - destruct (IH (BTreeSet.remove l s)) as [Hwf Hx]; [by apply BTreeSet.set_wf_remove|]. split; [done|].
    intros x. rewrite Hx, BTreeSet.elem_remove by done. rewrite elem_of_cons. split.
    + intros ((Hne & Hin) & Hn). split; [done|]. intros [[->|Hxl] Hm]; [done|]. by apply Hn.
    + intros (Hin & Hn). split; [split; [|done]|].
      * intros ->. apply Hn. by split; [left|].
      * intros [? ?]. apply Hn. by split; [right|].
  - destruct (IH s Hs) as [Hwf Hx]. split; [done|]. intros x. rewrite Hx, elem_of_cons. split.
    + intros (Hin & Hn). split; [done|]. intros [[->|Hxl] Hm]; [congruence|]. by apply Hn.
    + intros (Hin & Hn). split; [done|]. intros [? ?]. apply Hn. by split; [right|].
Qed.

Lemma remove_label_elem m label x :
  meta_wf m ->
  x ∈ meta_labels (Meta.remove_label m label) <->
  x ∈ meta_labels m /\ Label.matches_with label x = false.
Proof.
  intros Hm. unfold Meta.remove_label. simpl.
  rewrite (proj2 (remove_loop label (meta_labels m) (meta_labels m) Hm) x).
  destruct (Label.matches_with label x); split; intros [? Hn]; split; try done.
  - exfalso. by apply Hn.
  - by intros [_ ?].
Qed.

Lemma method_wf eid m name args :
  meta_wf m -> meta_wf (IngressEgress.method (FL := FL) eid m name args).2.
Proof.
  intros Hm. unfold IngressEgress.method.
  repeat (split_inner; simplify_eq/=; try done).
  - constructor.
  - by apply BTreeSet.set_wf_insert.
  - by apply remove_loop.
Qed.

Lemma method_id eid m name args :
  (meta_id m = None \/ meta_id m = Some eid) ->
  let m' := (IngressEgress.method (FL := FL) eid m name args).2 in
  meta_id m' = None \/ meta_id m' = Some eid.
Proof.
  intros Hm. unfold IngressEgress.method.
  repeat (split_inner; simplify_eq/=; try done); auto.
Qed.
End laws.

Lemma ingress_of_services {FT FL} `{TFlatTyp FT} `{TFlatLiteral FT FL}
    (f module name : string) (sg : DPSignature) (args : list (Literal FL)) (s : IngressEgress) :
  TypBuiltins.internal_service f = Some sg ->
  FnHeaders.split f = Some (module, name) ->
  ingress (IngressEgress.handle (mkCall module name args) s).2 = ingress s.
Proof.
  intros Hf Hs.
  assert (f ∈ map fst (TypBuiltins.services (FT := FlatTyp)) ++ map fst FlatBuiltins.services) as Hin.
  { unfold TypBuiltins.internal_service in Hf.
    destruct (assoc f TypBuiltins.services) as [r|] eqn:E.
    - apply assoc_elem in E. apply elem_of_app. left. apply list_elem_of_fmap. by exists (f, r).
    - apply fmap_Some in Hf as (r & E2 & _). apply assoc_elem in E2.
      apply elem_of_app. right. apply list_elem_of_fmap. by exists (f, r). }
  clear Hf. unfold IngressEgress.handle. simpl.
  simpl in Hin. rewrite !elem_of_cons in Hin.
  repeat (destruct Hin as [->|Hin]; [vm_compute in Hs; simplify_eq; simpl|]); [..|by apply elem_of_nil in Hin].
  all: try (destruct (IngressEgress.method _ (egress s) _ _); reflexivity).
  all: unfold IngressEgress.method; repeat (split_inner; simplify_eq/=; try done).
Qed.

(** ** Properties *)

(** Whatever calls the actor receives, it keeps its egress identifier,
    the identifier of the egress metadata is that one or absent, and the
    label sets stay sorted; so the metadata sent on always carries the
    configured identifier. *)
Theorem ingress_egress_invariant {FT FL} `{TFlatTyp FT} `{TFlatLiteral FT FL}
    (m : option Meta) (eid : Label) (s : IngressEgress) :
  meta_wf (unwrap_or Meta.default m) ->
  IngressEgress.reachable (FL := FL) (IngressEgress.new m eid) s ->
  egress_id s = eid /\ meta_wf (ingress s) /\ meta_wf (egress s) /\
  (meta_id (egress s) = None \/ meta_id (egress s) = Some eid) /\
  (forall out, IngressEgress.handle_egress s = Ok out -> meta_id out = Some eid).
Proof.
  intros Hwf Hr.
  assert (egress_id s = eid /\ meta_wf (ingress s) /\ meta_wf (egress s) /\
          (meta_id (egress s) = None \/ meta_id (egress s) = Some eid)) as (He & Hi & Ho & Hid).
  { induction Hr as [|s c Hr (<- & Hi & Ho & Hid)].
    - split_and!; [done|done|constructor|by left].
    - unfold IngressEgress.handle.
      pose proof (method_wf (FL := FL) (egress_id s) (ingress s) (call_method c) (call_args c) Hi) as Hi'.
      pose proof (method_wf (FL := FL) (egress_id s) (egress s) (call_method c) (call_args c) Ho) as Ho'.
      pose proof (method_id (FL := FL) (egress_id s) (egress s) (call_method c) (call_args c) Hid) as Hid'.
      destruct (_ =? "Ingress").
      { destruct (IngressEgress.method _ (ingress s) _ _). simpl in *. auto. }
      destruct (_ =? "Egress"); [|auto].
      destruct (IngressEgress.method _ (egress s) _ _). simpl in *. auto. }
  split_and!; try done. intros out. unfold IngressEgress.handle_egress.
  destruct (Meta.is_empty _); intros Ho'; [done|]. injection Ho' as <-. simpl. by rewrite He.
Qed.

Lemma ingress_egress_invariant_witness :
  let eid := [Str "svc"] in
  let s := (IngressEgress.handle (FL := FlatLiteral) (mkCall "Egress" "set_id" [])
              (IngressEgress.new None eid)).2 in
  meta_wf (unwrap_or Meta.default None) /\ egress_id s = eid.
Proof.
  intros eid s. split; [constructor|].
  refine (proj1 (ingress_egress_invariant (FL := FlatLiteral) None eid s _ _)); [constructor|].
  apply IngressEgress.reach_call, IngressEgress.reach_start.
Defined.

(** The internal services that the checker declares never change the
    ingress metadata, as the source's comment says. *)
Theorem services_keep_ingress {FT FL} `{TFlatTyp FT} `{TFlatLiteral FT FL}
    (f module name : string) (sg : DPSignature) (args : list (Literal FL)) (s : IngressEgress) :
  TypBuiltins.internal_service f = Some sg ->
  FnHeaders.split f = Some (module, name) ->
  ingress (IngressEgress.handle (mkCall module name args) s).2 = ingress s.
Proof. apply ingress_of_services. Qed.

Lemma services_keep_ingress_witness :
  let s := IngressEgress.new (Some (Meta.new [Str "a"])) [Str "b"] in
  ingress (IngressEgress.handle (FL := FlatLiteral) (mkCall "Egress" "wipe" []) s).2 = ingress s.
Proof.
  intros s. exact (services_keep_ingress (FL := FlatLiteral) "Egress::wipe" "Egress" "wipe"
    (FlatBuiltins.sig ([], TUnit)) [] s eq_refl eq_refl).
Defined.

(** Removing a pattern removes exactly the labels it matches, so that
    none is found afterwards; the other labels, the data and the identifier
    stay. *)
Theorem remove_label_spec (m : Meta) (p : Label) :
  BTreeSet.wf (meta_labels m) ->
  Meta.has_label (Meta.remove_label m p) p = false /\
  (forall x, x ∈ meta_labels (Meta.remove_label m p) <->
             x ∈ meta_labels m /\ Label.matches_with p x = false) /\
  meta_data (Meta.remove_label m p) = meta_data m /\ meta_id (Meta.remove_label m p) = meta_id m.
Proof.
  intros Hm. split_and!; try done; [|intros x; by apply remove_label_elem].
  unfold Meta.has_label. apply not_true_iff_false. rewrite existsb_Exists, Exists_exists.
  intros (x & Hx & E). apply remove_label_elem in Hx as [_ ?]; [congruence|done].
Qed.

Lemma remove_label_spec_witness :
  let m := Meta.insert_label (Meta.insert_label Meta.default [Str "a"; Str "b"]) [Str "c"] in
  meta_labels (Meta.remove_label m [Str "a"; Any ""]) = [[Str "c"]] /\
  Meta.has_label (Meta.remove_label m [Str "a"; Any ""]) [Str "a"; Any ""] = false.
Proof.
  intros m. split; [reflexivity|].
  refine (proj1 (remove_label_spec m [Str "a"; Any ""] _)). repeat constructor.
Defined.
