(* ===== verification/Eval.v ===== *)
(** * Evaluation (src/src/armour-lang/src/interpret.rs, second part)

    The evaluator of expressions, over a state that it threads through the
    calls that leave it: builtin functions, metadata, remote calls.  What those
    calls promise to the evaluator is the interface [Interp] with its
    laws; Externals.v has the implementation for the data plane.  The fuel bounds the depth of the recursion of the source.  The theorems are in
    EvalTheory.v, Termination.v, Effects.v and DataPlane.v. *)

From Stdlib Require Import ZArith Lia String Ascii List.
From stdpp Require Import base tactics list strings sets.
From S2P Require Import Prelude.
From S2P Require Import Ordered.
From S2P Require Import Strings.
From S2P Require Import Labels.
From S2P Require Import Syntax.
From S2P Require Import Types.
From S2P Require Import Net.
From S2P Require Import Literals.
From S2P Require Import FnHeaders.
From S2P Require Import Expressions.
From S2P Require Import Interpret.
From S2P Require Import Meta.

Local Open Scope string_scope.
Local Open Scope list_scope.

(** ** What evaluation calls *)
Class Interp (FL W : Type) := {
  (** [eval_prefix], [eval_infix] of literals. *)
  run_prefix : Literal FL -> Prefix -> Outcome (option (Literal FL));
  run_infix : Literal FL -> Infix -> Literal FL -> Outcome (option (Literal FL));
  (** [perform_match] *)
  run_match : Expr FL -> Pattern -> Outcome (option (Expr FL * option (BTreeMap string (Expr FL))));
  (** [TExprInterpreter::eval_call], the builtin functions. *)
  run_builtin : string -> list (Expr FL) -> Comp W (Expr FL);
  (** [env.meta.send], [env.external.send] and its detached form. *)
  run_meta : Call FL -> Comp W (Expr FL);
  run_external : Call FL -> Comp W (Expr FL);
  spawn_external : Call FL -> Comp W unit;
}.

(** The calls return literals, and always return. *)
Class InterpLaws (FL W : Type) `{Interp FL W} := {
  run_match_value e p e' b :
    Expr.is_value e = true -> run_match e p = Val (Some (e', b)) ->
    e' = e /\ forall m, b = Some m -> Forall (fun kv => Expr.is_value kv.2 = true) m;
  run_builtin_value f args w r w' : run_builtin f args w = (Val r, w') -> Expr.is_value r = true;
  run_meta_value c w r w' : run_meta c w = (Val r, w') -> Expr.is_value r = true;
  run_external_value c w r w' : run_external c w = (Val r, w') -> Expr.is_value r = true;
  run_prefix_returns l p : run_prefix l p <> OutOfFuel;
  run_infix_returns l op l' : run_infix l op l' <> OutOfFuel;
  run_match_returns e p : run_match e p <> OutOfFuel;
  run_builtin_returns f args w : (run_builtin f args w).1 <> OutOfFuel;
  run_meta_returns c w : (run_meta c w).1 <> OutOfFuel;
  run_external_returns c w : (run_external c w).1 <> OutOfFuel;
  spawn_external_returns c w : (spawn_external c w).1 <> OutOfFuel;
}.

Module Eval.
Section eval.
Context {FT FL W : Type} `{TFlatTyp FT} `{TFlatLiteral FT FL} `{TBuiltin FT} `{Interp FL W}.
Notation Expr := (Expr FL).
Notation Literal := (Literal FL).

(** [Env::internal]: the functions of the program. *)
Variable internal : BTreeMap string Expr.

Definition err {A} (s : string) : Comp W A := fail (error_new s).
Definition ok (l : Literal) : Comp W Expr := mret (LitExpr l).

(** [Option<Literal>] to a result. *)
Definition some_or (o : Outcome (option Literal)) (s : string) : Comp W Expr :=
  r ← lift o; match r with Some l => ok l | None => err s end.

(** [for (v, lit) in vs.iter().zip(lits) { if v != "_" { e = e.apply(lit)? } }] *)
Fixpoint apply_named (e : Expr) (ps : list (string * Literal)) : result Expr Error :=
  match ps with
  | [] => Ok e
  | (v, l) :: ps' =>
    if v =? "_" then apply_named e ps'
    else match Expr.apply e (LitExpr l) with Ok e' => apply_named e' ps' | Err x => Err x end
  end.

(** [for a in args { r = r.apply(&a)? }] *)
Fixpoint apply_args (e : Expr) (args : list Expr) : result Expr Error :=
  match args with
  | [] => Ok e
  | a :: args' => match Expr.apply e a with Ok e' => apply_args e' args' | Err x => Err x end
  end.

(** The element of an iteration, applied to the variables of the loop. *)
Definition apply_element (vs : list string) (e : Expr) (l : Literal) : result Expr Error :=
  match vs with
  | [v] => if v =? "_" then Ok e else Expr.apply e (LitExpr l)
  | _ =>
    match l with
    | LTuple ts =>
      if Nat.eqb (length vs) (length ts) then apply_named e (combine vs ts)
      else Err (error_new "eval, iter-expression (tuple length mismatch)")
    | _ => Err (error_new "eval, iter-expression (not a tuple list)")
    end
  end.

(** [l.get_bool()] along a list, for [all] and [any]: stops at the first
    [stop], panics on a literal that is no boolean. *)
Fixpoint bools_until (stop : bool) (ls : list Literal) : Outcome bool :=
  match ls with
  | [] => Val (negb stop)
  | l :: ls' =>
    b ← Literal.get_bool l;
    if Bool.eqb b stop then Val stop else bools_until stop ls'
  end.

Fixpoint filter_lits (ls bs : list Literal) : Outcome (list Literal) :=
  match ls, bs with
  | l :: ls', b :: bs' =>
    keep ← Literal.get_bool b;
    rest ← filter_lits ls' bs';
    mret (if (keep : bool) then l :: rest else rest)
  | _, _ => Val []
  end.

(** The result of an iteration from the results of the bodies. *)
Definition iter_result (op : Iter) (lits : list Literal) (acc : option Expr) (res : list Expr) : Comp W Expr :=
  match List.find Expr.is_return res with
  | Some r => mret r
  | None =>
    match op with
    | Fold =>
      a ← lift (unwrap acc);
      match a with LitExpr l => ok l | _ => err "arg is not a literal" end
    | _ =>
      iter_lits ← lift (try (Expr.literal_vector res));
      match op with
      | Map => ok (LList iter_lits)
      | ForEach => ok Literal.unit
      | Filter => l ← lift (filter_lits lits iter_lits); ok (LList l)
      | FilterMap => ok (LList (omap Literal.dest_some iter_lits))
      | All => b ← lift (bools_until false iter_lits); ok (Literal.bool b)
      | Any_ => b ← lift (bools_until true iter_lits); ok (Literal.bool b)
      | Fold => panic
      end
    end
  end.

Definition alternative_or_unit (ev : Expr -> Comp W Expr) (alt : option Expr) : Comp W Expr :=
  match alt with Some a => ev a | None => ok Literal.unit end.

(** Results of [if match]: a value, or an error. *)
Definition value_only (r : Expr) : Comp W Expr :=
  match r with ReturnExpr _ | LitExpr _ => mret r | _ => err "eval, if-match-expression" end.

Section with_ev.
(** The recursive call. *)
Variable ev : Expr -> Comp W Expr.

Fixpoint eval_list (es : list Expr) : Comp W (list Expr) :=
  match es with
  | [] => mret []
  | e :: es' => r ← ev e; rs ← eval_list es'; mret (r :: rs)
  end.

(** The loop of [Iter]: the accumulator is applied first. *)
Fixpoint iter_loop (vs : list string) (body : Expr) (lits : list Literal) (acc : option Expr)
    (res : list Expr) : Comp W (option Expr * list Expr) :=
  match lits with
  | [] => mret (acc, res)
  | l :: lits' =>
    e ← lift (try (match acc with Some a => Expr.apply body a | None => Ok body end));
    e ← lift (try (apply_element vs e l));
    tmp ← ev e;
    iter_loop vs body lits' (match acc with Some _ => Some tmp | None => None end) (res ++ [tmp])
  end.

Fixpoint match_loop (ms : list (Expr * Pattern)) : Comp W (list (Expr * option (BTreeMap string Expr))) :=
  match ms with
  | [] => mret []
  | (e, p) :: ms' =>
    r ← ev e;
    o ← lift (run_match r p);
    match o with
    | None => err "eval, if-match-expression: type error"
    | Some x => rs ← match_loop ms'; mret (x :: rs)
    end
  end.
End with_ev.

(** [all_captures.extend(caps)] *)
Definition all_captures (rs : list (Expr * option (BTreeMap string Expr))) : BTreeMap string Expr :=
  foldl (fun m r => match r.2 with
                    | Some caps => foldl (fun m kv => BTreeMap.insert kv.1 kv.2 m) m caps
                    | None => m
                    end) [] rs.

Fixpoint apply_variables (c : Expr) (caps : BTreeMap string Expr) (vs : list string) : result Expr Error :=
  match vs with
  | [] => Ok c
  | v :: vs' =>
    match BTreeMap.get caps v with
    | Some e => match Expr.apply c e with Ok c' => apply_variables c' caps vs' | Err x => Err x end
    | None => Err (error_new "eval, if-match-expression: missing bind")
    end
  end.

(** A call that is neither a function of the program nor a builtin: the
    metadata of the connection or a remote call. *)
Definition call_service (f : string) (args : list Expr) (is_async : bool) : Comp W Expr :=
  match FnHeaders.split f with
  | Some (external, method) =>
    lits ← lift (try (Expr.literal_vector args));
    let call := mkCall external method lits in
    if (external =? "Ingress") || (external =? "Egress") then run_meta call
    else if is_async then _ ← spawn_external call; ok Literal.unit
    else run_external call
  | None => fail (mkError "eval, call: {}: {:?}" [f])
  end.

(** One level of [eval]; [ev] is the recursive call. *)
Definition eval_with (ev : Expr -> Comp W Expr) (e : Expr) : Comp W Expr :=
  match e with
  | Var _ | BVar _ _ => err "eval variable"
  | LitExpr _ => mret e
  | Closure _ _ => err "eval, closure"
  | ReturnExpr e => r ← ev e; mret (ReturnExpr r)
  | PrefixExpr p e =>
    r ← ev e;
    match r with
    | ReturnExpr _ => mret r
    | LitExpr l => some_or (run_prefix l p) "eval prefix: type error"
    | _ => err "eval, prefix"
    end
  | InfixExpr op e1 e2 =>
    let short (stop : bool) : Comp W Expr :=
      r ← ev e1;
      match r with
      | ReturnExpr _ => mret r
      | LitExpr l =>
        match Literal.dest_bool l with
        | Some b =>
          if Bool.eqb b stop then ok l
          else
            r ← ev e2;
            match r with
            | ReturnExpr _ => mret r
            | LitExpr l => if Literal.dest_bool l then ok l else err "eval, infix"
            | _ => err "eval, infix"
            end
        | None => err "eval, infix"
        end
      | _ => err "eval, infix"
      end in
    match op with
    | And => short false
    | Or => short true
    | _ =>
      r1 ← ev e1;
      r2 ← ev e2;
      match r1, r2 with
      | ReturnExpr _, _ => mret r1
      | _, ReturnExpr _ => mret r2
      | LitExpr l1, LitExpr l2 => some_or (run_infix l1 op l2) "eval, infix: type error"
      | _, _ => err "eval, infix: failed"
      end
    end
  | BlockExpr b es =>
    match es with
    | [] => ok (match b with BList => LList [] | _ => Literal.unit end)
    | e :: es' =>
      match b with
      | BBlock =>
        res ← ev e;
        if Expr.is_return res || (match es' with [] => true | _ => false end) then mret res
        else ev (BlockExpr b es')
      | _ =>
        rs ← eval_list ev es;
        match List.find Expr.is_return rs with
        | Some r => mret r
        | None =>
          lits ← lift (try (Expr.literal_vector rs));
          ok (match b with BList => LList lits | _ => LTuple lits end)
        end
      end
    end
  | Let vs e1 e2 =>
    r ← ev e1;
    match r with
    | ReturnExpr _ => mret r
    | LitExpr (LTuple lits) =>
      if Nat.ltb 1 (length lits) && Nat.eqb (length vs) (length lits) then
        e2a ← lift (try (apply_named e2 (combine vs lits))); ev e2a
      else if Nat.eqb (length vs) 1 then
        e2a ← lift (try (Expr.apply e2 (LitExpr (LTuple lits)))); ev e2a
      else err "eval, let-expression (tuple length mismatch)"
    | LitExpr l =>
      if Nat.eqb (length vs) 1 then
        e2a ← lift (try (Expr.apply e2 (LitExpr l))); ev e2a
      else err "eval, let-expression (literal not a tuple)"
    | _ => err "eval, let-expression"
    end
  | IterExpr op vs e1 e2 acc =>
    r ← ev e1;
    match r with
    | ReturnExpr _ => mret r
    | LitExpr (LList lits) =>
      a ← (match acc with
           | Some (_, a) => x ← ev a; mret (Some x)
           | None => mret None
           end : Comp W (option Expr));
      '(a, res) ← iter_loop ev vs e2 lits a [];
      iter_result op lits a res
    | _ => err "eval, map-expression"
    end
  | IfExpr cond consequence alternative =>
    r ← ev cond;
    match r with
    | ReturnExpr _ => mret r
    | LitExpr l =>
      match Literal.dest_bool l with
      | Some true => ev consequence
      | Some false => alternative_or_unit ev alternative
      | None => err "eval, if-expression"
      end
    | _ => err "eval, if-expression"
    end
  | IfSomeMatchExpr expr consequence alternative =>
    r ← ev expr;
    match r with
    | ReturnExpr _ => mret r
    | LitExpr (LTuple [t]) =>
      c ← lift (try (Expr.apply consequence (LitExpr t))); ev c
    | LitExpr (LTuple _) => alternative_or_unit ev alternative
    | _ => err "eval, if-let-expression: {:#?}"
    end
  | IfMatchExpr variables matches consequence alternative =>
    rs ← match_loop ev matches;
    match List.find (fun r => Expr.is_return r.1) rs with
    | Some (r, _) => mret r
    | None =>
      if existsb (fun r => match r.2 with None => true | Some _ => false end) rs then
        match alternative with
        | None => ok Literal.unit
        | Some alt => r ← ev alt; value_only r
        end
      else
        c ← lift (try (apply_variables consequence (all_captures rs) variables));
        r ← ev c; value_only r
    end
  | CallExpr f arguments is_async =>
    args ← eval_list ev arguments;
    match List.find Expr.is_return args with
    | Some r => mret r
    | None =>
      match BTreeMap.get internal f with
      | Some r =>
        r ← lift (try (apply_args r args));
        v ← ev r;
        mret (Expr.strip_return v)
      | None =>
        if FnHeaders.is_builtin f then run_builtin f args
        else call_service f args is_async
      end
    end
  end.

Fixpoint eval (fuel : nat) (e : Expr) : Comp W Expr :=
  match fuel with
  | O => out_of_fuel
  | S n => eval_with (eval n) e
  end.

Definition evaluate (fuel : nat) (e : Expr) : Comp W Expr :=
  r ← eval fuel e; mret (Expr.strip_return r).
End eval.
End Eval.
