(* ===== verification/EvalTheory.v ===== *)
(** * Theory of evaluation

    Proof rules for computations with fuel ([refines], [returns],
    [converges]) and the theorems about [Eval.eval]: monotonicity in the fuel,
    results are values, termination of programs without recursion. *)

From Stdlib Require Import ZArith Lia String Ascii List.
From stdpp Require Import base tactics list strings sets.
From S2P Require Import Prelude.
From S2P Require Import Ordered.
From S2P Require Import Strings.
From S2P Require Import Labels.
From S2P Require Import Syntax.
From S2P Require Import Types.
From S2P Require Import Net.
From S2P Require Import Literals.
From S2P Require Import FnHeaders.
From S2P Require Import Expressions.
From S2P Require Import Interpret.
From S2P Require Import Meta.
From S2P Require Import Eval.

Local Open Scope string_scope.
Local Open Scope list_scope.

(** ** Rules for computations *)

Section rules.
Context {W : Type}.

(** [m2] agrees with [m1] wherever [m1] does not run out of fuel. *)
Definition refines {A} (m1 m2 : Comp W A) : Prop :=
  forall w, (m1 w).1 <> OutOfFuel -> m2 w = m1 w.

Lemma refines_refl {A} (m : Comp W A) : refines m m.
Proof. by intros w. Qed.

Lemma refines_trans {A} (m1 m2 m3 : Comp W A) : refines m1 m2 -> refines m2 m3 -> refines m1 m3.
Proof. intros H1 H2 w Hw. rewrite <- (H1 w Hw). apply H2. by rewrite (H1 w Hw). Qed.

Lemma refines_bind {A B} (m1 m2 : Comp W A) (f1 f2 : A -> Comp W B) :
  refines m1 m2 -> (forall a, refines (f1 a) (f2 a)) -> refines (m1 ≫= f1) (m2 ≫= f2).
Proof.
  intros Hm Hf w. unfold mbind, Comp_bind. specialize (Hm w).
  destruct (m1 w) as [[a|e| |] w'] eqn:E; simpl in *; intros Hw; rewrite Hm; try done.
  apply Hf. done.
Qed.

(** All results satisfy [P]. *)
Definition returns {A} (P : A -> Prop) (m : Comp W A) : Prop :=
  forall w a w', m w = (Val a, w') -> P a.

Lemma returns_ret {A} (P : A -> Prop) a : P a -> returns P (mret a).
Proof. intros Ha w a' w' Hm. unfold mret, Comp_ret in Hm. by simplify_eq. Qed.

Lemma returns_bind {A B} (Q : A -> Prop) (P : B -> Prop) (m : Comp W A) (f : A -> Comp W B) :
  returns Q m -> (forall a, Q a -> returns P (f a)) -> returns P (m ≫= f).
Proof.
  intros Hm Hf w b w'. unfold mbind, Comp_bind. destruct (m w) as [[a|e| |] w1] eqn:E; try done.
  intros Hb. by eapply Hf; [eapply Hm|].
Qed.

Lemma returns_any {A} (m : Comp W A) : returns (fun _ => True) m.
Proof. by intros w a w'. Qed.

Lemma returns_fail {A} (P : A -> Prop) e : returns P (fail (W := W) e).
Proof. by intros w a w'. Qed.

Lemma returns_lift {A} (P : A -> Prop) (o : Outcome A) :
  (forall a, o = Val a -> P a) -> returns P (lift (W := W) o).
Proof. intros Ho w a w' Hm. unfold lift in Hm. simplify_eq. auto. Qed.

(** A family indexed by fuel. *)
Definition mono {A} (c : nat -> Comp W A) : Prop := forall n m, n <= m -> refines (c n) (c m).
Definition converges {A} (c : nat -> Comp W A) (w : W) : Prop := exists n, (c n w).1 <> OutOfFuel.

Lemma mono_const {A} (m : Comp W A) : mono (fun _ => m).
Proof. intros n k _. apply refines_refl. Qed.

Lemma mono_bind {A B} (c : nat -> Comp W A) (f : nat -> A -> Comp W B) :
  mono c -> (forall a, mono (fun n => f n a)) -> mono (fun n => c n ≫= f n).
Proof. intros Hc Hf n m Hnm. apply refines_bind; [by apply Hc|]. intros a. by apply Hf. Qed.

Lemma converges_const {A} (m : Comp W A) w : (m w).1 <> OutOfFuel -> converges (fun _ => m) w.
Proof. by exists 0. Qed.

Lemma converges_ret {A} (a : A) w : converges (fun _ => mret a) w.
Proof. by apply converges_const. Qed.

Lemma converges_lift {A} (o : Outcome A) w : o <> OutOfFuel -> converges (fun _ => lift o) w.
Proof. intros. by apply converges_const. Qed.

Lemma converges_fail {A} e w : converges (fun _ => fail (A := A) e) w.
Proof. by apply converges_const. Qed.

Lemma converges_bind {A B} (c : nat -> Comp W A) (f : nat -> A -> Comp W B) w :
  mono c -> (forall a, mono (fun n => f n a)) -> converges c w ->
  (forall n a w', c n w = (Val a, w') -> converges (fun n => f n a) w') ->
  converges (fun n => c n ≫= f n) w.
Proof.
  intros Mc Mf [n Hn] Hf. destruct (c n w) as [o w'] eqn:E.
  destruct o as [a|e| |]; [| | |done].
  - destruct (Hf n a w' E) as [m Hm]. exists (n + m). unfold mbind, Comp_bind.
    rewrite (Mc n (n + m) ltac:(lia) w) by (by rewrite E). rewrite E.
    by rewrite (Mf a m (n + m) ltac:(lia) w').
  - exists n. unfold mbind, Comp_bind. by rewrite E.
  - exists n. unfold mbind, Comp_bind. by rewrite E.
Qed.
End rules.

#[export] Hint Resolve refines_refl mono_const converges_ret converges_fail : armour.

(** Walk through a computation, closing the recursive calls with [tac]. *)
Ltac refine_step tac :=
  match goal with
  | |- refines ?m ?m => apply refines_refl
  | |- refines (_ ≫= _) (_ ≫= _) => apply refines_bind; [|intros ?]
  | |- refines (match ?x with _ => _ end) _ => destruct x
  | |- refines _ _ => tac
  end.

Section theory.
Context {FT FL W : Type} `{TFlatTyp FT} `{TFlatLiteral FT FL} `{TBuiltin FT} `{InterpLaws FL W}.
Variable internal : BTreeMap string (Expr FL).
Notation Expr := (Expr FL).
Notation eval := (Eval.eval internal).

(** ** Monotonicity in the fuel *)

Section ev_mono.
Variable ev ev' : Expr -> Comp W Expr.
Hypothesis Hev : forall e, refines (ev e) (ev' e).

Lemma eval_list_mono es : refines (Eval.eval_list ev es) (Eval.eval_list ev' es).
Proof. induction es; simpl; repeat refine_step ltac:(first [apply Hev | apply IHes]). Qed.

Lemma iter_loop_mono vs body lits acc res :
  refines (Eval.iter_loop ev vs body lits acc res) (Eval.iter_loop ev' vs body lits acc res).
Proof.
  revert acc res. induction lits; intros; simpl;
    repeat refine_step ltac:(first [apply Hev | apply IHlits]).
Qed.

Lemma match_loop_mono ms : refines (Eval.match_loop ev ms) (Eval.match_loop ev' ms).
Proof. induction ms as [|[] ms IH]; simpl; repeat refine_step ltac:(first [apply Hev | apply IH]). Qed.

Lemma alternative_mono a : refines (Eval.alternative_or_unit ev a) (Eval.alternative_or_unit ev' a).
Proof. destruct a; simpl; repeat refine_step ltac:(apply Hev). Qed.
End ev_mono.

Lemma eval_with_mono ev ev' e :
  (forall e, refines (ev e) (ev' e)) ->
  refines (Eval.eval_with internal ev e) (Eval.eval_with internal ev' e).
Proof.
  intros Hev. destruct e; cbn [Eval.eval_with].
  all: repeat refine_step ltac:(first
    [ apply Hev | apply (eval_list_mono _ _ Hev) | apply (iter_loop_mono _ _ Hev)
    | apply (match_loop_mono _ _ Hev) | apply (alternative_mono _ _ Hev) ]).
Qed.

Lemma eval_step n e : refines (eval n e) (eval (S n) e).
Proof.
  revert e. induction n as [|n IH]; intros e; [by intros w Hw|]. by apply eval_with_mono.
Qed.

Lemma eval_mono e : mono (fun n => eval n e).
Proof.
  intros n m Hnm. induction Hnm; [apply refines_refl|].
  eapply refines_trans; [exact IHHnm|apply eval_step].
Qed.

(** ** Results are values *)

Notation value := (fun e : Expr => Expr.is_value e = true).

Lemma find_value (rs : list Expr) r : Forall value rs -> List.find Expr.is_return rs = Some r -> value r.
Proof.
  induction 1 as [|x rs Hx _ IH]; simpl; [done|]. destruct (Expr.is_return x); [|auto].
  intros; by simplify_eq.
Qed.

Lemma some_or_value o s : returns value (Eval.some_or (W := W) o s).
Proof.
  unfold Eval.some_or. eapply returns_bind; [apply returns_any|]. intros [l|] _; [by apply returns_ret|].
  apply returns_fail.
Qed.

(** Leaves of a proof that results are values. *)
Ltac leaf :=
  first [ done | apply returns_fail | apply some_or_value
        | apply returns_ret; simpl; solve [done | eauto] | intros ? ? ? ?; done ].

Lemma iter_result_value op lits acc res :
  Forall value res -> returns value (Eval.iter_result (W := W) op lits acc res).
Proof.
  intros Hres. unfold Eval.iter_result.
  destruct (List.find Expr.is_return res) eqn:E; [apply returns_ret; by eapply find_value|].
  destruct op; (eapply returns_bind; [apply returns_any|]; intros; try leaf).
  - eapply returns_bind; [apply returns_any|]; intros; leaf.
  - eapply returns_bind; [apply returns_any|]; intros; leaf.
  - eapply returns_bind; [apply returns_any|]; intros; leaf.
  - destruct a; leaf.
Qed.

Lemma call_service_value f args b : returns value (Eval.call_service f args b).
Proof.
  unfold Eval.call_service. destruct (FnHeaders.split f) as [[x m]|]; [|leaf].
  eapply returns_bind; [apply returns_any|]. intros lits _.
  destruct (_ || _); [intros w r w'; apply run_meta_value|].
  destruct b; [eapply returns_bind; [apply returns_any|]; intros; leaf|].
  intros w r w'; apply run_external_value.
Qed.

Lemma strip_return_value e : value e -> value (Expr.strip_return e).
Proof. by destruct e. Qed.

Section ev_value.
Variable ev : Expr -> Comp W Expr.
Hypothesis Hev : forall e, returns value (ev e).

Lemma eval_list_value es : returns (Forall value) (Eval.eval_list ev es).
Proof.
  induction es as [|e es IH]; simpl; [by apply returns_ret|].
  eapply returns_bind; [apply Hev|]. intros r Hr. eapply returns_bind; [apply IH|].
  intros rs Hrs. apply returns_ret. by constructor.
Qed.

Lemma iter_loop_value vs body lits acc res :
  OForall value acc -> Forall value res ->
  returns (fun p => OForall value p.1 /\ Forall value p.2) (Eval.iter_loop ev vs body lits acc res).
Proof.
  revert acc res. induction lits as [|l lits IH]; intros acc res Ha Hr; simpl; [by apply returns_ret|].
  eapply returns_bind; [apply returns_any|]. intros e1 _.
  eapply returns_bind; [apply returns_any|]. intros e2 _.
  eapply returns_bind; [apply Hev|]. intros tmp Ht. apply IH; [by destruct acc|].
  apply Forall_app. by split; [|constructor].
Qed.

Lemma match_loop_value ms :
  returns (Forall (fun r => value r.1 /\ OForall (Forall (fun kv => value kv.2)) r.2))
    (Eval.match_loop ev ms).
Proof.
  induction ms as [|[e p] ms IH]; simpl; [by apply returns_ret|].
  eapply returns_bind; [apply Hev|]. intros r Hr.
  eapply (returns_bind (fun o => run_match r p = Val o)); [by apply returns_lift|].
  intros [[e' b]|] Ho; [|leaf]. eapply returns_bind; [apply IH|]. intros rs Hrs. apply returns_ret.
  destruct (run_match_value _ _ _ _ Hr Ho) as [-> Hb]. constructor; [|done]. simpl.
  split; [done|]. destruct b; simpl; auto.
Qed.

Lemma alternative_value a : returns value (Eval.alternative_or_unit ev a).
Proof. destruct a; simpl; [apply Hev|leaf]. Qed.

Lemma value_only_value r : value r -> returns value (Eval.value_only (W := W) r).
Proof. destruct r; simpl; intros; try leaf; by apply returns_ret. Qed.

Lemma find_match_value (rs : list (Expr * option (BTreeMap string Expr))) r b :
  Forall (fun r => value r.1 /\ OForall (Forall (fun kv => value kv.2)) r.2) rs ->
  List.find (fun r => Expr.is_return r.1) rs = Some (r, b) -> value r.
Proof.
  induction 1 as [|[x c] rs [Hx _] _ IH]; simpl; [done|]. destruct (Expr.is_return x); [|auto].
  intros; by simplify_eq.
Qed.

Lemma eval_with_value e : returns value (Eval.eval_with internal ev e).
Proof.
  assert (Hshort : forall stop e1 e2, returns value (
    r ← ev e1;
    match r with
    | ReturnExpr _ => mret r
    | LitExpr l =>
      match Literal.dest_bool l with
      | Some b =>
        if Bool.eqb b stop then Eval.ok l
        else
          r ← ev e2;
          match r with
          | ReturnExpr _ => mret r
          | LitExpr l => if Literal.dest_bool l then Eval.ok l else Eval.err "eval, infix"
          | _ => Eval.err "eval, infix"
          end
      | None => Eval.err "eval, infix"
      end
    | _ => Eval.err "eval, infix"
    end)).
  { intros. eapply returns_bind; [apply Hev|]. intros r Hr. destruct r; try leaf.
    destruct (Literal.dest_bool l); [|leaf]. destruct (Bool.eqb b stop); [leaf|].
    eapply returns_bind; [apply Hev|]. intros r' Hr'. destruct r'; try leaf.
    destruct (Literal.dest_bool l0); leaf. }
  assert (Hbind : forall (o : Outcome Expr), returns value (x ← lift o; ev x)).
  { intros. eapply returns_bind; [apply returns_any|]. intros. apply Hev. }
  destruct e; cbn [Eval.eval_with]; try leaf.
  - eapply returns_bind; [apply Hev|]. intros r Hr. by apply returns_ret.
  - eapply returns_bind; [apply Hev|]. intros r Hr. destruct r; leaf.
  - destruct op; try apply Hshort.
    all: (eapply returns_bind; [apply Hev|]; intros r1 Hr1;
          eapply returns_bind; [apply Hev|]; intros r2 Hr2;
          destruct r1; try discriminate Hr1; destruct r2; try discriminate Hr2;
          leaf).
  - destruct es as [|e es]; [leaf|].
    destruct b; [| |eapply returns_bind; [apply Hev|]; intros r Hr;
                    destruct (_ || _); [by apply returns_ret|apply Hev]].
    all: (eapply returns_bind; [apply eval_list_value|]; intros rs Hrs;
          destruct (List.find Expr.is_return rs) eqn:E;
            [apply returns_ret; by eapply find_value|];
          eapply returns_bind; [apply returns_any|]; intros; leaf).
  - eapply returns_bind; [apply Hev|]. intros r Hr. destruct r; try leaf.
    destruct l; repeat (destruct (Nat.eqb _ _) || destruct (_ && _)); try apply Hbind; leaf.
  - eapply returns_bind; [apply Hev|]. intros r Hr. destruct r as [| |[]| | | | | | | | | | |]; try leaf;
      try (by apply returns_ret).
    eapply (returns_bind (OForall value)).
    { destruct acc as [[n a]|]; [|by apply returns_ret].
      eapply returns_bind; [apply Hev|]. intros x Hx. by apply returns_ret. }
    intros a Ha. eapply returns_bind; [by apply iter_loop_value|].
    intros [a' res] [_ Hres]. by apply iter_result_value.
  - eapply returns_bind; [apply Hev|]. intros r Hr. destruct r; try leaf.
    destruct (Literal.dest_bool l) as [[]|]; [apply Hev|apply alternative_value|leaf].
  - eapply returns_bind; [apply match_loop_value|]. intros rs Hrs.
    destruct (List.find _ rs) as [[r b]|] eqn:E; [apply returns_ret; by eapply find_match_value|].
    destruct (existsb _ rs).
    + destruct alternative; [|leaf]. eapply returns_bind; [apply Hev|]. intros. by apply value_only_value.
    + eapply returns_bind; [apply returns_any|]. intros c _.
      eapply returns_bind; [apply Hev|]. intros. by apply value_only_value.
  - eapply returns_bind; [apply Hev|]. intros r Hr. destruct r as [| |[| |[|? []]]| | | | | | | | | | |]; try leaf;
      try (by apply returns_ret); try apply alternative_value; apply Hbind.
  - eapply returns_bind; [apply eval_list_value|]. intros args Hargs.
    destruct (List.find Expr.is_return args) eqn:E; [apply returns_ret; by eapply find_value|].
    destruct (BTreeMap.get internal function).
    + eapply returns_bind; [apply returns_any|]. intros r _.
      eapply returns_bind; [apply Hev|]. intros v Hv. apply returns_ret. by apply strip_return_value.
    + destruct (FnHeaders.is_builtin function); [|apply call_service_value].
      intros w r w'. apply run_builtin_value.
Qed.
End ev_value.

Lemma eval_value n e : returns value (eval n e).
Proof.
  revert e. induction n as [|n IH]; intros e; [by intros w a w'|]. by apply eval_with_value.
Qed.
End theory.
