(* ===== verification/Termination.v ===== *)
(** * Termination of programs without recursion

    [rank] orders the functions of a program so that every function calls
    only functions of smaller rank; the calls of an expression to functions of
    the program are below a bound.  Evaluation then always returns: by
    induction on the bound and, below it, on a size that substituting values
    does not increase. *)

From Stdlib Require Import ZArith Lia String Ascii List.
From stdpp Require Import base tactics list strings sets.
From S2P Require Import Prelude.
From S2P Require Import Ordered.
From S2P Require Import Strings.
From S2P Require Import Labels.
From S2P Require Import Syntax.
From S2P Require Import Types.
From S2P Require Import Net.
From S2P Require Import Literals.
From S2P Require Import FnHeaders.
From S2P Require Import Expressions.
From S2P Require Import Interpret.
From S2P Require Import Meta.
From S2P Require Import Eval.
From S2P Require Import EvalTheory.

Local Open Scope string_scope.
Local Open Scope list_scope.

(** ** The functions an expression calls *)
Fixpoint forall_calls {FL} (p : string -> bool) (e : Expr FL) : bool :=
  let opt (a : option (Expr FL)) := match a with Some a => forall_calls p a | None => true end in
  match e with
  | Var _ | BVar _ _ | LitExpr _ => true
  | ReturnExpr e | PrefixExpr _ e | Closure _ e => forall_calls p e
  | InfixExpr _ e1 e2 | Let _ e1 e2 => forall_calls p e1 && forall_calls p e2
  | BlockExpr _ es => forallb (forall_calls p) es
  | IterExpr _ _ e1 e2 acc =>
    forall_calls p e1 && forall_calls p e2 &&
    match acc with Some (_, a) => forall_calls p a | None => true end
  | IfExpr c e a | IfSomeMatchExpr c e a => forall_calls p c && forall_calls p e && opt a
  | IfMatchExpr _ ms e a => forallb (fun m => forall_calls p m.1) ms && forall_calls p e && opt a
  | CallExpr f args _ => p f && forallb (forall_calls p) args
  end.

(** ** The size of an expression; values and variables have size 0. *)
Fixpoint size {FL} (e : Expr FL) : nat :=
  let opt (a : option (Expr FL)) := match a with Some a => size a | None => 0 end in
  match e with
  | Var _ | BVar _ _ | LitExpr _ => 0
  | ReturnExpr e => if Expr.is_value e then 0 else S (size e)
  | PrefixExpr _ e | Closure _ e => S (size e)
  | InfixExpr _ e1 e2 | Let _ e1 e2 => S (size e1 + size e2)
  | BlockExpr _ es => S (list_sum (map (fun e => S (size e)) es))
  | IterExpr _ _ e1 e2 acc =>
    S (size e1 + size e2 + match acc with Some (_, a) => size a | None => 0 end)
  | IfExpr c e a | IfSomeMatchExpr c e a => S (size c + size e + opt a)
  | IfMatchExpr _ ms e a => S (list_sum (map (fun m => S (size m.1)) ms) + size e + opt a)
  | CallExpr _ args _ => S (list_sum (map (fun e => S (size e)) args))
  end.

Section substitution.
Context {FL : Type}.
Implicit Types (e u : Expr FL).

Lemma forall_calls_value p e : Expr.is_value e = true -> forall_calls p e = true.
Proof. induction e using Expr_ind'; simpl; try done; auto. Qed.

Lemma size_value e : Expr.is_value e = true -> size e = 0.
Proof. destruct e; simpl; try done. by intros ->. Qed.

Lemma traverse_value f g d e : Expr.is_value e = true -> Expr.traverse f g d e = e.
Proof. induction e using Expr_ind'; simpl; try done. intros; f_equal; auto. Qed.

Lemma forall_calls_traverse p f g d e :
  (forall d v, forall_calls p (f d v) = true) -> (forall d v j, forall_calls p (g d v j) = true) ->
  forall_calls p e = true -> forall_calls p (Expr.traverse f g d e) = true.
Proof.
  intros Hf Hg. revert d. induction e using Expr_ind'; intros d; simpl; auto; intros;
    repeat match goal with
    | H : _ && _ = true |- _ => apply andb_true_iff in H as [? ?]
    | |- _ && _ = true => apply andb_true_iff; split
    end; auto.
  all: try match goal with
    Hl : forallb _ ?l = true, IH : Forall _ ?l |- _ =>
      clear -Hl IH Hf Hg; induction IH; simpl in *; [done|];
      apply andb_true_iff in Hl as [? ?]; apply andb_true_iff; auto end.
  all: try destruct acc as [[]|]; try destruct a; simpl in *; auto.
Qed.

Lemma size_traverse f g d e :
  (forall d v, size (f d v) = 0) -> (forall d v j, size (g d v j) = 0) ->
  size (Expr.traverse f g d e) <= size e.
Proof.
  intros Hf Hg. revert d. induction e using Expr_ind'; intros d; simpl;
    rewrite ?Hf, ?Hg; try lia; try (apply le_n_S, IHe); repeat match goal with IH : forall d, size _ <= size ?x |- _ =>
      specialize (IH d) end; try lia.
  all: try match goal with
    IH : Forall _ ?l |- context [list_sum (map ?h (map ?k ?l))] =>
      assert (list_sum (map h (map k l)) <= list_sum (map h l))
        by (clear -IH Hf Hg; induction IH as [|? ? Hx]; simpl; [lia|]; specialize (Hx d); simpl in *; lia) end.
  all: try destruct acc as [[]|]; try destruct a; simpl in *;
    repeat match goal with IH : forall d, size _ <= size ?x |- _ => specialize (IH d) end; try lia.
  destruct (Expr.is_value e) eqn:E; [by rewrite traverse_value, E|].
  destruct (Expr.is_value (Expr.traverse f g d e)); lia.
Qed.

Lemma shift_value i d e : Expr.is_value e = true -> Expr.shift i d e = e.
Proof. intros He. unfold Expr.shift. destruct (Nat.eqb i 0); [done|]. by apply traverse_value. Qed.

(** Applying a closure to a value. *)
Lemma apply_value p e u e' :
  Expr.is_value u = true -> Expr.apply e u = Ok e' -> forall_calls p e = true ->
  forall_calls p e' = true /\ size e' < size e.
Proof.
  intros Hu Ha Hc. destruct e; try done. simpl in *. simplify_eq. unfold Expr.subst. split.
  - apply forall_calls_traverse; [done| |done]. intros d v' j.
    destruct (Nat.compare j d); try done. rewrite shift_value by done. by apply forall_calls_value.
  - apply Nat.lt_succ_r. apply size_traverse; [done|]. intros d v' j.
    destruct (Nat.compare j d); try done. rewrite shift_value by done. by apply size_value.
Qed.

Lemma apply_named_value p ps e e' :
  Eval.apply_named e ps = Ok e' -> forall_calls p e = true ->
  forall_calls p e' = true /\ size e' <= size e.
Proof.
  revert e. induction ps as [|[v l] ps IH]; simpl; intros e Ha Hc; [by simplify_eq|].
  destruct (v =? "_"); [by apply IH|]. destruct (Expr.apply e (LitExpr l)) as [e1|] eqn:E; [|done].
  destruct (apply_value p _ (LitExpr l) _ eq_refl E Hc) as [Hc1 Hs1].
  destruct (IH _ Ha Hc1). split; [done|lia].
Qed.

Lemma apply_args_value p args e e' :
  Forall (fun a => Expr.is_value a = true) args ->
  Eval.apply_args e args = Ok e' -> forall_calls p e = true -> forall_calls p e' = true.
Proof.
  intros Hargs. revert e. induction Hargs as [|a args Hv _ IH]; simpl; intros e Ha Hc; [by simplify_eq|].
  destruct (Expr.apply e a) as [e1|] eqn:E; [|done].
  by destruct (IH _ Ha (proj1 (apply_value p _ _ _ Hv E Hc))).
Qed.

Lemma apply_element_value p vs l e e' :
  Eval.apply_element vs e l = Ok e' -> forall_calls p e = true ->
  forall_calls p e' = true /\ size e' <= size e.
Proof.
  unfold Eval.apply_element. intros Ha Hc.
  assert (forall ts, (if Nat.eqb (length vs) (length ts) then Eval.apply_named e (combine vs ts)
    else Err (error_new "eval, iter-expression (tuple length mismatch)")) = Ok e' ->
    forall_calls p e' = true /\ size e' <= size e) as Ht.
  { intros ts. destruct (Nat.eqb _ _); [|done]. intros. by eapply apply_named_value. }
  destruct vs as [|v [|]]; try (destruct l; try done; by eapply Ht).
  destruct (v =? "_"); [by simplify_eq|].
  destruct (apply_value p _ (LitExpr l) _ eq_refl Ha Hc). split; [done|lia].
Qed.

Lemma apply_variables_value p caps vs e e' :
  Forall (fun kv => Expr.is_value kv.2 = true) caps ->
  Eval.apply_variables e caps vs = Ok e' -> forall_calls p e = true ->
  forall_calls p e' = true /\ size e' <= size e.
Proof.
  intros Hcaps. revert e. induction vs as [|v vs IH]; simpl; intros e Ha Hc; [by simplify_eq|].
  destruct (BTreeMap.get caps v) as [u|] eqn:Eu; [|done].
  destruct (Expr.apply e u) as [e1|] eqn:E; [|done].
  assert (Expr.is_value u = true) as Hu.
  { apply BTreeMap.get_Some_elem in Eu. rewrite Forall_forall in Hcaps. by apply (Hcaps (v, u)). }
  destruct (apply_value p _ _ _ Hu E Hc) as [Hc1 Hs1]. destruct (IH _ Ha Hc1). split; [done|lia].
Qed.

Lemma insert_Forall_values (m : BTreeMap string (Expr FL)) k u :
  Expr.is_value u = true -> Forall (fun kv => Expr.is_value kv.2 = true) m ->
  Forall (fun kv => Expr.is_value kv.2 = true) (BTreeMap.insert k u m).
Proof.
  intros Hu. induction 1 as [|[k' u'] m Hx Hm IH]; simpl; [by constructor|].
  destruct (cmp k k'); repeat constructor; auto.
Qed.

Lemma all_captures_value (rs : list (Expr FL * option (BTreeMap string (Expr FL)))) :
  Forall (fun r => Expr.is_value r.1 = true /\
                   OForall (Forall (fun kv => Expr.is_value kv.2 = true)) r.2) rs ->
  Forall (fun kv => Expr.is_value kv.2 = true) (Eval.all_captures rs).
Proof.
  intros Hrs. unfold Eval.all_captures.
  assert (forall m : BTreeMap string (Expr FL), Forall (fun kv => Expr.is_value kv.2 = true) m ->
    Forall (fun kv => Expr.is_value kv.2 = true)
      (foldl (fun m r => match r.2 with
         | Some caps => foldl (fun m kv => BTreeMap.insert kv.1 kv.2 m) m caps
         | None => m end) m rs)) as H; [|apply H; constructor].
  induction Hrs as [|[r b] rs [_ Hb] _ IH]; simpl in *; intros m Hm; [done|]. apply IH.
  destruct b as [caps|]; [|done]. simpl in Hb. revert m Hm. induction Hb; simpl; intros m Hm; [done|].
  apply IHHb. by apply insert_Forall_values.
Qed.
End substitution.

Section termination.
Context {FT FL W : Type} `{TFlatTyp FT} `{TFlatLiteral FT FL} `{TBuiltin FT} `{InterpLaws FL W}.
Variable internal : BTreeMap string (Expr FL).
Variable rank : string -> nat.
Notation Expr := (Expr FL).
Notation eval := (Eval.eval internal).

(** The functions of the program that an expression calls rank below [k]. *)
Definition calls_below (k : nat) (e : Expr) : bool :=
  forall_calls (fun f => match BTreeMap.get internal f with Some _ => Nat.ltb (rank f) k | None => true end) e.

Definition ranked : Prop :=
  forall f body, BTreeMap.get internal f = Some body -> calls_below (rank f) body = true.

Notation halts e := (forall w, converges (fun n => eval n e) w).

(** Monotonicity of a computation built from [eval n]. *)
Ltac mono_tac :=
  let n := fresh in let m := fresh in let Hnm := fresh in
  intros n m Hnm;
  repeat refine_step ltac:(first
    [ apply eval_mono; exact Hnm
    | apply eval_list_mono; intros; apply eval_mono; exact Hnm
    | apply iter_loop_mono; intros; apply eval_mono; exact Hnm
    | apply match_loop_mono; intros; apply eval_mono; exact Hnm
    | apply alternative_mono; intros; apply eval_mono; exact Hnm ]).

Ltac bind := eapply converges_bind; [mono_tac|intros; mono_tac| |].

Lemma eval_with_converges e w :
  converges (fun n => Eval.eval_with internal (fun e => eval n e) e) w -> converges (fun n => eval n e) w.
Proof. intros [n Hn]. by exists (S n). Qed.

Lemma try_returns {A} (r : result A Error) : try r <> OutOfFuel.
Proof. by destruct r. Qed.

Lemma some_or_converges (o : Outcome (option (Literal FL))) s (w : W) :
  o <> OutOfFuel -> converges (fun _ => Eval.some_or o s) w.
Proof. intros Ho. apply converges_const. unfold Eval.some_or. by destruct o as [[]| | |]. Qed.

Lemma get_bool_returns (l : Literal FL) : Literal.get_bool l <> OutOfFuel.
Proof. unfold Literal.get_bool. by destruct (Literal.dest_bool l). Qed.

Lemma bools_until_returns stop (ls : list (Literal FL)) : Eval.bools_until stop ls <> OutOfFuel.
Proof.
  induction ls as [|l ls IH]; simpl; [done|]. pose proof (get_bool_returns l).
  destruct (Literal.get_bool l); simpl; try done. by destruct (Bool.eqb a stop).
Qed.

Lemma filter_lits_returns (ls bs : list (Literal FL)) : Eval.filter_lits ls bs <> OutOfFuel.
Proof.
  revert bs. induction ls as [|l ls IH]; intros [|b bs]; simpl; try done. pose proof (get_bool_returns b).
  destruct (Literal.get_bool b); simpl; try done. specialize (IH bs).
  by destruct (Eval.filter_lits ls bs).
Qed.

Lemma iter_result_converges op lits acc res w :
  converges (fun _ => Eval.iter_result (W := W) op lits acc res) w.
Proof.
  apply converges_const. unfold Eval.iter_result.
  destruct (List.find Expr.is_return res); [done|].
  assert (forall A B (o : Outcome A) (f : A -> Comp W B), o <> OutOfFuel ->
    (forall a, (f a w).1 <> OutOfFuel) -> ((x ← lift o; f x) w).1 <> OutOfFuel) as Hl.
  { intros A B o f Ho Hf. unfold lift, mbind, Comp_bind. destruct o; [apply Hf|done..]. }
  destruct op; apply Hl; try (apply try_returns); try done.
  - intros. apply Hl; [apply bools_until_returns|done].
  - intros. apply Hl; [apply bools_until_returns|done].
  - intros. apply Hl; [apply filter_lits_returns|done].
  - by destruct acc.
  - by intros [].
Qed.

Lemma call_service_converges f args b w : converges (fun _ => Eval.call_service f args b) w.
Proof.
  apply converges_const. unfold Eval.call_service. destruct (FnHeaders.split f) as [[x m]|]; [|done].
  unfold lift, mbind, Comp_bind. destruct (Expr.literal_vector args) as [lits|]; [|done]. simpl.
  destruct (_ || _); [apply run_meta_returns|]. destruct b; [|apply run_external_returns].
  pose proof (spawn_external_returns (mkCall x m lits) w).
  destruct (spawn_external (mkCall x m lits) w) as [[]]; done.
Qed.

Lemma value_converges e : Expr.is_value e = true -> halts e.
Proof.
  induction e using Expr_ind'; simpl; try done.
  - intros _ w. by exists 1.
  - intros He w. apply eval_with_converges. cbn. bind; [by apply IHe|]. intros. apply converges_ret.
Qed.

Lemma eval_list_converges es w :
  Forall (fun e => halts e) es -> converges (fun n => Eval.eval_list (fun e => eval n e) es) w.
Proof.
  intros Hes. revert w. induction Hes as [|e es He _ IH]; intros w; simpl; [apply converges_ret|].
  bind; [apply He|]. intros. bind; [apply IH|]. intros. apply converges_ret.
Qed.

(** A loop halts when its body does, on every element and accumulator. *)
Lemma iter_loop_converges k vs body lits acc res w :
  (forall e, calls_below k e = true -> size e <= size body -> halts e) ->
  calls_below k body = true -> OForall (fun a => Expr.is_value a = true) acc ->
  converges (fun n => Eval.iter_loop (fun e => eval n e) vs body lits acc res) w.
Proof.
  intros Hev Hb. revert acc res w. induction lits as [|l lits IH]; intros acc res w Ha; simpl;
    [apply converges_ret|].
  bind; [apply converges_lift, try_returns|]. intros _ e1 w1 E1.
  assert (calls_below k e1 = true /\ size e1 <= size body) as [Hc1 Hs1].
  { unfold lift in E1. destruct acc as [a|]; simpl in *; [|by simplify_eq].
    destruct (Expr.apply body a) as [x|] eqn:E; simpl in *; simplify_eq.
    destruct (apply_value _ _ _ _ Ha E Hb). split; [done|lia]. }
  bind; [apply converges_lift, try_returns|]. intros _ e2 w2 E2.
  assert (calls_below k e2 = true /\ size e2 <= size e1) as [Hc2 Hs2].
  { unfold lift in E2. destruct (Eval.apply_element vs e1 l) as [x|] eqn:E; simpl in *; simplify_eq.
    by eapply apply_element_value. }
  bind; [apply Hev; [done|lia]|]. intros n tmp w3 E3. apply IH.
  destruct acc; simpl; [|done]. by eapply eval_value.
Qed.

Lemma match_loop_converges ms w :
  Forall (fun m => halts m.1) ms -> converges (fun n => Eval.match_loop (fun e => eval n e) ms) w.
Proof.
  intros Hms. revert w. induction Hms as [|[e p] ms He _ IH]; intros w; simpl; [apply converges_ret|].
  bind; [apply He|]. intros. bind; [apply converges_lift, run_match_returns|]. intros _ [x|] w2 _.
  - bind; [apply IH|]. intros. apply converges_ret.
  - apply converges_fail.
Qed.

Lemma alternative_converges a w :
  OForall (fun e => halts e) a -> converges (fun n => Eval.alternative_or_unit (fun e => eval n e) a) w.
Proof. destruct a; simpl; intros Ha; [apply Ha|apply converges_ret]. Qed.

Lemma value_only_converges (r : Expr) w : converges (fun _ => Eval.value_only (W := W) r) w.
Proof. apply converges_const. by destruct r. Qed.

(** Evaluating the result of an application. *)
Lemma try_converges (r : result Expr Error) w :
  (forall e, r = Ok e -> halts e) -> converges (fun n => x ← lift (try r); eval n x) w.
Proof.
  intros Hr. bind; [apply converges_lift, try_returns|]. intros _ e w1 E1. apply Hr.
  unfold lift in E1. destruct r; simpl in *; by simplify_eq.
Qed.

(** ** One rule for each form of expression *)

(** All expressions no larger than [e] halt. *)
Definition halts_to (k : nat) (e : Expr) : Prop :=
  forall e', calls_below k e' = true -> size e' <= size e -> halts e'.

Ltac start := intros w; apply eval_with_converges; cbn [Eval.eval_with].
Ltac leaf := first [apply converges_ret | apply converges_fail | solve [eauto]].

Lemma return_converges e : halts e -> halts (ReturnExpr e).
Proof. intros He. start. bind; [apply He|]. intros. leaf. Qed.

Lemma prefix_converges p e : halts e -> halts (PrefixExpr p e).
Proof.
  intros He. start. bind; [apply He|]. intros _ r w1 _. destruct r; try leaf.
  apply some_or_converges, run_prefix_returns.
Qed.

Lemma infix_converges op e1 e2 : halts e1 -> halts e2 -> halts (InfixExpr op e1 e2).
Proof.
  intros H1' H2'. start.
  assert (forall (stop : bool), converges (fun n =>
    r ← eval n e1;
    match r with
    | ReturnExpr _ => mret r
    | LitExpr l =>
      match Literal.dest_bool l with
      | Some b =>
        if Bool.eqb b stop then Eval.ok l
        else
          r ← eval n e2;
          match r with
          | ReturnExpr _ => mret r
          | LitExpr l => if Literal.dest_bool l then Eval.ok l else Eval.err "eval, infix"
          | _ => Eval.err "eval, infix"
          end
      | None => Eval.err "eval, infix"
      end
    | _ => Eval.err "eval, infix"
    end) w) as Hshort.
  { intros stop. bind; [apply H1'|]. intros _ r w1 _. destruct r; try leaf.
    destruct (Literal.dest_bool l); [|leaf]. destruct (Bool.eqb _ _); [leaf|].
    bind; [apply H2'|]. intros _ r' w2 _. destruct r'; try leaf. destruct (Literal.dest_bool _); leaf. }
  destruct op; try apply Hshort.
  all: bind; [apply H1'|]; intros _ r1 w1 _; bind; [apply H2'|]; intros _ r2 w2 _;
    destruct r1; try leaf; destruct r2; try leaf; apply some_or_converges, run_infix_returns.
Qed.

Lemma block_converges b es : Forall (fun e => halts e) es -> halts (BlockExpr b es).
Proof.
  induction 1 as [|e es He Hes IH]; start; [leaf|].
  assert (converges (fun n =>
    rs ← Eval.eval_list (fun e => eval n e) (e :: es);
    match List.find Expr.is_return rs with
    | Some r => mret r
    | None =>
      lits ← lift (try (Expr.literal_vector rs));
      Eval.ok (match b with BList => LList lits | _ => LTuple lits end)
    end) w) as Hlist.
  { bind; [by apply eval_list_converges; constructor|]. intros _ rs w1 _.
    destruct (List.find _ _); [leaf|]. bind; [apply converges_lift, try_returns|]. intros. leaf. }
  destruct b; try apply Hlist.
  bind; [apply He|]. intros _ r w1 _. destruct (_ || _); [leaf|apply IH].
Qed.

Lemma let_converges k vs e1 e2 :
  halts e1 -> halts_to k e2 -> calls_below k e2 = true -> halts (Let vs e1 e2).
Proof.
  intros H1' H2' Hc. start. bind; [apply H1'|]. intros _ r w1 _.
  assert (forall l w, converges (fun n => x ← lift (try (Expr.apply e2 (LitExpr l))); eval n x) w) as Hone.
  { intros l w'. apply try_converges. intros e' He'.
    destruct (apply_value _ _ (LitExpr l) _ eq_refl He' Hc). apply H2'; [done|lia]. }
  assert (forall ps w, converges (fun n => x ← lift (try (Eval.apply_named e2 ps)); eval n x) w) as Hps.
  { intros ps w'. apply try_converges. intros e' He'.
    destruct (apply_named_value _ _ _ _ He' Hc). by apply H2'. }
  destruct r; try leaf. destruct l; repeat (destruct (Nat.eqb _ _) || destruct (_ && _)); try leaf;
    auto.
Qed.

Lemma iter_converges k op vs e1 e2 acc :
  halts e1 -> OForall (fun a => halts a.2) acc -> halts_to k e2 -> calls_below k e2 = true ->
  halts (IterExpr op vs e1 e2 acc).
Proof.
  intros H1' Ha H2' Hc. start. bind; [apply H1'|]. intros _ r w1 _.
  destruct r as [| |[]| | | | | | | | | | |]; try leaf. bind.
  - destruct acc as [[x a]|]; [|leaf]. bind; [apply Ha|]. intros. leaf.
  - intros n a w2 E. bind; [|intros _ [a' res] w3 _; apply iter_result_converges].
    apply (iter_loop_converges k); [done|done|].
    destruct acc as [[x a0]|]; [|by unfold mret, Comp_ret in E; simplify_eq].
    unfold mbind, Comp_bind, mret, Comp_ret in E. destruct (eval n a0 w1) as [[v|?| |] w'] eqn:Ev;
      simplify_eq. simpl. by eapply eval_value.
Qed.

Lemma if_converges c e a : halts c -> halts e -> OForall (fun a => halts a) a -> halts (IfExpr c e a).
Proof.
  intros Hc He Ha. start. bind; [apply Hc|]. intros _ r w1 _. destruct r; try leaf.
  destruct (Literal.dest_bool l) as [[]|]; [apply He|by apply alternative_converges|leaf].
Qed.

Lemma if_some_converges k c e a :
  halts c -> halts_to k e -> calls_below k e = true -> OForall (fun a => halts a) a ->
  halts (IfSomeMatchExpr c e a).
Proof.
  intros Hc He Hk Ha. start. bind; [apply Hc|]. intros _ r w1 _.
  destruct r as [| |[| |[|? []]]| | | | | | | | | | |]; try leaf; try by apply alternative_converges.
  apply try_converges. intros e' He'.
  destruct (apply_value _ _ (LitExpr l) _ eq_refl He' Hk). apply He; [done|lia].
Qed.

Lemma if_match_converges k vs ms e a :
  Forall (fun m => halts m.1) ms -> halts_to k e -> calls_below k e = true ->
  OForall (fun a => halts a) a -> halts (IfMatchExpr vs ms e a).
Proof.
  intros Hms He Hk Ha. start. bind; [by apply match_loop_converges|]. intros n rs w1 Hrs.
  assert (Forall (fun r => Expr.is_value r.1 = true /\
    OForall (Forall (fun kv => Expr.is_value kv.2 = true)) r.2) rs) as Hv.
  { eapply match_loop_value; [|exact Hrs]. apply eval_value. }
  destruct (List.find _ rs) as [[]|]; [leaf|]. destruct (existsb _ rs).
  - destruct a; simpl in *; [|leaf]. bind; [apply Ha|]. intros. apply value_only_converges.
  - bind; [apply converges_lift, try_returns|]. intros _ c w2 E.
    bind; [|intros; apply value_only_converges]. unfold lift in E.
    destruct (Eval.apply_variables e (Eval.all_captures rs) vs) as [c'|] eqn:Ec; simpl in *; simplify_eq.
    destruct (apply_variables_value _ _ _ _ _ (all_captures_value _ Hv) Ec Hk). by apply He.
Qed.

Lemma call_converges f args b :
  ranked -> Forall (fun e => halts e) args ->
  (forall body e, BTreeMap.get internal f = Some body -> calls_below (rank f) e = true -> halts e) ->
  halts (CallExpr f args b).
Proof.
  intros Hr Hargs Hf. start. bind; [by apply eval_list_converges|]. intros n vs w1 E.
  assert (Forall (fun a => Expr.is_value a = true) vs) as Hvs.
  { eapply eval_list_value; [|exact E]. apply eval_value. }
  destruct (List.find _ vs); [leaf|]. destruct (BTreeMap.get internal f) as [body|] eqn:Eb.
  - bind; [apply converges_lift, try_returns|]. intros _ r w2 Er. unfold lift in Er.
    destruct (Eval.apply_args body vs) as [r'|] eqn:Ea; simpl in *; simplify_eq.
    bind; [|intros; leaf]. eapply Hf; [done|]. eapply apply_args_value; [done..|]. by apply Hr.
  - destruct (FnHeaders.is_builtin f); [apply converges_const, run_builtin_returns|].
    apply call_service_converges.
Qed.

Lemma Forall_below {A} (f : A -> Expr) k N (l : list A) :
  (forall e, calls_below k e = true -> size e < N -> halts e) ->
  forallb (fun x => calls_below k (f x)) l = true ->
  list_sum (map (fun x => S (size (f x))) l) <= N -> Forall (fun x => halts (f x)) l.
Proof.
  intros IH. induction l as [|x l IHl]; simpl; [done|]. intros [Hx Hl]%andb_true_iff Hs.
  constructor; [apply IH; [done|lia]|apply IHl; [done|lia]].
Qed.

(** An expression whose calls rank below [k] halts, when the bodies of the
    functions of smaller rank do and smaller expressions do. *)
Lemma converges_by_size k :
  ranked -> (forall k' e, k' < k -> calls_below k' e = true -> halts e) ->
  forall N e, size e < N -> calls_below k e = true -> halts e.
Proof.
  intros Hr IHk. induction N as [|N IH]; [lia|]. intros e Hs Hc.
  assert (forall e', calls_below k e' = true -> size e' < N -> halts e') as IHs by (intros; by apply IH).
  assert (forall e', size e' < N -> halts_to k e') as IHt by (intros e' ? e'' ? ?; apply IHs; [done|lia]).
  unfold calls_below in Hc. destruct e; cbn [forall_calls size] in Hc, Hs;
    repeat match goal with H : _ && _ = true |- _ => apply andb_true_iff in H as [? ?] end.
  - start. leaf.
  - start. leaf.
  - by apply value_converges.
  - destruct (Expr.is_value e) eqn:Ev; [by apply value_converges|]. apply return_converges, IHs; [done|lia].
  - apply prefix_converges, IHs; [done|lia].
  - apply infix_converges; apply IHs; solve [done|lia].
  - apply block_converges. by apply (Forall_below (fun e => e) k N); [..|lia].
  - apply (let_converges k); [apply IHs; [done|lia]|apply IHt; lia|done].
  - apply (iter_converges k); [apply IHs; [done|lia]| |apply IHt; lia|done].
    destruct acc as [[]|]; simpl; [|done]. apply IHs; [done|lia].
  - start. leaf.
  - apply if_converges; [apply IHs; [done|lia]..|]. destruct alternative; simpl; [|done].
    apply IHs; [done|lia].
  - apply (if_match_converges k).
    + apply (Forall_below fst k N); [done..|lia].
    + apply IHt; lia.
    + done.
    + destruct alternative; simpl; [|done]. apply IHs; [done|lia].
  - apply (if_some_converges k); [apply IHs; [done|lia]|apply IHt; lia|done|].
    destruct alternative; simpl; [|done]. apply IHs; [done|lia].
  - apply call_converges; [done|by apply (Forall_below (fun e => e) k N); [..|lia]|].
    intros body e Hb He. apply (IHk (rank function)); [|done]. rewrite Hb in *. by apply Nat.ltb_lt.
Qed.

Lemma calls_below_converges : ranked -> forall k e, calls_below k e = true -> halts e.
Proof.
  intros Hr k. induction k as [k IH] using lt_wf_ind. intros e.
  apply (converges_by_size k Hr) with (N := S (size e)); [|lia]. intros k' e' Hk. by apply IH.
Qed.

(** Every call of the program ranks below the maximum of the ranks. *)
Definition top_rank : nat := S (max_list (map (fun kv => rank kv.1) internal)).

Lemma calls_below_top e : calls_below top_rank e = true.
Proof.
  unfold calls_below. induction e using Expr_ind'; simpl; try done;
    repeat (apply andb_true_iff; split); try (by apply forallb_Forall); try done.
  all: try (destruct acc as [[]|]; done). all: try (destruct a; done).
  match goal with |- context [BTreeMap.get internal ?f] =>
    destruct (BTreeMap.get internal f) eqn:E; [|done]; apply BTreeMap.get_Some_elem in E end.
  apply Nat.ltb_lt, Nat.lt_succ_r. apply (list_elem_of_fmap_2 (fun kv => rank kv.1)) in E.
  by apply max_list_elem_of_le in E.
Qed.
End termination.
