(* ===== verification/TypeCheckTheory.v ===== *)
(** * What the checker guarantees of the expressions it compiles

    The expressions are closed: every index is bound and every free variable
    is declared.  They call builtins and declared functions only, and the set
    of calls reported to the call graph has every call of a function that is
    not a builtin. *)

From Stdlib Require Import ZArith Lia String Ascii List.
From stdpp Require Import base tactics list strings sets.
From S2P Require Import Prelude.
From S2P Require Import Ordered.
From S2P Require Import Strings.
From S2P Require Import Labels.
From S2P Require Import Syntax.
From S2P Require Import Types.
From S2P Require Import Net.
From S2P Require Import Literals.
From S2P Require Import Ast.
From S2P Require Import FnHeaders.
From S2P Require Import Expressions.
From S2P Require Import Interpret.
From S2P Require Import Meta.
From S2P Require Import Eval.
From S2P Require Import EvalTheory.
From S2P Require Import Termination.
From S2P Require Import TypeCheck.

Local Open Scope string_scope.
Local Open Scope list_scope.

(** ** Sets of calls *)

Lemma calls_insert c x s : c ∈ Calls.insert x s <-> c ∈ s \/ c = x.
Proof. unfold Calls.insert. destruct (decide (x ∈ s)); set_solver. Qed.

Lemma calls_extend c s t : c ∈ Calls.extend s t <-> c ∈ s \/ c ∈ t.
Proof.
  unfold Calls.extend. revert s. induction t as [|x t IH]; intros s; simpl; [set_solver|].
  rewrite IH, calls_insert. set_solver.
Qed.

Lemma calls_union c v : c ∈ Calls.union v <-> exists s, s ∈ v /\ c ∈ s.
Proof.
  unfold Calls.union.
  assert (forall acc, c ∈ foldl Calls.extend acc v <-> c ∈ acc \/ exists s, s ∈ v /\ c ∈ s) as H.
  { induction v as [|s v IH]; intros acc; simpl; [set_solver|]. rewrite IH, calls_extend. set_solver. }
  rewrite H. set_solver.
Qed.

(** ** Well-formed expressions *)
Section wf.
Context {FL : Type}.
Implicit Types (e : Expr FL) (D N : string -> bool).

(** No unbound index; free variables in [D]; calls in [N]. *)
Record wf_expr D N e : Prop := {
  wf_lc : Expr.lc 0 e = true;
  wf_fv : Expr.fv_ok D e = true;
  wf_calls : forall_calls N e = true;
}.

Lemma forall_calls_impl N N' e :
  (forall f, N f = true -> N' f = true) -> forall_calls N e = true -> forall_calls N' e = true.
Proof.
  intros HN. induction e using Expr_ind'; simpl; auto; intros;
    repeat match goal with
    | H : _ && _ = true |- _ => apply andb_true_iff in H as [? ?]
    | |- _ && _ = true => apply andb_true_iff; split
    end; auto.
  all: try match goal with
    Hl : forallb _ ?l = true, IH : Forall _ ?l |- forallb _ ?l = true =>
      clear -Hl IH HN; induction IH; simpl in *; [done|];
      apply andb_true_iff in Hl as [? ?]; apply andb_true_iff; auto end.
  all: try destruct acc as [[]|]; try destruct a; simpl in *; auto.
Qed.

Lemma wf_impl D D' N N' e :
  (forall w, D w = true -> D' w = true) -> (forall f, N f = true -> N' f = true) ->
  wf_expr D N e -> wf_expr D' N' e.
Proof.
  intros HD HN [Hl Hf Hc]. split; [done| |by eapply forall_calls_impl].
  unfold Expr.fv_ok in *. eapply forall_vars_impl; [|done|exact Hf]. auto.
Qed.

Lemma Forall_wf {A} (f : A -> Expr FL) D N (l : list A) :
  Forall (fun x => wf_expr D N (f x)) l <->
  forallb (fun x => Expr.lc 0 (f x)) l = true /\ forallb (fun x => Expr.fv_ok D (f x)) l = true /\
  forallb (fun x => forall_calls N (f x)) l = true.
Proof.
  rewrite !forallb_Forall, !Forall_forall. split.
  - intros H. split_and!; intros x Hx; by destruct (H x Hx).
  - intros (H1 & H2 & H3) x Hx. split; auto.
Qed.

Lemma wf_value D N e : Expr.is_value e = true -> wf_expr D N e.
Proof. intros He. split; [by apply lc_value|by apply fv_value|by apply forall_calls_value]. Qed.

Lemma wf_var D N v : D v = true -> wf_expr D N (Var v).
Proof. intros Hv. by split. Qed.
Lemma wf_prefix D N p e : wf_expr D N e -> wf_expr D N (PrefixExpr p e).
Proof. intros []. by split. Qed.
Lemma wf_return D N e : wf_expr D N e -> wf_expr D N (ReturnExpr e).
Proof. intros []. by split. Qed.
Lemma wf_infix D N op e1 e2 : wf_expr D N e1 -> wf_expr D N e2 -> wf_expr D N (InfixExpr op e1 e2).
Proof.
  intros [Hl1 Hf1 Hc1] [Hl2 Hf2 Hc2].
  split; unfold Expr.lc, Expr.fv_ok in *; simpl; by apply andb_true_iff.
Qed.
Lemma wf_block D N b es : Forall (wf_expr D N) es -> wf_expr D N (BlockExpr b es).
Proof.
  intros H. apply (Forall_wf (fun e => e)) in H as (? & ? & ?). by split.
Qed.
Lemma wf_call D N f args b : N f = true -> Forall (wf_expr D N) args -> wf_expr D N (CallExpr f args b).
Proof.
  intros Hf H. apply (Forall_wf (fun e => e)) in H as (? & ? & Hc). split; [done|done|].
  simpl. rewrite Hf. exact Hc.
Qed.
Lemma wf_if D N c e a :
  wf_expr D N c -> wf_expr D N e -> OForall (wf_expr D N) a -> wf_expr D N (IfExpr c e a).
Proof.
  intros [] [] Ha. split; unfold Expr.lc, Expr.fv_ok in *; simpl; rewrite !andb_true_iff;
    (split_and!; [done..|]); destruct a; try done; by destruct Ha.
Qed.
Lemma wf_if_some D N c e a :
  wf_expr D N c -> wf_expr D N e -> OForall (wf_expr D N) a -> wf_expr D N (IfSomeMatchExpr c e a).
Proof.
  intros [] [] Ha. split; unfold Expr.lc, Expr.fv_ok in *; simpl; rewrite !andb_true_iff;
    (split_and!; [done..|]); destruct a; try done; by destruct Ha.
Qed.
Lemma wf_if_match D N vs ms e a :
  Forall (fun m => wf_expr D N m.1) ms -> wf_expr D N e -> OForall (wf_expr D N) a ->
  wf_expr D N (IfMatchExpr vs ms e a).
Proof.
  intros (? & ? & ?)%Forall_wf [] Ha. split; unfold Expr.lc, Expr.fv_ok in *; simpl; rewrite !andb_true_iff;
    (split_and!; [done..|]); destruct a; try done; by destruct Ha.
Qed.

(** Closing a variable removes it from the free variables. *)
Lemma wf_closure D N v e :
  D "_" = true -> wf_expr (fun w => (w =? v) || D w) N e -> wf_expr D N (Expr.closure_expr v e).
Proof.
  intros HD [Hl Hf Hc]. split.
  - by apply lc_closure_expr.
  - apply fv_closure_expr. unfold Expr.fv_ok in *. eapply forall_vars_impl; [|done|exact Hf].
    intros d w [Hw%String.eqb_eq|Hw]%orb_true_iff; apply orb_true_iff; [|by right].
    subst w. rewrite String.eqb_refl. simpl.
    destruct (String.eqb_spec v "_") as [->|]; [by right|by left].
  - unfold Expr.closure_expr. destruct (v =? "_"); [done|]. simpl. unfold Expr.abs.
    apply forall_calls_traverse; [intros d w; by destruct (w =? v)|done|done].
Qed.

Lemma wf_close_all D N vs e :
  D "_" = true -> wf_expr (fun w => existsb (String.eqb w) vs || D w) N e -> wf_expr D N (Expr.close_all vs e).
Proof.
  intros HD. revert D HD. induction vs as [|v vs IH]; intros D HD He; simpl; [done|].
  apply wf_closure; [done|]. apply IH; [by rewrite HD, orb_true_r|].
  eapply wf_impl; [|done|exact He]. intros w. simpl.
  destruct (w =? v); simpl; [by rewrite orb_true_r|done].
Qed.

Lemma wf_let D N vs e1 e2 :
  D "_" = true -> wf_expr D N e1 -> wf_expr (fun w => existsb (String.eqb w) vs || D w) N e2 ->
  wf_expr D N (Expr.let_expr vs e1 e2).
Proof.
  intros HD H1 H2. unfold Expr.let_expr. case_bool_decide as Hvs.
  - apply wf_block. apply Forall_cons_2; [done|]. apply Forall_cons_2; [|apply Forall_nil_2].
    subst vs. eapply wf_impl; [|done|exact H2].
    intros w. simpl. destruct (String.eqb_spec w "_") as [->|]; simpl; done.
  - pose proof (wf_close_all _ _ _ _ HD H2) as [Hl2 Hf2 Hc2]. destruct H1.
    split; unfold Expr.lc, Expr.fv_ok in *; simpl; by apply andb_true_iff.
Qed.

Lemma wf_iter D N op vs e1 e2 acc :
  D "_" = true -> wf_expr D N e1 -> OForall (fun a => wf_expr D N a.2) acc ->
  wf_expr (fun w => existsb (String.eqb w) vs || match acc with Some (n, _) => w =? n | None => false end || D w) N e2 ->
  wf_expr D N (Expr.iter_expr op vs e1 acc e2).
Proof.
  intros HD H1 Ha H2. unfold Expr.iter_expr.
  assert (wf_expr D N (match acc with
    | Some (n, _) => Expr.closure_expr n (Expr.close_all vs e2) | None => Expr.close_all vs e2 end)) as [Hl Hf Hc].
  { destruct acc as [[n a]|].
    - apply wf_closure; [done|]. apply wf_close_all; [by rewrite HD, orb_true_r|].
      eapply wf_impl; [|done|exact H2]. intros w. by rewrite orb_assoc.
    - apply wf_close_all; [done|]. eapply wf_impl; [|done|exact H2]. intros w. simpl. by rewrite orb_false_r. }
  destruct H1. split; unfold Expr.lc, Expr.fv_ok in *; simpl; rewrite !andb_true_iff;
    (split_and!; [done..|]); destruct acc as [[n a]|]; simpl in *; try done; by destruct Ha.
Qed.
End wf.

(** ** Compilation *)
Section compile.
Context {FT FL : Type} `{TFlatTyp FT} `{TFlatLiteral FT FL} `{TBuiltin FT} `{Lib} `{RegexNew} `{HashOrder}.
Variable headers : FnHeaders FT.
Notation Context := (Context FT).
Notation EM := (ExprAndMeta FT FL).
Notation from_expr := (TypeCheck.from_expr (FL := FL) headers).
Notation from_loc_expr := (TypeCheck.from_loc_expr (FL := FL) headers).
Notation from_block_stmt := (TypeCheck.from_block_stmt (FL := FL) headers).

(** The declared variables; [_] is never bound by a closure. *)
Definition in_ctxt (c : Context) (w : string) : bool :=
  (w =? "_") || match Context.var c w with Some _ => true | None => false end.

(** A call of a builtin, or one reported and declared. *)
Definition known (calls : Calls) (f : string) : bool :=
  (f =? "option::Some") || FnHeaders.is_builtin (FT := FT) f ||
  (existsb (fun c => cs_name c =? f) calls &&
   match FnHeaders.typ headers f with Some _ => true | None => false end).

Definition good (c : Context) (em : EM) : Prop := wf_expr (in_ctxt c) (known (em_calls em)) (em_expr em).
Definition ctxt_wf (c : Context) : Prop := BTreeMap.wf (variables c).

Lemma known_mono s v f : s ∈ v -> known s f = true -> known (Calls.union v) f = true.
Proof.
  unfold known. intros Hs. rewrite !orb_true_iff, !andb_true_iff, !existsb_Exists, !Exists_exists.
  intros [?|((c & Hc & Hn) & ?)]; [by left|]. right. split; [|done]. exists c.
  split; [|done]. apply calls_union. eauto.
Qed.

Lemma good_in c em v :
  good c em -> em_calls em ∈ v -> wf_expr (in_ctxt c) (known (Calls.union v)) (em_expr em).
Proof. intros Hg Hv. eapply wf_impl; [done| |exact Hg]. intros f. by apply known_mono. Qed.

Lemma good_all c ems v :
  Forall (good c) ems -> (forall em, em ∈ ems -> em_calls em ∈ v) ->
  Forall (fun em => wf_expr (in_ctxt c) (known (Calls.union v)) (em_expr em)) ems.
Proof.
  rewrite !Forall_forall. intros Hg Hv em Hem. apply good_in; auto.
Qed.

Lemma in_ctxt_underscore c : in_ctxt c "_" = true.
Proof. done. Qed.

Lemma ctxt_wf_add c v t : ctxt_wf c -> ctxt_wf (Context.add_var c v t).
Proof. intros Hc. unfold ctxt_wf. simpl. by apply BTreeMap.wf_insert. Qed.

Lemma in_ctxt_add c v t w :
  ctxt_wf c -> in_ctxt (Context.add_var c v t) w = true -> (w =? v) || in_ctxt c w = true.
Proof.
  intros Hc. unfold in_ctxt, Context.var. simpl. destruct (String.eqb_spec w v) as [->|Hne]; [done|].
  rewrite BTreeMap.get_insert_ne by done. done.
Qed.

Lemma ctxt_wf_adds c vs : ctxt_wf c -> ctxt_wf (Context.add_vars c vs).
Proof.
  unfold Context.add_vars. revert c. induction vs as [|v vs IH]; intros c Hc; simpl; [done|].
  apply IH. by apply ctxt_wf_add.
Qed.

Lemma in_ctxt_adds c vs w :
  ctxt_wf c -> in_ctxt (Context.add_vars c vs) w = true ->
  existsb (String.eqb w) (map fst vs) || in_ctxt c w = true.
Proof.
  unfold Context.add_vars. revert c. induction vs as [|[v t] vs IH]; intros c Hc; simpl; [done|].
  intros Hw. specialize (IH _ (ctxt_wf_add _ v t Hc) Hw). apply orb_true_iff in IH as [->|IH].
  - by rewrite orb_true_r.
  - apply in_ctxt_add in IH; [|done]. apply orb_true_iff in IH as [->| ->]; [done|by rewrite orb_true_r].
Qed.

Lemma wf_weaken_ctxt c c' N (e : Expr FL) :
  (forall w, in_ctxt c w = true -> in_ctxt c' w = true) -> wf_expr (in_ctxt c) N e -> wf_expr (in_ctxt c') N e.
Proof. intros Hw. by apply wf_impl. Qed.

(** What the checks return. *)
Lemma iter_vars_ctxt op l ids t c vs c' :
  ctxt_wf c -> TypeCheck.iter_vars op l ids t c = Ok (vs, c') ->
  ctxt_wf c' /\ forall w, in_ctxt c' w = true -> existsb (String.eqb w) vs || in_ctxt c w = true.
Proof.
  intros Hc. unfold TypeCheck.iter_vars. destruct t as [|t|]; try done.
  destruct ids as [|i [|i' ids]].
  - destruct t as [| |tys]; try done. destruct (Nat.eqb _ _); [|done]. intros Hi; simplify_eq. done.
  - intros Hi; simplify_eq. split; [by apply ctxt_wf_add|]. intros w Hw. simpl.
    apply in_ctxt_add in Hw; [|done]. by rewrite orb_false_r.
  - destruct t as [| |tys]; try done. destruct (Nat.eqb _ _) eqn:El; [|done].
    intros Hi; injection Hi as <- <-. split; [by apply (ctxt_wf_adds _ (combine (map Syntax.id (i :: i' :: ids)) tys))|].
    intros w Hw. apply (in_ctxt_adds _ (combine (map Syntax.id (i :: i' :: ids)) tys)) in Hw; [|done].
    apply Nat.eqb_eq in El. rewrite map_fst_combine in Hw by (rewrite length_map; lia). done.
Qed.

Lemma let_vars_ctxt l ids t c vs c' :
  ctxt_wf c -> TypeCheck.let_vars l ids t c = Ok (vs, c') ->
  ctxt_wf c' /\ forall w, in_ctxt c' w = true -> existsb (String.eqb w) vs || in_ctxt c w = true.
Proof.
  intros Hc. unfold TypeCheck.let_vars. 
  destruct ids as [|i [|i' ids]].
  - destruct t as [| |tys]; try done. destruct (Nat.eqb _ _); [|done]. intros Hi; simplify_eq. done.
  - intros Hi; simplify_eq. split; [by apply ctxt_wf_add|]. intros w Hw. simpl.
    apply in_ctxt_add in Hw; [|done]. by rewrite orb_false_r.
  - destruct t as [| |tys]; try done. destruct (Nat.eqb _ _) eqn:El; [|done].
    intros Hi; injection Hi as <- <-. split; [by apply (ctxt_wf_adds _ (combine (map Syntax.id (i :: i' :: ids)) tys))|].
    intros w Hw. apply (in_ctxt_adds _ (combine (map Syntax.id (i :: i' :: ids)) tys)) in Hw; [|done].
    apply Nat.eqb_eq in El. rewrite map_fst_combine in Hw by (rewrite length_map; lia). done.
Qed.

(** ** The pieces of the compiler *)

(** What the recursive calls promise. *)
Definition cexpr (e : PExpr FL) : Prop := forall l c, ctxt_wf c -> returns (good c) (from_expr l e c).
Definition cloc (e : LocExpr FL) : Prop := forall c, ctxt_wf c -> returns (good c) (from_loc_expr e c).
Definition cblock (b : BlockStmt FL) : Prop := forall c, ctxt_wf c -> returns (good c) (from_block_stmt b c).

Ltac skip := eapply returns_bind; [apply returns_any|]; intros ? _.
(** One recursive call, and a part of the new expression. *)
Ltac rec H em Hg := eapply returns_bind; [apply H; assumption|]; intros em Hg.
Ltac part em := cbn [OForall snd]; eapply (good_in _ em); [eassumption|set_solver].

Lemma map_m_good {A} (f : A -> Comp (option (Typ FT)) EM) c l :
  Forall (fun x => returns (good c) (f x)) l -> returns (Forall (good c)) (TypeCheck.map_m f l).
Proof.
  induction 1 as [|x l Hx _ IH]; simpl; [by apply returns_ret|].
  eapply returns_bind; [exact Hx|]. intros y Hy. eapply returns_bind; [exact IH|]. intros ys Hys.
  apply returns_ret. by constructor.
Qed.

Lemma list_elems_good f c es t :
  Forall (fun x => returns (good c) (f x)) es ->
  returns (fun r => Forall (good c) r.1) (TypeCheck.list_elems (FT := FT) (FL := FL) f es t).
Proof.
  intros Hes. revert t. induction Hes as [|x l Hx _ IH]; intros t; simpl; [by apply returns_ret|].
  eapply returns_bind; [exact Hx|]. intros y Hy. skip.
  eapply returns_bind; [apply IH|]. intros [ys t'] Hys. apply returns_ret. by constructor.
Qed.

Lemma block_good c b ems t v :
  Forall (good c) ems -> v = map em_calls ems -> good c (ExprAndMeta_new (BlockExpr b (map em_expr ems)) t v).
Proof.
  intros Hg ->. apply wf_block. apply Forall_map. apply good_all; [done|].
  intros em Hem. by apply list_elem_of_fmap_2.
Qed.

Lemma check_call_good eloc loc f locs ems c :
  Forall (good c) ems -> returns (good c) (TypeCheck.check_call headers eloc loc f locs ems c).
Proof.
  intros Hg. unfold TypeCheck.check_call. skip. rename a into g.
  destruct (FnHeaders.typ headers g) as [s|] eqn:Et.
  - destruct (Signature.split s) as [args typ]. skip. skip. apply returns_ret. apply wf_call.
    + unfold known. rewrite Et. rewrite !orb_true_iff, andb_true_iff. right. split; [|done].
      apply existsb_Exists, Exists_exists. exists (mkCallSite loc g). split; [|apply String.eqb_refl].
      apply calls_union. exists [mkCallSite loc g]. set_solver.
    + apply Forall_map. apply good_all; [done|]. intros em Hem. apply elem_of_app. left.
      by apply list_elem_of_fmap_2.
  - destruct (parse_usize g) as [i|] eqn:Ep; [|apply returns_fail].
    destruct (map em_typ ems) as [|[| |l] [|]]; try apply returns_fail.
    destruct (Z.ltb _ _); [|apply returns_fail]. skip. apply returns_ret. apply wf_call.
    + unfold known, FnHeaders.is_builtin. rewrite Ep. rewrite (bool_decide_eq_true_2 (is_Some (Some i))) by done.
      by rewrite !orb_true_r.
    + apply Forall_map. apply good_all; [done|]. intros em Hem. by apply list_elem_of_fmap_2.
Qed.

Lemma hash_order_names (vars : list (string * As)) w :
  existsb (String.eqb w) (map fst vars) = true -> existsb (String.eqb w) (map fst (hash_order vars)) = true.
Proof.
  rewrite !existsb_Exists, !Exists_exists. intros (x & Hx & Hw). exists x. split; [|done].
  assert (map fst (hash_order vars) ≡ₚ map fst vars) as -> by apply Permutation_map, hash_order_perm. done.
Qed.

(** The rest of a block: the source recurses on it with the same tag. *)
Lemma from_block_cons tag s rest c :
  from_block_stmt (mkBlock (s :: rest) tag) c =
  let ctxt := Context.update_async_tag c tag in
  match s with
  | mkLocStmt sloc (ReturnStmt re) =>
    match rest with
    | [] =>
      em ← from_loc_expr re ctxt;
      _ ← TypeCheck.check_return (LocExpr.loc re) (em_typ em);
      mret (ExprAndMeta_new (BlockExpr BBlock [ReturnExpr (em_expr em)]) Typ.rreturn [em_calls em])
    | _ => TypeCheck.err (TypeCheck.error_at "unreachable code after return" sloc)
    end
  | mkLocStmt sloc (ExprStmt exp tag' semi) =>
    em1 ← from_expr sloc exp (Context.update_async_tag ctxt tag');
    match rest with
    | [] => mret (ExprAndMeta_new (em_expr em1) (if semi then Typ.unit else em_typ em1) [em_calls em1])
    | _ =>
      if semi then
        em2 ← from_block_stmt (mkBlock rest tag) ctxt;
        mret (ExprAndMeta_new (TypeCheck.seq_expr (em_expr em1) (em_expr em2)) (em_typ em2)
                [em_calls em1; em_calls em2])
      else TypeCheck.err (TypeCheck.error_at "missing semi-colon after expression" sloc)
    end
  | mkLocStmt sloc (LetStmt ids le) =>
    em1 ← from_loc_expr le ctxt;
    '(vs, let_ctxt) ← lift (try (TypeCheck.let_vars sloc ids (em_typ em1) ctxt));
    em2 ← from_block_stmt (mkBlock rest tag) let_ctxt;
    mret (ExprAndMeta_new (Expr.let_expr vs (em_expr em1) (em_expr em2)) (em_typ em2)
            [em_calls em1; em_calls em2])
  end.
Proof. by destruct s as [l []]. Qed.

Lemma wf_seq D N (e1 e2 : Expr FL) :
  wf_expr D N e1 -> wf_expr D N e2 -> wf_expr D N (TypeCheck.seq_expr e1 e2).
Proof.
  intros H1' H2'. assert (wf_expr D N (BlockExpr BBlock [e1; e2])) by (apply wf_block; auto).
  destruct e2; try done. destruct b; try done. apply wf_block. constructor; [done|].
  apply (Forall_wf (fun e => e)). by destruct H2'.
Qed.

Lemma from_block_good b : on_block cexpr b -> cblock b.
Proof.
  destruct b as [sts tag]. simpl. induction 1 as [|s sts Hs _ IH]; intros c Hc.
  { apply returns_ret. by apply wf_block. }
  rewrite from_block_cons. cbv zeta. destruct s as [l [ids [le e]|[rl e]|e t semi]]; simpl in Hs.
  - eapply returns_bind; [by apply Hs|]. intros em1 Hg1.
    eapply (returns_bind (fun r => ctxt_wf r.2 /\
      forall w, in_ctxt r.2 w = true -> existsb (String.eqb w) r.1 || in_ctxt c w = true)).
    { apply returns_lift. intros [vs c'] Hv. simpl.
      destruct (TypeCheck.let_vars _ _ _ _) as [[]|] eqn:E; simpl in Hv; simplify_eq.
      by eapply let_vars_ctxt in E. }
    intros [vs c'] [Hc' Hw]. simpl in *. eapply returns_bind; [by apply IH|]. intros em2 Hg2.
    apply returns_ret. apply wf_let; [done|apply (good_in _ em1); [exact Hg1|set_solver]|].
    eapply wf_impl; [exact Hw|done|]. apply (good_in _ em2); [exact Hg2|set_solver].
  - destruct sts; [|apply returns_fail]. eapply returns_bind; [by apply Hs|]. intros em Hg. skip.
    apply returns_ret. apply wf_block. constructor; [|constructor]. apply wf_return.
    apply (good_in _ em); [exact Hg|set_solver].
  - eapply returns_bind; [by apply Hs|]. intros em1 Hg1.
    destruct sts as [|s' sts]; [apply returns_ret; apply (good_in _ em1); [exact Hg1|set_solver]|].
    destruct semi; [|apply returns_fail]. eapply returns_bind; [by apply IH|]. intros em2 Hg2.
    apply returns_ret. apply wf_seq; [apply (good_in _ em1); [exact Hg1|set_solver]|apply (good_in _ em2); [exact Hg2|set_solver]].
Qed.

Lemma cloc_of e : on_loc cexpr e -> cloc e.
Proof. destruct e; simpl. intros He c. apply He. Qed.

Lemma clocs_of es c :
  Forall (on_loc cexpr) es -> ctxt_wf c -> Forall (fun e => returns (good c) (from_loc_expr e c)) es.
Proof. intros Hes Hc. eapply Forall_impl; [exact Hes|]. intros e He. by apply cloc_of. Qed.

Lemma wf_add_var c v t N (e : Expr FL) :
  ctxt_wf c -> wf_expr (in_ctxt (Context.add_var c v t)) N e -> wf_expr (in_ctxt c) N (Expr.closure_expr v e).
Proof.
  intros Hc He. apply wf_closure; [done|]. eapply wf_impl; [|done|exact He].
  intros w. by apply in_ctxt_add.
Qed.

Lemma if_good c b a : cloc c -> cblock b -> on_opt cblock a -> cexpr (PIf c b a).
Proof.
  intros Hc Hb Ha l ctxt Hw. simpl. rec Hc em1 Hg1. rec Hb em2 Hg2. destruct a as [a|]; simpl in Ha.
  - rec Ha em3 Hg3. skip. apply returns_ret. apply wf_if; [part em1|part em2|part em3].
  - skip. apply returns_ret. apply wf_if; [part em1|part em2|done].
Qed.

Lemma if_some_good v e b a : cloc e -> cblock b -> on_opt cblock a -> cexpr (PIfSomeMatch v e b a).
Proof.
  intros He Hb Ha l ctxt Hw. simpl. rec He em1 Hg1. skip.
  eapply returns_bind; [apply Hb; by apply ctxt_wf_add|]. intros em2 Hg2. destruct a as [a'|]; simpl in Ha.
  - rec Ha em3 Hg3. skip. apply returns_ret.
    apply wf_if_some; [part em1| |part em3]. eapply wf_add_var; [done|]. part em2.
  - skip. apply returns_ret. apply wf_if_some; [part em1| |done]. eapply wf_add_var; [done|]. part em2.
Qed.

Lemma if_match_good ms b a :
  Forall (fun m => cloc m.1) ms -> cblock b -> on_opt cblock a -> cexpr (PIfMatch ms b a).
Proof.
  intros Hms Hb Ha l ctxt Hw. simpl.
  eapply (returns_bind (Forall (good ctxt))).
  { apply map_m_good. eapply Forall_impl; [exact Hms|]. intros m Hm. by apply Hm. }
  intros ems Hems. skip. skip. rename a1 into vars.
  eapply returns_bind; [apply Hb; by apply ctxt_wf_adds|]. intros em1 Hg1.
  assert (forall v, (forall em, em ∈ ems -> em_calls em ∈ v) ->
    Forall (fun m : Expr FL * Pattern => wf_expr (in_ctxt ctxt) (known (Calls.union v)) m.1)
      (combine (map em_expr ems) (map (fun m => PPattern.compile m.2) ms))) as Hcomb.
  { intros v Hv. pose proof (good_all _ _ v Hems Hv) as Hall. clear -Hall. revert ms.
    induction Hall as [|em ems He _ IH]; intros [|m ms]; simpl; constructor; auto. }
  assert (forall v, em_calls em1 ∈ v ->
    wf_expr (in_ctxt ctxt) (known (Calls.union v)) (Expr.close_all (map fst (hash_order vars)) (em_expr em1))) as Hcl.
  { intros v Hv. apply wf_close_all; [done|].
    eapply wf_impl; [|done|by apply (good_in _ em1 v Hg1)]. intros w Hin.
    apply in_ctxt_adds in Hin; [|done]. rewrite map_map in Hin. simpl in Hin.
    apply orb_true_iff in Hin as [Hin| ->]; [|by rewrite orb_true_r].
    by rewrite (hash_order_names _ _ Hin). }
  assert (forall em, em ∈ ems -> em_calls em ∈ map em_calls ems) as Hin by (intros; by apply list_elem_of_fmap_2).
  destruct a as [a'|]; simpl in Ha.
  - rec Ha em2 Hg2. skip. apply returns_ret. apply wf_if_match.
    + apply Hcomb. set_solver.
    + apply Hcl. set_solver.
    + part em2.
  - skip. apply returns_ret. apply wf_if_match; [apply Hcomb; set_solver|apply Hcl; set_solver|done].
Qed.

Lemma iter_good op ids e b acc :
  cloc e -> cblock b -> on_opt (fun a => cloc a.2) acc -> cexpr (PIter op ids e b acc).
Proof.
  intros He Hb Ha l ctxt Hw. simpl. rec He em1 Hg1.
  eapply (returns_bind (fun r => ctxt_wf r.2 /\
    forall w, in_ctxt r.2 w = true -> existsb (String.eqb w) r.1 || in_ctxt ctxt w = true)).
  { apply returns_lift. intros [vs c'] Hv. simpl.
    destruct (TypeCheck.iter_vars _ _ _ _ _) as [[]|] eqn:E; simpl in Hv; simplify_eq.
    by eapply iter_vars_ctxt in E. }
  intros [vs c1] [Hc1 Hw1]. simpl in Hc1, Hw1.
  eapply (returns_bind (fun c2 => ctxt_wf c2 /\ forall w, in_ctxt c2 w = true ->
    (match acc with Some (n, _) => bool_decide (op = Fold) && (w =? Syntax.id n) | None => false end)
      || in_ctxt c1 w = true)).
  { destruct acc as [[n acc]|]; [|by apply returns_ret]. case_bool_decide; [|by apply returns_ret].
    skip. apply returns_ret. split; [by apply ctxt_wf_add|]. intros w. by apply in_ctxt_add. }
  intros c2 [Hc2 Hw2]. rec Hb em2 Hg2. skip. destruct acc as [[n acc]|]; simpl in Ha.
  - case_bool_decide; [|apply returns_fail]. rec Ha em3 Hg3. skip. apply returns_ret.
    apply wf_iter; [done|part em1|part em3|].
    eapply wf_impl; [|done|by apply (good_in c2 em2 [em_calls em1; em_calls em2; em_calls em3] Hg2); set_solver].
    intros w Hin%Hw2. simpl in Hin. apply orb_true_iff in Hin as [Hin|Hin%Hw1].
    + by rewrite Hin, orb_true_r.
    + by apply orb_true_iff in Hin as [->| ->]; rewrite ?orb_true_r.
  - skip. apply returns_ret. apply wf_iter; [done|part em1|done|].
    eapply wf_impl; [|done|by apply (good_in c2 em2 [em_calls em1; em_calls em2] Hg2); set_solver].
    intros w Hin. apply Hw2 in Hin. simpl in Hin. apply Hw1 in Hin. by rewrite orb_false_r.
Qed.

Lemma from_expr_good e : cexpr e.
Proof.
  induction e using PExpr_ind'; intros l0 ctxt Hc; simpl.
  - destruct (Context.var ctxt i) eqn:E; [|apply returns_fail]. apply returns_ret. apply wf_var.
    unfold in_ctxt. rewrite E. by rewrite orb_true_r.
  - apply returns_ret. by apply wf_value.
  - eapply returns_bind; [apply list_elems_good; by apply clocs_of|]. intros [ems t] Hg.
    apply returns_ret. by apply block_good.
  - eapply returns_bind; [apply map_m_good; by apply clocs_of|]. intros ems Hg.
    apply returns_ret. by apply block_good.
  - rec (cloc_of _ H5) em Hg. destruct (Typ.prefix_typ p). skip. apply returns_ret. apply wf_prefix. part em.
  - rec (cloc_of _ H5) em1 Hg1. rec (cloc_of _ H6) em2 Hg2. skip. apply returns_ret.
    apply wf_infix; [part em1|part em2].
  - apply iter_good; [by apply cloc_of|by apply from_block_good| |done].
    destruct acc as [[]|]; simpl in *; [by apply cloc_of|done].
  - apply if_good; [by apply cloc_of|by apply from_block_good| |done].
    destruct a; simpl in *; [by apply from_block_good|done].
  - apply if_match_good; [|by apply from_block_good| |done].
    + eapply Forall_impl; [eassumption|]. intros m Hm. by apply cloc_of.
    + destruct a; simpl in *; [by apply from_block_good|done].
  - apply if_some_good; [by apply cloc_of|by apply from_block_good| |done].
    destruct a; simpl in *; [by apply from_block_good|done].
  - eapply returns_bind; [apply map_m_good; by apply clocs_of|]. intros ems Hg.
    destruct ems as [|em [|em' ems]]; try by apply check_call_good.
    destruct (f =? "option::Some") eqn:E; [|by apply check_call_good].
    apply returns_ret. apply wf_call; [unfold known; by rewrite E|]. constructor; [|constructor].
    inversion Hg; subst. part em.
Qed.

(** ** Declarations *)

Lemma check_block_good b c name em :
  ctxt_wf c -> TypeCheck.check_from_block_stmt headers b c name = Val em -> good c em.
Proof.
  intros Hc. unfold TypeCheck.check_from_block_stmt.
  pose proof (from_block_good b (on_block_all cexpr from_expr_good b) c Hc None) as Hg.
  destruct (from_block_stmt b c None) as [[em'| | |] r]; simpl; try done.
  specialize (Hg em' r eq_refl). intros Hv.
  repeat bind_cases Hv; by simplify_eq.
Qed.

Lemma decl_context_ctxt args c :
  TypeCheck.decl_context (FT := FT) args = Ok c ->
  ctxt_wf c /\ forall w, in_ctxt c w = true -> existsb (String.eqb w) (map Param.name args) || (w =? "_") = true.
Proof.
  revert c. induction args as [|a args IH]; simpl; intros c.
  { intros; simplify_eq. split; [constructor|]. intros w. unfold in_ctxt. simpl. by rewrite orb_false_r. }
  destruct (TypeCheck.decl_context args) as [c'|]; [|done].
  destruct (TypeError.into _) as [t|]; [|done]. intros; simplify_eq.
  destruct (IH c' eq_refl) as [Hc Hw]. split; [by apply ctxt_wf_add|].
  intros w Hin. apply in_ctxt_add in Hin; [|done]. apply orb_true_iff in Hin as [->|Hin]; [done|].
  apply Hw in Hin. rewrite <- orb_assoc, Hin. by rewrite orb_true_r.
Qed.

Lemma from_decl_good d name e calls :
  TypeCheck.from_decl headers d = Val (name, e, calls) ->
  name = FnDecl.name d /\ wf_expr (String.eqb "_") (known calls) e.
Proof.
  unfold TypeCheck.from_decl. intros Hd.
  destruct (TypeCheck.decl_context (FnDecl.args d)) as [c|] eqn:Ec; simpl in Hd; [|done].
  destruct (TypeCheck.check_from_block_stmt headers (decl_body d) c _) as [em| | |] eqn:Em; simpl in Hd; try done.
  simplify_eq. split; [done|]. destruct (decl_context_ctxt _ _ Ec) as [Hc Hw].
  apply check_block_good in Em; [|done]. apply wf_close_all; [done|].
  eapply wf_impl; [|done|exact Em]. intros w Hin. rewrite (String.eqb_sym "_" w). by apply Hw.
Qed.
End compile.

(** ** Properties *)

(** C31: a function that the checker accepts is compiled to a closed
    expression: no index is unbound, no variable but the unwritable [_] is
    free, and every call is of a builtin or of a function with a declared
    signature that is in the set of calls handed to the call graph. *)
Theorem compiled_function_closed {FT FL} `{TFlatTyp FT} `{TFlatLiteral FT FL} `{TBuiltin FT} `{Lib}
    `{RegexNew} `{HashOrder} (headers : FnHeaders FT) (d : FnDecl FL) name e calls :
  TypeCheck.from_decl headers d = Val (name, e, calls) ->
  Expr.lc 0 e = true /\ Expr.fv_ok (String.eqb "_") e = true /\
  forall_calls (fun f => (f =? "option::Some") || FnHeaders.is_builtin (FT := FT) f ||
    (existsb (fun c => cs_name c =? f) calls &&
     match FnHeaders.typ headers f with Some _ => true | None => false end)) e = true.
Proof. intros Hd. by destruct (from_decl_good _ _ _ _ _ Hd) as [_ [Hl Hf Hc]]. Qed.

(** The function [f(x: i64) -> i64 { let y = x + 1; f(y) }]. *)
Definition test_hash_order : HashOrder := {| hash_order := fun l => l; hash_order_perm := fun l => reflexivity l |}.
Definition test_regex_new : RegexNew := {| regex_new := fun _ => Ok tt |}.
Definition at0 {FL} (e : PExpr FL) : LocExpr FL := mkLocExpr Loc.dummy e.
Definition id0 (s : string) : LocIdent := mkLocIdent Loc.dummy s.
Definition test_decl : FnDecl FlatLiteral :=
  mkFnDecl (mkFnHead (id0 "f") [mkParam (id0 "x") (PAtom (id0 "i64"))] (Some (PAtom (id0 "i64"))))
    (mkBlock
       [mkLocStmt Loc.dummy (LetStmt [id0 "y"] (at0 (PInfix Plus (at0 (PIdent "x")) (at0 (PLit (Literal.int 1))))));
        mkLocStmt Loc.dummy (ExprStmt (PCall Loc.dummy "f" [at0 (PIdent "y")]) false false)] false).
Definition test_headers : FnHeaders FlatTyp := [("f", Signature.new [Typ.i64] Typ.i64)].
Definition test_compiled : Expr FlatLiteral :=
  Closure "x" (Let ["y"] (InfixExpr Plus (BVar "x" 0) (LitExpr (Literal.int 1)))
                 (Closure "y" (CallExpr "f" [BVar "y" 0] false))).

Lemma compiled_function_closed_witness :
  @TypeCheck.from_decl _ _ _ _ _ test_lib test_regex_new test_hash_order test_headers test_decl =
    Val ("f", test_compiled, [mkCallSite Loc.dummy "f"]) /\
  Expr.lc 0 test_compiled = true.
Proof.
  split; [vm_compute; reflexivity|].
  refine (proj1 (@compiled_function_closed _ _ _ _ _ test_lib test_regex_new test_hash_order
    test_headers test_decl "f" test_compiled [mkCallSite Loc.dummy "f"] _)).
  vm_compute. reflexivity.
Defined.
