(* ===== verification/Externals.v ===== *)
(** * Remote calls and the environment of the data plane
    (src/src/armour-lang/src/externals.rs, and [Env] of interpret.rs)

    Literals cross the network as Cap'n Proto values: [build_value] and
    [read_value] translate them.  [Externals.call] resolves the name of the
    external and hands the request to the network, which is a parameter: a
    function on a state of its own.  The world of the evaluator holds the
    metadata actor, the network and the detached calls that were started; it
    is an implementation of the interface [Interp], with its laws.

    A value that is received may be malformed ([Reader]); the limits of Cap'n
    Proto on the length of lists and on nesting are not modelled.

    The theorems: every literal of the data plane can be sent, what arrives
    holds only the wire types and their containers, and literals of those
    types arrive unchanged; what is malformed is an error; a failed lookup
    never reaches the network. *)

From Stdlib Require Import ZArith Lia String Ascii List SpecFloat.
From stdpp Require Import base tactics list strings sets.
From S2P Require Import Prelude.
From S2P Require Import Ordered.
From S2P Require Import Strings.
From S2P Require Import Labels.
From S2P Require Import Syntax.
From S2P Require Import Types.
From S2P Require Import Net.
From S2P Require Import Literals.
From S2P Require Import FnHeaders.
From S2P Require Import Expressions.
From S2P Require Import Interpret.
From S2P Require Import Meta.
From S2P Require Import Eval.

Local Open Scope string_scope.
Local Open Scope list_scope.

(** ** Values on the wire (the union [external::value]) *)
Inductive Value :=
| VBool (b : bool)
| VInt64 (i : Z)
| VFloat64 (f : spec_float)
| VText (s : string)
| VData (d : bytes)
| VUnit
| VTuple (l : list Value)
| VList (l : list Value).

(** A value that is received ([external::value::Reader]): the pointers in it
    may be malformed, a text may not be UTF-8, and the variant may be unknown. *)
Inductive Reader :=
| RBool (b : bool)
| RInt64 (i : Z)
| RFloat64 (f : spec_float)
| RText (t : result string Error)
| RData (d : result bytes Error)
| RUnit
| RTuple (ts : result (list Reader) Error)
| RList (ts : result (list Reader) Error)
| RUnknown (e : Error).

(** What the receiver gets of a value that was built. *)
Fixpoint reader_of (v : Value) : Reader :=
  match v with
  | VBool b => RBool b
  | VInt64 i => RInt64 i
  | VFloat64 f => RFloat64 f
  | VText s => RText (Ok s)
  | VData d => RData (Ok d)
  | VUnit => RUnit
  | VTuple l => RTuple (Ok (map reader_of l))
  | VList l => RList (Ok (map reader_of l))
  end.

Module TExternals.
Section read.
Context {FT FL : Type} `{TFlatTyp FT} `{TFlatLiteral FT FL}.

(** [read_value], for the literals of both planes. *)
Fixpoint read_value (v : Reader) : result (Literal FL) Error :=
  match v with
  | RBool b => Ok (Literal.bool b)
  | RInt64 i => Ok (Literal.int i)
  | RFloat64 f => Ok (Literal.float f)
  | RText (Ok t) => Ok (Literal.str t)
  | RData (Ok d) => Ok (Literal.data d)
  | RUnit => Ok Literal.unit
  | RTuple (Ok ts) => match collect_results read_value ts with Ok l => Ok (LTuple l) | Err e => Err e end
  | RList (Ok ts) => match collect_results read_value ts with Ok l => Ok (LList l) | Err e => Err e end
  | RText (Err e) | RData (Err e) | RTuple (Err e) | RList (Err e) | RUnknown e => Err e
  end.

(** Nothing of it is malformed. *)
Fixpoint readable (v : Reader) : bool :=
  match v with
  | RBool _ | RInt64 _ | RFloat64 _ | RText (Ok _) | RData (Ok _) | RUnit => true
  | RTuple (Ok ts) | RList (Ok ts) => forallb readable ts
  | _ => false
  end.
End read.

Section build.
(** [PolicyRegex::to_string], laid out by the pretty crate. *)
Variable regex_to_string : PolicyRegex -> string.

(** [build_value] of the data plane.  It calls itself on the tuple a
    structured literal converts to; the fuel bounds the nesting. *)
Fixpoint build_value (fuel : nat) (lit : DPLiteral) : option Value :=
  match fuel with
  | O => None
  | S n =>
    match lit with
    | FlatLit fl =>
      match fl with
      | LBool b => Some (VBool b)
      | LConnection conn => build_value n (Connection.tuple conn)
      | LData d => Some (VData d)
      | LFloat f => Some (VFloat64 f)
      | LHttpRequest req => build_value n (HttpRequest.tuple req)
      | LHttpResponse res => build_value n (HttpResponse.tuple res)
      | LID i => build_value n (ID.to_lit i)
      | LInt i => Some (VInt64 i)
      | LIpAddr ip => build_value n (Literal.of_ip_addr ip)
      | LLabel label => Some (VText (Label.to_string label))
      | LRegex r => Some (VText (regex_to_string r))
      | LStr s => Some (VText s)
      | LUnit => Some VUnit
      end
    | LTuple ts => VTuple <$> mapM (build_value n) ts
    | LList ts => VList <$> mapM (build_value n) ts
    end
  end.

(** The nesting of a literal, structured literals counted with the tuple
    they convert to. *)
Fixpoint depth (lit : DPLiteral) : nat :=
  match lit with
  | FlatLit (LHttpRequest _ | LHttpResponse _) => 8
  | FlatLit (LConnection _) => 7
  | FlatLit (LID _) => 6
  | FlatLit (LIpAddr _) => 3
  | FlatLit _ => 1
  | LTuple ts | LList ts => S (foldr (fun t n => Nat.max (depth t) n) 0 ts)
  end.

(** Literals that have a wire type. *)
Fixpoint wire (lit : DPLiteral) : bool :=
  match lit with
  | FlatLit (LBool _ | LData _ | LFloat _ | LInt _ | LStr _ | LUnit) => true
  | FlatLit _ => false
  | LTuple ts | LList ts => forallb wire ts
  end.
End build.
End TExternals.

(** ** [struct Externals] *)
Record Externals := mkExternals { sockets : BTreeMap string string; timeout : Z }.

Module Externals.
(** [TIMEOUT]: three seconds. *)
Definition default : Externals := mkExternals [] 3.
Definition merge (self other : Externals) : Externals :=
  mkExternals (foldl (fun m kv => BTreeMap.insert kv.1 kv.2 m) (sockets self) (sockets other))
    (timeout self).
Definition set_timeout (self : Externals) (t : Z) : Externals := mkExternals (sockets self) t.
(** The flag says that the name was taken. *)
Definition add_external (self : Externals) (name addr : string) : bool * Externals :=
  (match BTreeMap.get (sockets self) name with Some _ => true | None => false end,
   mkExternals (BTreeMap.insert name addr (sockets self)) (timeout self)).

Section call.
Variable regex_to_string : PolicyRegex -> string.
Context {Net : Type}.
(** The network: the reply of a socket to a request within a time limit, or
    an error (no connection, timeout, malformed reply). *)
Variable network : Z -> string -> string -> list Value -> Net -> result Reader Error * Net.

(** Enough for any literal, by [build_value_total]. *)
Definition build_args (args : list DPLiteral) : option (list Value) :=
  mapM (fun a => TExternals.build_value regex_to_string (TExternals.depth a) a) args.

Definition call (externals : Externals) (c : Call FlatLiteral) (net : Net) : Outcome (Expr FlatLiteral) * Net :=
  match BTreeMap.get (sockets externals) (call_external c) with
  | Some socket =>
    match build_args (call_args c) with
    | None => (OutOfFuel, net)
    | Some args =>
      let '(r, net) := network (timeout externals) socket (call_method c) args net in
      (v ← try r; lit ← try (TExternals.read_value v); Val (LitExpr lit), net)
    end
  | None =>
    (Fail (mkError "failed to get external: {}" [call_external c ^^ "::" ^^ call_method c]), net)
  end.
End call.
End Externals.

(** ** The environment: [Env] without the functions of the program *)
Record World (Net : Type) := mkWorld {
  w_externals : Externals;
  w_meta : IngressEgress;
  w_net : Net;
  (** Detached calls, in the order they were started: [Arbiter::spawn]. *)
  w_spawned : list (Call FlatLiteral);
}.
Arguments mkWorld {Net} w_externals w_meta w_net w_spawned.
Arguments w_externals {Net} w.
Arguments w_meta {Net} w.
Arguments w_net {Net} w.
Arguments w_spawned {Net} w.

Module Env.
Section env.
Context `{Profile} `{Lib} {Net : Type}.
Variable regex_to_string : PolicyRegex -> string.
Variable network : Z -> string -> string -> list Value -> Net -> result Reader Error * Net.

(** [Env::new]: default metadata. *)
Definition new (externals : Externals) (net : Net) : World Net :=
  mkWorld externals IngressEgress.default net [].
Definition set_meta (w : World Net) (m : IngressEgress) : World Net :=
  mkWorld (w_externals w) m (w_net w) (w_spawned w).
(** [Env::egress] *)
Definition egress (w : World Net) : option Meta :=
  result_ok (IngressEgress.handle_egress (w_meta w)).

Definition meta_send (c : Call FlatLiteral) : Comp (World Net) (Expr FlatLiteral) := fun w =>
  let '(r, m) := IngressEgress.handle c (w_meta w) in (try r, set_meta w m).
Definition external_send (c : Call FlatLiteral) : Comp (World Net) (Expr FlatLiteral) := fun w =>
  let '(r, net) := Externals.call regex_to_string network (w_externals w) c (w_net w) in
  (r, mkWorld (w_externals w) (w_meta w) net (w_spawned w)).
Definition external_spawn (c : Call FlatLiteral) : Comp (World Net) unit := fun w =>
  (Val tt, mkWorld (w_externals w) (w_meta w) (w_net w) (w_spawned w ++ [c])).

#[export] Instance DP_Interp : Interp FlatLiteral (World Net) := {
  run_prefix := LitInterpret.eval_prefix;
  run_infix := LitInterpret.eval_infix;
  run_match := PatternMatch.perform_match;
  run_builtin := fun f args => lift (LitInterpret.eval_call f args);
  run_meta := meta_send;
  run_external := external_send;
  spawn_external := external_spawn;
}.
End env.
End Env.

(** ** Laws *)

Section wire_laws.
Variable regex_to_string : PolicyRegex -> string.
Notation build := (TExternals.build_value regex_to_string).
Notation depth := TExternals.depth.
Notation wire := TExternals.wire.
Notation read := (TExternals.read_value (FL := FlatLiteral)).

Lemma depth_all k (ts : list DPLiteral) :
  Forall (fun t => depth t <= k) ts <-> foldr (fun t n => Nat.max (depth t) n) 0 ts <= k.
Proof.
  induction ts as [|t ts IH]; simpl; [split; [lia|constructor]|].
  rewrite Forall_cons, IH. lia.
Qed.

Lemma depth_list k ts : Forall (fun t => depth t <= k) ts -> depth (LList ts) <= S k.
Proof. intros H%depth_all. simpl. lia. Qed.
Lemma depth_tuple k ts : Forall (fun t => depth t <= k) ts -> depth (LTuple ts) <= S k.
Proof. intros H%depth_all. simpl. lia. Qed.
Lemma depth_map_list {A} (f : A -> DPLiteral) k l :
  (forall a, depth (f a) <= k) -> depth (LList (map f l)) <= S k.
Proof. intros Hf. apply depth_list. induction l; simpl; constructor; auto. Qed.

Ltac each := repeat apply Forall_cons_2; [..|apply Forall_nil_2].

(** The tuples that structured literals convert to. *)
Lemma depth_ip ip : depth (Literal.of_ip_addr ip) <= 2.
Proof.
  destruct ip as [n|n]; simpl; [lia|]. destruct (IpAddr.to_ipv4 n); simpl; lia.
Qed.
Lemma depth_id i : depth (ID.to_lit i) <= 5.
Proof.
  apply depth_tuple. each.
  - etransitivity; [apply (depth_map_list _ 1)|]; simpl; auto; lia.
  - etransitivity; [apply (depth_map_list _ 3)|]; simpl; auto; lia.
  - unfold ID.port_lit. destruct (port i); simpl; lia.
  - etransitivity; [apply (depth_map_list _ 1)|]; simpl; auto; lia.
Qed.
Lemma depth_connection c : depth (Connection.tuple c) <= 6.
Proof. apply depth_tuple. each; try apply depth_id; simpl; lia. Qed.
Lemma depth_header_pairs h : depth (Headers.header_pairs h) <= 6.
Proof. etransitivity; [apply (depth_map_list _ 2)|lia]. intros []. simpl. lia. Qed.
Lemma depth_request r : depth (HttpRequest.tuple r) <= 7.
Proof.
  apply depth_tuple. each; try apply depth_header_pairs; try apply depth_connection; simpl; lia.
Qed.
Lemma depth_response r : depth (HttpResponse.tuple r) <= 7.
Proof.
  apply depth_tuple. each; try apply depth_header_pairs; try apply depth_connection; simpl; lia.
Qed.

(** What a sent literal becomes. *)
Definition sends (n : nat) (l : DPLiteral) : Prop :=
  exists v l', build n l = Some v /\ read (reader_of v) = Ok l' /\ wire l' = true /\ (wire l = true -> l' = l).

Lemma sends_all n ts :
  Forall (sends n) ts ->
  exists vs ls, mapM (build n) ts = Some vs /\ collect_results read (map reader_of vs) = Ok ls /\
    forallb wire ls = true /\ (forallb wire ts = true -> ls = ts).
Proof.
  induction 1 as [|t ts (v & l & Hb & Hl & Hw & Hr) _ (vs & ls & Hbs & Hls & Hws & Hrs)]; [by exists [], []|].
  exists (v :: vs), (l :: ls). simpl. rewrite Hb. simpl. rewrite Hbs, Hl, Hls. simpl. rewrite Hw, Hws. split_and!; [done..|].
  intros [? ?]%andb_true_iff. f_equal; auto.
Qed.

Lemma build_sends n l : depth l <= n -> sends n l.
Proof.
  revert l. induction n as [|n IH]; intros l Hd.
  { destruct l as [[]|ts|ts]; simpl in Hd; lia. }
  assert (forall l', depth l' <= n -> wire l = false ->
    build (S n) l = build n l' -> sends (S n) l) as Hvia.
  { intros l' Hl' Hl Hb. destruct (IH l' Hl') as (v & l2 & Hv & Hr & Hw & _).
    exists v, l2. rewrite Hb, Hv, Hl. by split_and!. }
  destruct l as [fl|ts|ts].
  - destruct fl; simpl in Hd; try by (eexists _, _; split_and!; [reflexivity|reflexivity|done|done]).
    + eapply Hvia; [|done|done]. etransitivity; [apply depth_connection|lia].
    + eapply Hvia; [|done|done]. etransitivity; [apply depth_request|lia].
    + eapply Hvia; [|done|done]. etransitivity; [apply depth_response|lia].
    + eapply Hvia; [|done|done]. etransitivity; [apply depth_id|lia].
    + eapply Hvia; [|done|done]. etransitivity; [apply depth_ip|lia].
  - simpl in Hd. apply le_S_n, depth_all in Hd.
    destruct (sends_all n ts) as (vs & ls & Hv & Hl & Hw & Hr); [by eapply Forall_impl|].
    exists (VList vs), (LList ls). simpl. rewrite Hv, Hl. split_and!; [done..|]. intros. f_equal. auto.
  - simpl in Hd. apply le_S_n, depth_all in Hd.
    destruct (sends_all n ts) as (vs & ls & Hv & Hl & Hw & Hr); [by eapply Forall_impl|].
    exists (VTuple vs), (LTuple ls). simpl. rewrite Hv, Hl. split_and!; [done..|]. intros. f_equal. auto.
Qed.

(** What can be read holds wire types only. *)
Lemma read_wire : forall (v : Reader), if TExternals.readable v then exists l, read v = Ok l /\ wire l = true
                                       else exists e, read v = Err e.
Proof.
  fix IH 1. assert (forall ts : list Reader,
    if forallb TExternals.readable ts then exists ls, collect_results read ts = Ok ls /\ forallb wire ls = true
    else exists e, collect_results read ts = Err e) as Hts.
  { fix IHts 1. intros [|v ts]; [by exists []|]. specialize (IH v). specialize (IHts ts). simpl.
    destruct (TExternals.readable v); simpl; [|by destruct IH as [e ->]; exists e]. destruct IH as (l & -> & Hl).
    destruct (forallb _ ts); [|by destruct IHts as [e ->]; exists e]. destruct IHts as (ls & -> & Hls).
    exists (l :: ls). simpl. by rewrite Hl. }
  intros [b|i|f|[t|e]|[d|e]| |[ts|e]|[ts|e]|e]; simpl; eauto; specialize (Hts ts);
    (destruct (forallb _ ts); [destruct Hts as (ls & -> & Hls); eauto|destruct Hts as [e ->]; eauto]).
Qed.

Lemma build_args_total args : exists vs, Externals.build_args regex_to_string args = Some vs.
Proof.
  induction args as [|a args [vs IH]]; [by exists []|].
  destruct (build_sends (depth a) a (le_n _)) as (v & l & Hv & _). exists (v :: vs).
  unfold Externals.build_args in *. simpl. rewrite Hv. simpl. by rewrite IH.
Qed.
End wire_laws.

(** ** The environment keeps the promises of [InterpLaws] *)

Section returns.
Context `{Profile} `{Lib}.

Lemma bind_returns {A B} (m : Outcome A) (f : A -> Outcome B) :
  m <> OutOfFuel -> (forall a, f a <> OutOfFuel) -> m ≫= f <> OutOfFuel.
Proof. destruct m; simpl; auto. Qed.
Lemma arith_returns z : arith_i64 z <> OutOfFuel.
Proof. unfold arith_i64. by repeat split_match. Qed.
Lemma div_returns i j : div_i64 i j <> OutOfFuel.
Proof. unfold div_i64. by repeat split_match. Qed.
Lemma rem_returns i j : rem_i64 i j <> OutOfFuel.
Proof. unfold rem_i64. by repeat split_match. Qed.
Lemma unwrap_returns {A} (o : option A) : unwrap o <> OutOfFuel.
Proof. by destruct o. Qed.

(** Walk through a computation that calls nothing but these. *)
Ltac walk :=
  repeat match goal with
  | |- Val _ <> _ => discriminate
  | |- mret _ <> _ => discriminate
  | |- Fail _ <> _ => discriminate
  | |- ret _ <> _ => discriminate
  | |- _ ≫= _ <> _ => apply bind_returns; [|intros ?]
  | |- arith_i64 _ <> _ => apply arith_returns
  | |- div_i64 _ _ <> _ => apply div_returns
  | |- rem_i64 _ _ <> _ => apply rem_returns
  | |- unwrap _ <> _ => apply unwrap_returns
  | |- (match ?x with _ => _ end) <> _ => destruct x
  end.

Lemma dp_prefix_returns l p : LitInterpret.eval_prefix (FL := FlatLiteral) l p <> OutOfFuel.
Proof. destruct l as [l| |]; simpl; [|done..]. unfold DPInterpret.eval_prefix. walk. Qed.

Lemma dp_infix_returns l op l' : LitInterpret.eval_infix (FL := FlatLiteral) l op l' <> OutOfFuel.
Proof.
  unfold LitInterpret.eval_infix. destruct l as [l| |], l' as [l'| |]; simpl; try solve [walk].
  unfold DPInterpret.eval_infix. destruct op; walk.
Qed.

Lemma dp_call0_returns f : DPInterpret.eval_call0 f <> OutOfFuel.
Proof. unfold DPInterpret.eval_call0. cbv zeta. walk. Qed.
Lemma dp_call1_returns l f : DPInterpret.eval_call1 l f <> OutOfFuel.
Proof.
  unfold DPInterpret.eval_call1, DPInterpret.call1_int, DPInterpret.call1_str, DPInterpret.call1_data,
    DPInterpret.call1_request, DPInterpret.call1_response, DPInterpret.call1_ip, DPInterpret.call1_id,
    DPInterpret.call1_connection, DPInterpret.call1_label. walk.
Qed.
Lemma dp_call2_returns l f l' : DPInterpret.eval_call2 l f l' <> OutOfFuel.
Proof.
  unfold DPInterpret.eval_call2, DPInterpret.call2_int, DPInterpret.call2_str,
    DPInterpret.call2_request, DPInterpret.call2_response, DPInterpret.call2_id,
    DPInterpret.call2_connection, DPInterpret.call2_label, PolicyRegex.is_match, PolicyRegex.source. walk.
Qed.
Lemma dp_call3_returns l f l1 l2 : DPInterpret.eval_call3 l f l1 l2 <> OutOfFuel.
Proof. unfold DPInterpret.eval_call3. walk. Qed.
Lemma dp_call4_returns l f l1 l2 l3 : DPInterpret.eval_call4 l f l1 l2 l3 <> OutOfFuel.
Proof. unfold DPInterpret.eval_call4. walk. Qed.

Lemma dp_call_returns f args : LitInterpret.eval_call (FL := FlatLiteral) f args <> OutOfFuel.
Proof.
  unfold LitInterpret.eval_call. cbv zeta.
  repeat match goal with
  | |- _ ≫= _ <> _ => apply bind_returns; [|intros ?]
  | |- (match ?x with _ => _ end) <> _ => destruct x; try discriminate
  end.
  all: unfold LitInterpret.eval_call1, LitInterpret.eval_call2, LitInterpret.eval_call3, LitInterpret.eval_call4.
  all: try apply dp_call0_returns.
  all: repeat match goal with
  | |- flat_eval_call1 _ _ <> _ => apply dp_call1_returns
  | |- flat_eval_call2 _ _ _ <> _ => apply dp_call2_returns
  | |- flat_eval_call3 _ _ _ _ <> _ => apply dp_call3_returns
  | |- flat_eval_call4 _ _ _ _ _ <> _ => apply dp_call4_returns
  | |- Val _ <> _ => discriminate
  | |- ret _ <> _ => discriminate
  | |- (match ?x with _ => _ end) <> _ => destruct x
  end.
Qed.

Lemma capture_loop_returns cap names (m : BTreeMap string (Expr FlatLiteral)) :
  PatternMatch.capture_loop cap names m <> OutOfFuel.
Proof.
  revert m. induction names as [|n ns IH]; intros m; simpl; [done|].
  apply bind_returns; [apply unwrap_returns|]. intros s. destruct (Pat.strip_as n) as [k []]; simpl; try apply IH.
  - destruct (parse_i64 s); simpl; [apply IH|done].
  - destruct (base64_decode s); simpl; [apply IH|done].
Qed.

Lemma dp_match_returns (e : Expr FlatLiteral) p : PatternMatch.perform_match e p <> OutOfFuel.
Proof.
  destruct p; simpl; [|done]. unfold PatternMatch.perform_regex_match, PolicyRegex.capture_names,
    PolicyRegex.is_match, PolicyRegex.captures, PolicyRegex.source.
  walk. all: try apply capture_loop_returns; done.
Qed.

(** Captured texts are literals. *)
Notation values m := (Forall (fun kv : string * Expr FlatLiteral => Expr.is_value kv.2 = true) m).

Lemma insert_values (m : BTreeMap string (Expr FlatLiteral)) k u :
  Expr.is_value u = true -> values m -> values (BTreeMap.insert k u m).
Proof.
  intros Hu. induction 1 as [|[k' u'] m Hx Hm IH]; simpl; [by constructor|].
  destruct (cmp k k'); repeat constructor; auto.
Qed.

Lemma capture_loop_value cap names m r :
  values m -> PatternMatch.capture_loop cap names m = Val (Some r) -> values r.
Proof.
  revert m. induction names as [|n ns IH]; intros m Hm; simpl; [by intros; simplify_eq|].
  destruct (cap n) as [s|]; simpl; [|done]. destruct (Pat.strip_as n) as [k []]; simpl.
  - apply IH. by apply insert_values.
  - destruct (parse_i64 s); simpl; [|done]. apply IH. by apply insert_values.
  - destruct (base64_decode s); simpl; [|done]. apply IH. by apply insert_values.
Qed.

Lemma dp_match_value (e : Expr FlatLiteral) p e' b :
  PatternMatch.perform_match e p = Val (Some (e', b)) ->
  e' = e /\ forall m, b = Some m -> values m.
Proof.
  destruct p as [re|l]; simpl.
  - unfold PatternMatch.perform_regex_match, ret. destruct e as [| |[fl| |]| | | | | | | | | | |]; try done.
    2: by intros; simplify_eq.
    destruct (flat_dest_str fl); [|done].
    destruct (PolicyRegex.capture_names re) as [names| | |]; simpl; try done.
    destruct (omap (fun x => x) names) as [|n ns].
    + destruct (PolicyRegex.is_match re s) as [[]| | |]; simpl; try done; intros; simplify_eq;
        (split; [done|]); intros; by simplify_eq.
    + destruct (PolicyRegex.captures re s) as [[cap|]| | |]; cbn -[PatternMatch.capture_loop]; try done.
      * destruct (PatternMatch.capture_loop cap (n :: ns) []) as [m| | |] eqn:E;
          cbn -[PatternMatch.capture_loop]; try done. intros; simplify_eq.
        split; [done|]. intros m' ->. by apply (capture_loop_value cap (n :: ns) []).
      * intros; by simplify_eq.
  - unfold PatternMatch.perform_label_match. destruct e as [| |[fl| |]| | | | | | | | | | |]; try done.
    2: by intros; simplify_eq.
    destruct (flat_dest_label fl); [|done]. intros Hm. simplify_eq. split; [done|].
    intros m Hm. destruct (Label.match_with l l0) as [ms|]; [|done]. simplify_eq.
    unfold BTreeMap.collect. generalize (Match.to_vec ms) as kvs.
    assert (values ([] : BTreeMap string (Expr FlatLiteral))) as H'; [constructor|]. revert H'.
    generalize ([] : BTreeMap string (Expr FlatLiteral)) as m0. intros m0 H' kvs. revert m0 H'.
    induction kvs as [|kv kvs IH]; simpl; intros; [done|]. apply IH. by apply insert_values.
Qed.
End returns.

(** ** Properties *)

(** C38: every literal of the data plane can be sent: the fuel given by its
    nesting is enough, what the receiver reads holds wire types only, and a
    literal of wire types arrives unchanged.  What is received otherwise is
    read exactly if nothing of it is malformed, and holds wire types only. *)
Theorem wire_roundtrip (regex_to_string : PolicyRegex -> string) (l : DPLiteral) (n : nat) (r : Reader) :
  TExternals.depth l <= n ->
  (exists v l', TExternals.build_value regex_to_string n l = Some v /\
     TExternals.read_value (reader_of v) = Ok l' /\ TExternals.wire l' = true /\
     (TExternals.wire l = true -> l' = l)) /\
  (if TExternals.readable r then exists l', TExternals.read_value r = Ok l' /\ TExternals.wire l' = true
   else exists e, TExternals.read_value (FL := FlatLiteral) r = Err e).
Proof. intros Hd. split; [by apply build_sends|apply read_wire]. Qed.

Lemma wire_roundtrip_witness :
  (exists v l, TExternals.build_value (fun _ => "") 8 (Literal.http_request HttpRequest.default) = Some v /\
     TExternals.read_value (reader_of v) = Ok l /\ TExternals.wire l = true) /\
  exists e, TExternals.read_value (FL := FlatLiteral) (RTuple (Ok [RBool true; RText (Err (error_new "utf8"))])) = Err e.
Proof.
  destruct (wire_roundtrip (fun _ => "") (Literal.http_request HttpRequest.default) 8
    (RTuple (Ok [RBool true; RText (Err (error_new "utf8"))]))) as [(v & l & Hb & Hr & Hw & _) He].
  - vm_compute. lia.
  - split; [exists v, l; split; [exact Hb|split; [exact Hr|exact Hw]]|exact He].
Defined.

(** A call of an external asks the network exactly once, at the socket
    registered for it, and returns the literal read from the reply or an
    error; a call of an unregistered external is an error that never reaches
    the network. *)
Theorem external_call_spec {Net} (regex_to_string : PolicyRegex -> string)
    (network : Z -> string -> string -> list Value -> Net -> result Reader Error * Net)
    (externals : Externals) (c : Call FlatLiteral) (net : Net) :
  match BTreeMap.get (sockets externals) (call_external c) with
  | Some socket =>
    exists vs, Externals.build_args regex_to_string (call_args c) = Some vs /\
    Externals.call regex_to_string network externals c net =
      (match (network (timeout externals) socket (call_method c) vs net).1 with
       | Ok v => match TExternals.read_value v with Ok lit => Val (LitExpr lit) | Err e => Fail e end
       | Err e => Fail e
       end, (network (timeout externals) socket (call_method c) vs net).2)
  | None =>
    exists e, Externals.call regex_to_string network externals c net = (Fail e, net)
  end.
Proof.
  unfold Externals.call. destruct (BTreeMap.get _ _) as [socket|]; [|by eexists].
  destruct (build_args_total regex_to_string (call_args c)) as [vs ->]. exists vs. split; [done|].
  destruct (network _ _ _ _ _) as [[v|] ?]; [|done]. simpl. by destruct (TExternals.read_value v).
Qed.
