(* ===== verification/Effects.v ===== *)
(** * What evaluation can do to its state

    A relation [R] between states that the allowed calls respect is respected
    by every evaluation of an expression that makes only allowed calls, and
    such an evaluation is the same in two programs that agree on the allowed
    functions. *)

From Stdlib Require Import ZArith Lia String Ascii List.
From stdpp Require Import base tactics list strings sets.
From S2P Require Import Prelude.
From S2P Require Import Ordered.
From S2P Require Import Strings.
From S2P Require Import Labels.
From S2P Require Import Syntax.
From S2P Require Import Types.
From S2P Require Import Net.
From S2P Require Import Literals.
From S2P Require Import FnHeaders.
From S2P Require Import Expressions.
From S2P Require Import Interpret.
From S2P Require Import Meta.
From S2P Require Import Eval.
From S2P Require Import EvalTheory.
From S2P Require Import Termination.

Local Open Scope string_scope.
Local Open Scope list_scope.

(** ** Rules *)
Section rules.
Context {W : Type} (R : relation W) `{!PreOrder R}.

(** [m1] and [m2] are the same computation, it respects [R], and its results
    satisfy [P]. *)
Definition moves {A} (P : A -> Prop) (m1 m2 : Comp W A) : Prop :=
  (forall w, m1 w = m2 w) /\ (forall w, R w (m1 w).2) /\ returns P m1.

Lemma moves_same {A} (P : A -> Prop) m : (forall w, R w (m w).2) -> returns P m -> moves P m m.
Proof. intros Hw Hr. split; [done|by split]. Qed.
Lemma moves_ret {A} (P : A -> Prop) a : P a -> moves P (mret a) (mret a).
Proof. intros Ha. apply moves_same; [intros w; simpl; reflexivity|by apply returns_ret]. Qed.
Lemma moves_fail {A} (P : A -> Prop) e : moves P (fail e) (fail e).
Proof. apply moves_same; [intros w; simpl; reflexivity|apply returns_fail]. Qed.
Lemma moves_lift {A} (P : A -> Prop) o : (forall a, o = Val a -> P a) -> moves P (lift o) (lift o).
Proof. intros Ho. apply moves_same; [intros w; simpl; reflexivity|by apply returns_lift]. Qed.
Lemma moves_panic {A} (P : A -> Prop) : moves P panic panic.
Proof. apply moves_same; [intros w; simpl; reflexivity|by intros w a w']. Qed.
Lemma moves_bind {A B} (Q : A -> Prop) (P : B -> Prop) m1 m2 (f1 f2 : A -> Comp W B) :
  moves Q m1 m2 -> (forall a, Q a -> moves P (f1 a) (f2 a)) -> moves P (m1 ≫= f1) (m2 ≫= f2).
Proof.
  intros (He & Hm & Hr) Hf. split; [|split].
  - intros w. unfold mbind, Comp_bind. rewrite <- He. specialize (Hr w).
    destruct (m1 w) as [[a| | |] w1]; try done. by apply (Hf a (Hr a w1 eq_refl)).
  - intros w. unfold mbind, Comp_bind. specialize (Hm w). specialize (Hr w).
    destruct (m1 w) as [[a| | |] w1]; simpl in *; try done.
    transitivity w1; [done|]. by apply (Hf a (Hr a w1 eq_refl)).
  - eapply returns_bind; [exact Hr|]. intros a Ha. apply (Hf a Ha).
Qed.
End rules.

Section effects.
Context {FT FL W : Type} `{TFlatTyp FT} `{TFlatLiteral FT FL} `{TBuiltin FT} `{InterpLaws FL W}.
(** Two programs that agree on the functions that may be called. *)
Variables internal internal' : BTreeMap string (Expr FL).
Variable R : relation W.
Context `{!PreOrder R}.
(** The names that may be called. *)
Variable allowed : string -> bool.
Notation Expr := (Expr FL).
Notation value := (fun e : Expr => Expr.is_value e = true).
Notation ok e := (forall_calls allowed e = true).

Hypothesis bodies_same : forall f, allowed f = true -> BTreeMap.get internal f = BTreeMap.get internal' f.
Hypothesis bodies_ok : forall f body, allowed f = true -> BTreeMap.get internal f = Some body -> ok body.
Hypothesis builtin_moves : forall f args w, allowed f = true -> R w (run_builtin f args w).2.
Hypothesis service_moves : forall f args b w,
  allowed f = true -> BTreeMap.get internal f = None -> FnHeaders.is_builtin f = false ->
  R w (Eval.call_service (FL := FL) f args b w).2.

Section ev.
Variables ev ev' : Expr -> Comp W Expr.
Hypothesis Hev : forall e, ok e -> moves R value (ev e) (ev' e).

Ltac leaf := first
  [ apply (moves_fail R) | apply (moves_panic R)
  | apply (moves_ret R); simpl; solve [done | eauto]
  | apply (moves_lift R); solve [done | eauto] ].

Lemma some_or_moves o s : moves R value (Eval.some_or o s) (Eval.some_or o s).
Proof.
  eapply (moves_bind R (fun _ => True)); [leaf|]. intros [l|] _; leaf.
Qed.

Lemma eval_list_moves es : forallb (forall_calls allowed) es = true ->
  moves R (Forall value) (Eval.eval_list ev es) (Eval.eval_list ev' es).
Proof.
  induction es as [|e es IH]; simpl; [intros; leaf|]. intros [He Hes]%andb_true_iff.
  eapply (moves_bind R); [by apply Hev|]. intros r Hr.
  eapply (moves_bind R); [by apply IH|]. intros rs Hrs. apply (moves_ret R). by constructor.
Qed.

Lemma try_moves (r : result Expr Error) :
  (forall e, r = Ok e -> ok e) -> moves R value (x ← lift (try r); ev x) (x ← lift (try r); ev' x).
Proof.
  intros Hr. eapply (moves_bind R (fun e => ok e)).
  - apply (moves_lift R). intros a Ha. apply Hr. destruct r; simpl in *; by simplify_eq.
  - intros e He. by apply Hev.
Qed.

Lemma iter_loop_moves vs body lits acc res :
  ok body -> OForall value acc -> Forall value res ->
  moves R (fun p => OForall value p.1 /\ Forall value p.2) (Eval.iter_loop ev vs body lits acc res)
    (Eval.iter_loop ev' vs body lits acc res).
Proof.
  intros Hb. revert acc res. induction lits as [|l lits IH]; intros acc res Ha Hr; simpl; [leaf|].
  eapply (moves_bind R (fun e => ok e)).
  { apply (moves_lift R). destruct acc as [a|]; [|intros; by simplify_eq/=].
    intros e1. destruct (Expr.apply body a) as [x|] eqn:E; simpl; intros; simplify_eq.
    by eapply (proj1 (apply_value _ _ _ _ Ha E Hb)). }
  intros e1 H1'. eapply (moves_bind R (fun e => ok e)).
  { apply (moves_lift R). intros e2.
    destruct (Eval.apply_element vs e1 l) as [x|] eqn:E; simpl; intros; simplify_eq.
    by eapply (proj1 (apply_element_value _ _ _ _ _ E H1')). }
  intros e2 H2'. eapply (moves_bind R); [by apply Hev|].
  intros tmp Ht. apply IH; [by destruct acc|]. apply Forall_app. by split; [|constructor].
Qed.

Lemma match_loop_moves ms : forallb (fun m => forall_calls allowed m.1) ms = true ->
  moves R (Forall (fun r => value r.1 /\ OForall (Forall (fun kv => value kv.2)) r.2))
    (Eval.match_loop ev ms) (Eval.match_loop ev' ms).
Proof.
  induction ms as [|[e p] ms IH]; simpl; [intros; leaf|]. intros [He Hms]%andb_true_iff.
  eapply (moves_bind R); [by apply Hev|]. intros r Hr.
  eapply (moves_bind R (fun o => run_match r p = Val o)); [by apply (moves_lift R)|].
  intros [[e' b]|] Ho; [|leaf]. eapply (moves_bind R); [by apply IH|]. intros rs Hrs.
  apply (moves_ret R). destruct (run_match_value _ _ _ _ Hr Ho) as [-> Hb].
  constructor; [|done]. simpl. split; [done|]. destruct b; simpl; auto.
Qed.

Lemma alternative_moves a :
  match a with Some a => forall_calls allowed a | None => true end = true ->
  moves R value (Eval.alternative_or_unit ev a) (Eval.alternative_or_unit ev' a).
Proof. destruct a; simpl; intros; [by apply Hev|leaf]. Qed.

Lemma value_only_moves r : value r -> moves R value (Eval.value_only r) (Eval.value_only r).
Proof. destruct r; simpl; intros; leaf. Qed.

Lemma iter_result_moves op lits acc res :
  Forall value res -> moves R value (Eval.iter_result (W := W) op lits acc res) (Eval.iter_result op lits acc res).
Proof.
  intros Hres. apply moves_same; [|by apply iter_result_value]. intros w. unfold Eval.iter_result.
  destruct (List.find Expr.is_return res); [simpl; reflexivity|].
  assert (forall A (o : Outcome A) (f : A -> Comp W Expr), (forall a, R w (f a w).2) ->
    R w ((x ← lift o; f x) w).2) as Hl.
  { intros A o f Hf. unfold lift, mbind, Comp_bind. destruct o; simpl; [apply Hf|reflexivity..]. }
  destruct op; apply Hl; intros; try apply Hl; intros; simpl; try reflexivity.
  destruct a; simpl; reflexivity.
Qed.

(** Split a computation at its first step. *)
Ltac step := eapply (moves_bind R); [by apply Hev|]; intros ? ?.

Lemma infix_moves op e1 e2 : ok e1 -> ok e2 -> moves R value (Eval.eval_with internal ev (InfixExpr op e1 e2))
    (Eval.eval_with internal' ev' (InfixExpr op e1 e2)).
Proof.
  intros He1 He2.
  assert (Hshort : forall stop, moves R value (
    r ← ev e1;
    match r with
    | ReturnExpr _ => mret r
    | LitExpr l =>
      match Literal.dest_bool l with
      | Some b =>
        if Bool.eqb b stop then Eval.ok l
        else
          r ← ev e2;
          match r with
          | ReturnExpr _ => mret r
          | LitExpr l => if Literal.dest_bool l then Eval.ok l else Eval.err "eval, infix"
          | _ => Eval.err "eval, infix"
          end
      | None => Eval.err "eval, infix"
      end
    | _ => Eval.err "eval, infix"
    end) (
    r ← ev' e1;
    match r with
    | ReturnExpr _ => mret r
    | LitExpr l =>
      match Literal.dest_bool l with
      | Some b =>
        if Bool.eqb b stop then Eval.ok l
        else
          r ← ev' e2;
          match r with
          | ReturnExpr _ => mret r
          | LitExpr l => if Literal.dest_bool l then Eval.ok l else Eval.err "eval, infix"
          | _ => Eval.err "eval, infix"
          end
      | None => Eval.err "eval, infix"
      end
    | _ => Eval.err "eval, infix"
    end)).
  { intros. step. destruct a; try leaf. destruct (Literal.dest_bool l); [|leaf].
    destruct (Bool.eqb b stop); [leaf|]. step. destruct a; try leaf. destruct (Literal.dest_bool l0); leaf. }
  cbn [Eval.eval_with]. destruct op; try apply Hshort.
  all: step; step; destruct a; try leaf; destruct a0; try leaf; apply some_or_moves.
Qed.

Lemma let_moves vs e1 e2 : ok e1 -> ok e2 -> moves R value (Eval.eval_with internal ev (Let vs e1 e2))
    (Eval.eval_with internal' ev' (Let vs e1 e2)).
Proof.
  intros He1 He2. cbn [Eval.eval_with]. step.
  assert (forall l, moves R value (x ← lift (try (Expr.apply e2 (LitExpr l))); ev x)
    (x ← lift (try (Expr.apply e2 (LitExpr l))); ev' x)) as Hone.
  { intros l. apply try_moves. intros e' He'. by apply (apply_value _ _ (LitExpr l) _ eq_refl He' He2). }
  assert (forall ps, moves R value (x ← lift (try (Eval.apply_named e2 ps)); ev x)
    (x ← lift (try (Eval.apply_named e2 ps)); ev' x)) as Hps.
  { intros ps. apply try_moves. intros e' He'. by apply (apply_named_value _ _ _ _ He' He2). }
  destruct a; try leaf. destruct l; repeat (destruct (Nat.eqb _ _) || destruct (_ && _)); try leaf; auto.
Qed.

Lemma iter_moves op vs e1 e2 acc :
  ok e1 -> ok e2 -> match acc with Some (_, a) => forall_calls allowed a | None => true end = true ->
  moves R value (Eval.eval_with internal ev (IterExpr op vs e1 e2 acc))
    (Eval.eval_with internal' ev' (IterExpr op vs e1 e2 acc)).
Proof.
  intros He1 He2 Hacc. cbn [Eval.eval_with]. step.
  destruct a as [| |[]| | | | | | | | | | |]; try leaf.
  eapply (moves_bind R (OForall value)).
  { destruct acc as [[n a]|]; [|leaf]. step. by apply (moves_ret R). }
  intros a Ha. eapply (moves_bind R); [by apply iter_loop_moves|].
  intros [a' res] [_ Hres]. by apply iter_result_moves.
Qed.

Lemma if_match_moves vs ms e a :
  forallb (fun m => forall_calls allowed m.1) ms = true -> ok e ->
  match a with Some a => forall_calls allowed a | None => true end = true ->
  moves R value (Eval.eval_with internal ev (IfMatchExpr vs ms e a))
    (Eval.eval_with internal' ev' (IfMatchExpr vs ms e a)).
Proof.
  intros Hms He Ha. cbn [Eval.eval_with]. eapply (moves_bind R); [by apply match_loop_moves|].
  intros rs Hrs. destruct (List.find _ rs) as [[r b]|] eqn:E.
  { apply (moves_ret R). by eapply find_match_value. }
  destruct (existsb _ rs).
  - destruct a; [|leaf]. step. by apply value_only_moves.
  - eapply (moves_bind R (fun e => ok e)).
    + apply (moves_lift R). intros c.
      destruct (Eval.apply_variables e (Eval.all_captures rs) vs) as [c'|] eqn:Ec; simpl; intros; simplify_eq.
      by apply (apply_variables_value _ _ _ _ _ (all_captures_value _ Hrs) Ec He).
    + intros c Hc. step. by apply value_only_moves.
Qed.

Lemma call_moves f args b :
  allowed f = true -> forallb (forall_calls allowed) args = true ->
  moves R value (Eval.eval_with internal ev (CallExpr f args b))
    (Eval.eval_with internal' ev' (CallExpr f args b)).
Proof.
  intros Hf Hargs. cbn [Eval.eval_with]. eapply (moves_bind R); [by apply eval_list_moves|].
  intros vs Hvs. destruct (List.find _ vs) eqn:E.
  { apply (moves_ret R). by eapply find_value. }
  rewrite <- (bodies_same f Hf). destruct (BTreeMap.get internal f) as [body|] eqn:Eb.
  - eapply (moves_bind R (fun e => ok e)).
    + apply (moves_lift R). intros r. destruct (Eval.apply_args body vs) as [r'|] eqn:Ea; simpl; intros; simplify_eq.
      eapply apply_args_value; [done..|]. by eapply (bodies_ok f).
    + intros r Hr. step. apply (moves_ret R). by apply strip_return_value.
  - destruct (FnHeaders.is_builtin f) eqn:Ebf.
    + apply moves_same; [intros; by apply builtin_moves|]. intros w r w'. apply run_builtin_value.
    + apply moves_same; [intros; by apply service_moves|]. apply call_service_value.
Qed.

Lemma eval_with_moves e : ok e -> moves R value (Eval.eval_with internal ev e)
    (Eval.eval_with internal' ev' e).
Proof.
  destruct e; cbn [forall_calls]; intros Hok;
    repeat match goal with H : _ && _ = true |- _ => apply andb_true_iff in H as [? ?] end.
  1-3: cbn [Eval.eval_with]; leaf.
  - cbn [Eval.eval_with]. step. by apply (moves_ret R).
  - cbn [Eval.eval_with]. step. destruct a; try leaf. apply some_or_moves.
  - by apply infix_moves.
  - cbn [Eval.eval_with]. destruct es as [|e es]; [leaf|].
    destruct b; [| |simpl in Hok; apply andb_true_iff in Hok as [? ?]; step;
                    destruct (_ || _); [by apply (moves_ret R)|by apply Hev]].
    all: (eapply (moves_bind R); [by apply eval_list_moves|]; intros rs Hrs;
          destruct (List.find Expr.is_return rs) eqn:E;
            [apply (moves_ret R); by eapply find_value|];
          eapply (moves_bind R (fun _ => True)); [leaf|]; intros; leaf).
  - by apply let_moves.
  - by apply iter_moves.
  - cbn [Eval.eval_with]. leaf.
  - cbn [Eval.eval_with]. step. destruct a; try leaf.
    destruct (Literal.dest_bool l) as [[]|]; [by apply Hev|by apply alternative_moves|leaf].
  - by apply if_match_moves.
  - cbn [Eval.eval_with]. step.
    destruct a as [| |[| |[|? []]]| | | | | | | | | | |]; try leaf; try by apply alternative_moves.
    apply try_moves. intros e' He'. by apply (apply_value _ _ (LitExpr l) _ eq_refl He').
  - by apply call_moves.
Qed.
End ev.

Lemma eval_moves n e : ok e -> moves R value (Eval.eval internal n e) (Eval.eval internal' n e).
Proof.
  revert e. induction n as [|n IH]; intros e He.
  - apply moves_same; [intros w; simpl; reflexivity|by intros w a w'].
  - by apply eval_with_moves.
Qed.
End effects.
