(* ===== verification/DataPlane.v ===== *)
(** * Policies of the data plane, evaluated in their environment

    [Externals.Env] implements the interface of the evaluator; here its laws
    are proved, and the theorems about evaluation are stated for it:
    evaluation does not depend on the fuel, results are literals, programs
    without recursion terminate, only calls of services have effects, and the
    declared services leave the metadata of the request alone. *)

From Stdlib Require Import ZArith Lia String Ascii List.
From stdpp Require Import base tactics list strings sets.
From S2P Require Import Prelude.
From S2P Require Import Ordered.
From S2P Require Import Strings.
From S2P Require Import Labels.
From S2P Require Import Syntax.
From S2P Require Import Types.
From S2P Require Import Net.
From S2P Require Import Literals.
From S2P Require Import FnHeaders.
From S2P Require Import Expressions.
From S2P Require Import Interpret.
From S2P Require Import Meta.
From S2P Require Import Eval.
From S2P Require Import EvalTheory.
From S2P Require Import Termination.
From S2P Require Import Effects.
From S2P Require Import Externals.

Local Open Scope string_scope.
Local Open Scope list_scope.

Section environment.
Context `{Profile} `{Lib} {Net : Type}.
Variable regex_to_string : PolicyRegex -> string.
Variable network : Z -> string -> string -> list Value -> Net -> result Reader Error * Net.
Notation interp := (Env.DP_Interp regex_to_string network).

Lemma method_ok eid m name args r m' :
  IngressEgress.method (FL := FlatLiteral) eid m name args = (Ok r, m') -> Expr.is_value r = true.
Proof.
  unfold IngressEgress.method. intros Hm.
  repeat (split_match_in Hm; simplify_eq/=; try done).
Qed.

Lemma handle_ok c s r s' :
  IngressEgress.handle (FL := FlatLiteral) c s = (Ok r, s') -> Expr.is_value r = true.
Proof.
  unfold IngressEgress.handle. destruct (_ =? "Ingress").
  { destruct (IngressEgress.method _ _ _ _) eqn:E. intros; simplify_eq. by eapply method_ok. }
  destruct (_ =? "Egress"); [|done].
  destruct (IngressEgress.method _ _ _ _) eqn:E. intros; simplify_eq. by eapply method_ok.
Qed.

Lemma call_ok f args r : LitInterpret.eval_call (FL := FlatLiteral) f args = Val r -> Expr.is_value r = true.
Proof.
  unfold LitInterpret.eval_call. cbv zeta. intros Hc.
  assert (forall n (o : Outcome (option DPLiteral)),
    (r ← o; match r with Some l => Val (LitExpr l) | None => Fail (LitInterpret.type_error n) end) = Val r ->
    Expr.is_value r = true) as Hr.
  { intros n [[l|]| | |]; simpl; intros; by simplify_eq. }
  repeat (split_match_in Hc; try discriminate Hc); by eapply Hr.
Qed.

Lemma network_returns externals c net :
  (Externals.call regex_to_string network externals c net).1 <> OutOfFuel.
Proof.
  unfold Externals.call. destruct (BTreeMap.get _ _); [|done].
  destruct (build_args_total regex_to_string (call_args c)) as [vs ->].
  destruct (network _ _ _ _ _) as [[v|] ?]; [|done]. simpl. by destruct (TExternals.read_value v).
Qed.

#[export] Instance DP_InterpLaws : @InterpLaws FlatLiteral (World Net) interp.
Proof.
  split; simpl.
  - intros e p e' b _. apply dp_match_value.
  - intros f args w r w' Hc. unfold lift in Hc. simplify_eq. by eapply call_ok.
  - intros c w r w'. unfold Env.meta_send. destruct (IngressEgress.handle c (w_meta w)) as [[e|x] m] eqn:E;
      simpl; intros; simplify_eq. by eapply handle_ok.
  - intros c w r w'. unfold Env.external_send, Externals.call. destruct (BTreeMap.get _ _); [|done].
    destruct (Externals.build_args _ _); [|done]. destruct (network _ _ _ _ _) as [[v|] ?]; [|done]. simpl.
    destruct (TExternals.read_value v); [|done]. simpl. intros; by simplify_eq.
  - intros. apply dp_prefix_returns.
  - intros. apply dp_infix_returns.
  - intros. apply dp_match_returns.
  - intros. apply dp_call_returns.
  - intros. unfold Env.meta_send. by destruct (IngressEgress.handle _ _) as [[] ?].
  - intros c w. unfold Env.external_send. pose proof (network_returns (w_externals w) c (w_net w)).
    by destruct (Externals.call _ _ _ _ _).
  - done.
Qed.
End environment.

(** ** Calls and their effects *)

(** A builtin or a function of the program. *)
Definition local_call (internal : BTreeMap string (Expr FlatLiteral)) (f : string) : bool :=
  match BTreeMap.get internal f with Some _ => true | None => FnHeaders.is_builtin (FT := FlatTyp) f end.

(** A call that the checker accepts: those of [Ingress] are declared. *)
Definition declared_call (f : string) : bool :=
  match FnHeaders.split f with
  | Some (module, _) =>
    if module =? "Ingress" then
      match TypBuiltins.internal_service (FT := FlatTyp) f with Some _ => true | None => false end
    else true
  | None => true
  end.

Definition same_ingress {Net} (w w' : World Net) : Prop := ingress (w_meta w') = ingress (w_meta w).

#[export] Instance same_ingress_preorder {Net} : PreOrder (same_ingress (Net := Net)).
Proof. split; [by intros w|]. intros w1 w2 w3 H12 H23. unfold same_ingress in *. congruence. Qed.

Lemma declared_keeps_ingress (module name : string) (args : list DPLiteral) (s : IngressEgress) f :
  FnHeaders.split f = Some (module, name) -> declared_call f = true ->
  ingress (IngressEgress.handle (mkCall module name args) s).2 = ingress s.
Proof.
  intros Hs Hd. unfold declared_call in Hd. rewrite Hs in Hd.
  destruct (module =? "Ingress") eqn:E.
  - destruct (TypBuiltins.internal_service f) eqn:Ef; [|done]. by eapply ingress_of_services.
  - unfold IngressEgress.handle. simpl. rewrite E. destruct (module =? "Egress"); [|done].
    by destruct (IngressEgress.method _ _ _ _).
Qed.

Lemma service_keeps_ingress `{Profile} `{Lib} {Net} regex_to_string network f args b (w : World Net) :
  declared_call f = true ->
  same_ingress w (Eval.call_service (H2 := Env.DP_Interp regex_to_string network) f args b w).2.
Proof.
  intros Hf. unfold Eval.call_service. destruct (FnHeaders.split f) as [[module name]|] eqn:Es; [|done].
  unfold mbind, Comp_bind, lift. destruct (Expr.literal_vector args) as [lits|]; [|done]. simpl.
  destruct (_ || _).
  - unfold Env.meta_send. pose proof (declared_keeps_ingress module name lits (w_meta w) f Es Hf) as Hk.
    by destruct (IngressEgress.handle _ (w_meta w)) as [[] ?].
  - destruct b; [done|]. unfold Env.external_send. by destruct (Externals.call _ _ _ _ _).
Qed.

(** ** Properties *)

Section properties.
Context `{Profile} `{Lib} {Net : Type}.
Variable regex_to_string : PolicyRegex -> string.
Variable network : Z -> string -> string -> list Value -> Net -> result Reader Error * Net.

(** [Expr::eval] in the environment of the data plane. *)
Definition dp_eval (internal : BTreeMap string (Expr FlatLiteral)) (fuel : nat) (e : Expr FlatLiteral)
    : Comp (World Net) (Expr FlatLiteral) :=
  @Eval.eval _ _ _ _ _ _ (Env.DP_Interp regex_to_string network) internal fuel e.
Notation eval := dp_eval.

(** Evaluation terminates: when the functions of a program can be
    ranked so that each calls only functions of smaller rank, every
    expression evaluates to a result, an error or a panic, from every state
    and whatever the network answers, and a larger fuel gives the same. *)
Theorem evaluation_terminates (internal : BTreeMap string (Expr FlatLiteral)) (rank : string -> nat)
    (e : Expr FlatLiteral) (w : World Net) :
  ranked internal rank ->
  exists n, (eval internal n e w).1 <> OutOfFuel /\
            forall m, n <= m -> eval internal m e w = eval internal n e w.
Proof.
  intros Hr. destruct (calls_below_converges (H3 := DP_InterpLaws regex_to_string network) internal rank Hr _ e (calls_below_top internal rank e) w)
    as [n Hn].
  exists n. split; [done|]. intros m Hm. by apply (eval_mono (H2 := Env.DP_Interp regex_to_string network)).
Qed.

(** The result does not depend on the fuel: two evaluations that finish
    return the same outcome and leave the same state. *)
Theorem evaluation_deterministic (internal : BTreeMap string (Expr FlatLiteral)) (n m : nat)
    (e : Expr FlatLiteral) (w : World Net) :
  (eval internal n e w).1 <> OutOfFuel -> (eval internal m e w).1 <> OutOfFuel ->
  eval internal n e w = eval internal m e w.
Proof.
  intros Hn Hm. destruct (Nat.le_ge_cases n m) as [Hle|Hle].
  - symmetry. by apply (eval_mono (H2 := Env.DP_Interp regex_to_string network)).
  - by apply (eval_mono (H2 := Env.DP_Interp regex_to_string network)).
Qed.

(** An expression that evaluates at all evaluates to a literal, possibly
    under [return]; no variable, closure or unfinished call is a result. *)
Theorem results_are_values (internal : BTreeMap string (Expr FlatLiteral)) (n : nat)
    (e r : Expr FlatLiteral) (w w' : World Net) :
  eval internal n e w = (Val r, w') -> Expr.is_value r = true.
Proof. apply (eval_value (H3 := DP_InterpLaws regex_to_string network)). Qed.

(** C33: only calls of services have effects: when an expression and the
    functions it may call contain calls of builtins and of functions of the
    program only, evaluation leaves metadata, network and spawned calls as
    they were. *)
Theorem local_evaluation_pure (internal : BTreeMap string (Expr FlatLiteral)) (n : nat)
    (e : Expr FlatLiteral) (w : World Net) :
  (forall f body, BTreeMap.get internal f = Some body -> forall_calls (local_call internal) body = true) ->
  forall_calls (local_call internal) e = true ->
  (eval internal n e w).2 = w.
Proof.
  intros Hb He. symmetry.
  refine (proj1 (proj2 (eval_moves (H3 := DP_InterpLaws regex_to_string network) internal internal eq
    (local_call internal) (fun _ _ => eq_refl) (fun f body _ => Hb f body) _ _ n e He)) w); [done|].
  intros f args b w' Hf Hget Hbu. unfold local_call in Hf. rewrite Hget in Hf. congruence.
Qed.

(** A policy never changes the metadata received with the request: the
    program may call every function, builtin, external and declared service,
    and whatever it does, errors included, the ingress metadata stays. *)
Theorem evaluation_keeps_ingress (internal : BTreeMap string (Expr FlatLiteral)) (n : nat)
    (e : Expr FlatLiteral) (w : World Net) :
  (forall f body, BTreeMap.get internal f = Some body -> forall_calls declared_call body = true) ->
  forall_calls declared_call e = true ->
  ingress (w_meta (eval internal n e w).2) = ingress (w_meta w).
Proof.
  intros Hb He.
  refine (proj1 (proj2 (eval_moves (H3 := DP_InterpLaws regex_to_string network) internal internal same_ingress
    declared_call (fun _ _ => eq_refl) (fun f body _ => Hb f body) _ _ n e He)) w); [done|].
  intros f args b w' Hf _ _. apply service_keeps_ingress. exact Hf.
Qed.
(** The negation operator of policies negates nothing: when an expression
    evaluates to a boolean, its negation evaluates to the same boolean, with
    the same effects. *)
Theorem negation_is_identity (internal : BTreeMap string (Expr FlatLiteral)) (n : nat)
    (e : Expr FlatLiteral) (b : bool) (w w' : World Net) :
  eval internal n e w = (Val (LitExpr (Literal.bool b)), w') ->
  eval internal (S n) (PrefixExpr Not e) w = (Val (LitExpr (Literal.bool b)), w').
Proof.
  unfold dp_eval. intros He. simpl. unfold mbind, Comp_bind. rewrite He. reflexivity.
Qed.
End properties.

(** ** A concrete program and network *)

Definition test_network (timeout : Z) (socket method : string) (args : list Value) (n : nat)
    : result Reader Error * nat := (Ok RUnit, S n).

Definition test_internal : BTreeMap string (Expr FlatLiteral) :=
  [("double", Closure "x" (InfixExpr Multiply (BVar "x" 0) (LitExpr (Literal.int 2))));
   ("quadruple", Closure "x" (Expr.call "double" [Expr.call "double" [BVar "x" 0]]))].
Definition test_rank (f : string) : nat := if f =? "quadruple" then 1 else 0.
Definition test_call : Expr FlatLiteral := Expr.call "quadruple" [LitExpr (Literal.int 10)].
Definition test_world : World nat := Env.new Externals.default 0.
Definition test_eval : nat -> Expr FlatLiteral -> Comp (World nat) (Expr FlatLiteral) :=
  @dp_eval false test_lib nat (fun _ => "") test_network test_internal.

Lemma evaluation_terminates_witness :
  ranked test_internal test_rank /\
  exists n, (test_eval n test_call test_world).1 <> OutOfFuel /\
            forall m, n <= m -> test_eval m test_call test_world = test_eval n test_call test_world.
Proof.
  assert (ranked test_internal test_rank) as Hr.
  { intros f body Hf. apply BTreeMap.get_Some_elem in Hf.
    repeat (apply elem_of_cons in Hf as [Hf|Hf]; [injection Hf as -> ->; reflexivity|]).
    by apply elem_of_nil in Hf. }
  split; [exact Hr|].
  exact (@evaluation_terminates false test_lib nat (fun _ => "") test_network
           test_internal test_rank test_call test_world Hr).
Defined.

Lemma evaluation_deterministic_witness :
  (test_eval 20 test_call test_world).1 = Val (LitExpr (Literal.int 40)) /\
  test_eval 20 test_call test_world = test_eval 30 test_call test_world.
Proof.
  split; [vm_compute; reflexivity|].
  refine (@evaluation_deterministic false test_lib nat (fun _ => "") test_network
            test_internal 20 30 test_call test_world _ _); vm_compute; discriminate.
Defined.

Lemma results_are_values_witness :
  Expr.is_value (LitExpr (FL := FlatLiteral) (Literal.int 40)) = true.
Proof.
  refine (@results_are_values false test_lib nat (fun _ => "") test_network
            test_internal 20 test_call _ test_world test_world _). vm_compute. reflexivity.
Defined.

Lemma local_evaluation_pure_witness : (test_eval 20 test_call test_world).2 = test_world.
Proof.
  refine (@local_evaluation_pure false test_lib nat (fun _ => "") test_network
            test_internal 20 test_call test_world _ _); [|vm_compute; reflexivity].
  intros f body Hf. apply BTreeMap.get_Some_elem in Hf.
  repeat (apply elem_of_cons in Hf as [Hf|Hf]; [injection Hf as -> ->; vm_compute; reflexivity|]).
  by apply elem_of_nil in Hf.
Defined.

Lemma evaluation_keeps_ingress_witness :
  let e := BlockExpr BBlock [Expr.call "Egress::set_id" []; Expr.call "Ingress::id" []] in
  w_meta (test_eval 20 e test_world).2 <> w_meta test_world /\
  ingress (w_meta (test_eval 20 e test_world).2) = ingress (w_meta test_world).
Proof.
  intros e. split; [vm_compute; discriminate|].
  refine (@evaluation_keeps_ingress false test_lib nat (fun _ => "") test_network
            test_internal 20 e test_world _ _); [|vm_compute; reflexivity].
  intros f body Hf. apply BTreeMap.get_Some_elem in Hf.
  repeat (apply elem_of_cons in Hf as [Hf|Hf]; [injection Hf as -> ->; vm_compute; reflexivity|]).
  by apply elem_of_nil in Hf.
Defined.

Lemma negation_is_identity_witness :
  let e := InfixExpr Equal (LitExpr (Literal.int 1)) (LitExpr (Literal.int 1)) in
  test_eval 3 (PrefixExpr Not e) test_world = (Val (LitExpr (Literal.bool true)), test_world).
Proof.
  intros e. refine (@negation_is_identity false test_lib nat (fun _ => "") test_network
    test_internal 2 e true test_world test_world _). vm_compute. reflexivity.
Defined.
