(* ===== verification/Lang.v ===== *)
(** * Programs (src/src/armour-lang/src/lang.rs)

    A program is built from parsed declarations: first the signatures of its
    functions and externals are collected, then each body is compiled and its
    calls become edges of the call graph; a cycle is an error.  Functions that
    cannot be reached from given ones can be cut.  The graph algorithms of
    petgraph are parameters. *)

From Stdlib Require Import ZArith Lia String Ascii List.
From stdpp Require Import base tactics list strings sets relations.
From S2P Require Import Prelude.
From S2P Require Import Ordered.
From S2P Require Import Strings.
From S2P Require Import Labels.
From S2P Require Import Syntax.
From S2P Require Import Types.
From S2P Require Import Net.
From S2P Require Import Literals.
From S2P Require Import Ast.
From S2P Require Import FnHeaders.
From S2P Require Import Expressions.
From S2P Require Import Interpret.
From S2P Require Import TypeCheck.
From S2P Require Import Meta.
From S2P Require Import Eval.
From S2P Require Import Externals.

Local Open Scope string_scope.
Local Open Scope list_scope.

(** ** Directed graphs (petgraph) *)

(** [DiGraph<String, Loc>]: nodes are numbered in the order they are added. *)
Record DiGraph := mkGraph { g_nodes : list string; g_edges : list (nat * nat * Loc) }.

Definition edge (g : DiGraph) (a b : nat) : Prop := exists l, (a, b, l) ∈ g_edges g.

Class Petgraph := {
  (** An order of the nodes, or a node on a cycle. *)
  toposort : DiGraph -> result (list nat) nat;
  has_path_connecting : DiGraph -> nat -> nat -> bool;
}.

(** The documented behaviour: a topological order puts every node before its
    successors, the error names a node of a cycle; a path is a sequence of edges, possibly empty. *)
Class PetgraphLaws `{Petgraph} := {
  toposort_order g ord a b :
    toposort g = Ok ord -> edge g a b -> exists i j, ord !! i = Some a /\ ord !! j = Some b /\ i < j;
  toposort_nodup g ord : toposort g = Ok ord -> NoDup ord;
  toposort_cycle g n : toposort g = Err n -> tc (edge g) n n;
  path_spec g a b : has_path_connecting g a b = true <-> rtc (edge g) a b;
}.

Record CallGraph := mkCallGraph { cg_graph : DiGraph; cg_nodes : BTreeMap string nat }.

Module CallGraph.
Section graph.
Context `{Petgraph}.
Definition empty : CallGraph := mkCallGraph (mkGraph [] []) [].

Definition add_node (g : CallGraph) (name : string) : CallGraph :=
  mkCallGraph (mkGraph (g_nodes (cg_graph g) ++ [name]) (g_edges (cg_graph g)))
    (BTreeMap.insert name (length (g_nodes (cg_graph g))) (cg_nodes g)).

Definition add_edge (g : CallGraph) (a b : nat) (l : Loc) : CallGraph :=
  mkCallGraph (mkGraph (g_nodes (cg_graph g)) (g_edges (cg_graph g) ++ [(a, b, l)])) (cg_nodes g).

Definition node (g : CallGraph) (name : string) : Outcome nat :=
  ok_or (BTreeMap.get (cg_nodes g) name) (mkError "cannot find {} node" [name]).

Definition check_for_cycles (g : CallGraph) : result unit Error :=
  match toposort (cg_graph g) with
  | Ok _ => Ok tt
  | Err n =>
    match g_nodes (cg_graph g) !! n with
    | Some name => Err (mkError "cycle detected: the function {} might not terminate" [name])
    | None => Err (error_new "cycle detected for unknown function")
    end
  end.

(** The functions that no function of [top] reaches. *)
Definition unreachable (g : CallGraph) (top : list string) : list string :=
  let indices := omap (BTreeMap.get (cg_nodes g)) top in
  omap (fun n : string * nat =>
          if existsb (fun t => has_path_connecting (cg_graph g) t n.2) indices then None else Some n.1)
       (cg_nodes g).
End graph.
End CallGraph.

(** ** Programs *)

Definition Code (FL : Type) := BTreeMap string (Expr FL).

Module Code.
Section code.
Context {FL : Type}.
Definition cut (c : Code FL) (set : list string) : Code FL := foldl (fun c s => BTreeMap.remove s c) c set.
Definition merge (c1 c2 : Code FL) : Code FL := BTreeMap.collect (c1 ++ c2).
End code.
End Code.

Record Program (FT FL : Type) := mkProgram { code : Code FL; externals : Externals; headers : FnHeaders FT }.
Arguments mkProgram {FT FL} code externals headers.
Arguments code {FT FL} p.
Arguments externals {FT FL} p.
Arguments headers {FT FL} p.

Record PreProgram (FT FL : Type) := mkPreProgram { call_graph : CallGraph; program : Program FT FL }.
Arguments mkPreProgram {FT FL} call_graph program.
Arguments call_graph {FT FL} p.
Arguments program {FT FL} p.

Module Program.
Section program.
Context {FT FL : Type} `{TFlatTyp FT} `{TFlatLiteral FT FL} `{TBuiltin FT}.
Definition default : Program FT FL := mkProgram [] Externals.default [].
Definition cut (p : Program FT FL) (set : list string) : Program FT FL :=
  mkProgram (Code.cut (code p) set) (externals p) (FnHeaders.cut (headers p) set).
Definition typ (p : Program FT FL) (name : string) : option (Signature FT) := FnHeaders.typ (headers p) name.
Definition is_empty (p : Program FT FL) : bool := match code p with [] => true | _ => false end.
Definition merge (p q : Program FT FL) : Program FT FL :=
  mkProgram (Code.merge (code p) (code q)) (Externals.merge (externals p) (externals q))
    (FnHeaders.merge (headers p) (headers q)).
Definition set_timeout (p : Program FT FL) (t : Z) : Program FT FL :=
  mkProgram (code p) (Externals.set_timeout (externals p) t) (headers p).
Definition timeout (p : Program FT FL) : Z := Externals.timeout (externals p).
End program.
End Program.

Module PreProgram.
Section preprogram.
Context {FT FL : Type} `{TFlatTyp FT} `{TFlatLiteral FT FL} `{TBuiltin FT} `{Lib} `{RegexNew} `{HashOrder} `{Petgraph}.
Notation PreProgram := (PreProgram FT FL).

Definition default : PreProgram := mkPreProgram CallGraph.empty Program.default.

(** The edges of a compiled function: one for each call of a function that is
    not internal. *)
Fixpoint add_calls (own : nat) (calls : Calls) (g : CallGraph) : Outcome CallGraph :=
  match calls with
  | [] => Val g
  | c :: calls' =>
    if FnHeaders.is_internal (FT := FT) (cs_name c) then add_calls own calls' g
    else
      call_idx ← CallGraph.node g (cs_name c);
      add_calls own calls' (CallGraph.add_edge g own call_idx (cs_loc c))
  end.

Definition add_decl (m : PreProgram) (d : FnDecl FL) : Outcome PreProgram :=
  '(name, e, calls) ← TypeCheck.from_decl (headers (program m)) d;
  own_idx ← CallGraph.node (call_graph m) name;
  g ← add_calls own_idx calls (call_graph m);
  let p := program m in
  Val (mkPreProgram g (mkProgram (BTreeMap.insert name e (code p)) (externals p) (headers p))).

(** A function and its node. *)
Definition add_header (m : PreProgram) (name : string) (sig : result (Signature FT) (TypeError FT)) (kind : string)
    (loc : Loc) : Outcome PreProgram :=
  sig ← match sig with
        | Ok s => Val s
        | Err e => Fail (mkError (kind ^^ " {} at {}: {}") [name; Loc.to_string loc; TypeError.to_string e])
        end;
  let p := program m in
  let '(r, hs) := FnHeaders.add_function (headers p) name sig in
  _ ← try r;
  Val (mkPreProgram (CallGraph.add_node (call_graph m) name) (mkProgram (code p) (externals p) hs)).

Fixpoint add_heads (m : PreProgram) (ename : string) (hs : list Head) : Outcome PreProgram :=
  match hs with
  | [] => Val m
  | h :: hs' =>
    m ← add_header m (ename ^^ "::" ^^ Head.name h) (Head.typ h) "header" (Head.loc h);
    add_heads m ename hs'
  end.

(** First pass: signatures. *)
Fixpoint add_headers (m : PreProgram) (ds : list (Decl FL)) : Outcome PreProgram :=
  match ds with
  | [] => Val m
  | DFnDecl d :: ds' =>
    m ← add_header m (FnDecl.name d) (FnDecl.typ d) "function" (FnDecl.loc d);
    add_headers m ds'
  | DExternal e :: ds' =>
    m ← add_heads m (Syntax.id (ext_name e)) (ext_headers e);
    let p := program m in
    let '(_, exts) := Externals.add_external (externals p) (Syntax.id (ext_name e)) (Syntax.id (ext_url e)) in
    add_headers (mkPreProgram (call_graph m) (mkProgram (code p) exts (headers p))) ds'
  end.

(** Second pass: bodies. *)
Fixpoint add_decls (m : PreProgram) (ds : list (Decl FL)) : Outcome PreProgram :=
  match ds with
  | [] => Val m
  | DFnDecl d :: ds' => m ← add_decl m d; add_decls m ds'
  | DExternal _ :: ds' => add_decls m ds'
  end.

(** [from_str], after parsing. *)
Definition from_decls (ds : list (Decl FL)) : Outcome PreProgram :=
  m ← add_headers default ds; add_decls m ds.

(** [from_buf], after parsing. *)
Definition from_buf (ds : list (Decl FL)) : Outcome PreProgram :=
  m ← from_decls ds;
  _ ← try (CallGraph.check_for_cycles (call_graph m));
  Val m.

(** [PreProgram::program]: cut what the given functions do not reach. *)
Definition to_program (m : PreProgram) (functions : list string) : Program FT FL :=
  match functions with
  | [] => program m
  | _ => Program.cut (program m) (CallGraph.unreachable (call_graph m) functions)
  end.
End preprogram.
End PreProgram.

(** ** Dead code *)

Module Deadcode.
Section deadcode.
Context {FT FL : Type} `{TFlatTyp FT} `{TFlatLiteral FT FL} `{TBuiltin FT} `{Petgraph}.
Notation Expr := (Expr FL).

(** The index of a called function, a fresh node when it has none yet. *)
Definition node_or_add (g : CallGraph) (f : string) : nat * CallGraph :=
  match BTreeMap.get (cg_nodes g) f with
  | Some i => (i, g)
  | None => (length (g_nodes (cg_graph g)), CallGraph.add_node g f)
  end.

(** [aux_deadcode_elim]: the edges from [own] to the functions that the
    expression calls. *)
Fixpoint aux_deadcode_elim (own : nat) (e : Expr) (g : CallGraph) : CallGraph :=
  let go_opt (a : option Expr) (g : CallGraph) : CallGraph :=
    match a with Some a => aux_deadcode_elim own a g | None => g end in
  let go_list (es : list Expr) (g : CallGraph) : CallGraph :=
    foldl (fun g e => aux_deadcode_elim own e g) g es in
  match e with
  | Var _ | BVar _ _ | LitExpr _ => g
  | ReturnExpr e | PrefixExpr _ e | Closure _ e => aux_deadcode_elim own e g
  | InfixExpr _ e1 e2 | Let _ e1 e2 => aux_deadcode_elim own e2 (aux_deadcode_elim own e1 g)
  | IterExpr _ _ e1 e2 acc =>
    let g := aux_deadcode_elim own e2 (aux_deadcode_elim own e1 g) in
    match acc with Some (_, a) => aux_deadcode_elim own a g | None => g end
  | BlockExpr _ xs => go_list xs g
  | IfExpr c e a | IfSomeMatchExpr c e a =>
    go_opt a (aux_deadcode_elim own e (aux_deadcode_elim own c g))
  | IfMatchExpr _ ms e a =>
    go_opt a (aux_deadcode_elim own e (foldl (fun g m => aux_deadcode_elim own m.1 g) g ms))
  | CallExpr f args _ =>
    let g := go_list args g in
    if FnHeaders.is_internal (FT := FT) f then g
    else let '(i, g) := node_or_add g f in CallGraph.add_edge g own i Loc.dummy
  end.

(** The graph of a program, function by function: each gets a new node, also
    when a call of it was met before. *)
Fixpoint build_graph (p : Program FT FL) (names : list string) (g : CallGraph) : Outcome CallGraph :=
  match names with
  | [] => Val g
  | name :: names' =>
    let g := CallGraph.add_node g name in
    own_idx ← CallGraph.node g name;
    e ← unwrap (BTreeMap.get (code p) name);
    build_graph p names' (aux_deadcode_elim own_idx e g)
  end.

(** [Program::deadcode_elim] *)
Definition deadcode_elim (p : Program FT FL) (mains : list string) : Outcome (Program FT FL) :=
  g ← build_graph p (BTreeMap.keys (headers p)) CallGraph.empty;
  Val (PreProgram.to_program (mkPreProgram g p) mains).
End deadcode.
End Deadcode.
