(* ===== verification/Graphs.v ===== *)
(** * A graph library for the examples

    Reachability and topological order by exhaustive search, with the laws
    that the linker relies on: the concrete functions of the examples about
    programs. *)

From Stdlib Require Import ZArith Lia String Ascii List.
From stdpp Require Import base tactics list strings sets relations sorting.
From S2P Require Import Prelude.
From S2P Require Import Syntax.
From S2P Require Import Lang.

Local Open Scope list_scope.

(** Is there a path from [a] to [b]?  One that uses the first edge does it
    once. *)
Fixpoint path (es : list (nat * nat * Loc)) (a b : nat) : bool :=
  match es with
  | [] => Nat.eqb a b
  | (u, v, _) :: es' => path es' a b || (path es' a u && path es' v b)
  end.

Definition edge_in (es : list (nat * nat * Loc)) (a b : nat) : Prop := exists l, (a, b, l) ∈ es.

Lemma edge_in_cons u v l es a b :
  edge_in ((u, v, l) :: es) a b <-> (a = u /\ b = v) \/ edge_in es a b.
Proof.
  unfold edge_in. split.
  - intros [l' [Hl|Hl]%elem_of_cons]; [injection Hl as -> -> ->; auto|eauto].
  - intros [[-> ->]|[l' Hl]]; [exists l; by left|exists l'; by right].
Qed.

Lemma rtc_edge_cons u v l es a b :
  rtc (edge_in ((u, v, l) :: es)) a b <->
  rtc (edge_in es) a b \/ (rtc (edge_in es) a u /\ rtc (edge_in es) v b).
Proof.
  assert (forall x y, rtc (edge_in es) x y -> rtc (edge_in ((u, v, l) :: es)) x y) as Hsub.
  { intros x y. apply rtc_subrel. intros ? ? ?. apply edge_in_cons. by right. }
  split.
  - induction 1 as [x|x y z Hxy _ IH]; [left; reflexivity|].
    apply edge_in_cons in Hxy as [[-> ->]|Hxy].
    + right. split; [reflexivity|]. by destruct IH as [?|[? ?]].
    + destruct IH as [?|[? ?]]; [left; by eapply rtc_l|right; split; [by eapply rtc_l|done]].
  - intros [?|[Hu Hv]]; [by apply Hsub|]. etrans; [by apply Hsub|].
    eapply rtc_l; [apply edge_in_cons; by left|]. by apply Hsub.
Qed.

Lemma path_rtc es a b : path es a b = true <-> rtc (edge_in es) a b.
Proof.
  revert a b. induction es as [|[[u v] l] es IH]; intros a b; simpl.
  - rewrite Nat.eqb_eq. split; [intros ->; reflexivity|].
    inversion 1 as [|? ? ? [? Hn]]; subst; [done|]. by apply elem_of_nil in Hn.
  - by rewrite orb_true_iff, andb_true_iff, !IH, rtc_edge_cons.
Qed.

(** A node on a cycle: the source of an edge whose target leads back. *)
Definition cyclic (es : list (nat * nat * Loc)) : option (nat * nat * Loc) :=
  List.find (fun e => path es e.1.2 e.1.1) es.

Definition endpoints (g : DiGraph) : list nat :=
  remove_dups (seq 0 (length (g_nodes g)) ++ concat (map (fun e => [e.1.1; e.1.2]) (g_edges g))).

(** The number of nodes that lead to [b]. *)
Definition ancestors (g : DiGraph) (b : nat) : list nat :=
  filter (fun a => path (g_edges g) a b = true) (endpoints g).
Definition depth (g : DiGraph) (b : nat) : nat := length (ancestors g b).
Definition before (g : DiGraph) (a b : nat) : Prop := depth g a <= depth g b.

#[export] Instance before_dec g : RelDecision (before g).
Proof. intros a b. unfold before. apply _. Defined.
#[export] Instance before_total g : Total (before g).
Proof. intros a b. unfold before. lia. Qed.
#[export] Instance before_trans g : Transitive (before g).
Proof. intros a b c. unfold before. lia. Qed.

#[export] Instance test_petgraph : Petgraph := {
  toposort g :=
    match cyclic (g_edges g) with
    | Some (a, _, _) => Err a
    | None => Ok (merge_sort (before g) (endpoints g))
    end;
  has_path_connecting g := path (g_edges g);
}.

Lemma sorted_lookup {A} (R : relation A) l i j x y :
  StronglySorted R l -> i < j -> l !! i = Some x -> l !! j = Some y -> R x y.
Proof.
  intros Hs. revert i j. induction Hs as [|z l _ IH Hz]; intros [|i] [|j] Hij Hi Hj; simpl in *; try lia; try done.
  - simplify_eq. rewrite Forall_forall in Hz. apply Hz. by eapply list_elem_of_lookup_2.
  - apply (IH i j); [lia|done..].
Qed.

Lemma edge_endpoints g a b : edge g a b -> a ∈ endpoints g /\ b ∈ endpoints g.
Proof.
  intros [l Hl]. unfold endpoints. rewrite !elem_of_remove_dups, !elem_of_app.
  assert (forall x, x ∈ [a; b] -> x ∈ concat (map (fun e : nat * nat * Loc => [e.1.1; e.1.2]) (g_edges g))) as Hin.
  { intros x Hx. apply list_elem_of_In, in_concat. exists [a; b]. split; [|by apply list_elem_of_In].
    apply list_elem_of_In, (list_elem_of_fmap_2 (fun e : nat * nat * Loc => [e.1.1; e.1.2]) _ _ Hl). }
  split; right; apply Hin; set_solver.
Qed.

Lemma depth_edge g a b : cyclic (g_edges g) = None -> edge g a b -> depth g a < depth g b.
Proof.
  intros Hc He. destruct (edge_endpoints _ _ _ He) as [Ha Hb].
  assert (path (g_edges g) b a = false) as Hback.
  { destruct He as [l Hl]. apply list_elem_of_In in Hl. exact (find_none _ _ Hc _ Hl). }
  unfold depth. assert (NoDup (b :: ancestors g a)) as Hnd.
  { constructor; [|apply NoDup_filter, NoDup_remove_dups].
    unfold ancestors. rewrite list_elem_of_filter. intros [Hp _]. congruence. }
  assert (b :: ancestors g a ⊆ ancestors g b) as Hsub.
  { intros x [->|Hx]%elem_of_cons; unfold ancestors in *; rewrite !list_elem_of_filter in *.
    - split; [|done]. apply path_rtc. reflexivity.
    - destruct Hx as [Hx Hin]. split; [|done]. rewrite path_rtc in *. by eapply rtc_r. }
  apply (submseteq_length (b :: ancestors g a) (ancestors g b)). by apply NoDup_submseteq.
Qed.

#[export] Instance test_petgraph_laws : PetgraphLaws.
Proof.
  split; simpl.
  - intros g ord a b. destruct (cyclic (g_edges g)) as [[[] ?]|] eqn:Hc; [done|]. intros Ho He. simplify_eq.
    destruct (edge_endpoints _ _ _ He) as [Ha Hb].
    rewrite <- (merge_sort_Permutation (before g)) in Ha, Hb.
    apply list_elem_of_lookup in Ha as [i Hi]. apply list_elem_of_lookup in Hb as [j Hj].
    exists i, j. split_and!; [done..|]. destruct (Nat.lt_ge_cases i j) as [|Hji]; [done|].
    pose proof (depth_edge _ _ _ Hc He) as Hlt.
    destruct (decide (i = j)) as [->|Hne]; [rewrite Hi in Hj; simplify_eq; lia|].
    pose proof (StronglySorted_merge_sort (before g) (endpoints g)) as Hs.
    pose proof (sorted_lookup _ _ j i b a Hs ltac:(lia) Hj Hi) as Hba. unfold before in Hba. lia.
  - intros g ord. destruct (cyclic (g_edges g)) as [[[] ?]|]; [done|]. intros; simplify_eq.
    rewrite merge_sort_Permutation. apply NoDup_remove_dups.
  - intros g n. destruct (cyclic (g_edges g)) as [[[a b] l]|] eqn:Hc; [|done]. intros; simplify_eq.
    apply find_some in Hc as [Hin%list_elem_of_In Hp]. simpl in Hp. apply path_rtc in Hp.
    eapply tc_rtc_r; [|exact Hp]. apply tc_once. by exists l.
  - intros g a b. apply path_rtc.
Qed.
