(* ===== verification/Policies.v ===== *)
(** * Policies (src/src/armour-lang/src/policies.rs)

    A policy is a program with, for each function of a protocol, what the
    proxy does: allow, deny, or call the function with a number of arguments.
    Policies are made from linked programs, one for each protocol, after a
    check of the signatures; they are merged, and the trivial ones recognised.
    Hashing and serialization are not modelled. *)

From Stdlib Require Import ZArith Lia String Ascii List.
From stdpp Require Import base tactics list strings sets.
From S2P Require Import Prelude.
From S2P Require Import Ordered.
From S2P Require Import Strings.
From S2P Require Import Labels.
From S2P Require Import Syntax.
From S2P Require Import Types.
From S2P Require Import Net.
From S2P Require Import Literals.
From S2P Require Import Ast.
From S2P Require Import FnHeaders.
From S2P Require Import Expressions.
From S2P Require Import Interpret.
From S2P Require Import TypeCheck.
From S2P Require Import Lang.

Local Open Scope string_scope.
Local Open Scope list_scope.

(** ** What is done for a function *)

(** The number of arguments is a [u8]. *)
Inductive FnPolicy := Allow | Deny | Args (n : Z).
#[export] Instance FnPolicy_eq_dec : EqDecision FnPolicy.
Proof. solve_decision. Defined.

Definition FnPolicy_default : FnPolicy := Deny.

Definition ALLOW_REST_REQUEST : string := "allow_rest_request".
Definition ALLOW_REST_RESPONSE : string := "allow_rest_response".
Definition ALLOW_TCP_CONNECTION : string := "allow_tcp_connection".
Definition ON_TCP_DISCONNECT : string := "on_tcp_disconnect".

Definition is_ingress (function : string) : bool :=
  (ALLOW_REST_REQUEST =? function) || (ALLOW_TCP_CONNECTION =? function).
Definition is_egress (function : string) : bool := ALLOW_REST_RESPONSE =? function.

Definition FnPolicies := BTreeMap string FnPolicy.

Module FnPolicies.
Definition all (p : FnPolicy) (names : list string) : FnPolicies :=
  BTreeMap.collect (map (fun name => (name, p)) names).
Definition allow_all (names : list string) : FnPolicies := all Allow names.
Definition allow_egress (names : list string) : FnPolicies := all Allow (List.filter is_egress names).
Definition allow_ingress (names : list string) : FnPolicies := all Allow (List.filter is_ingress names).
Definition deny_all (names : list string) : FnPolicies := all Deny names.
Definition deny_egress (names : list string) : FnPolicies := all Deny (List.filter is_egress names).
Definition deny_ingress (names : list string) : FnPolicies := all Deny (List.filter is_ingress names).

(** Not empty, and [p] for every function that [f] selects. *)
Definition is_all (p : FnPolicy) (f : string -> bool) (fp : FnPolicies) : bool :=
  match fp with
  | [] => false
  | _ => forallb (fun kv : string * FnPolicy => negb (f kv.1) || bool_decide (kv.2 = p)) fp
  end.
Definition is_allow_all (fp : FnPolicies) : bool := is_all Allow (fun _ => true) fp.
Definition is_allow_egress (fp : FnPolicies) : bool := is_all Allow is_egress fp.
Definition is_allow_ingress (fp : FnPolicies) : bool := is_all Allow is_ingress fp.
Definition is_deny_all (fp : FnPolicies) : bool := is_all Deny (fun _ => true) fp.
Definition is_deny_egress (fp : FnPolicies) : bool := is_all Deny is_egress fp.
Definition is_deny_ingress (fp : FnPolicies) : bool := is_all Deny is_ingress fp.

Definition merge (a b : FnPolicies) : FnPolicies := BTreeMap.collect (a ++ b).
Definition set_args (fp : FnPolicies) (k : string) (n : Z) : FnPolicies := BTreeMap.insert k (Args n) fp.
End FnPolicies.

(** ** The functions of the protocols and the types they may have *)

Definition ProtocolPolicy (FT : Type) := BTreeMap string (list (Signature FT)).

Module ProtocolPolicy.
Section protocol.
Context {FT : Type} `{TFlatTyp FT}.
Definition functions (p : ProtocolPolicy FT) : list string := BTreeMap.keys p.
Definition insert_bool (name : string) (args : list (list (Typ FT))) (p : ProtocolPolicy FT) : ProtocolPolicy FT :=
  BTreeMap.insert name (map (fun v => Signature.new v Typ.bool) args) p.
Definition insert_unit (name : string) (args : list (list (Typ FT))) (p : ProtocolPolicy FT) : ProtocolPolicy FT :=
  BTreeMap.insert name (map (fun v => Signature.new v Typ.unit) args) p.

Definition http_policy : ProtocolPolicy FT :=
  insert_bool ALLOW_REST_RESPONSE
    [[Typ.id; Typ.id; Typ.http_response; Typ.data];
     [Typ.http_response; Typ.data];
     [Typ.http_response];
     []]
    (insert_bool ALLOW_REST_REQUEST
       [[Typ.id; Typ.id; Typ.http_request; Typ.data];
        [Typ.http_request; Typ.data];
        [Typ.http_request];
        []] []).

Definition tcp_policy : ProtocolPolicy FT :=
  insert_unit ON_TCP_DISCONNECT
    [[Typ.id; Typ.id; Typ.connection; Typ.i64; Typ.i64];
     [Typ.connection; Typ.i64; Typ.i64];
     [Typ.connection];
     []]
    (insert_bool ALLOW_TCP_CONNECTION
       [[Typ.id; Typ.id; Typ.connection];
        [Typ.connection];
        []] []).
End protocol.
End ProtocolPolicy.

Inductive Protocol := HTTP | TCP.
#[export] Instance Protocol_eq_dec : EqDecision Protocol.
Proof. solve_decision. Defined.
#[export] Instance Protocol_ord : Ord Protocol := fun a b =>
  match a, b with HTTP, TCP => Lt | TCP, HTTP => Gt | _, _ => Eq end.
#[export] Instance Protocol_ord_laws : OrdLaws Protocol.
Proof.
  split; unfold cmp, Protocol_ord; [intros [] []|intros [] []|intros [] [] []]; try done; by split.
Qed.

Module Protocol.
Section protocol.
Context {FT : Type} `{TFlatTyp FT}.
Definition policy (p : Protocol) : ProtocolPolicy FT :=
  match p with HTTP => ProtocolPolicy.http_policy | TCP => ProtocolPolicy.tcp_policy end.
Definition functions (p : Protocol) : list string := ProtocolPolicy.functions (policy p).
End protocol.

Definition to_string (p : Protocol) : string := match p with HTTP => "http" | TCP => "tcp" end.
Definition from_str `{Lib} (s : string) : result Protocol string :=
  let l := to_lowercase s in
  if l =? "tcp" then Ok TCP else if l =? "http" then Ok HTTP
  else Err ("failed to parse protocol: " ^^ s).
End Protocol.

(** ** The policy of a protocol *)

Record Policy (FT FL : Type) := mkPolicy { pol_program : Program FT FL; fn_policies : FnPolicies }.
Arguments mkPolicy {FT FL} pol_program fn_policies.
Arguments pol_program {FT FL} p.
Arguments fn_policies {FT FL} p.

Module Policy.
Section policy.
Context {FT FL : Type} `{TFlatTyp FT} `{TFlatLiteral FT FL} `{TBuiltin FT}.
Notation Policy := (Policy FT FL).

(** A policy without code. *)
Definition trivial (f : list string -> FnPolicies) (p : Protocol) : Policy :=
  mkPolicy Program.default (f (Protocol.functions (FT := FT) p)).
Definition allow_all : Protocol -> Policy := trivial FnPolicies.allow_all.
Definition allow_egress : Protocol -> Policy := trivial FnPolicies.allow_egress.
Definition allow_ingress : Protocol -> Policy := trivial FnPolicies.allow_ingress.
Definition deny_all : Protocol -> Policy := trivial FnPolicies.deny_all.
Definition deny_egress : Protocol -> Policy := trivial FnPolicies.deny_egress.
Definition deny_ingress : Protocol -> Policy := trivial FnPolicies.deny_ingress.

Definition merge (a b : Policy) : Policy :=
  mkPolicy (Program.merge (pol_program a) (pol_program b)) (FnPolicies.merge (fn_policies a) (fn_policies b)).
Definition get (p : Policy) (name : string) : option FnPolicy := BTreeMap.get (fn_policies p) name.
Definition is_allow_all (p : Policy) : bool := FnPolicies.is_allow_all (fn_policies p).
Definition is_allow_egress (p : Policy) : bool := FnPolicies.is_allow_egress (fn_policies p).
Definition is_allow_ingress (p : Policy) : bool := FnPolicies.is_allow_ingress (fn_policies p).
Definition is_deny_all (p : Policy) : bool := FnPolicies.is_deny_all (fn_policies p).
Definition is_deny_egress (p : Policy) : bool := FnPolicies.is_deny_egress (fn_policies p).
Definition is_deny_ingress (p : Policy) : bool := FnPolicies.is_deny_ingress (fn_policies p).

(** Does the first signature fit the second?  Without declared arguments it
    always does. *)
Definition type_check (function : string) (sig1 sig2 : Signature FT) : bool :=
  Typ.is_ok (Typ.type_check function [(None, sig_typ sig1)] [(None, sig_typ sig2)]) &&
  match sig_args sig1, sig_args sig2 with
  | Some a1, Some a2 =>
    Typ.is_ok (Typ.type_check function (map (fun t => (None, t)) a1) (map (fun t => (None, t)) a2))
  | Some _, None => false
  | None, _ => true
  end.

(** The policies of the functions of a protocol, in order.  A number of
    arguments that is unknown or does not fit a [u8] is left out. *)
Fixpoint fn_policies_of (p : Program FT FL) (fs : ProtocolPolicy FT) (fp : FnPolicies) : Outcome FnPolicies :=
  match fs with
  | [] => Val fp
  | (function, signatures) :: fs' =>
    match FnHeaders.typ (headers p) function with
    | Some sig =>
      if existsb (type_check function sig) signatures then
        match sig_args sig with
        | Some v =>
          if (Z.of_nat (length v) <=? 255)%Z then
            fn_policies_of p fs' (BTreeMap.insert function (Args (Z.of_nat (length v))) fp)
          else fn_policies_of p fs' fp
        | None => fn_policies_of p fs' fp
        end
      else Fail (mkError "possible types for function {} are: {}"
                   [function; join "; " (map Signature.to_string signatures)])
    | None => fn_policies_of p fs' (BTreeMap.insert function Allow fp)
    end
  end.

Definition from_program (p : Program FT FL) (proto : ProtocolPolicy FT) : Outcome Policy :=
  fp ← fn_policies_of p proto [];
  Val (mkPolicy p fp).

(** [Display], with the text of the hash and of the program. *)
Definition to_string (blake3 : Policy -> string) (show : Program FT FL -> string) (p : Policy) : string :=
  if is_allow_all p then "allow all"
  else if is_deny_all p then "deny all"
  else
    (if is_allow_egress p then "allow egress" else "") ^^
    (if is_allow_ingress p then "allow ingress" else "") ^^
    (if is_deny_ingress p then "deny ingress" else "") ^^
    (if is_deny_ingress p then "deny ingress" else "") ^^
    "[" ^^ blake3 p ^^ "]" ^^ String (ascii_of_nat 10) EmptyString ^^ show (pol_program p).
End policy.
End Policy.

(** ** The policies of both protocols *)

Definition Policies (FT FL : Type) := BTreeMap Protocol (Policy FT FL).

Module Policies.
Section policies.
Context {FT FL : Type} `{TFlatTyp FT} `{TFlatLiteral FT FL} `{TBuiltin FT} `{Lib} `{Petgraph}.
Notation Policies := (Policies FT FL).

Definition new : Policies := [].
Definition insert (p : Protocol) (policy : Policy FT FL) (ps : Policies) : Policies := BTreeMap.insert p policy ps.

(** For a protocol of both, the policy of the other is merged with one's own. *)
Definition merge (a b : Policies) : Policies :=
  foldl (fun new_pol kv =>
           match BTreeMap.get a kv.1 with
           | Some x1 => insert kv.1 (Policy.merge kv.2 x1) new_pol
           | None => insert kv.1 kv.2 new_pol
           end) a b.

Definition both (f : Protocol -> Policy FT FL) : Policies := insert HTTP (f HTTP) (insert TCP (f TCP) new).
Definition allow_all : Policies := both Policy.allow_all.
Definition allow_egress : Policies := both Policy.allow_egress.
Definition allow_ingress : Policies := both Policy.allow_ingress.
Definition deny_all : Policies := both Policy.deny_all.
Definition deny_egress : Policies := both Policy.deny_egress.
Definition deny_ingress : Policies := both Policy.deny_ingress.

Definition every (f : Policy FT FL -> bool) (ps : Policies) : bool := forallb f (map snd ps).
Definition is_allow_all : Policies -> bool := every Policy.is_allow_all.
Definition is_allow_egress : Policies -> bool := every Policy.is_allow_egress.
Definition is_allow_ingress : Policies -> bool := every Policy.is_allow_ingress.
Definition is_deny_all : Policies -> bool := every Policy.is_deny_all.
Definition is_deny_egress : Policies -> bool := every Policy.is_deny_egress.
Definition is_deny_ingress : Policies -> bool := every Policy.is_deny_ingress.

Definition policy (ps : Policies) (p : Protocol) : option (Policy FT FL) := BTreeMap.get ps p.

(** The part of a program for one protocol, if it has functions. *)
Definition add_protocol (pre : PreProgram FT FL) (p : Protocol) (ps : Policies) : Outcome Policies :=
  let prog := PreProgram.to_program pre (Protocol.functions (FT := FT) p) in
  if Program.is_empty prog then Val ps
  else pol ← Policy.from_program prog (Protocol.policy p); Val (insert p pol ps).

Definition inner_from (pre : PreProgram FT FL) : Outcome Policies :=
  ps ← add_protocol pre HTTP new;
  add_protocol pre TCP ps.
End policies.

(** [from_buf], after parsing. *)
Definition from_buf {FT FL} `{TFlatTyp FT} `{TFlatLiteral FT FL} `{TBuiltin FT} `{Lib} `{RegexNew} `{HashOrder}
    `{Petgraph} (ds : list (Decl FL)) : Outcome (Policies FT FL) :=
  pre ← PreProgram.from_buf ds; inner_from pre.
End Policies.
