(* ===== verification/Equality.v ===== *)
(** * Equality of expressions, programs and policies

    The derived [PartialEq] of expressions.rs, lang.rs, headers.rs,
    externals.rs and policies.rs: the specialiser compares expressions, and
    control-plane literals hold policies.  Equality of literals is not the
    identity (labels, floats), nor is equality of expressions; the lemmas say
    for which literals and expressions it is. *)

From Stdlib Require Import ZArith Lia String Ascii List Floats.SpecFloat.
From stdpp Require Import base tactics list strings sets.
From S2P Require Import Prelude.
From S2P Require Import Ordered.
From S2P Require Import Strings.
From S2P Require Import Labels.
From S2P Require Import Syntax.
From S2P Require Import Types.
From S2P Require Import Net.
From S2P Require Import Literals.
From S2P Require Import FnHeaders.
From S2P Require Import Expressions.
From S2P Require Import Externals.
From S2P Require Import Lang.
From S2P Require Import Policies.

Local Open Scope string_scope.
Local Open Scope list_scope.

(** Maps: the same keys, with equal values, in order. *)
Definition btree_eqb {K V} `{EqDecision K} (eqb : V -> V -> bool) (m1 m2 : BTreeMap K V) : bool :=
  list_eqb (fun a b => bool_decide (a.1 = b.1) && eqb a.2 b.2) m1 m2.

Module ExprEq.
Section eq.
Context {FT FL : Type} `{TFlatTyp FT} `{TFlatLiteral FT FL}.
Notation Expr := (Expr FL).

Definition pattern_eqb (p q : Pattern) : bool :=
  match p, q with
  | RegexPattern r, RegexPattern r' => Pat.eqb r r'
  | LabelPattern l, LabelPattern l' => Label.eqb l l'
  | _, _ => false
  end.

Fixpoint eqb (a b : Expr) : bool :=
  match a, b with
  | Var v, Var w => String.eqb v w
  | BVar v i, BVar w j => String.eqb v w && Nat.eqb i j
  | LitExpr l, LitExpr l' => Literal.eqb l l'
  | ReturnExpr e, ReturnExpr e' => eqb e e'
  | PrefixExpr p e, PrefixExpr q e' => bool_decide (p = q) && eqb e e'
  | InfixExpr op x y, InfixExpr op' x' y' => bool_decide (op = op') && eqb x x' && eqb y y'
  | BlockExpr b l, BlockExpr b' l' => bool_decide (b = b') && list_eqb eqb l l'
  | Let vs x y, Let vs' x' y' => bool_decide (vs = vs') && eqb x x' && eqb y y'
  | IterExpr op vs x y acc, IterExpr op' vs' x' y' acc' =>
    bool_decide (op = op') && bool_decide (vs = vs') && eqb x x' && eqb y y' &&
    option_eqb (fun a a' => String.eqb a.1 a'.1 && eqb a.2 a'.2) acc acc'
  | Closure v e, Closure w e' => String.eqb v w && eqb e e'
  | IfExpr c e o, IfExpr c' e' o' | IfSomeMatchExpr c e o, IfSomeMatchExpr c' e' o' =>
    eqb c c' && eqb e e' && option_eqb eqb o o'
  | IfMatchExpr vs ms e o, IfMatchExpr vs' ms' e' o' =>
    bool_decide (vs = vs') && list_eqb (fun m m' => eqb m.1 m'.1 && pattern_eqb m.2 m'.2) ms ms'
    && eqb e e' && option_eqb eqb o o'
  | CallExpr f l k, CallExpr f' l' k' => String.eqb f f' && list_eqb eqb l l' && Bool.eqb k k'
  | _, _ => false
  end.
End eq.
End ExprEq.

Module PolicyEq.
Section eq.
Context {FT FL : Type} `{TFlatTyp FT} `{TFlatLiteral FT FL}.

Definition code_eqb : Code FL -> Code FL -> bool := btree_eqb ExprEq.eqb.
Definition headers_eqb : FnHeaders FT -> FnHeaders FT -> bool := btree_eqb Signature.eqb.
Definition externals_eqb (a b : Externals) : bool :=
  btree_eqb String.eqb (sockets a) (sockets b) && (timeout a =? timeout b)%Z.
Definition program_eqb (p q : Program FT FL) : bool :=
  code_eqb (code p) (code q) && externals_eqb (externals p) (externals q)
  && headers_eqb (headers p) (headers q).
Definition policy_eqb (p q : Policy FT FL) : bool :=
  program_eqb (pol_program p) (pol_program q)
  && btree_eqb (fun a b => bool_decide (a = b)) (fn_policies p) (fn_policies q).
Definition eqb : Policies FT FL -> Policies FT FL -> bool := btree_eqb policy_eqb.
End eq.
End PolicyEq.

(** ** Literals whose equality is the identity

    Labels without wildcards; no floats, for NaN and the two zeros; integers
    that are an [i64]; no patterns. *)

Definition concrete (l : Label) : bool :=
  forallb (fun n => match n with Str _ => true | _ => false end) l.

Module Exact.
Definition id (i : ID) : bool := forallb concrete (labels i).
Definition connection (c : Connection) : bool := id (from c) && id (to c).
Definition flat (l : FlatLiteral) : bool :=
  match l with
  | LBool _ | LData _ | LIpAddr _ | LStr _ | LUnit => true
  | LInt i => in_i64 i
  | LLabel l => concrete l
  | LID i => id i
  | LConnection c => connection c
  | LHttpRequest r => connection (req_connection r)
  | LHttpResponse r => connection (res_connection r)
  | LFloat _ | LRegex _ => false
  end.

Section literal.
Context {FL : Type} (exact_flat : FL -> bool).
Fixpoint literal (l : Literal FL) : bool :=
  match l with
  | FlatLit fl => exact_flat fl
  | LList ls | LTuple ls => forallb literal ls
  end.
End literal.
End Exact.

(** ** Laws *)

Lemma list_eqb_eq {A} (eqb : A -> A -> bool) (P : A -> bool) l l' :
  (forall x y, P x = true -> eqb x y = true <-> x = y) ->
  forallb P l = true -> list_eqb eqb l l' = true <-> l = l'.
Proof.
  intros He. revert l'. induction l as [|x l IH]; intros [|y l']; simpl; try done.
  rewrite !andb_true_iff. intros [Hx Hl]. rewrite He, IH by done. naive_solver.
Qed.

Lemma list_eqb_Forall {A} (eqb : A -> A -> bool) l l' :
  Forall (fun x => forall y, eqb x y = true -> x = y) l -> list_eqb eqb l l' = true -> l = l'.
Proof.
  intros Hl. revert l'. induction Hl as [|x l Hx _ IH]; intros [|y l']; simpl; try done.
  rewrite andb_true_iff. intros [? ?]. f_equal; auto.
Qed.

Lemma concrete_match a b : concrete a = true -> Label.matches_with a b = true <-> a = b.
Proof.
  intros Ha.
  assert (Label.expand a b = a) as Hexp.
  { unfold Label.expand. destruct (last a) as [[]|] eqn:E; try done.
    apply last_Some_elem_of in E. unfold concrete in Ha. rewrite forallb_Forall, Forall_forall in Ha.
    by apply Ha in E. }
  pose proof (match_with_unfold a b) as Hu. rewrite Hexp in Hu. clear Hexp. unfold Label.matches_with.
  assert (forall m, length a = length b ->
    match Label.match_loop (fun a b => Some (Label.eqb a b)) (combine a b) m with
    | Some (Some _) => true | _ => false end = true <-> a = b) as Hloop.
  { clear Hu. revert b. induction a as [|[s|s|s] a IH]; intros [|y b] m Hlen; simpl in *; try done.
    destruct y as [t|t|t]; simpl; try (split; [done|congruence]).
    destruct (String.eqb_spec s t) as [->|Hne]; [rewrite IH by (auto; lia)|]; naive_solver. }
  destruct (Nat.eqb_spec (length a) (length b)) as [Hl|Hl].
  - specialize (Hloop [] Hl). rewrite <- Hu in Hloop. by destruct (Label.match_with a b).
  - simplify_eq. rewrite Hu. split; [done|]. by intros ->.
Qed.

Lemma concrete_eqb a b : concrete a = true -> Label.eqb a b = true <-> a = b.
Proof.
  intros Ha. unfold Label.eqb. rewrite andb_true_iff, concrete_match by done. split; [naive_solver|].
  intros <-. split; [done|]. by apply concrete_match.
Qed.

Lemma exact_id i j : Exact.id i = true -> ID.eqb i j = true <-> i = j.
Proof.
  intros Hi. unfold ID.eqb. rewrite !andb_true_iff, !bool_decide_eq_true.
  rewrite (list_eqb_eq String.eqb (fun _ => true)) by (intros; apply String.eqb_eq || by apply forallb_forall).
  rewrite (list_eqb_eq Label.eqb concrete) by (done || apply concrete_eqb).
  destruct i, j; naive_solver.
Qed.

Lemma exact_connection c d : Exact.connection c = true -> Connection.eqb c d = true <-> c = d.
Proof.
  intros [Hf Ht]%andb_true_iff. unfold Connection.eqb.
  rewrite !andb_true_iff, !exact_id, Z.eqb_eq by done. destruct c, d; naive_solver.
Qed.

Lemma exact_flat a b : Exact.flat a = true -> FlatLiteral.eqb a b = true <-> a = b.
Proof.
  destruct a, b; simpl; intros Ha; try (split; [done|congruence]).
  - destruct b, b0; naive_solver.
  - rewrite exact_connection by done. naive_solver.
  - rewrite bool_decide_eq_true. naive_solver.
  - unfold HttpRequest.eqb, headers_eqb.
    rewrite !andb_true_iff, !bool_decide_eq_true, !String.eqb_eq, exact_connection by done.
    destruct r, r0; naive_solver.
  - unfold HttpResponse.eqb, headers_eqb.
    rewrite !andb_true_iff, !bool_decide_eq_true, Z.eqb_eq, exact_connection by done.
    destruct r, r0; naive_solver.
  - rewrite exact_id by done. naive_solver.
  - rewrite Z.eqb_eq. naive_solver.
  - rewrite bool_decide_eq_true. naive_solver.
  - rewrite concrete_eqb by done. naive_solver.
  - rewrite String.eqb_eq. naive_solver.
Qed.

Lemma exact_literal {FT FL} `{TFlatTyp FT} `{TFlatLiteral FT FL} (P : FL -> bool) (a b : Literal FL) :
  (forall x y, P x = true -> flat_eqb x y = true <-> x = y) ->
  Exact.literal P a = true -> Literal.eqb a b = true <-> a = b.
Proof.
  intros HP. revert b. induction a as [x|l IH|l IH] using Literal_ind'; intros [y|l'|l']; simpl;
    try (intros; split; [done|congruence]).
  - intros Hx. rewrite HP by done. naive_solver.
  - intros Hl. transitivity (l = l'); [|naive_solver]. revert l' Hl.
    induction IH as [|x l Hx _ IHl]; intros [|y l']; simpl; try done.
    rewrite !andb_true_iff. intros [? ?]. rewrite Hx, IHl by done. naive_solver.
  - intros Hl. transitivity (l = l'); [|naive_solver]. revert l' Hl.
    induction IH as [|x l Hx _ IHl]; intros [|y l']; simpl; try done.
    rewrite !andb_true_iff. intros [? ?]. rewrite Hx, IHl by done. naive_solver.
Qed.
