(* ===== verification/ControlLiterals.v ===== *)
(** * Literals of the control plane (src/src/armour-lang/src/literals.rs, interpret.rs)

    The control plane's literals are those of the data plane, policies, and
    the data of the onboarding of services.  Expressions, programs and
    policies of the control plane are converted to the data plane's, which
    panics on the literals and types that the data plane does not have. *)

From Stdlib Require Import ZArith Lia String Ascii List Floats.SpecFloat.
From stdpp Require Import base tactics list strings sets.
From S2P Require Import Prelude.
From S2P Require Import Ordered.
From S2P Require Import Strings.
From S2P Require Import Labels.
From S2P Require Import Syntax.
From S2P Require Import Types.
From S2P Require Import Net.
From S2P Require Import Literals.
From S2P Require Import FnHeaders.
From S2P Require Import Expressions.
From S2P Require Import Interpret.
From S2P Require Import Externals.
From S2P Require Import Lang.
From S2P Require Import Policies.
From S2P Require Import Equality.

Local Open Scope string_scope.
Local Open Scope list_scope.

Notation DPExpr := (Expr FlatLiteral).
Notation DPProgram := (Program FlatTyp FlatLiteral).
Notation DPPolicy := (Policy FlatTyp FlatLiteral).
Notation DPPolicies := (Policies FlatTyp FlatLiteral).

(** ** Data *)

Record Primitive := mkPrimitive { prim_name : string }.
Record Credentials := mkCredentials { cred_value : string }.

Record OnboardingData := mkOnboardingData {
  obd_host : Label;
  obd_service : Label;
  obd_credentials : Credentials;
  obd_port : option Z;
  obd_proposed_labels : BTreeSet Label;
  obd_ips : BTreeSet IpAddr;
}.

(** [literals::Policy] *)
Record LitPolicy := mkLitPolicy { pol : DPPolicies }.

(** The policies of the ingress and of the egress. *)
Inductive OnboardingResult :=
| ObOk (id : ID) (p : LitPolicy * LitPolicy)
| ObErr (err : string) (id : option ID) (p : option (LitPolicy * LitPolicy)).

Inductive CPFlatLiteral :=
| LCredentials (c : Credentials)
| LDP (l : FlatLiteral)
| LOnboardingData (d : OnboardingData)
| LOnboardingResult (r : OnboardingResult)
| LPolicy (p : LitPolicy)
| LPrimitive (p : Primitive).

Notation CPLiteral := (Literal CPFlatLiteral).
Notation CPExpr := (Expr CPFlatLiteral).
Notation CPProgram := (Program CPFlatTyp CPFlatLiteral).
Notation GlobalPolicy := (Policy CPFlatTyp CPFlatLiteral).
Notation GlobalPolicies := (Policies CPFlatTyp CPFlatLiteral).

Module LitPolicy.
Definition eqb (p q : LitPolicy) : bool := PolicyEq.eqb (pol p) (pol q).
(** [From<DPPolicies> for literals::Policy] *)
Definition from_policies (p : DPPolicies) : LitPolicy := mkLitPolicy p.
End LitPolicy.

Module OnboardingData.
Definition eqb (a b : OnboardingData) : bool :=
  Label.eqb (obd_host a) (obd_host b) && Label.eqb (obd_service a) (obd_service b)
  && String.eqb (cred_value (obd_credentials a)) (cred_value (obd_credentials b))
  && bool_decide (obd_port a = obd_port b)
  && list_eqb Label.eqb (obd_proposed_labels a) (obd_proposed_labels b)
  && bool_decide (obd_ips a = obd_ips b).

Definition proposed_labels (d : OnboardingData) : CPLiteral :=
  LList (map (fun x => FlatLit (LDP (LLabel x))) (obd_proposed_labels d)).
Definition has_proposed_label (d : OnboardingData) (l : Label) : bool :=
  existsb (Label.matches_with l) (obd_proposed_labels d).
Definition find_proposed_label (d : OnboardingData) (l : Label) : option Label :=
  List.find (Label.matches_with l) (obd_proposed_labels d).
Definition has_ip (d : OnboardingData) (ip : IpAddr) : bool :=
  existsb (fun x => bool_decide (x = ip)) (obd_ips d).
Definition service_lit (d : OnboardingData) : CPLiteral := FlatLit (LDP (LLabel (obd_service d))).
Definition host_lit (d : OnboardingData) : CPLiteral := FlatLit (LDP (LLabel (obd_host d))).
End OnboardingData.

Module OnboardingResult.
Definition pair_eqb (p q : LitPolicy * LitPolicy) : bool :=
  LitPolicy.eqb p.1 q.1 && LitPolicy.eqb p.2 q.2.
Definition eqb (a b : OnboardingResult) : bool :=
  match a, b with
  | ObOk i p, ObOk j q => ID.eqb i j && pair_eqb p q
  | ObErr s i p, ObErr t j q => String.eqb s t && option_eqb ID.eqb i j && option_eqb pair_eqb p q
  | _, _ => false
  end.

Definition new_ok (id : ID) (p : LitPolicy * LitPolicy) : OnboardingResult := ObOk id p.
Definition new_err (err : string) (id : ID) (p : LitPolicy * LitPolicy) : OnboardingResult :=
  ObErr err (Some id) (Some p).
Definition new_err_str (err : string) : OnboardingResult := ObErr err None None.
Definition new_err_id (err : string) (id : ID) : OnboardingResult := ObErr err (Some id) None.
Definition lit (r : OnboardingResult) : CPLiteral := FlatLit (LOnboardingResult r).
End OnboardingResult.

(** ** Flat literals *)

Module CPFlatLiteral.
(** A result has the type of the data. *)
Definition typ (l : CPFlatLiteral) : CPFlatTyp :=
  match l with
  | LCredentials _ => TCredentials
  | LDP l => DPFlatTyp (FlatLiteral.typ l)
  | LOnboardingData _ => TOnboardingData
  | LOnboardingResult _ => TOnboardingData
  | LPolicy _ => TPolicy
  | LPrimitive _ => TPrimitive
  end.

Definition eqb (a b : CPFlatLiteral) : bool :=
  match a, b with
  | LCredentials x, LCredentials y => String.eqb (cred_value x) (cred_value y)
  | LDP x, LDP y => FlatLiteral.eqb x y
  | LOnboardingData x, LOnboardingData y => OnboardingData.eqb x y
  | LOnboardingResult x, LOnboardingResult y => OnboardingResult.eqb x y
  | LPolicy x, LPolicy y => LitPolicy.eqb x y
  | LPrimitive x, LPrimitive y => String.eqb (prim_name x) (prim_name y)
  | _, _ => false
  end.

(** The literal of the data plane, if it is one. *)
Definition dest_dp {A} (f : FlatLiteral -> option A) (l : CPFlatLiteral) : option A :=
  match l with LDP l => f l | _ => None end.
Definition is_unit (l : CPFlatLiteral) : bool := eqb l (LDP LUnit).

(** [From<CPFlatLiteral> for DPFlatLiteral] *)
Definition to_dp (l : CPFlatLiteral) : Outcome FlatLiteral :=
  match l with LDP l => Val l | _ => Panic end.
End CPFlatLiteral.

#[export] Instance CP_TFlatLiteral : TFlatLiteral CPFlatTyp CPFlatLiteral := {
  flat_typ := CPFlatLiteral.typ; flat_eqb := CPFlatLiteral.eqb;
  mk_bool b := LDP (LBool b); flat_dest_bool := CPFlatLiteral.dest_dp FlatLiteral.dest_bool;
  mk_connection c := LDP (LConnection c); mk_data d := LDP (LData d);
  flat_dest_data := CPFlatLiteral.dest_dp FlatLiteral.dest_data;
  mk_float f := LDP (LFloat f); mk_http_request r := LDP (LHttpRequest r);
  mk_http_response r := LDP (LHttpResponse r);
  mk_id i := LDP (LID i); mk_int i := LDP (LInt i); mk_ip_addr i := LDP (LIpAddr i);
  mk_label l := LDP (LLabel l); flat_dest_label := CPFlatLiteral.dest_dp FlatLiteral.dest_label;
  mk_regex r := LDP (LRegex r);
  mk_str s := LDP (LStr s); flat_dest_str := CPFlatLiteral.dest_dp FlatLiteral.dest_str;
  mk_unit := LDP LUnit; flat_is_unit := CPFlatLiteral.is_unit;
}.

(** ** Conversions *)

Module CPLiteral.
(** [From<DPLiteral> for CPLiteral] *)
Fixpoint from_dp (l : DPLiteral) : CPLiteral :=
  match l with
  | FlatLit fl => FlatLit (LDP fl)
  | LList ls => LList (map from_dp ls)
  | LTuple ls => LTuple (map from_dp ls)
  end.

(** [From<CPLiteral> for DPLiteral] *)
Fixpoint to_dp (l : CPLiteral) : Outcome DPLiteral :=
  match l with
  | FlatLit fl => fl ← CPFlatLiteral.to_dp fl; mret (FlatLit fl)
  | LList ls => ls ← CPTyp.map_outcome to_dp ls; mret (LList ls)
  | LTuple ls => ls ← CPTyp.map_outcome to_dp ls; mret (LTuple ls)
  end.
End CPLiteral.

Module CPExpr.
Definition opt_to_dp (f : CPExpr -> Outcome DPExpr) (o : option CPExpr) : Outcome (option DPExpr) :=
  match o with None => Val None | Some e => e ← f e; mret (Some e) end.

(** [From<CPExpr> for DPExpr] *)
Fixpoint to_dp (e : CPExpr) : Outcome DPExpr :=
  match e with
  | Var v => Val (Var v)
  | BVar v u => Val (BVar v u)
  | LitExpr l => l ← CPLiteral.to_dp l; mret (LitExpr l)
  | ReturnExpr e => e ← to_dp e; mret (ReturnExpr e)
  | PrefixExpr p e => e ← to_dp e; mret (PrefixExpr p e)
  | InfixExpr op e1 e2 => e1 ← to_dp e1; e2 ← to_dp e2; mret (InfixExpr op e1 e2)
  | BlockExpr b es => es ← CPTyp.map_outcome to_dp es; mret (BlockExpr b es)
  | Let vs e1 e2 => e1 ← to_dp e1; e2 ← to_dp e2; mret (Let vs e1 e2)
  | IterExpr op vs e1 e2 acc =>
    e1 ← to_dp e1; e2 ← to_dp e2;
    acc ← match acc with None => Val None | Some (n, a) => a ← to_dp a; mret (Some (n, a)) end;
    mret (IterExpr op vs e1 e2 acc)
  | Closure v e => e ← to_dp e; mret (Closure v e)
  | IfExpr c e o => c ← to_dp c; e ← to_dp e; o ← opt_to_dp to_dp o; mret (IfExpr c e o)
  | IfMatchExpr vs ms e o =>
    ms ← CPTyp.map_outcome (fun m => x ← to_dp m.1; mret (x, m.2)) ms;
    e ← to_dp e; o ← opt_to_dp to_dp o; mret (IfMatchExpr vs ms e o)
  | IfSomeMatchExpr c e o =>
    c ← to_dp c; e ← to_dp e; o ← opt_to_dp to_dp o; mret (IfSomeMatchExpr c e o)
  | CallExpr f args b => args ← CPTyp.map_outcome to_dp args; mret (CallExpr f args b)
  end.
End CPExpr.

Module CPPolicy.
(** [From<CPCode> for DPCode] *)
Definition code_to_dp (c : Code CPFlatLiteral) : Outcome (Code FlatLiteral) :=
  l ← CPTyp.map_outcome (fun kv => e ← CPExpr.to_dp kv.2; mret (kv.1, e)) c;
  mret (BTreeMap.collect l).

(** [From<CPHeaders> for DPHeaders] *)
Definition headers_to_dp (h : FnHeaders CPFlatTyp) : Outcome (FnHeaders FlatTyp) :=
  l ← CPTyp.map_outcome (fun kv => s ← CPTyp.signature_to_dp kv.2; mret (kv.1, s)) h;
  mret (BTreeMap.collect l).

(** [From<CPProgram> for DPProgram] *)
Definition program_to_dp (p : CPProgram) : Outcome DPProgram :=
  c ← code_to_dp (code p); h ← headers_to_dp (headers p); mret (mkProgram c (externals p) h).

(** [From<GlobalPolicy> for DPPolicy] *)
Definition policy_to_dp (p : GlobalPolicy) : Outcome DPPolicy :=
  q ← program_to_dp (pol_program p); mret (mkPolicy q (fn_policies p)).

(** [From<GlobalPolicies> for DPPolicies] *)
Fixpoint insert_all (l : list (Protocol * GlobalPolicy)) (ps : DPPolicies) : Outcome DPPolicies :=
  match l with
  | [] => Val ps
  | (p, pol) :: l' => pol ← policy_to_dp pol; insert_all l' (Policies.insert p pol ps)
  end.
Definition policies_to_dp (ps : GlobalPolicies) : Outcome DPPolicies := insert_all ps Policies.new.
End CPPolicy.

(** ** Builtin operations *)

Module CPInterpret.
Section interpret.
Context `{Profile} `{Lib}.

(** [.map(CPLiteral::from)] *)
Definition lift_dp (o : Outcome (option DPLiteral)) : Outcome (option CPLiteral) :=
  r ← o; Val (option_map CPLiteral.from_dp r).

Definition eval_prefix (self : CPFlatLiteral) (p : Prefix) : Outcome (option CPLiteral) :=
  match self with LDP dpfl => lift_dp (DPInterpret.eval_prefix dpfl p) | _ => Val None end.

Definition eval_infix (self : CPFlatLiteral) (op : Infix) (other : CPFlatLiteral)
    : Outcome (option CPLiteral) :=
  match op, self, other with
  | Equal, _, _ => ret (Literal.bool (CPFlatLiteral.eqb self other))
  | NotEqual, _, _ => ret (Literal.bool (negb (CPFlatLiteral.eqb self other)))
  | _, LDP dpfl1, LDP dpfl2 => lift_dp (DPInterpret.eval_infix dpfl1 op dpfl2)
  | _, _, _ => Val None
  end.

Definition eval_call0 (f : string) : Outcome (option CPLiteral) := lift_dp (DPInterpret.eval_call0 f).

(** A call that only the data plane has. *)
Definition dp_call1 (self : CPFlatLiteral) (f : string) : Outcome (option CPLiteral) :=
  match self with LDP dpfl => lift_dp (DPInterpret.eval_call1 dpfl f) | _ => Val None end.

Definition eval_call1 (self : CPFlatLiteral) (f : string) : Outcome (option CPLiteral) :=
  match self with
  | LDP (LStr s) =>
    if f =? "Label::new" then
      match Label.from_str s with Ok l => ret (Literal.label l) | Err _ => Val None end
    else if f =? "OnboardingResult::ErrStr" then
      ret (OnboardingResult.lit (OnboardingResult.new_err_str s))
    else dp_call1 self f
  | LDP (LInt i) =>
    if f =? "Label::login_time" then ret (Literal.label (Label.login_time i)) else dp_call1 self f
  | LOnboardingData obd =>
    if f =? "OnboardingData::host" then ret (OnboardingData.host_lit obd)
    else if f =? "OnboardingData::proposed_labels" then ret (OnboardingData.proposed_labels obd)
    else if f =? "OnboardingData::service" then ret (OnboardingData.service_lit obd)
    else Val None
  | _ => dp_call1 self f
  end.

Definition dp_call2 (self : CPFlatLiteral) (f : string) (other : CPFlatLiteral)
    : Outcome (option CPLiteral) :=
  match self, other with
  | LDP l1, LDP l2 => lift_dp (DPInterpret.eval_call2 l1 f l2)
  | _, _ => Val None
  end.

Definition eval_call2 (self : CPFlatLiteral) (f : string) (other : CPFlatLiteral)
    : Outcome (option CPLiteral) :=
  match self, other with
  | LOnboardingData obd, LDP (LLabel l) =>
    if f =? "OnboardingData::has_proposed_label" then
      ret (Literal.bool (OnboardingData.has_proposed_label obd l))
    else Val None
  | LOnboardingData obd, LDP (LIpAddr i) =>
    if f =? "OnboardingData::has_ip" then ret (Literal.bool (OnboardingData.has_ip obd i)) else Val None
  | LDP (LStr err), LDP (LID id) =>
    if f =? "OnboardingResult::ErrID" then
      ret (OnboardingResult.lit (OnboardingResult.new_err_id err id))
    else dp_call2 self f other
  | _, _ => dp_call2 self f other
  end.

Definition eval_call3 (self : CPFlatLiteral) (f : string) (l1 l2 : CPFlatLiteral)
    : Outcome (option CPLiteral) :=
  match self, l1, l2 with
  | LDP (LID id), LPolicy p1, LPolicy p2 =>
    if f =? "OnboardingResult::Ok" then
      ret (OnboardingResult.lit (OnboardingResult.new_ok id (p1, p2)))
    else Val None
  | LDP d, LDP d1, LDP d2 => lift_dp (DPInterpret.eval_call3 d f d1 d2)
  | _, _, _ => Val None
  end.

Definition eval_call4 (self : CPFlatLiteral) (f : string) (l1 l2 l3 : CPFlatLiteral)
    : Outcome (option CPLiteral) :=
  match self, l1, l2, l3 with
  | LDP (LStr err), LDP (LID id), LPolicy p1, LPolicy p2 =>
    if f =? "OnboardingResult::Err" then
      ret (OnboardingResult.lit (OnboardingResult.new_err err id (p1, p2)))
    else Val None
  | LDP d, LDP d1, LDP d2, LDP d3 => lift_dp (DPInterpret.eval_call4 d f d1 d2 d3)
  | _, _, _, _ => Val None
  end.
End interpret.
End CPInterpret.

#[export] Instance CP_TInterpret `{Profile} `{Lib} : TInterpret CPFlatLiteral := {
  flat_eval_prefix := CPInterpret.eval_prefix;
  flat_eval_infix := CPInterpret.eval_infix;
  flat_eval_call0 := CPInterpret.eval_call0;
  flat_eval_call1 := CPInterpret.eval_call1;
  flat_eval_call2 := CPInterpret.eval_call2;
  flat_eval_call3 := CPInterpret.eval_call3;
  flat_eval_call4 := CPInterpret.eval_call4;
}.
