(* ===== verification/Specialize.v ===== *)
(** * The specialiser (src/src/armour-control/src/specialize.rs)

    The partial evaluator of control-plane expressions.  It returns an
    expression and whether that is final; what is not known stays in the
    expression.  Calls of functions of the program are always inlined;
    builtins are evaluated once all their arguments are final, over the same
    interface to the world as evaluation.  The fuel bounds the depth of the
    recursion of the source.  [compile_egress] and [compile_ingress]
    specialise the functions of a global policy for one service. *)

From Stdlib Require Import ZArith Lia String Ascii List Floats.SpecFloat.
From stdpp Require Import base tactics list strings sets.
From S2P Require Import Prelude.
From S2P Require Import Ordered.
From S2P Require Import Strings.
From S2P Require Import Labels.
From S2P Require Import Syntax.
From S2P Require Import Types.
From S2P Require Import Net.
From S2P Require Import Literals.
From S2P Require Import FnHeaders.
From S2P Require Import Expressions.
From S2P Require Import Interpret.
From S2P Require Import Eval.
From S2P Require Import Externals.
From S2P Require Import Lang.
From S2P Require Import Policies.
From S2P Require Import Equality.
From S2P Require Import ControlLiterals.

Local Open Scope string_scope.
Local Open Scope list_scope.

(** ** Simplification of operations that are not final *)

Module Simplify.
(** [Float(0.)] and [Float(1.)]. *)
Definition f64_zero : spec_float := S754_zero false.
Definition f64_one : spec_float := S754_finite false 4503599627370496 (-52).

Definition is_lit (l : CPLiteral) (e : CPExpr) : bool :=
  match e with LitExpr x => Literal.eqb x l | _ => false end.

(** The result: was a rule applied, is the expression final, the expression. *)
Definition Simplified : Type := bool * bool * CPExpr.
Definition Rule : Type := Infix -> bool -> CPExpr -> bool -> CPExpr -> Simplified.

(** [ring_simplification!] *)
Definition ring_simplification (plus1 multiply1 plus2 multiply2 : Infix) (zero one : CPLiteral) : Rule :=
  fun op b1 n_e1 b2 n_e2 =>
  let none : Simplified := (false, b1 && b2, InfixExpr op n_e1 n_e2) in
  if bool_decide (op = plus1) || bool_decide (op = plus2) then
    if Expr.is_return n_e1 then (true, b1, n_e1)
    else if is_lit zero n_e1 then (true, b2, n_e2)
    else if Expr.is_return n_e2 then (true, b2, n_e2)
    else if is_lit zero n_e2 then (true, b1, n_e1)
    else none
  else if bool_decide (op = multiply1) || bool_decide (op = multiply2) then
    if Expr.is_return n_e1 then (true, b1, n_e1)
    else if is_lit zero n_e1 then (true, b1, n_e1)
    else if is_lit one n_e1 then (true, b2, n_e2)
    else if Expr.is_return n_e2 then (true, b2, n_e2)
    else if is_lit zero n_e2 then (true, b2, n_e2)
    else if is_lit one n_e2 then (true, b1, n_e1)
    else none
  else none.

(** The second rule when the first does not apply. *)
Definition combine_simplification (simpl1 simpl2 : Rule) : Rule :=
  fun op b1 n_e1 b2 n_e2 =>
  let r := simpl1 op b1 n_e1 b2 n_e2 in
  if r.1.1 then r else simpl2 op b1 n_e1 b2 n_e2.

Definition rules : Rule :=
  combine_simplification
    (ring_simplification Or And Or And (Literal.bool false) (Literal.bool true))
    (combine_simplification
       (ring_simplification And Or And Or (Literal.bool true) (Literal.bool false))
       (combine_simplification
          (ring_simplification Plus Multiply IMinus Divide (Literal.int 0) (Literal.int 1))
          (ring_simplification Plus Multiply IMinus Divide (Literal.float f64_zero) (Literal.float f64_one)))).

(** Equality is decided by the syntax of the two sides. *)
Definition simplify (op : Infix) (b1 : bool) (n_e1 : CPExpr) (b2 : bool) (n_e2 : CPExpr)
    : result (bool * CPExpr) Error :=
  if bool_decide (op = Divide) && (is_lit (Literal.int 0) n_e2 || is_lit (Literal.float f64_zero) n_e2) then
    Err (error_new "peval, can not divide by zero")
  else if bool_decide (op = Equal) && ExprEq.eqb n_e1 n_e2 then
    Ok (b1 && b2, LitExpr (Literal.bool true))
  else if bool_decide (op = NotEqual) && negb (ExprEq.eqb n_e1 n_e2) then
    Ok (b1 && b2, LitExpr (Literal.bool true))
  else
    let tmp := rules op b1 n_e1 b2 n_e2 in Ok (tmp.1.2, tmp.2).
End Simplify.

(** ** Partial evaluation *)

(** [Iterator::find]: the element found, and what is left of the iterator,
    which is nothing when none is found. *)
Fixpoint find_rest {A} (f : A -> bool) (l : list A) : option A * list A :=
  match l with
  | [] => (None, [])
  | x :: l' => if f x then (Some x, l') else find_rest f l'
  end.

Module PEval.
Section peval.
Context {W : Type} `{Profile} `{Interp CPFlatLiteral W}.
(** The functions of the program. *)
Variable internal : Code CPFlatLiteral.

Notation Res := (bool * CPExpr)%type.

Definition err {A} (s : string) : Comp W A := fail (error_new s).
Definition unit_expr : CPExpr := LitExpr Literal.unit.
Definition apply (e u : CPExpr) : Comp W CPExpr := lift (try (Expr.apply e u)).

(** The element of an iteration, applied to the variables of the loop. *)
Definition apply_element (vs : list string) (e : CPExpr) (l : CPLiteral) : result CPExpr Error :=
  match vs with
  | [v] => if v =? "_" then Ok e else Expr.apply e (LitExpr l)
  | _ =>
    match l with
    | LTuple ts =>
      if Nat.eqb (length vs) (length ts) then Eval.apply_named e (combine vs ts)
      else Err (error_new "peval, iter-expression (tuple length mismatch)")
    | _ => Err (error_new "peval, iter-expression (not a tuple list)")
    end
  end.

(** Closures of the variables of a let-expression whose body does not use
    them. *)
Fixpoint drop_closures (n : nat) (e : CPExpr) : result CPExpr Error :=
  match n with
  | O => Ok e
  | S n' => match Expr.apply e unit_expr with Ok e' => drop_closures n' e' | Err x => Err x end
  end.

(** The captures of a match, applied in the order of the variables. *)
Fixpoint apply_variables (c : CPExpr) (caps : BTreeMap string CPExpr) (vs : list string)
    : result CPExpr Error :=
  match vs with
  | [] => Ok c
  | v :: vs' =>
    match BTreeMap.get caps v with
    | Some e => match Expr.apply c e with Ok c' => apply_variables c' caps vs' | Err x => Err x end
    | None => Err (error_new "peval, if-match-expression: missing bind")
    end
  end.

(** The result of an iteration whose bodies are final, from the results that
    the search for a return left. *)
Definition iter_final (op : Iter) (lits : list CPLiteral) (rest : list CPExpr) : Comp W Res :=
  iter_lits ← lift (try (Expr.literal_vector rest));
  let ok (l : CPLiteral) : Comp W Res := mret (true, LitExpr l) in
  match op with
  | Map => ok (LList iter_lits)
  | ForEach => ok Literal.unit
  | Filter => l ← lift (Eval.filter_lits lits iter_lits); ok (LList l)
  | FilterMap => ok (LList (omap Literal.dest_some iter_lits))
  | All => b ← lift (Eval.bools_until false iter_lits); ok (Literal.bool b)
  | Any_ => b ← lift (Eval.bools_until true iter_lits); ok (Literal.bool b)
  | Fold => panic
  end.

Definition iter_result (op : Iter) (vs : list string) (e2 : CPExpr) (lits : list CPLiteral)
    (acc : option (string * Res)) (res : list Res) : Comp W Res :=
  let flag := forallb fst res in
  match find_rest Expr.is_return (map snd res) with
  | (Some r, _) => mret (flag, r)
  | (None, rest) =>
    if bool_decide (op = Fold) then '(_, a) ← lift (unwrap acc); mret a
    else if flag then iter_final op lits rest
    else mret (false, IterExpr op vs (LitExpr (LList lits)) e2
                        (option_map (fun a => (a.1, a.2.2)) acc))
  end.

Definition value_only (r : Res) : Comp W Res :=
  match r.2 with
  | ReturnExpr _ | LitExpr _ => mret r
  | _ => err "peval, if-match-expression"
  end.

Section with_pe.
(** The recursive call: [simplification_only] and the expression. *)
Variable pe : bool -> CPExpr -> Comp W Res.

Fixpoint peval_list (so : bool) (es : list CPExpr) : Comp W (list Res) :=
  match es with
  | [] => mret []
  | e :: es' => r ← pe so e; rs ← peval_list so es'; mret (r :: rs)
  end.

Definition peval_opt (so : bool) (o : option CPExpr) : Comp W Res :=
  match o with Some e => pe so e | None => mret (true, unit_expr) end.

(** The loop of [Iter], with a final accumulator at the start. *)
Fixpoint iter_loop (so : bool) (vs : list string) (body : CPExpr) (lits : list CPLiteral)
    (acc : option Res) (res : list Res) : Comp W (option Res * list Res) :=
  match lits with
  | [] => mret (acc, res)
  | l :: lits' =>
    e ← (match acc with Some a => apply body a.2 | None => mret body end);
    e ← lift (try (apply_element vs e l));
    tmp ← pe so e;
    iter_loop so vs body lits' (match acc with Some _ => Some tmp | None => None end) (res ++ [tmp])
  end.

(** The conjunction of the flags, and the results of the matches. *)
Fixpoint match_loop (so : bool) (ms : list (CPExpr * Pattern)) (flag : bool)
    : Comp W (bool * list (CPExpr * option (BTreeMap string CPExpr))) :=
  match ms with
  | [] => mret (flag, [])
  | (e, p) :: ms' =>
    '(f, tmp) ← pe so e;
    o ← lift (run_match tmp p);
    match o with
    | None => err "peval, if-match-expression: type error"
    | Some x => '(flag, rs) ← match_loop so ms' (flag && f); mret (flag, x :: rs)
    end
  end.

Definition peval_infix (so : bool) (op : Infix) (e1 e2 : CPExpr) : Comp W Res :=
  '(b1, x) ← pe so e1;
  '(b2, y) ← pe so e2;
  if negb b1 || negb b2 : bool then lift (try (Simplify.simplify op b1 x b2 y))
  else
    match x, y with
    | ReturnExpr _, _ => mret (true, x)
    | _, ReturnExpr _ => mret (true, y)
    | LitExpr l1, LitExpr l2 =>
      r ← lift (run_infix l1 op l2);
      match r with Some r => mret (true, LitExpr r) | None => err "peval, infix: type error" end
    | _, _ => err "peval, infix: failed"
    end.

Definition peval_block (so : bool) (b : Block) (es : list CPExpr) : Comp W Res :=
  match es with
  | [] => mret (true, LitExpr (match b with BList => LList [] | _ => Literal.unit end))
  | e :: es' =>
    match b with
    | BBlock =>
      '(f, res) ← pe so e;
      let last := Expr.is_return res || (match es' with [] => true | _ => false end) in
      if last then mret (f, res)
      else if (f : bool) then pe so (BlockExpr b es')
      else
        '(_, rest) ← pe true (BlockExpr b es');
        mret (false, BlockExpr b (match rest with BlockExpr _ es => res :: es | e => [res; e] end))
    | _ =>
      rs ← peval_list so es;
      let flag := forallb fst rs in
      match List.find Expr.is_return (map snd rs) with
      | Some r => mret (flag, r)
      | None =>
        lits ← lift (try (Expr.literal_vector (map snd rs)));
        mret (flag, LitExpr (match b with BList => LList lits | _ => LTuple lits end))
      end
    end
  end.

Definition peval_let (so : bool) (vs : list string) (e1 e2 : CPExpr) : Comp W Res :=
  o ← lift (Expr.at_depth (length vs) e2);
  body ← lift (unwrap o);
  if forallb (fun u => Expr.is_free u body) (seq 0 (length vs)) then
    e2a ← lift (try (drop_closures (length vs) e2)); pe so e2a
  else
    r ← pe so e1;
    match r with
    | (flag, ReturnExpr _) => mret r
    | (true, LitExpr (LTuple lits)) =>
      if Nat.ltb 1 (length lits) && Nat.eqb (length vs) (length lits) then
        e2a ← lift (try (Eval.apply_named e2 (combine vs lits))); pe so e2a
      else if Nat.eqb (length vs) 1 then
        e2a ← apply e2 (LitExpr (LTuple lits)); pe so e2a
      else err "peval, let-expression (tuple length mismatch)"
    | (true, LitExpr l) =>
      if Nat.eqb (length vs) 1 then e2a ← apply e2 (LitExpr l); pe so e2a
      else err "peval, let-expression (literal not a tuple)"
    | (false, ee1) => '(_, ee2) ← pe so e2; mret (false, Let vs ee1 ee2)
    | _ => err "peval, let-expression"
    end.

Definition peval_iter (so : bool) (op : Iter) (vs : list string) (e1 e2 : CPExpr)
    (acc : option (string * CPExpr)) : Comp W Res :=
  r ← pe so e1;
  match r with
  | (_, ReturnExpr _) => mret (true, r.2)
  | (false, e1) =>
    '(_, e2) ← pe so e2;
    acc ← (match acc with
           | Some (n, a) => '(_, a) ← pe so a; mret (Some (n, a))
           | None => mret None
           end : Comp W (option (string * CPExpr)));
    mret (false, IterExpr op vs e1 e2 acc)
  | (true, LitExpr (LList lits)) =>
    let loop (acc : option (string * Res)) : Comp W Res :=
      '(a, res) ← iter_loop so vs e2 lits (option_map snd acc) [];
      iter_result op vs e2 lits
        (match acc, a with Some (n, _), Some a => Some (n, a) | _, _ => None end) res in
    match acc with
    | Some (n, e) =>
      '(f, a) ← pe so e;
      if (f : bool) then loop (Some (n, (true, a)))
      else mret (false, IterExpr op vs (LitExpr (LList lits)) e2 (Some (n, a)))
    | None => loop None
    end
  | _ => err "peval, map-expression"
  end.

Definition peval_if (so : bool) (cond consequence : CPExpr) (alternative : option CPExpr) : Comp W Res :=
  r ← pe so cond;
  match r with
  | (_, ReturnExpr _) => mret r
  | (true, LitExpr l) =>
    match Literal.dest_bool l with
    | Some true => pe so consequence
    | Some false => peval_opt so alternative
    | None => err "peval, if-expression"
    end
  | (true, _) => err "peval, if-expression"
  | (false, cond1) =>
    '(bc, consequence1) ← pe so consequence;
    match alternative with
    | Some alt =>
      '(_, tmp) ← pe so alt;
      if ExprEq.eqb tmp consequence1 then mret (bc, consequence1)
      else mret (false, IfExpr cond1 consequence1 (Some tmp))
    | None => mret (false, IfExpr cond1 consequence1 None)
    end
  end.

Definition peval_if_some (so : bool) (expr consequence : CPExpr) (alternative : option CPExpr)
    : Comp W Res :=
  r ← pe so expr;
  match r with
  | (_, ReturnExpr _) => mret r
  | (true, LitExpr (LTuple [t])) => c ← apply consequence (LitExpr t); pe so c
  | (true, LitExpr (LTuple _)) => peval_opt so alternative
  | (false, expr1) =>
    match consequence with
    | Closure c_var c_body =>
      '(_, c_body_1) ← pe so c_body;
      match alternative with
      | Some alt =>
        '(b0, tmp) ← pe so alt;
        let consequence1 := Closure c_var c_body_1 in
        same ← (if Expr.is_free 0 c_body_1 then
                  c ← apply consequence1 unit_expr; mret (ExprEq.eqb c tmp)
                else mret false : Comp W bool);
        if (same : bool) then mret (b0, tmp)
        else mret (false, IfSomeMatchExpr expr1 consequence1 (Some tmp))
      | None => mret (false, IfSomeMatchExpr expr1 (Closure c_var c_body_1) None)
      end
    | _ => panic
    end
  | _ => err "peval, if-let-expression: {:#?}"
  end.

(** When a matched expression is not final the expression is returned as it
    is; the code after that for the same case is never reached. *)
Definition peval_if_match (so : bool) (variables : list string) (matches : list (CPExpr * Pattern))
    (consequence : CPExpr) (alternative : option CPExpr) : Comp W Res :=
  '(flag, rs) ← match_loop so matches true;
  if negb flag then mret (flag, IfMatchExpr variables matches consequence alternative)
  else
    match List.find (fun r => Expr.is_return r.1) rs with
    | Some (r, _) => mret (true, r)
    | None =>
      if existsb (fun r => match r.2 with None => true | Some _ => false end) rs then
        match alternative with
        | None => mret (true, unit_expr)
        | Some alt => r ← pe so alt; value_only r
        end
      else
        c ← lift (try (apply_variables consequence (Eval.all_captures rs) variables));
        r ← pe so c; value_only r
    end.

Definition peval_call (so : bool) (function : string) (arguments : list CPExpr) (is_async : bool)
    : Comp W Res :=
  args ← peval_list so arguments;
  let flag := forallb fst args in
  match List.find (fun r => Expr.is_return r.2) args with
  | Some (_, r) => mret (flag, r)
  | None =>
    if flag && negb so then
      match BTreeMap.get internal function with
      | Some r =>
        r ← lift (try (Eval.apply_args r (map snd args)));
        '(b, e) ← pe so r; mret (b, Expr.strip_return e)
      | None =>
        if FnHeaders.is_builtin (FT := CPFlatTyp) function then
          e ← run_builtin function (map snd args); mret (flag, e)
        else
          match FnHeaders.split function with
          | Some _ => mret (false, CallExpr function arguments is_async)
          | None => fail (mkError "peval, call: {}: {:?}" [function])
          end
      end
    else
      match BTreeMap.get internal function with
      | Some r =>
        r ← lift (try (Eval.apply_args r (map snd args)));
        '(_, e) ← pe so r; mret (false, Expr.strip_return e)
      | None => mret (false, CallExpr function (map snd args) is_async)
      end
  end.

(** One level of [peval]. *)
Definition peval_with (so : bool) (e : CPExpr) : Comp W Res :=
  match e with
  | Var _ | BVar _ _ => mret (false, e)
  | LitExpr _ => mret (true, e)
  | Closure x e =>
    '(_, e) ← pe so e;
    if Expr.is_free 0 e then mret (true, e) else mret (false, Closure x e)
  | ReturnExpr e => '(b, e) ← pe so e; mret (b, ReturnExpr e)
  | PrefixExpr p e =>
    r ← pe so e;
    match r with
    | (true, ReturnExpr _) => mret r
    | (true, LitExpr l) =>
      o ← lift (run_prefix l p);
      match o with Some l => mret (true, LitExpr l) | None => err "peval prefix: type error" end
    | (false, n_e) => mret (false, PrefixExpr p n_e)
    | _ => err "peval, prefix"
    end
  | InfixExpr op e1 e2 => peval_infix so op e1 e2
  | BlockExpr b es => peval_block so b es
  | Let vs e1 e2 => peval_let so vs e1 e2
  | IterExpr op vs e1 e2 acc => peval_iter so op vs e1 e2 acc
  | IfExpr c e a => peval_if so c e a
  | IfSomeMatchExpr c e a => peval_if_some so c e a
  | IfMatchExpr vs ms e a => peval_if_match so vs ms e a
  | CallExpr f args b => peval_call so f args b
  end.
End with_pe.

Fixpoint peval (fuel : nat) (so : bool) (e : CPExpr) : Comp W Res :=
  match fuel with
  | O => out_of_fuel
  | S n => peval_with (peval n) so e
  end.

Definition pevaluate (fuel : nat) (so : bool) (e : CPExpr) : Comp W Res :=
  '(b, e) ← peval fuel so e; mret (b, Expr.strip_return e).
End peval.
End PEval.

(** ** Specialisation of policies *)

Module Compile.
Section compile.
Context {W : Type} `{Profile} `{Interp CPFlatLiteral W} `{Petgraph}.

(** The type of a function of a global policy, from its name. *)
Definition expected_sig (function : string) : option (Signature CPFlatTyp) :=
  if function =? ALLOW_REST_REQUEST then
    Some (Signature.new [Typ.id; Typ.id; Typ.http_request; Typ.data] Typ.bool)
  else if function =? ALLOW_REST_RESPONSE then
    Some (Signature.new [Typ.id; Typ.id; Typ.http_response; Typ.data] Typ.bool)
  else if function =? ALLOW_TCP_CONNECTION then
    Some (Signature.new [Typ.id; Typ.id; Typ.connection] Typ.bool)
  else if function =? ON_TCP_DISCONNECT then
    Some (Signature.new [Typ.id; Typ.id; Typ.connection; Typ.i64; Typ.i64] Typ.bool)
  else None.

Definition unknown_main (function : string) : Error :=
  mkError "unknown main function to specialize: {}" [function].

(** The number of arguments. *)
Definition check_header (pol : GlobalPolicy) (function : string) : result nat Error :=
  match expected_sig function with
  | None => Err (unknown_main function)
  | Some expected =>
    match BTreeMap.get (headers (pol_program pol)) function with
    | None => Err (mkError "specialization  checking headers, {} is undefined in global policy" [function])
    | Some sig =>
      if Signature.eqb sig expected then
        Ok (match sig_args expected with Some args => length args | None => 0 end)
      else Err (mkError "specialization  checking headers, {} has a wrong signature" [function])
    end
  end.

(** The arguments of the specialised function. *)
Definition local_args (function : string) : option (list CPTyp) :=
  if function =? ALLOW_REST_REQUEST then Some [Typ.http_request; Typ.data]
  else if function =? ALLOW_REST_RESPONSE then Some [Typ.http_response; Typ.data]
  else if function =? ALLOW_TCP_CONNECTION then Some [Typ.connection]
  else if function =? ON_TCP_DISCONNECT then Some [Typ.connection; Typ.i64; Typ.i64]
  else None.

Definition compile_helper (pol : GlobalPolicy) (function : string) (n_pol : GlobalPolicy)
    : Outcome GlobalPolicy :=
  ret_typ ← match FnHeaders.return_typ (headers (pol_program pol)) function with
            | Ok t => Val t | Err _ => Panic end;
  match local_args function with
  | None => Fail (unknown_main function)
  | Some args =>
    let p := pol_program n_pol in
    let p := mkProgram (code p) (externals p)
               (BTreeMap.insert function (Signature.new args ret_typ) (headers p)) in
    let fp := FnPolicies.set_args (fn_policies n_pol) function (as_u8 (Z.of_nat (length args))) in
    p ← Deadcode.deadcode_elim p [function];
    mret (mkPolicy p fp)
  end.

(** The specialised body under the closures of the arguments that are left;
    the endpoint that is not given is the one of the message. *)
Definition local_closure (f_egress : bool) (function : string) (e : CPExpr) : result CPExpr Error :=
  let dir := if f_egress then "to" else "from" in
  if (function =? ALLOW_REST_REQUEST) || (function =? ALLOW_REST_RESPONSE) then
    let get_from_name :=
      (if function =? ALLOW_REST_REQUEST then "HttpRequest::" else "HttpResponse::") ^^ dir in
    let e := Expr.subst 2 (Expr.call get_from_name [Expr.bvar "req" 1]) false e in
    Ok (Closure "req" (Closure "payload" e))
  else if function =? ALLOW_TCP_CONNECTION then
    let e := Expr.subst 1 (Expr.call ("Connection::" ^^ dir) [Expr.bvar "conn" 0]) false e in
    Ok (Closure "con" e)
  else if function =? ON_TCP_DISCONNECT then
    let e := Closure dir (Closure "req" (Closure "i" (Closure "j" e))) in
    let e := Expr.subst 3 (Expr.call ("Connection::" ^^ dir) [Expr.bvar "conn" 2]) false e in
    Ok (Closure "conn" (Closure "i" (Closure "j" e)))
  else Err (unknown_main function).

(** One function of one policy. *)
Definition compile_function (fuel : nat) (f_egress : bool) (pol : GlobalPolicy) (function : string)
    (to : ID) (fexpr : CPExpr) : Comp W GlobalPolicy :=
  n_args ← lift (try (check_header pol function));
  let fexpr := Expr.propagate_subst (if f_egress then n_args - 1 else n_args - 2)
                 (if f_egress then 0 else 1) (LitExpr (Literal.id to)) fexpr in
  o ← lift (Expr.at_depth (n_args - 1) fexpr);
  body ← lift (unwrap o);
  '(_, e) ← PEval.pevaluate (code (pol_program pol)) fuel false body;
  e ← lift (try (local_closure f_egress function e));
  let n_pol : GlobalPolicy :=
    mkPolicy (mkProgram (BTreeMap.insert function e []) Externals.default []) [] in
  lift (compile_helper pol function n_pol).

Fixpoint compile_protocols (fuel : nat) (f_egress : bool) (pols : list (Protocol * GlobalPolicy))
    (function : string) (to : ID) (new_gpol : GlobalPolicies) : Comp W GlobalPolicies :=
  match pols with
  | [] => mret new_gpol
  | (proto, pol) :: pols' =>
    match BTreeMap.get (code (pol_program pol)) function with
    | None => compile_protocols fuel f_egress pols' function to new_gpol
    | Some fexpr =>
      n_pol ← compile_function fuel f_egress pol function to fexpr;
      compile_protocols fuel f_egress pols' function to (Policies.insert proto n_pol new_gpol)
    end
  end.

Definition compile_egress_ingress (fuel : nat) (f_egress : bool) (global_pol : GlobalPolicies)
    (function : string) (to : ID) : Comp W DPPolicies :=
  new_gpol ← compile_protocols fuel f_egress global_pol function to Policies.new;
  lift (CPPolicy.policies_to_dp new_gpol).

Definition compile_egress (fuel : nat) : GlobalPolicies -> string -> ID -> Comp W DPPolicies :=
  compile_egress_ingress fuel true.
Definition compile_ingress (fuel : nat) : GlobalPolicies -> string -> ID -> Comp W DPPolicies :=
  compile_egress_ingress fuel false.
End compile.
End Compile.
