(* ===== verification/Pure.v ===== *)
(** * Expressions without effects

    A fragment of the expressions: operators, conditionals, blocks with
    returns, and calls of builtins that depend on their arguments only.  It
    has a denotation that needs neither fuel nor a state, and evaluation
    computes it.  Functions whose bodies are in the fragment are what the
    specialiser is proved correct for. *)

From Stdlib Require Import ZArith Lia String Ascii List.
From stdpp Require Import base tactics list strings sets.
From S2P Require Import Prelude.
From S2P Require Import Ordered.
From S2P Require Import Strings.
From S2P Require Import Labels.
From S2P Require Import Syntax.
From S2P Require Import Types.
From S2P Require Import Net.
From S2P Require Import Literals.
From S2P Require Import FnHeaders.
From S2P Require Import Expressions.
From S2P Require Import Interpret.
From S2P Require Import Meta.
From S2P Require Import Eval.
From S2P Require Import EvalTheory.

Local Open Scope string_scope.
Local Open Scope list_scope.

(** ** Interpreters that evaluate operators and some builtins as data does *)
Class PureInterp (FT FL W : Type) `{TFlatTyp FT} `{TFlatLiteral FT FL} `{TBuiltin FT} `{TInterpret FL}
    `{Interp FL W} (pure : string -> bool) := {
  run_prefix_lit l p : run_prefix l p = LitInterpret.eval_prefix l p;
  run_infix_lit l op l' : run_infix l op l' = LitInterpret.eval_infix l op l';
  pure_builtin f : pure f = true -> FnHeaders.is_builtin (FT := FT) f = true;
  run_builtin_pure f args e w w' :
    pure f = true ->
    run_builtin f (map LitExpr args) w = (Val e, w') <->
    LitInterpret.eval_call f (map LitExpr args) = Val e /\ w' = w;
}.

Module Pure.
Section den.
Context {FT FL : Type} `{TFlatTyp FT} `{TFlatLiteral FT FL} `{TInterpret FL}.
Variable pure : string -> bool.
Notation Expr := (Expr FL).
Notation Literal := (Literal FL).

(** Literals for the indices; the others are lowered. *)
Definition inst (ρ : list Literal) (e : Expr) : Expr :=
  Expr.traverse (fun _ v => Var v)
    (fun d v j =>
       if Nat.ltb j d then BVar v j
       else match ρ !! (j - d) with Some l => LitExpr l | None => BVar v (j - length ρ) end) 0 e.

Definition val_some {A} (o : Outcome (option A)) : option A :=
  match o with Val r => r | _ => None end.

(** The literal that an expression computes, and whether it is returned. *)
Fixpoint den (ρ : list Literal) (e : Expr) : option (bool * Literal) :=
  let value (e : Expr) : option Literal :=
    match den ρ e with Some (false, l) => Some l | _ => None end in
  let fix block (es : list Expr) : option (bool * Literal) :=
    match es with
    | [] => Some (false, Literal.unit)
    | [e] => den ρ e
    | e :: es' => match den ρ e with Some (false, _) => block es' | r => r end
    end in
  let fix values (es : list Expr) : option (list Literal) :=
    match es with
    | [] => Some []
    | e :: es' =>
      match value e with
      | Some l => match values es' with Some ls => Some (l :: ls) | None => None end
      | None => None
      end
    end in
  match e with
  | BVar _ j => match ρ !! j with Some l => Some (false, l) | None => None end
  | LitExpr l => Some (false, l)
  | ReturnExpr e => match value e with Some l => Some (true, l) | None => None end
  | PrefixExpr p e =>
    match value e with
    | Some l => match val_some (LitInterpret.eval_prefix l p) with Some r => Some (false, r) | None => None end
    | None => None
    end
  | InfixExpr op e1 e2 =>
    let short (stop : bool) : option (bool * Literal) :=
      match value e1 with
      | Some l =>
        match Literal.dest_bool l with
        | Some b =>
          if Bool.eqb b stop then Some (false, l)
          else
            match value e2 with
            | Some l => match Literal.dest_bool l with Some _ => Some (false, l) | None => None end
            | None => None
            end
        | None => None
        end
      | None => None
      end in
    match op with
    | And => short false
    | Or => short true
    | _ =>
      match value e1, value e2 with
      | Some l1, Some l2 =>
        match val_some (LitInterpret.eval_infix l1 op l2) with Some r => Some (false, r) | None => None end
      | _, _ => None
      end
    end
  | BlockExpr BBlock es => block es
  | IfExpr c a o =>
    match value c with
    | Some l =>
      match Literal.dest_bool l with
      | Some true => den ρ a
      | Some false => match o with Some b => den ρ b | None => Some (false, Literal.unit) end
      | None => None
      end
    | None => None
    end
  | CallExpr f args _ =>
    if pure f then
      match values args with
      | Some ls =>
        match LitInterpret.eval_call f (map LitExpr ls) with Val (LitExpr r) => Some (false, r) | _ => None end
      | None => None
      end
    else None
  | _ => None
  end.

Definition value (ρ : list Literal) (e : Expr) : option Literal :=
  match den ρ e with Some (false, l) => Some l | _ => None end.

Fixpoint den_block (ρ : list Literal) (es : list Expr) : option (bool * Literal) :=
  match es with
  | [] => Some (false, Literal.unit)
  | [e] => den ρ e
  | e :: es' => match den ρ e with Some (false, _) => den_block ρ es' | r => r end
  end.

Fixpoint values (ρ : list Literal) (es : list Expr) : option (list Literal) :=
  match es with
  | [] => Some []
  | e :: es' =>
    match value ρ e with
    | Some l => match values ρ es' with Some ls => Some (l :: ls) | None => None end
    | None => None
    end
  end.

(** The fragment: operators and literals that pass a test; returns only
    where statements are. *)
Variable ok_op : Infix -> bool.
Variable ok_lit : Literal -> bool.

Fixpoint frag (stmt : bool) (e : Expr) : bool :=
  match e with
  | BVar _ _ => true
  | LitExpr l => ok_lit l
  | ReturnExpr e => stmt && frag false e
  | PrefixExpr _ e => frag false e
  | InfixExpr op e1 e2 => ok_op op && frag false e1 && frag false e2
  | BlockExpr BBlock es => forallb (frag stmt) es
  | IfExpr c a o =>
    frag false c && frag stmt a && match o with Some b => frag stmt b | None => true end
  | CallExpr f args _ => pure f && forallb (frag false) args
  | _ => false
  end.

(** A result of evaluation. *)
Definition wrap (r : bool * Literal) : Expr :=
  if r.1 then ReturnExpr (LitExpr r.2) else LitExpr r.2.
End den.
End Pure.

(** ** Laws of the denotation *)
Section den_laws.
Context {FT FL : Type} `{TFlatTyp FT} `{TFlatLiteral FT FL} `{TInterpret FL}.
Variable pure : string -> bool.
Notation den := (Pure.den pure).
Notation value := (Pure.value pure).
Notation values := (Pure.values pure).

Lemma den_value ρ e l : value ρ e = Some l <-> den ρ e = Some (false, l).
Proof. unfold Pure.value. destruct (den ρ e) as [[[] ?]|]; naive_solver. Qed.

Lemma den_block_eq ρ es : den ρ (BlockExpr BBlock es) = Pure.den_block pure ρ es.
Proof. cbn [Pure.den]. induction es as [|e [|e' es] IH]; try done. cbn. destruct (den ρ e) as [[[] ?]|]; [done| |done]. apply IH. Qed.

Lemma den_return ρ e : den ρ (ReturnExpr e) = match value ρ e with Some l => Some (true, l) | None => None end.
Proof. done. Qed.

Lemma den_prefix ρ p e :
  den ρ (PrefixExpr p e) =
  match value ρ e with
  | Some l => match Pure.val_some (LitInterpret.eval_prefix l p) with Some r => Some (false, r) | None => None end
  | None => None
  end.
Proof. done. Qed.

Definition short_circuit (stop : bool) (v1 v2 : option (Literal FL)) : option (bool * Literal FL) :=
  match v1 with
  | Some l =>
    match Literal.dest_bool l with
    | Some b =>
      if Bool.eqb b stop then Some (false, l)
      else match v2 with
           | Some l => match Literal.dest_bool l with Some _ => Some (false, l) | None => None end
           | None => None
           end
    | None => None
    end
  | None => None
  end.

Definition strict (op : Infix) (v1 v2 : option (Literal FL)) : option (bool * Literal FL) :=
  match v1, v2 with
  | Some l1, Some l2 =>
    match Pure.val_some (LitInterpret.eval_infix l1 op l2) with Some r => Some (false, r) | None => None end
  | _, _ => None
  end.

(** What an operator makes of the values of its operands. *)
Definition infix_den (op : Infix) (v1 v2 : option (Literal FL)) : option (bool * Literal FL) :=
  match op with
  | And => short_circuit false v1 v2
  | Or => short_circuit true v1 v2
  | _ => strict op v1 v2
  end.

Lemma den_infix ρ op e1 e2 : den ρ (InfixExpr op e1 e2) = infix_den op (value ρ e1) (value ρ e2).
Proof. by destruct op. Qed.

Lemma den_if ρ c a o :
  den ρ (IfExpr c a o) =
  match value ρ c with
  | Some l =>
    match Literal.dest_bool l with
    | Some true => den ρ a
    | Some false => match o with Some b => den ρ b | None => Some (false, Literal.unit) end
    | None => None
    end
  | None => None
  end.
Proof. done. Qed.

Lemma den_call ρ f args b :
  den ρ (CallExpr f args b) =
  if pure f then
    match values ρ args with
    | Some ls =>
      match LitInterpret.eval_call f (map LitExpr ls) with Val (LitExpr r) => Some (false, r) | _ => None end
    | None => None
    end
  else None.
Proof.
  cbn [Pure.den]. destruct (pure f); [|done].
  match goal with |- match ?f args with _ => _ end = _ => assert (f args = values ρ args) as -> end; [|done].
  induction args as [|e args IH]; [done|]. cbn. rewrite IH. unfold Pure.value. by destruct (den ρ e) as [[[] ?]|].
Qed.

Lemma values_Forall2 ρ es ls : values ρ es = Some ls <-> Forall2 (fun e l => value ρ e = Some l) es ls.
Proof.
  revert ls. induction es as [|e es IH]; intros ls; simpl.
  - split; [intros; simplify_eq; constructor|by inversion 1].
  - destruct (value ρ e) as [l|] eqn:E.
    + destruct (values ρ es) as [ls'|].
      * split; [intros; simplify_eq; constructor; [done|by apply IH]|].
        inversion 1; subst. f_equal. f_equal; [congruence|]. assert (Some ls' = Some l') as Heq; [by apply IH|]. congruence.
      * split; [done|]. inversion 1; subst. assert (None = Some l') as Heq; [by apply IH|]. done.
    + split; [done|]. inversion 1; congruence.
Qed.
End den_laws.

(** ** Evaluation computes the denotation *)

Lemma bind_val_inv {W A B} (m : Comp W A) (f : A -> Comp W B) w b w' :
  (m ≫= f) w = (Val b, w') -> exists a w1, m w = (Val a, w1) /\ f a w1 = (Val b, w').
Proof. unfold mbind, Comp_bind. destruct (m w) as [[a|e| |] w1] eqn:E; [eauto|done..]. Qed.

Lemma bind_val {W A B} (m : Comp W A) (f : A -> Comp W B) w a w1 :
  m w = (Val a, w1) -> (m ≫= f) w = f a w1.
Proof. unfold mbind, Comp_bind. by intros ->. Qed.

Lemma lift_val {W A} (o : Outcome A) (w w' : W) a : lift o w = (Val a, w') <-> o = Val a /\ w' = w.
Proof. unfold lift. naive_solver. Qed.

(** ** Functions of several arguments *)
Section closures.
Context {FL : Type}.
Implicit Types (e : Expr FL) (ls : list (Literal FL)).

Definition close (vs : list Ident) e : Expr FL := foldr Closure e vs.

Lemma subst_close i u b vs e : Expr.subst i u b (close vs e) = close vs (Expr.subst (length vs + i) u b e).
Proof.
  revert i. induction vs as [|v vs IH]; intros i; [done|]. unfold Expr.subst in *. simpl.
  f_equal. rewrite IH. do 2 f_equal. lia.
Qed.

Lemma traverse_pointwise (f g : nat -> Ident -> Expr FL) (f' g' : nat -> Ident -> nat -> Expr FL) d e :
  (forall d v, f d v = g d v) -> (forall d v j, f' d v j = g' d v j) ->
  Expr.traverse f f' d e = Expr.traverse g g' d e.
Proof.
  intros Hv Hb. eapply (traverse_ext (fun _ _ => true) (fun _ _ _ => true)); auto.
  clear. revert d. induction e using Expr_ind'; intros d; simpl; auto;
    rewrite ?andb_true_iff, ?forallb_Forall; repeat split; auto.
  all: try (match goal with H : Forall _ _ |- _ => eapply Forall_impl; [exact H|]; simpl; auto end).
  all: try (destruct acc as [[]|]; simpl in *; auto).
  all: try (destruct a; simpl in *; auto).
Qed.

Lemma inst_nil e : Pure.inst [] e = e.
Proof.
  unfold Pure.inst. rewrite <- (traverse_id 0 e) at 2. apply traverse_pointwise; [done|].
  intros d v j. destruct (Nat.ltb_spec j d); [done|]. simpl. f_equal. lia.
Qed.

Lemma traverse_depth (f : nat -> Ident -> Expr FL) g k d e :
  Expr.traverse f g (k + d) e = Expr.traverse (fun d => f (k + d)) (fun d => g (k + d)) d e.
Proof.
  revert d. induction e using Expr_ind'; intros d; simpl; try done;
    rewrite ?Nat.add_succ_r; f_equal; auto.
  all: try (rewrite <- Nat.add_succ_r; auto; fail).
  all: try (apply map_ext_Forall'; eapply Forall_impl; [eassumption|]; simpl; intros;
    first [solve [auto] | f_equal; auto]; fail).
  all: try (destruct acc as [[]|]; simpl in *; do 2 f_equal; auto).
  all: try (destruct a; simpl in *; f_equal; auto).
Qed.

(** Substituting for the index above those that are instantiated. *)
Lemma inst_subst ls l e :
  Pure.inst ls (Expr.subst (length ls) (LitExpr l) true e) = Pure.inst (ls ++ [l]) e.
Proof.
  unfold Pure.inst, Expr.subst.
  pose proof (traverse_depth (fun _ v => Var v)
    (fun i v j => match Nat.compare j i with
                  | Lt => BVar v j | Eq => Expr.shift i 0 (LitExpr l) | Gt => BVar v (j - 1) end)
    (length ls) 0 e) as Hd.
  rewrite Nat.add_0_r in Hd. rewrite Hd, traverse_traverse. apply traverse_pointwise; [done|].
  intros d v j. destruct (Nat.compare_spec j (length ls + d)) as [->|Hj|Hj].
  - replace (length ls + d - d) with (length ls) by lia. rewrite list_lookup_middle by done.
    destruct (Nat.ltb_spec (length ls + d) d); [lia|]. unfold Expr.shift. by destruct (Nat.eqb _ 0).
  - simpl. destruct (Nat.ltb_spec j d); [done|]. rewrite lookup_app_l by lia.
    by destruct (lookup_lt_is_Some_2 ls (j - d)) as [x ->]; [lia|].
  - simpl. destruct (Nat.ltb_spec (j - 1) d); [lia|]. destruct (Nat.ltb_spec j d); [lia|].
    rewrite !lookup_ge_None_2 by (rewrite ?length_app; simpl; lia). rewrite length_app. simpl. f_equal. lia.
Qed.

Lemma apply_args_close vs ls e :
  length vs = length ls -> Eval.apply_args (close vs e) (map LitExpr ls) = Ok (Pure.inst (rev ls) e).
Proof.
  revert ls e. induction vs as [|v vs IH]; intros [|l ls] e Hl; try done; simpl.
  - by rewrite inst_nil.
  - simpl in Hl. rewrite subst_close, Nat.add_0_r, IH by lia.
    rewrite <- inst_subst, length_rev. do 4 f_equal. lia.
Qed.
End closures.

(** Builtins return literals. *)
Lemma eval_call_lit {FT FL} `{TFlatTyp FT} `{TFlatLiteral FT FL} `{TInterpret FL} f (args : list (Expr FL)) e :
  LitInterpret.eval_call f args = Val e -> exists l, e = LitExpr l.
Proof.
  unfold LitInterpret.eval_call. intros He.
  repeat (split_match_in He; try discriminate He).
  all: repeat match type of He with
  | (?o ≫= _) = _ => destruct o as [[]| | |]; cbn in He; try discriminate He
  end; simplify_eq; eauto.
Qed.

Section eval_den.
Context {FT FL W : Type} (pure : string -> bool) `{PureInterp FT FL W pure}.
Variable internal : BTreeMap string (Expr FL).
(** No function of the program hides a pure builtin. *)
Hypothesis no_shadow : forall f, pure f = true -> BTreeMap.get internal f = None.
Notation eval := (Eval.eval internal).
Notation den := (Pure.den pure).
Notation value := (Pure.value pure).
Notation values := (Pure.values pure).

(** With enough fuel, in every state. *)
Definition computes (e r : Expr FL) : Prop :=
  exists n, forall m w, n <= m -> eval m e w = (Val r, w).

Lemma computes_step e r n :
  (forall m w, n <= m -> Eval.eval_with internal (eval m) e w = (Val r, w)) -> computes e r.
Proof. intros He. exists (S n). intros [|m] w Hm; [lia|]. apply He. lia. Qed.

(** A computed subexpression of a goal. *)
Ltac compute_with Hn := erewrite bind_val by (apply Hn; lia).

Lemma list_computes es rs :
  Forall2 computes es rs ->
  exists n, forall m w, n <= m -> Eval.eval_list (eval m) es w = (Val rs, w).
Proof.
  induction 1 as [|e r es rs [n1 H1'] _ [n2 H2']]; [by exists 0|].
  exists (Nat.max n1 n2). intros m w Hm. simpl. compute_with H1'. by compute_with H2'.
Qed.

Lemma find_lits (ls : list (Literal FL)) : List.find Expr.is_return (map LitExpr ls) = None.
Proof. by induction ls. Qed.

Lemma unit_computes : computes (BlockExpr BBlock []) (LitExpr Literal.unit).
Proof. by apply (computes_step _ _ 0). Qed.

Lemma some_or_val (o : Outcome (option (Literal FL))) s r (w : W) :
  Pure.val_some o = Some r -> Eval.some_or o s w = (Val (LitExpr r), w).
Proof. destruct o as [x| | |]; simpl; try done. by intros ->. Qed.

Lemma value_wrap ρ e l :
  (forall r, den ρ e = Some r -> computes (Pure.inst ρ e) (Pure.wrap r)) ->
  value ρ e = Some l -> computes (Pure.inst ρ e) (LitExpr l).
Proof. intros He Hv%den_value. by apply (He (false, l)). Qed.

Lemma infix_computes op (e1 e2 : Expr FL) v1 v2 r :
  infix_den op v1 v2 = Some r ->
  (forall l, v1 = Some l -> computes e1 (LitExpr l)) ->
  (forall l, v2 = Some l -> computes e2 (LitExpr l)) -> computes (InfixExpr op e1 e2) (Pure.wrap r).
Proof.
  intros Hr C1 C2.
  assert (forall stop, short_circuit stop v1 v2 = Some r -> (op = And /\ stop = false \/ op = Or /\ stop = true) ->
    computes (InfixExpr op e1 e2) (Pure.wrap r)) as Hshort.
  { clear Hr. unfold short_circuit. intros stop Hr Hop. destruct v1 as [l|]; [|done].
    destruct (C1 l eq_refl) as [n1 N1]. destruct (Literal.dest_bool l) as [b|] eqn:Hl; [|done].
    destruct (Bool.eqb b stop) eqn:Hb; [|destruct v2 as [l2|]; [|done]; destruct (C2 l2 eq_refl) as [n2 N2];
      destruct (Literal.dest_bool l2) as [b2|] eqn:Hl2; [|done]]; simplify_eq.
    - apply (computes_step _ _ n1). intros m w Hm.
      destruct Hop as [[-> ->]|[-> ->]]; cbn [Eval.eval_with]; compute_with N1; cbn; by rewrite Hl, Hb.
    - apply (computes_step _ _ (Nat.max n1 n2)). intros m w Hm.
      destruct Hop as [[-> ->]|[-> ->]]; cbn [Eval.eval_with]; compute_with N1; cbn;
        rewrite Hl, Hb; compute_with N2; cbn; by rewrite Hl2. }
  assert (strict op v1 v2 = Some r -> op <> And -> op <> Or ->
    computes (InfixExpr op e1 e2) (Pure.wrap r)) as Hstrict.
  { clear Hr Hshort. unfold strict. intros Hr Ha Ho. destruct v1 as [l1|]; [|done]. destruct v2 as [l2|]; [|done].
    destruct (Pure.val_some _) as [x|] eqn:Hx; [|done]. simplify_eq.
    destruct (C1 l1 eq_refl) as [n1 N1]. destruct (C2 l2 eq_refl) as [n2 N2].
    apply (computes_step _ _ (Nat.max n1 n2)). intros m w Hm.
    destruct op; try done; cbn [Eval.eval_with]; compute_with N1; compute_with N2; cbn;
      apply some_or_val; by rewrite run_infix_lit. }
  destruct op; try (by apply Hstrict); [apply (Hshort false)|apply (Hshort true)]; auto.
Qed.

(** Enough fuel gives the denotation, whatever the state. *)
Lemma den_computes ρ e r : den ρ e = Some r -> computes (Pure.inst ρ e) (Pure.wrap r).
Proof.
  revert r. induction e as [v|v u|l|e IH|p e IH|op e1 e2 IH1 IH2|b es IH|vs e1 e2|op vs e1 e2 acc|v e
    |c a o IHc IHa IHo|vs ms e a|c e a|f args b IH] using Expr_ind'; intros r Hr; try done.
  - unfold Pure.inst. simpl in *. rewrite Nat.sub_0_r. destruct (ρ !! u); [|done]. simplify_eq.
    by apply (computes_step _ _ 0).
  - simpl in Hr. simplify_eq. by apply (computes_step _ _ 0).
  - rewrite den_return in Hr. destruct (value ρ e) as [l|] eqn:E; [|done]. simplify_eq.
    destruct (value_wrap _ _ _ IH E) as [n Hn]. apply (computes_step _ _ n). intros m w Hm.
    cbn. by compute_with Hn.
  - rewrite den_prefix in Hr. destruct (value ρ e) as [l|] eqn:E; [|done].
    destruct (Pure.val_some _) as [x|] eqn:Ex; [|done]. simplify_eq.
    destruct (value_wrap _ _ _ IH E) as [n Hn]. apply (computes_step _ _ n). intros m w Hm.
    cbn [Pure.inst Expr.traverse Eval.eval_with]. compute_with Hn. apply some_or_val. by rewrite run_prefix_lit.
  - rewrite den_infix in Hr. eapply infix_computes; [exact Hr|..]; intros; by eapply value_wrap.
  - destruct b; try done. rewrite den_block_eq in Hr.
    change (computes (BlockExpr BBlock (map (Pure.inst ρ) es)) (Pure.wrap r)).
    revert r Hr. induction IH as [|e es He Hes IHes]; intros r Hr.
    { simpl in Hr. simplify_eq. apply unit_computes. }
    destruct es as [|e' es].
    + destruct (He r Hr) as [n Hn]. apply (computes_step _ _ n). intros m w Hm. cbn.
      compute_with Hn. destruct r as [[] l]; done.
    + cbn [Pure.den_block] in Hr. destruct (den ρ e) as [[[] l]|] eqn:Ed; [| |done].
      * simplify_eq. destruct (He _ eq_refl) as [n Hn]. apply (computes_step _ _ n). intros m w Hm.
        cbn. by compute_with Hn.
      * destruct (He _ eq_refl) as [n1 N1]. destruct (IHes r Hr) as [n2 N2].
        apply (computes_step _ _ (Nat.max n1 n2)). intros m w Hm. cbn. compute_with N1.
        apply N2. lia.
  - rewrite den_if in Hr. destruct (value ρ c) as [l|] eqn:E; [|done].
    destruct (value_wrap _ _ _ IHc E) as [n Hn].
    destruct (Literal.dest_bool l) as [[]|] eqn:El; [| |done].
    + destruct (IHa _ Hr) as [n2 N2]. apply (computes_step _ _ (Nat.max n n2)). intros m w Hm.
      cbn. compute_with Hn. cbv beta iota. rewrite El. apply N2. lia.
    + destruct o as [x|].
      * destruct (IHo _ Hr) as [n2 N2]. apply (computes_step _ _ (Nat.max n n2)). intros m w Hm.
        cbn. compute_with Hn. cbv beta iota. rewrite El. apply N2. lia.
      * simplify_eq. apply (computes_step _ _ n). intros m w Hm. cbn. compute_with Hn. cbv beta iota. by rewrite El.
  - rewrite den_call in Hr. destruct (pure f) eqn:Hf; [|done]. destruct (values ρ args) as [ls|] eqn:E; [|done].
    destruct (LitInterpret.eval_call f (map LitExpr ls)) as [[]| | |] eqn:Ex; simplify_eq; try done.
    apply values_Forall2 in E.
    destruct (list_computes (map (Pure.inst ρ) args) (map LitExpr ls)) as [n Hn].
    { clear Ex. induction E as [|x y xs ys Hx _ IHE]; [constructor|]. inversion IH; subst.
      constructor; [by eapply value_wrap|auto]. }
    apply (computes_step _ _ n). intros m w Hm.
    change (Pure.inst ρ (CallExpr f args b)) with (CallExpr f (map (Pure.inst ρ) args) b).
    cbn [Eval.eval_with]. compute_with Hn. rewrite find_lits, no_shadow, pure_builtin by done.
    by apply run_builtin_pure.
Qed.

(** ** Evaluation that succeeds computes the denotation *)
Variable ok_op : Infix -> bool.
Variable ok_lit : Literal FL -> bool.
Notation frag := (Pure.frag pure ok_op ok_lit).

(** Evaluation has succeeded with the denotation, without effects. *)
Definition denoted (ρ : list (Literal FL)) (stmt : bool) (e v : Expr FL) (w w' : W) : Prop :=
  w' = w /\ exists r, den ρ e = Some r /\ v = Pure.wrap r /\ (stmt = false -> r.1 = false).

Section ev.
Variable ev : Expr FL -> Comp W (Expr FL).
Variable ρ : list (Literal FL).
Hypothesis Hev : forall stmt e w v w',
  frag stmt e = true -> ev (Pure.inst ρ e) w = (Val v, w') -> denoted ρ stmt e v w w'.

Lemma ev_value e w v w' :
  frag false e = true -> ev (Pure.inst ρ e) w = (Val v, w') ->
  w' = w /\ exists l, value ρ e = Some l /\ v = LitExpr l.
Proof.
  intros Hf He. destruct (Hev _ _ _ _ _ Hf He) as (-> & [b l] & Hd & -> & Hb).
  split; [done|]. specialize (Hb eq_refl). simpl in Hb. subst b. exists l. by rewrite den_value.
Qed.

Lemma ev_list es w vs w' :
  forallb (frag false) es = true -> Eval.eval_list ev (map (Pure.inst ρ) es) w = (Val vs, w') ->
  w' = w /\ exists ls, values ρ es = Some ls /\ vs = map LitExpr ls.
Proof.
  revert w vs w'. induction es as [|e es IH]; intros w vs w' Hf He; simpl in *.
  - cbv [mret Comp_ret] in He. simplify_eq. split; [done|]. by exists [].
  - apply andb_true_iff in Hf as [Hf Hfs].
    apply bind_val_inv in He as (v & w1 & He & Hes).
    destruct (ev_value _ _ _ _ Hf He) as (-> & l & Hl & ->).
    apply bind_val_inv in Hes as (vs' & w2 & Hes & Hr). cbv [mret Comp_ret] in Hr. simplify_eq.
    destruct (IH _ _ _ Hfs Hes) as (-> & ls & Hls & ->). split; [done|]. exists (l :: ls).
    by rewrite Hl, Hls.
Qed.

Lemma some_or_inv (o : Outcome (option (Literal FL))) s (w w' : W) v :
  Eval.some_or o s w = (Val v, w') -> w' = w /\ exists r, Pure.val_some o = Some r /\ v = LitExpr r.
Proof. destruct o as [[r|]| | |]; simpl; try done. intros Hv. cbv in Hv. simplify_eq. eauto. Qed.

Lemma infix_denoted op e1 e2 w v w' :
  frag false e1 = true -> frag false e2 = true ->
  Eval.eval_with internal ev (InfixExpr op (Pure.inst ρ e1) (Pure.inst ρ e2)) w = (Val v, w') ->
  denoted ρ false (InfixExpr op e1 e2) v w w'.
Proof.
  intros F1 F2 He. unfold denoted. rewrite den_infix.
  assert (forall stop,
    (r ← ev (Pure.inst ρ e1);
     match r with
     | ReturnExpr _ => mret r
     | LitExpr l =>
       match Literal.dest_bool l with
       | Some b =>
         if Bool.eqb b stop then Eval.ok l
         else r ← ev (Pure.inst ρ e2);
              match r with
              | ReturnExpr _ => mret r
              | LitExpr l => if Literal.dest_bool l then Eval.ok l else Eval.err "eval, infix"
              | _ => Eval.err "eval, infix"
              end
       | None => Eval.err "eval, infix"
       end
     | _ => Eval.err "eval, infix"
     end : Comp W (Expr FL)) w = (Val v, w') ->
    w' = w /\ exists r, short_circuit stop (value ρ e1) (value ρ e2) = Some r /\ v = Pure.wrap r /\ r.1 = false)
    as Hshort.
  { clear He. intros stop He. apply bind_val_inv in He as (v1 & w1 & He1 & He).
    destruct (ev_value _ _ _ _ F1 He1) as (-> & l1 & -> & ->). unfold short_circuit.
    cbv beta iota in He. destruct (Literal.dest_bool l1) as [b|]; [|done].
    destruct (Bool.eqb b stop); [cbv in He; simplify_eq; split; [done|]; by exists (false, l1)|].
    apply bind_val_inv in He as (v2 & w2 & He2 & He).
    destruct (ev_value _ _ _ _ F2 He2) as (-> & l2 & -> & ->). cbv beta iota in He.
    destruct (Literal.dest_bool l2) as [b2|]; [|done]. cbv in He. simplify_eq.
    split; [done|]. by exists (false, l2). }
  assert (op <> And -> op <> Or ->
    w' = w /\ exists r, strict op (value ρ e1) (value ρ e2) = Some r /\ v = Pure.wrap r /\ r.1 = false) as Hstrict.
  { intros Ha Ho.
    assert ((r1 ← ev (Pure.inst ρ e1); r2 ← ev (Pure.inst ρ e2);
             match r1, r2 with
             | ReturnExpr _, _ => mret r1
             | _, ReturnExpr _ => mret r2
             | LitExpr l1, LitExpr l2 => Eval.some_or (run_infix l1 op l2) "eval, infix: type error"
             | _, _ => Eval.err "eval, infix: failed"
             end : Comp W (Expr FL)) w = (Val v, w')) as He' by (by destruct op).
    clear He. apply bind_val_inv in He' as (v1 & w1 & He1 & He).
    destruct (ev_value _ _ _ _ F1 He1) as (-> & l1 & -> & ->).
    apply bind_val_inv in He as (v2 & w2 & He2 & He).
    destruct (ev_value _ _ _ _ F2 He2) as (-> & l2 & -> & ->). cbv beta iota in He.
    apply some_or_inv in He as (-> & r & Hr & ->). split; [done|]. exists (false, r).
    unfold strict. rewrite run_infix_lit in Hr. by rewrite Hr. }
  assert (w' = w /\ exists r, infix_den op (value ρ e1) (value ρ e2) = Some r /\ v = Pure.wrap r /\ r.1 = false)
    as (-> & r & ? & ? & ?); [|split; [done|]; eauto].
  destruct op; try (by apply Hstrict); [apply (Hshort false)|apply (Hshort true)]; exact He.
Qed.

Lemma with_denoted stmt e w v w' :
  frag stmt e = true -> Eval.eval_with internal ev (Pure.inst ρ e) w = (Val v, w') -> denoted ρ stmt e v w w'.
Proof.
  intros Hf He. destruct e as [v0|v0 u|l|e|p e|op e1 e2|b es|vs e1 e2|op vs e1 e2 acc|v0 e
    |c a o|vs ms e a|c e a|f args b]; try done.
  - unfold Pure.inst in He. simpl in He. rewrite Nat.sub_0_r in He. unfold denoted. simpl.
    destruct (ρ !! u) as [l|]; [|done]. cbv in He. simplify_eq. split; [done|]. by exists (false, l).
  - cbv in He. simplify_eq. split; [done|]. by exists (false, l).
  - simpl in Hf. apply andb_true_iff in Hf as [Hs Hf].
    apply bind_val_inv in He as (v1 & w1 & He1 & He). cbv [mret Comp_ret] in He. simplify_eq.
    destruct (ev_value _ _ _ _ Hf He1) as (-> & l & Hl & ->). split; [done|]. exists (true, l).
    by rewrite den_return, Hl.
  - apply bind_val_inv in He as (v1 & w1 & He1 & He).
    destruct (ev_value _ _ _ _ Hf He1) as (-> & l & Hl & ->). cbv beta iota in He.
    apply some_or_inv in He as (-> & r & Hr & ->). split; [done|]. exists (false, r).
    rewrite run_prefix_lit in Hr. by rewrite den_prefix, Hl, Hr.
  - simpl in Hf. apply andb_true_iff in Hf as [[_ F1]%andb_true_iff F2].
    destruct (infix_denoted op e1 e2 w v w' F1 F2 He) as (-> & r & ? & ? & ?). split; [done|]. eauto.
  - destruct b; try done. unfold denoted. rewrite den_block_eq. simpl in Hf.
    destruct es as [|e es]; simpl in Hf; [cbv in He; simplify_eq; split; [done|]; by exists (false, Literal.unit)|].
    apply andb_true_iff in Hf as [Hf Hfs].
    apply bind_val_inv in He as (v1 & w1 & He1 & He).
    destruct (Hev _ _ _ _ _ Hf He1) as (-> & r & Hr & -> & Hb).
    destruct es as [|e' es].
    + rewrite orb_true_r in He. cbv [mret Comp_ret] in He. simplify_eq. split; [done|]. by exists r.
    + destruct r as [[] l]; cbn -[Expr.traverse] in He.
      * cbv [mret Comp_ret] in He. simplify_eq. split; [done|]. exists (true, l).
        split_and!; [|done|done]. simpl. by rewrite Hr.
      * destruct (Hev stmt (BlockExpr BBlock (e' :: es)) _ _ _ Hfs He) as (-> & r' & Hr' & -> & Hb').
        split; [done|]. exists r'. rewrite den_block_eq in Hr'. split_and!; [|done|done].
        change (Pure.den_block pure ρ (e :: e' :: es)) with
          (match den ρ e with Some (false, _) => Pure.den_block pure ρ (e' :: es) | r => r end).
        rewrite Hr. exact Hr'.
  - simpl in Hf. apply andb_true_iff in Hf as [[Fc Fa]%andb_true_iff Fo].
    apply bind_val_inv in He as (v1 & w1 & He1 & He).
    destruct (ev_value _ _ _ _ Fc He1) as (-> & l & Hl & ->). cbv beta iota in He. unfold denoted.
    rewrite den_if, Hl. destruct (Literal.dest_bool l) as [[]|]; [by apply (Hev stmt a)| |done].
    destruct o as [x|]; [by apply (Hev stmt x)|]. cbv in He. simplify_eq. split; [done|]. by exists (false, Literal.unit).
  - simpl in Hf. apply andb_true_iff in Hf as [Hp Hfs].
    change (Pure.inst ρ (CallExpr f args b)) with (CallExpr f (map (Pure.inst ρ) args) b) in He.
    cbn [Eval.eval_with] in He. apply bind_val_inv in He as (vs & w1 & He1 & He).
    destruct (ev_list _ _ _ _ Hfs He1) as (-> & ls & Hls & ->).
    rewrite find_lits, no_shadow, pure_builtin in He by done. apply run_builtin_pure in He as [Ec ->]; [|done].
    unfold denoted. rewrite den_call, Hp, Hls, Ec. split; [done|]. destruct (eval_call_lit _ _ _ Ec) as [r ->].
    by exists (false, r).
Qed.
End ev.

(** An evaluation of an expression of the fragment that succeeds has no
    effect and gives the denotation. *)
Lemma eval_denoted ρ n stmt e w v w' :
  frag stmt e = true -> eval n (Pure.inst ρ e) w = (Val v, w') -> denoted ρ stmt e v w w'.
Proof.
  revert stmt e w v w'. induction n as [|n IH]; intros stmt e w v w' Hf He; [done|].
  by apply (with_denoted (eval n) ρ IH).
Qed.

(** ** Calls of functions of the program *)
Section calls.
Variables (f : string) (vs : list Ident) (body : Expr FL) (ls : list (Literal FL)) (b : bool).
Hypothesis is_function : BTreeMap.get internal f = Some (close vs body).
Hypothesis arity : length vs = length ls.

Lemma eval_lits n (ks : list (Literal FL)) w :
  Eval.eval_list (eval (S n)) (map LitExpr ks) w = (Val (map LitExpr ks), w).
Proof.
  induction ks as [|k ks IH]; [done|]. simpl map. simpl Eval.eval_list.
  rewrite (bind_val _ _ _ (LitExpr k) w) by done. by rewrite (bind_val _ _ _ _ _ IH).
Qed.

Lemma call_computes r :
  den (rev ls) body = Some r -> computes (CallExpr f (map LitExpr ls) b) (LitExpr r.2).
Proof.
  intros [n Hn]%den_computes. apply (computes_step _ _ (S n)). intros [|m] w Hm; [lia|].
  cbn [Eval.eval_with]. rewrite (bind_val _ _ _ _ _ (eval_lits _ _ _)), find_lits, is_function.
  rewrite apply_args_close by done. cbn [try].
  erewrite bind_val by (by apply lift_val). erewrite bind_val by (apply Hn; lia).
  by destruct r as [[] ?].
Qed.

Lemma call_denoted n w v w' :
  frag true body = true -> eval n (CallExpr f (map LitExpr ls) b) w = (Val v, w') ->
  w' = w /\ exists r, den (rev ls) body = Some r /\ v = LitExpr r.2.
Proof.
  intros Hf He. destruct n as [|[|n]]; [done| |].
  { destruct ls; [|done]. cbn in He. rewrite is_function in He. by destruct vs. }
  change (Eval.eval_with internal (eval (S n)) (CallExpr f (map LitExpr ls) b) w = (Val v, w')) in He.
  cbn [Eval.eval_with] in He.
  rewrite (bind_val _ _ _ _ _ (eval_lits _ _ _)), find_lits, is_function in He.
  rewrite apply_args_close in He by done. cbn [try] in He.
  erewrite bind_val in He by (by apply lift_val). apply bind_val_inv in He as (v1 & w1 & He & Hv).
  destruct (eval_denoted _ _ _ _ _ _ _ Hf He) as (-> & r & Hr & -> & _).
  cbv [mret Comp_ret] in Hv. simplify_eq. split; [done|]. exists r. split; [done|]. by destruct r as [[] ?].
Qed.
End calls.
End eval_den.
