(* ===== verification/SpecializeTheory.v ===== *)
(** * What specialisation preserves

    On pure expressions whose operators leave out [!=], [-] and [/], partial
    evaluation has no effects and its result denotes what the expression
    denoted, for every value of the arguments that are not known. *)

From Stdlib Require Import ZArith Lia String Ascii List Floats.SpecFloat.
From stdpp Require Import base tactics list strings sets.
From S2P Require Import Prelude.
From S2P Require Import Ordered.
From S2P Require Import Strings.
From S2P Require Import Labels.
From S2P Require Import Syntax.
From S2P Require Import Types.
From S2P Require Import Net.
From S2P Require Import Literals.
From S2P Require Import FnHeaders.
From S2P Require Import Expressions.
From S2P Require Import Interpret.
From S2P Require Import Meta.
From S2P Require Import Eval.
From S2P Require Import EvalTheory.
From S2P Require Import Externals.
From S2P Require Import Lang.
From S2P Require Import Policies.
From S2P Require Import Equality.
From S2P Require Import ControlLiterals.
From S2P Require Import Specialize.
From S2P Require Import Pure.

Local Open Scope string_scope.
Local Open Scope list_scope.

(** ** Exact literals of the control plane *)
Definition cp_exact_flat (l : CPFlatLiteral) : bool :=
  match l with LDP l => Exact.flat l | _ => false end.
Definition cp_exact (l : CPLiteral) : bool := Exact.literal cp_exact_flat l.

Lemma cp_exact_eqb a b : cp_exact a = true -> Literal.eqb a b = true <-> a = b.
Proof.
  apply exact_literal. intros x y Hx. destruct x, y; try done; simpl in *; try (split; congruence).
  rewrite exact_flat by done. naive_solver.
Qed.

(** The operators for which the rules of simplification are right. *)
Definition safe_op (op : Infix) : bool :=
  match op with NotEqual | IMinus | Divide => false | _ => true end.

Notation cp_bool b := (Literal.bool b : CPLiteral).

Lemma dest_bool_eq (l : CPLiteral) b : Literal.dest_bool l = Some b <-> l = cp_bool b.
Proof.
  split; [|by intros ->]. destruct l as [[]| |]; try done. destruct l; try done. simpl. intros; by simplify_eq.
Qed.

Section operators.
Context `{Profile} `{Lib}.
Notation eval_infix := (LitInterpret.eval_infix (FL := CPFlatLiteral)).
Notation eval_prefix := (LitInterpret.eval_prefix (FL := CPFlatLiteral)).
Notation infix_den := (infix_den (FL := CPFlatLiteral)).

Lemma val_some_eq {A} (o : Outcome (option A)) r : Pure.val_some o = Some r <-> o = Val (Some r).
Proof. destruct o as [[]| | |]; simpl; naive_solver. Qed.

Lemma prefix_exact p l r :
  cp_exact l = true -> eval_prefix l p = Val (Some r) -> cp_exact r = true.
Proof.
  destruct l as [[|l| | | |]| |]; try done. simpl. unfold CPInterpret.lift_dp, DPInterpret.eval_prefix.
  destruct p, l; simpl; try done; intros Hl Hr.
  - destruct (arith_i64 (- i)) as [n| | |] eqn:E; simpl in Hr; try done. unfold ret in Hr. inv_val.
    by eapply arith_i64_range.
  - unfold ret in Hr. inv_val. done.
Qed.

Lemma exact_app l1 l2 :
  cp_exact (LList l1) = true -> cp_exact (LList l2) = true -> cp_exact (LList (l1 ++ l2)) = true.
Proof. unfold cp_exact. simpl. rewrite forallb_app. by intros -> ->. Qed.

Lemma infix_exact op l1 l2 r :
  cp_exact l1 = true -> cp_exact l2 = true -> eval_infix l1 op l2 = Val (Some r) -> cp_exact r = true.
Proof.
  intros E1 E2. unfold LitInterpret.eval_infix, ret.
  destruct l1 as [x|l1|l1], l2 as [y|l2|l2]; try (destruct op; try done; intros; simplify_eq; by try apply exact_app).
  simpl. unfold CPInterpret.eval_infix, ret, Literal.bool.
  assert (forall x y, Exact.flat x = true -> Exact.flat y = true ->
    CPInterpret.lift_dp (DPInterpret.eval_infix x op y) = Val (Some r) -> cp_exact r = true) as Hdp.
  { clear. intros x y Hx Hy. unfold CPInterpret.lift_dp, DPInterpret.eval_infix, ret. cbv zeta.
    repeat split_match; try done; cbn;
      try match goal with
      | |- context [arith_i64 ?z] => destruct (arith_i64 z) eqn:?; cbn; try done
      | |- context [div_i64 ?x ?y] => destruct (div_i64 x y) eqn:?; cbn; try done
      | |- context [rem_i64 ?x ?y] => destruct (rem_i64 x y) eqn:?; cbn; try done
      end; intros; inv_val; try done.
    all: try (eapply arith_i64_range; eassumption).
    all: try (eapply div_i64_range; [|eassumption]; done).
    all: eapply rem_i64_range; [..|eassumption]; try done; by apply Z.eqb_neq. }
  destruct op, x as [|x| | | |], y as [|y| | | |]; try done; try (by apply Hdp); intros; by simplify_eq.
Qed.

(** What the operators that stop early need. *)
Lemma infix_bool op l1 l2 r :
  op = And \/ op = Or -> eval_infix l1 op l2 = Val (Some r) ->
  exists b1 b2, l1 = cp_bool b1 /\ l2 = cp_bool b2 /\
    r = cp_bool (match op with And => b1 && b2 | _ => b1 || b2 end).
Proof.
  unfold LitInterpret.eval_infix. intros Hop Hr.
  destruct l1 as [x|l1|l1], l2 as [y|l2|l2]; destruct Hop as [-> | ->]; try done;
    simpl in Hr; unfold CPInterpret.eval_infix in Hr; destruct x as [|x| | | |], y as [|y| | | |]; try done;
    destruct x, y; try done; cbv in Hr; simplify_eq; eauto.
Qed.

(** When both operands are known, the operator does not stop early. *)
Lemma infix_final op l1 l2 r v :
  eval_infix l1 op l2 = Val (Some r) -> infix_den op (Some l1) (Some l2) = Some v -> v = (false, r).
Proof.
  intros Hr Hv.
  assert (op = And \/ op = Or \/ strict op (Some l1) (Some l2) = Some v) as [->|[->|Hs]]
    by (destruct op; auto).
  - destruct (infix_bool _ _ _ _ (or_introl eq_refl) Hr) as (b1 & b2 & -> & -> & ->).
    destruct b1, b2; cbv in Hv; by simplify_eq.
  - destruct (infix_bool _ _ _ _ (or_intror eq_refl) Hr) as (b1 & b2 & -> & -> & ->).
    destruct b1, b2; cbv in Hv; by simplify_eq.
  - unfold strict in Hs. rewrite Hr in Hs. simpl in Hs. by simplify_eq.
Qed.

Lemma infix_den_mono op (v1 v2 v1' v2' : option CPLiteral) v :
  infix_den op v1 v2 = Some v ->
  (forall l, v1 = Some l -> v1' = Some l) -> (forall l, v2 = Some l -> v2' = Some l) ->
  infix_den op v1' v2' = Some v.
Proof.
  intros Hv H1 H2. destruct v1 as [l1|]; [|by destruct op]. rewrite (H1 l1) by done.
  destruct v2 as [l2|]; [by rewrite (H2 l2)|]. destruct op; try done; simpl in *; by repeat split_match.
Qed.

Lemma infix_den_left op v1 v2 v : infix_den op v1 v2 = Some v -> is_Some v1.
Proof. destruct v1; [done|]. by destruct op. Qed.

Lemma infix_den_value op v1 v2 v : infix_den op v1 v2 = Some v -> v.1 = false.
Proof.
  destruct op; simpl; unfold strict, short_circuit; intros Hv; repeat split_match_in Hv; by simplify_eq.
Qed.
End operators.

(** ** The fragment *)
Section fragment.
Context `{Profile} `{Lib}.
Variable pure : string -> bool.
(** Builtins of the fragment return exact literals. *)
Hypothesis pure_exact : forall f ls r, pure f = true -> Forall (fun l => cp_exact l = true) ls ->
  LitInterpret.eval_call f (map LitExpr ls) = Val (LitExpr r) -> cp_exact r = true.
Notation frag := (Pure.frag (FL := CPFlatLiteral) pure safe_op cp_exact).
Notation den := (Pure.den (FL := CPFlatLiteral) pure).
Notation value := (Pure.value (FL := CPFlatLiteral) pure).
Notation values := (Pure.values (FL := CPFlatLiteral) pure).
Notation exact_all := (Forall (fun l => cp_exact l = true)).

Lemma frag_stmt e : frag false e = true -> frag true e = true.
Proof.
  induction e as [v|v u|l|e IH|p e IH|op e1 e2 IH1 IH2|b es IH|vs e1 e2|op vs e1 e2 acc|v e
    |c a o IHc IHa IHo|vs ms e a|c e a|f args b IH] using Expr_ind'; simpl; try done.
  - destruct b; try done. induction IH; simpl; [done|]. rewrite !andb_true_iff. naive_solver.
  - rewrite !andb_true_iff. intros [[? ?] Ho]. split_and!; auto. destruct o; simpl in *; auto.
Qed.

(** Equality of expressions of the fragment is the identity. *)
Lemma frag_eqb s e e' : frag s e = true -> ExprEq.eqb e e' = true -> e = e'.
Proof.
  assert (forall s es, Forall (fun e => forall s e', frag s e = true -> ExprEq.eqb e e' = true -> e = e') es ->
    forallb (frag s) es = true -> Forall (fun e => forall e', ExprEq.eqb e e' = true -> e = e') es) as Hall.
  { clear. induction 1; simpl; intros; bool_to_prop; constructor; eauto. }
  revert s e'. induction e as [v|v u|l|e IH|p e IH|op e1 e2 IH1 IH2|b es IH|vs e1 e2|op vs e1 e2 acc|v e
    |c a o IHc IHa IHo|vs ms e a|c e a|f args b IH] using Expr_ind'; intros s e' Hf He; try done;
    destruct e'; try done; simpl in *; bool_to_prop; subst.
  - f_equal; [by apply String.eqb_eq|by apply Nat.eqb_eq].
  - f_equal. by apply cp_exact_eqb.
  - f_equal. eauto.
  - f_equal. eauto.
  - f_equal; eauto.
  - destruct b0; try done. f_equal. eapply list_eqb_Forall; [|eassumption]. by eapply Hall.
  - f_equal; [eauto|eauto|]. destruct o as [x|], alternative as [y|]; try done. simpl in *. f_equal. eauto.
  - f_equal; [by apply String.eqb_eq| |by apply eqb_prop].
    eapply list_eqb_Forall; [|eassumption]. by eapply Hall.
Qed.

(** Values of expressions of the fragment are exact. *)
Lemma den_exact s e ρ v : frag s e = true -> exact_all ρ -> den ρ e = Some v -> cp_exact v.2 = true.
Proof.
  intros Hf Hρ. revert s v Hf.
  assert (forall e, (forall s v, frag s e = true -> den ρ e = Some v -> cp_exact v.2 = true) ->
    forall l, frag false e = true -> value ρ e = Some l -> cp_exact l = true) as Hval.
  { intros e' He l Hf Hl%den_value. by apply (He false (false, l)). }
  induction e as [v|v u|l|e IH|p e IH|op e1 e2 IH1 IH2|b es IH|vs e1 e2|op vs e1 e2 acc|v e
    |c a o IHc IHa IHo|vs ms e a|c e a|f args b IH] using Expr_ind'; intros s v' Hf Hv; try done.
  - simpl in Hv. split_match_in Hv; [|done]. simplify_eq. rewrite Forall_forall in Hρ.
    apply Hρ. by eapply list_elem_of_lookup_2.
  - simpl in Hv. by simplify_eq.
  - rewrite den_return in Hv. simpl in Hf. bool_to_prop. destruct (value ρ e) eqn:E; [|done].
    simplify_eq. by eapply Hval.
  - rewrite den_prefix in Hv. simpl in Hf. destruct (value ρ e) eqn:E; [|done].
    destruct (Pure.val_some _) eqn:Ev; [|done]. simplify_eq. apply val_some_eq in Ev.
    eapply prefix_exact; [|exact Ev]. by eapply Hval.
  - rewrite den_infix in Hv. simpl in Hf. bool_to_prop.
    destruct (infix_den_left _ _ _ _ Hv) as [l1 E1]. pose proof (Hval _ IH1 _ ltac:(done) E1) as X1.
    rewrite E1 in Hv. destruct (value ρ e2) as [l2|] eqn:E2.
    + pose proof (Hval _ IH2 _ ltac:(done) E2) as X2. clear -Hv X1 X2.
      destruct op; simpl in Hv; unfold strict in Hv; repeat split_match_in Hv; simplify_eq; try done;
        try match goal with H : Pure.val_some _ = _ |- _ => apply val_some_eq in H; by eapply infix_exact in H end.
    + clear -Hv X1. destruct op; try done; simpl in Hv; repeat split_match_in Hv; by simplify_eq.
  - destruct b; try done. rewrite den_block_eq in Hv. simpl in Hf. revert v' Hv.
    induction IH as [|x es Hx _ IHes]; simpl; intros v' Hv; [by simplify_eq|]. simpl in Hf. bool_to_prop.
    destruct es as [|y es]; [by eapply Hx|].
    destruct (den ρ x) as [[[] l]|] eqn:E; [|eauto|done]. simplify_eq. by eapply (Hx s (true, l)).
  - rewrite den_if in Hv. simpl in Hf. bool_to_prop. destruct (value ρ c) eqn:E; [|done].
    destruct (Literal.dest_bool l) as [[]|]; [by eapply IHa| |done].
    destruct o as [x|]; [by eapply IHo|]. by simplify_eq.
  - rewrite den_call in Hv. simpl in Hf. bool_to_prop. destruct (pure f) eqn:Ep; [|done].
    destruct (values ρ args) as [ls|] eqn:E; [|done]. apply values_Forall2 in E.
    destruct (LitInterpret.eval_call _ _) as [[]| | |] eqn:Ec; simplify_eq; try done. simpl.
    eapply pure_exact; [exact Ep| |exact Ec]. clear Ec. revert ls E.
    induction IH as [|x es Hx _ IHes]; intros ls E; inversion E; subst; [constructor|].
    simpl in *. bool_to_prop. constructor; [by eapply Hval|auto].
Qed.

Lemma value_exact e ρ l : frag false e = true -> exact_all ρ -> value ρ e = Some l -> cp_exact l = true.
Proof. intros Hf Hρ Hv%den_value. by apply (den_exact false e ρ (false, l)). Qed.

(** ** Simplification *)
Notation infix_den := (infix_den (FL := CPFlatLiteral)).

(** An expression that denotes what the operation on the two others does. *)
Definition simplified (op : Infix) (x y r : CPExpr) : Prop :=
  forall ρ v, exact_all ρ -> infix_den op (value ρ x) (value ρ y) = Some v -> den ρ r = Some v.

Definition nonempty (e : CPExpr) : bool :=
  match e with BlockExpr BBlock [] => false | _ => true end.

Definition final (e : CPExpr) : Prop := exists v, e = Pure.wrap v.

Lemma is_lit_eq z x : frag false x = true -> Simplify.is_lit z x = true -> x = LitExpr z.
Proof. destruct x; try done. simpl. intros Hf He. f_equal. by apply cp_exact_eqb. Qed.

Lemma frag_no_return x : frag false x = true -> Expr.is_return x = false.
Proof. by destruct x. Qed.

Lemma simplified_none op x y : simplified op x y (InfixExpr op x y).
Proof. intros ρ v _ Hv. by rewrite den_infix. Qed.

(** What zero and one do as operands, of exact values. *)
Record ring_laws (plus mult : Infix) (zero one : CPLiteral) : Prop := {
  zero_plus l v : cp_exact l = true -> infix_den plus (Some zero) (Some l) = Some v -> v = (false, l);
  zero_plus_stop v : infix_den plus (Some zero) None = Some v -> False;
  plus_zero l v : cp_exact l = true -> infix_den plus (Some l) (Some zero) = Some v -> v = (false, l);
  zero_mult o v : infix_den mult (Some zero) o = Some v -> v = (false, zero);
  mult_zero l v : infix_den mult (Some l) (Some zero) = Some v -> v = (false, zero);
  one_mult l v : cp_exact l = true -> infix_den mult (Some one) (Some l) = Some v -> v = (false, l);
  one_mult_stop v : infix_den mult (Some one) None = Some v -> False;
  mult_one l v : cp_exact l = true -> infix_den mult (Some l) (Some one) = Some v -> v = (false, l);
}.

Lemma left_unit op z y :
  frag false y = true ->
  (forall l v, cp_exact l = true -> infix_den op (Some z) (Some l) = Some v -> v = (false, l)) ->
  (forall v, infix_den op (Some z) None = Some v -> False) ->
  simplified op (LitExpr z) y y.
Proof.
  intros Hf Hz Hn ρ v Hρ Hv. change (value ρ (LitExpr z)) with (Some z) in Hv.
  destruct (value ρ y) as [l|] eqn:E; [|by apply Hn in Hv].
  rewrite (Hz l v) by (done || by eapply value_exact). by apply den_value.
Qed.

Lemma right_unit op z x :
  frag false x = true ->
  (forall l v, cp_exact l = true -> infix_den op (Some l) (Some z) = Some v -> v = (false, l)) ->
  simplified op x (LitExpr z) x.
Proof.
  intros Hf Hz ρ v Hρ Hv. change (value ρ (LitExpr z)) with (Some z) in Hv.
  destruct (infix_den_left _ _ _ _ Hv) as [l E]. rewrite E in Hv.
  rewrite (Hz l v) by (done || by eapply value_exact). by apply den_value.
Qed.

Lemma left_zero op z y :
  (forall o v, infix_den op (Some z) o = Some v -> v = (false, z)) -> simplified op (LitExpr z) y (LitExpr z).
Proof. intros Hz ρ v Hρ Hv. by rewrite (Hz _ _ Hv). Qed.

Lemma right_zero op z x :
  (forall l v, infix_den op (Some l) (Some z) = Some v -> v = (false, z)) ->
  simplified op x (LitExpr z) (LitExpr z).
Proof.
  intros Hz ρ v Hρ Hv. destruct (infix_den_left _ _ _ _ Hv) as [l E]. rewrite E in Hv.
  by rewrite (Hz _ _ Hv).
Qed.

(** A result of simplification: in the fragment, final if it is said to be,
    and of the same denotation. *)
Definition sound_result (op : Infix) (x y : CPExpr) (b : bool) (r : CPExpr) : Prop :=
  frag false r = true /\ (b = true -> final r) /\
  (nonempty x = true -> nonempty y = true -> nonempty r = true) /\ simplified op x y r.

Lemma ring_sound p1 m1 p2 m2 zero one op b1 x b2 y :
  safe_op op = true -> frag false x = true -> frag false y = true ->
  (b1 = true -> final x) -> (b2 = true -> final y) -> b1 && b2 = false ->
  (forall p m, p ∈ [p1; p2] -> m ∈ [m1; m2] -> safe_op p = true -> safe_op m = true -> ring_laws p m zero one) ->
  (exists m, m ∈ [m1; m2] /\ safe_op m = true) -> (exists p, p ∈ [p1; p2] /\ safe_op p = true) ->
  let r := Simplify.ring_simplification p1 m1 p2 m2 zero one op b1 x b2 y in
  sound_result op x y r.1.2 r.2.
Proof.
  intros Ho Fx Fy Bx By Hb Hl (m0 & Hm0 & Sm0) (p0 & Hp0 & Sp0).
  unfold Simplify.ring_simplification, sound_result.
  rewrite (frag_no_return x), (frag_no_return y) by done.
  assert (frag false (InfixExpr op x y) = true /\ (b1 && b2 = true -> final (InfixExpr op x y)) /\
    (nonempty x = true -> nonempty y = true -> nonempty (InfixExpr op x y) = true) /\ simplified op x y (InfixExpr op x y)) as Hnone.
  { simpl. rewrite Ho, Fx, Fy. split_and!; [done|by rewrite Hb|done|apply simplified_none]. }
  destruct (bool_decide (op = p1) || bool_decide (op = p2)) eqn:Ep.
  { assert (ring_laws op m0 zero one) as Hr.
    { apply Hl; try done. apply orb_true_iff in Ep. rewrite !bool_decide_eq_true in Ep. set_solver. }
    destruct (Simplify.is_lit zero x) eqn:Zx.
    - apply is_lit_eq in Zx as ->; [|done]. split_and!; [done..|].
      apply left_unit; [done|apply Hr|apply Hr].
    - destruct (Simplify.is_lit zero y) eqn:Zy; [|done].
      apply is_lit_eq in Zy as ->; [|done]. split_and!; [done..|]. apply right_unit; [done|apply Hr]. }
  destruct (bool_decide (op = m1) || bool_decide (op = m2)) eqn:Em; [|done].
  assert (ring_laws p0 op zero one) as Hr.
  { apply Hl; try done. apply orb_true_iff in Em. rewrite !bool_decide_eq_true in Em. set_solver. }
  destruct (Simplify.is_lit zero x) eqn:Zx.
  { apply is_lit_eq in Zx as ->; [|done]. split_and!; [done..|]. apply left_zero, Hr. }
  destruct (Simplify.is_lit one x) eqn:Ox.
  { apply is_lit_eq in Ox as ->; [|done]. split_and!; [done..|]. apply left_unit; [done|apply Hr|apply Hr]. }
  destruct (Simplify.is_lit zero y) eqn:Zy.
  { apply is_lit_eq in Zy as ->; [|done]. split_and!; [done..|]. apply right_zero, Hr. }
  destruct (Simplify.is_lit one y) eqn:Oy; [|done].
  apply is_lit_eq in Oy as ->; [|done]. split_and!; [done..|]. apply right_unit; [done|apply Hr].
Qed.

(** Inexact literals are not in the fragment. *)
Lemma ring_inexact p1 m1 p2 m2 zero one op b1 x b2 y :
  safe_op op = true -> frag false x = true -> frag false y = true -> b1 && b2 = false ->
  cp_exact zero = false -> cp_exact one = false ->
  let r := Simplify.ring_simplification p1 m1 p2 m2 zero one op b1 x b2 y in
  sound_result op x y r.1.2 r.2.
Proof.
  intros Ho Fx Fy Hb Hz H1. unfold Simplify.ring_simplification, sound_result.
  assert (forall z e, cp_exact z = false -> frag false e = true -> Simplify.is_lit z e = false) as Hne.
  { intros z e Hz' He. apply not_true_iff_false. intros ->%is_lit_eq; [|done]. simpl in He. congruence. }
  rewrite (frag_no_return x), (frag_no_return y), !Hne by done.
  assert (frag false (InfixExpr op x y) = true /\ (b1 && b2 = true -> final (InfixExpr op x y)) /\
    (nonempty x = true -> nonempty y = true -> nonempty (InfixExpr op x y) = true) /\ simplified op x y (InfixExpr op x y)).
  { simpl. rewrite Ho, Fx, Fy. split_and!; [done|by rewrite Hb|done|apply simplified_none]. }
  by repeat split_match.
Qed.

Lemma or_and_laws (b : bool) :
  ring_laws (if b then And else Or) (if b then Or else And) (cp_bool b) (cp_bool (negb b)).
Proof.
  split; destruct b; simpl; intros; try done;
    repeat match goal with
    | H : match Literal.dest_bool ?l with _ => _ end = _ |- _ => destruct (Literal.dest_bool l) as [[]|] eqn:?; try done
    | H : match ?o with _ => _ end = _ |- _ => is_var o; destruct o; try done
    | H : Literal.dest_bool _ = Some _ |- _ => apply dest_bool_eq in H as ->
    end; simpl in *; by simplify_eq.
Qed.

Lemma int_operand op (l : CPLiteral) i v :
  op = Plus \/ op = Multiply ->
  infix_den op (Some (Literal.int i)) (Some l) = Some v \/
  infix_den op (Some l) (Some (Literal.int i)) = Some v ->
  exists j, l = Literal.int j.
Proof.
  intros Hop Hv. destruct l as [[|l| | | |]| |];
    try (destruct Hop as [-> | ->], Hv as [Hv|Hv]; discriminate Hv).
  destruct l; try (destruct Hop as [-> | ->], Hv as [Hv|Hv]; discriminate Hv). eauto.
Qed.

Lemma int_value op i j n v :
  (op = Plus /\ n = i + j \/ op = Multiply /\ n = i * j)%Z -> in_i64 n = true ->
  infix_den op (Some (Literal.int i)) (Some (Literal.int j)) = Some v -> v = (false, Literal.int n).
Proof.
  intros Hop Hn. assert (arith_i64 n = Val n) as Ha by (unfold arith_i64; by rewrite Hn).
  destruct Hop as [[-> ->]|[-> ->]]; cbn; rewrite Ha; cbn; naive_solver.
Qed.

Lemma plus_mult_laws : ring_laws Plus Multiply (Literal.int 0) (Literal.int 1).
Proof.
  assert (forall op i (l : CPLiteral) v, op = Plus \/ op = Multiply ->
    infix_den op (Some (Literal.int i)) (Some l) = Some v -> exists j, l = Literal.int j) as Hr
    by (intros; by eapply int_operand; [|left]).
  assert (forall op i (l : CPLiteral) v, op = Plus \/ op = Multiply ->
    infix_den op (Some l) (Some (Literal.int i)) = Some v -> exists j, l = Literal.int j) as Hl
    by (intros; by eapply int_operand; [|right]).
  split; try done.
  - intros l v He Hv. destruct (Hr Plus _ _ _ (or_introl eq_refl) Hv) as [j ->].
    apply (int_value Plus 0 j j) in Hv; [done|by left|exact He].
  - intros l v He Hv. destruct (Hl Plus _ _ _ (or_introl eq_refl) Hv) as [j ->].
    apply (int_value Plus j 0 j) in Hv; [done|left; split; [done|lia]|exact He].
  - intros [l|] v Hv; [|done]. destruct (Hr Multiply _ _ _ (or_intror eq_refl) Hv) as [j ->].
    apply (int_value Multiply 0 j 0) in Hv; [done|by right|done].
  - intros l v Hv. destruct (Hl Multiply _ _ _ (or_intror eq_refl) Hv) as [j ->].
    apply (int_value Multiply j 0 0) in Hv; [done|right; split; [done|lia]|done].
  - intros l v He Hv. destruct (Hr Multiply _ _ _ (or_intror eq_refl) Hv) as [j ->].
    apply (int_value Multiply 1 j j) in Hv; [done|right; split; [done|lia]|exact He].
  - intros l v He Hv. destruct (Hl Multiply _ _ _ (or_intror eq_refl) Hv) as [j ->].
    apply (int_value Multiply j 1 j) in Hv; [done|right; split; [done|lia]|exact He].
Qed.

Lemma combine_sound (r1 r2 : Simplify.Rule) op b1 x b2 y :
  (let r := r1 op b1 x b2 y in sound_result op x y r.1.2 r.2) ->
  (let r := r2 op b1 x b2 y in sound_result op x y r.1.2 r.2) ->
  let r := Simplify.combine_simplification r1 r2 op b1 x b2 y in sound_result op x y r.1.2 r.2.
Proof. intros H1 H2. unfold Simplify.combine_simplification. by destruct (r1 op b1 x b2 y).1.1. Qed.

Lemma rules_sound op b1 x b2 y :
  safe_op op = true -> frag false x = true -> frag false y = true ->
  (b1 = true -> final x) -> (b2 = true -> final y) -> b1 && b2 = false ->
  let r := Simplify.rules op b1 x b2 y in sound_result op x y r.1.2 r.2.
Proof.
  intros. unfold Simplify.rules. repeat apply combine_sound.
  - apply ring_sound; try done; [|exists And; set_solver|exists Or; set_solver].
    intros p m Hp Hm _ _. assert (p = Or /\ m = And) as [-> ->] by set_solver. apply (or_and_laws false).
  - apply ring_sound; try done; [|exists Or; set_solver|exists And; set_solver].
    intros p m Hp Hm _ _. assert (p = And /\ m = Or) as [-> ->] by set_solver. apply (or_and_laws true).
  - apply ring_sound; try done; [|exists Multiply; set_solver|exists Plus; set_solver].
    intros p m Hp Hm Sp Sm. rewrite !elem_of_cons, elem_of_nil in Hp, Hm.
    assert (p = Plus /\ m = Multiply) as [-> ->] by naive_solver. apply plus_mult_laws.
  - by apply ring_inexact.
Qed.

Lemma simplify_sound op b1 x b2 y r :
  safe_op op = true -> frag false x = true -> frag false y = true ->
  (b1 = true -> final x) -> (b2 = true -> final y) -> b1 && b2 = false ->
  Simplify.simplify op b1 x b2 y = Ok r -> sound_result op x y r.1 r.2.
Proof.
  intros Ho Fx Fy Bx By Hb. unfold Simplify.simplify.
  destruct (bool_decide (op = Divide) && _); [done|].
  destruct (bool_decide (op = Equal) && ExprEq.eqb x y) eqn:Eq.
  { intros; simplify_eq. simpl. rewrite Hb. split_and!; [done..|].
    apply andb_true_iff in Eq as [->%bool_decide_eq_true Eq]. apply (frag_eqb false) in Eq as <-; [|done].
    intros ρ v Hρ Hv. simpl in Hv. unfold strict in Hv. destruct (value ρ x) as [l|] eqn:E; [|done].
    apply value_exact in E; [|done..]. destruct l as [l|l|l]; try done. simpl in *.
    assert (CPFlatLiteral.eqb l l = true) as Hl; [|rewrite Hl in Hv; by simplify_eq].
    apply (cp_exact_eqb (FlatLit l) (FlatLit l)) in E. simpl in E. by apply E. }
  destruct (bool_decide (op = NotEqual) && _) eqn:En.
  { apply andb_true_iff in En as [->%bool_decide_eq_true _]. done. }
  intros; simplify_eq. by apply rules_sound.
Qed.

(** ** Partial evaluation *)
Section peval.
Context {W : Type} `{Interp CPFlatLiteral W} `{!PureInterp CPFlatTyp CPFlatLiteral W pure}.
Variable internal : Code CPFlatLiteral.
Hypothesis no_shadow : forall f, pure f = true -> BTreeMap.get internal f = None.

(** What a result is worth: in the fragment, final if it is said to be, no
    empty block, and with the denotation of the expression. *)
Definition good (stmt : bool) (e : CPExpr) (r : bool * CPExpr) : Prop :=
  frag stmt r.2 = true /\ (r.1 = true -> final r.2) /\ nonempty r.2 = true /\
  forall ρ v, exact_all ρ -> den ρ e = Some v -> den ρ r.2 = Some v.

Lemma good_value e r ρ l :
  good false e r -> exact_all ρ -> value ρ e = Some l -> value ρ r.2 = Some l.
Proof. intros (_ & _ & _ & Hg) Hρ Hv%den_value. apply den_value. by apply Hg. Qed.

Lemma good_final e r : good false e r -> r.1 = true -> exists l, r.2 = LitExpr l.
Proof.
  intros (Hf & Hb & _) Ht. destruct (Hb Ht) as [[[] l] E]; rewrite E in *; [done|]. by exists l.
Qed.

Section with_pe.
Variable pe : bool -> CPExpr -> Comp W (bool * CPExpr).
Hypothesis Hpe : forall stmt so e w r w',
  frag stmt e = true -> pe so e w = (Val r, w') -> w' = w /\ good stmt e r.

Lemma list_good so es w rs w' :
  forallb (frag false) es = true -> PEval.peval_list pe so es w = (Val rs, w') ->
  w' = w /\ Forall2 (good false) es rs.
Proof.
  revert w rs w'. induction es as [|e es IH]; intros w rs w' Hf He; simpl in *.
  - cbv [mret Comp_ret] in He. simplify_eq. split; [done|constructor].
  - apply andb_true_iff in Hf as [Hf Hfs]. apply bind_val_inv in He as (r & w1 & He & Hes).
    destruct (Hpe _ _ _ _ _ _ Hf He) as [-> Hg].
    apply bind_val_inv in Hes as (rs' & w2 & Hes & Hr). cbv [mret Comp_ret] in Hr. simplify_eq.
    destruct (IH _ _ _ Hfs Hes) as [-> ?]. split; [done|by constructor].
Qed.

Lemma infix_good so op e1 e2 w r w' :
  safe_op op = true -> frag false e1 = true -> frag false e2 = true ->
  PEval.peval_infix pe so op e1 e2 w = (Val r, w') -> w' = w /\ good false (InfixExpr op e1 e2) r.
Proof.
  intros Ho F1 F2 He. unfold PEval.peval_infix in He.
  apply bind_val_inv in He as ([b1 x] & w1 & He1 & He). destruct (Hpe _ _ _ _ _ _ F1 He1) as [-> G1].
  apply bind_val_inv in He as ([b2 y] & w2 & He2 & He). destruct (Hpe _ _ _ _ _ _ F2 He2) as [-> G2].
  assert (forall ρ v, exact_all ρ -> den ρ (InfixExpr op e1 e2) = Some v ->
    infix_den op (value ρ x) (value ρ y) = Some v) as Hden.
  { intros ρ v Hρ Hv. rewrite den_infix in Hv. eapply infix_den_mono; [exact Hv|..]; intros l Hl.
    - by apply (good_value e1 (b1, x)).
    - by apply (good_value e2 (b2, y)). }
  destruct (negb b1 || negb b2) eqn:Eb.
  - apply lift_val in He as [He ->]. split; [done|].
    destruct (Simplify.simplify op b1 x b2 y) as [r'|] eqn:Es; [|done]. simpl in He. simplify_eq.
    destruct G1 as (Fx & Bx & Nx & _), G2 as (Fy & By & Ny & _).
    assert (b1 && b2 = false) as Hb by (destruct b1, b2; done).
    destruct (simplify_sound _ _ _ _ _ _ Ho Fx Fy Bx By Hb Es) as (Fr & Br & Nr & Hr).
    split_and!; [done|done|by apply Nr|].
    intros ρ v Hρ Hv. apply Hr; [done|]. by apply Hden.
  - apply orb_false_iff in Eb as [->%negb_false_iff ->%negb_false_iff].
    destruct (good_final _ _ G1 eq_refl) as [l1 E1], (good_final _ _ G2 eq_refl) as [l2 E2]. simpl in E1, E2. subst.
    apply bind_val_inv in He as (o & w1 & Ho' & He). apply lift_val in Ho' as [Ho' ->].
    rewrite run_infix_lit in Ho'. destruct o as [l|]; [|done]. cbv [mret Comp_ret] in He. simplify_eq.
    split; [done|]. destruct G1 as (Fx & _), G2 as (Fy & _). simpl in Fx, Fy.
    split_and!; [eapply infix_exact; [exact Fx|exact Fy|exact Ho']|by exists (false, l)|done|].
    intros ρ v Hρ Hv%Hden; [|done]. by rewrite (infix_final _ _ _ _ _ Ho' Hv).
Qed.

Lemma good_same stmt e e' r :
  good stmt e' r -> (forall ρ v, exact_all ρ -> den ρ e = Some v -> den ρ e' = Some v) -> good stmt e r.
Proof. intros (? & ? & ? & Hg) He. split_and!; try done. intros ρ v Hρ Hv. apply Hg; auto. Qed.

Lemma good_lit stmt e b l :
  cp_exact l = true -> (forall ρ v, exact_all ρ -> den ρ e = Some v -> v = (false, l)) ->
  good stmt e (b, LitExpr l).
Proof.
  intros Hl He. split_and!; [done|by exists (false, l)|done|].
  intros ρ v Hρ Hv. by rewrite (He ρ v).
Qed.

(** What follows a statement that is not known to return. *)
Lemma block_cons stmt e es e' es' :
  es <> [] -> es' <> [] ->
  (forall ρ v, exact_all ρ -> den ρ e = Some v -> den ρ e' = Some v) ->
  (forall ρ v, exact_all ρ -> den ρ (BlockExpr BBlock es) = Some v -> den ρ (BlockExpr BBlock es') = Some v) ->
  frag stmt e' = true -> forallb (frag stmt) es' = true ->
  good stmt (BlockExpr BBlock (e :: es)) (false, BlockExpr BBlock (e' :: es')).
Proof.
  intros Hn Hn' He Hes Fe Fes. split_and!; [simpl; by rewrite Fe, Fes|done|done|].
  intros ρ v Hρ Hv. simpl snd. rewrite den_block_eq in *. destruct es as [|x es]; [done|].
  destruct es' as [|x' es']; [done|]. cbn [Pure.den_block] in Hv |- *.
  destruct (den ρ e) as [[[] l]|] eqn:E; [| |done].
  - simplify_eq. by rewrite (He ρ _ Hρ E).
  - rewrite (He ρ _ Hρ E). specialize (Hes ρ v Hρ). rewrite !den_block_eq in Hes. by apply Hes.
Qed.

(** The statements of what follows. *)
Definition rest_list (e : CPExpr) : list CPExpr := match e with BlockExpr _ es => es | e => [e] end.

Lemma rest_block stmt e :
  frag stmt e = true -> nonempty e = true ->
  rest_list e <> [] /\ forallb (frag stmt) (rest_list e) = true /\
  forall ρ, den ρ (BlockExpr BBlock (rest_list e)) = den ρ e.
Proof.
  intros Hf Hn. destruct e as [| | | | | |b es| | | | | | |]; try (split_and!; [done| |done]; by apply andb_true_iff).
  destruct b; try done. by destruct es.
Qed.

Lemma peval_block_good so stmt es w r w' :
  forallb (frag stmt) es = true ->
  PEval.peval_block pe so BBlock es w = (Val r, w') -> w' = w /\ good stmt (BlockExpr BBlock es) r.
Proof.
  intros Hf He. destruct es as [|e es].
  { cbv [mret Comp_ret PEval.peval_block] in He. simplify_eq. split; [done|].
    apply good_lit; [done|]. intros ρ v _ Hv. simpl in Hv. by simplify_eq. }
  cbn [forallb] in Hf. apply andb_true_iff in Hf as [Hf Hfs].
  unfold PEval.peval_block in He. apply bind_val_inv in He as ([f res] & w1 & He1 & He).
  destruct (Hpe _ _ _ _ _ _ Hf He1) as [-> (Fr & Br & Nr & Gr)]. simpl in Fr, Br, Nr, Gr.
  destruct (Expr.is_return res) eqn:Er.
  { cbv [mret Comp_ret] in He. simpl in He. simplify_eq. split; [done|]. split_and!; [done..|].
    intros ρ v Hρ Hv. rewrite den_block_eq in Hv. simpl. destruct res; try done.
    destruct es as [|x es]; [by apply Gr|]. cbn [Pure.den_block] in Hv.
    destruct (den ρ e) as [[[] l]|] eqn:E; [|apply Gr in E; [|done]..|done].
    - simplify_eq. by apply Gr.
    - rewrite den_return in E. destruct (value ρ res); by simplify_eq. }
  destruct es as [|x es].
  { cbv [mret Comp_ret] in He. simpl in He. simplify_eq. by split_and!. }
  cbv zeta in He. cbn [orb] in He. destruct f.
  - destruct (Hpe stmt so (BlockExpr BBlock (x :: es)) _ _ _ Hfs He) as [-> Hg].
    split; [done|]. eapply good_same; [exact Hg|]. intros ρ v Hρ Hv. rewrite den_block_eq in *.
    cbn [Pure.den_block] in Hv. destruct (Br eq_refl) as [[[] l] ->]; [done|].
    destruct (den ρ e) as [[[] l']|] eqn:E; [| |done].
    + apply Gr in E; [|done]. simpl in E. by simplify_eq.
    + done.
  - apply bind_val_inv in He as ([f rest] & w1 & He2 & He).
    destruct (Hpe stmt true (BlockExpr BBlock (x :: es)) _ _ _ Hfs He2) as [-> (Fs & _ & Ns & Gs)].
    simpl in Fs, Ns, Gs. cbv [mret Comp_ret] in He. simplify_eq. split; [done|].
    destruct (rest_block stmt rest Fs Ns) as (Hn & Hfs2 & Hd).
    replace (match rest with BlockExpr _ es => res :: es | _ => [res; rest] end)
      with (res :: rest_list rest) by (by destruct rest).
    apply block_cons; try done. intros ρ v Hρ Hv. rewrite Hd. by apply Gs.
Qed.

Lemma opt_good so stmt o w r w' :
  match o with Some b => frag stmt b | None => true end = true -> PEval.peval_opt pe so o w = (Val r, w') ->
  w' = w /\ match o with
            | Some b => good stmt b r
            | None => r = (true, PEval.unit_expr)
            end.
Proof.
  destruct o as [b|]; simpl; intros Hf He; [by apply (Hpe _ so)|]. cbv [mret Comp_ret] in He. by simplify_eq.
Qed.

(** The condition of an expression that is defined. *)
Lemma den_if_value ρ c a o v :
  den ρ (IfExpr c a o) = Some v ->
  value ρ c = Some (cp_bool true) /\ den ρ a = Some v \/
  value ρ c = Some (cp_bool false) /\
    match o with Some b => den ρ b | None => Some (false, Literal.unit) end = Some v.
Proof.
  rewrite den_if. destruct (value ρ c) as [l|]; [|done].
  destruct (Literal.dest_bool l) as [[]|] eqn:E; [| |done]; apply dest_bool_eq in E as ->; auto.
Qed.

Lemma peval_if_good so stmt c a o w r w' :
  frag stmt (IfExpr c a o) = true ->
  PEval.peval_if pe so c a o w = (Val r, w') -> w' = w /\ good stmt (IfExpr c a o) r.
Proof.
  simpl. intros [[Fc Fa]%andb_true_iff Fo]%andb_true_iff He. unfold PEval.peval_if in He.
  apply bind_val_inv in He as ([f x] & w1 & He1 & He). destruct (Hpe _ _ _ _ _ _ Fc He1) as [-> Gc].
  destruct (Expr.is_return x) eqn:Er; [destruct Gc as (F & _); simpl in F; by destruct x|].
  destruct f.
  - destruct (good_final _ _ Gc eq_refl) as [l E]. simpl in E. subst x. clear Er.
    assert (forall ρ l', exact_all ρ -> value ρ c = Some l' -> l' = l) as Hc.
    { intros ρ l' Hρ Hl'. apply (good_value _ _ _ _ Gc) in Hl'; [|done].
      change (Some l = Some l') in Hl'. congruence. }
    destruct (Literal.dest_bool l) as [[]|] eqn:El; [| |done]; apply dest_bool_eq in El as ->.
    + destruct (Hpe _ _ _ _ _ _ Fa He) as [-> Ga]. split; [done|]. eapply good_same; [exact Ga|].
      intros ρ v Hρ [[_ Hv]|[Hv _]]%den_if_value; [done|]. by apply Hc in Hv.
    + destruct (opt_good _ _ _ _ _ _ Fo He) as [-> Go]. split; [done|]. destruct o as [b|].
      * eapply good_same; [exact Go|]. intros ρ v Hρ [[Hv _]|[_ Hv]]%den_if_value; [by apply Hc in Hv|done].
      * subst r. apply good_lit; [done|].
        intros ρ v Hρ [[Hv _]|[_ Hv]]%den_if_value; [by apply Hc in Hv|by simplify_eq].
  - assert (frag false x = true) as Fx by apply Gc.
    assert ((
      '(bc, consequence1) ← pe so a;
      match o with
      | Some alt =>
        '(_, tmp) ← pe so alt;
        if ExprEq.eqb tmp consequence1 then mret (bc, consequence1)
        else mret (false, IfExpr x consequence1 (Some tmp))
      | None => mret (false, IfExpr x consequence1 None)
      end) w = (Val r, w')) as He2 by (by destruct x).
    clear He. apply bind_val_inv in He2 as ([bc y] & w1 & He2 & He). destruct (Hpe _ _ _ _ _ _ Fa He2) as [-> Ga].
    assert (forall ρ l, exact_all ρ -> value ρ c = Some l -> value ρ x = Some l) as Hc
      by (intros; by apply (good_value c (false, x))).
    destruct Ga as (Fy & By & Ny & Gy). simpl in Fy, By, Ny, Gy. destruct o as [b|].
    + apply bind_val_inv in He as ([bt t] & w1 & He3 & He). destruct (Hpe _ _ _ _ _ _ Fo He3) as [-> (Ft & _ & Nt & Gt)].
      simpl in Ft, Nt, Gt. destruct (ExprEq.eqb t y) eqn:Et; cbv [mret Comp_ret] in He; simplify_eq; (split; [done|]).
      * apply (frag_eqb stmt) in Et as ->; [|done]. split_and!; [done..|].
        intros ρ v Hρ [[_ Hv]|[_ Hv]]%den_if_value; [by apply Gy|by apply Gt].
      * split_and!; [simpl; by rewrite Fx, Fy, Ft|done|done|].
        intros ρ v Hρ [[Hv Hd]|[Hv Hd]]%den_if_value; simpl snd; rewrite den_if, (Hc _ _ Hρ Hv); simpl;
          [by apply Gy|by apply Gt].
    + cbv [mret Comp_ret] in He. simplify_eq. split; [done|].
      split_and!; [simpl; by rewrite Fx, Fy|done|done|].
      intros ρ v Hρ [[Hv Hd]|[Hv Hd]]%den_if_value; simpl snd; rewrite den_if, (Hc _ _ Hρ Hv); simpl;
        [by apply Gy|done].
Qed.

Lemma list_values ρ es rs ls :
  Forall2 (good false) es rs -> exact_all ρ -> values ρ es = Some ls -> values ρ (map snd rs) = Some ls.
Proof.
  intros Hg Hρ. rewrite !values_Forall2. revert ls. induction Hg as [|e r es rs Hr _ IH]; intros ls Hl;
    inversion Hl; subst; constructor; [by eapply good_value|auto].
Qed.

Lemma list_final es rs :
  Forall2 (good false) es rs -> forallb fst rs = true ->
  exists ls, map snd rs = map LitExpr ls /\ exact_all ls.
Proof.
  induction 1 as [|e r es rs Hr _ IH]; simpl; [by exists []|]. intros [Hb Hbs]%andb_true_iff.
  destruct (IH Hbs) as (ls & -> & Hls). destruct (good_final _ _ Hr Hb) as [l El]. rewrite El.
  exists (l :: ls). split; [done|]. constructor; [|done]. destruct Hr as (Hf & _). rewrite El in Hf. done.
Qed.

Lemma find_none rs es :
  Forall2 (good false) es rs -> List.find (fun r => Expr.is_return r.2) rs = None.
Proof.
  induction 1 as [|e r es rs Hr _ IH]; [done|]. cbn [List.find].
  match goal with |- (if ?b then _ else _) = _ => assert (b = false) as -> by (apply frag_no_return, Hr) end.
  done.
Qed.

Lemma call_good so stmt f args b w r w' :
  frag stmt (CallExpr f args b) = true ->
  PEval.peval_call internal pe so f args b w = (Val r, w') -> w' = w /\ good stmt (CallExpr f args b) r.
Proof.
  simpl. intros [Hp Hfs]%andb_true_iff He. unfold PEval.peval_call in He.
  apply bind_val_inv in He as (rs & w1 & He1 & He). destruct (list_good _ _ _ _ _ Hfs He1) as [-> Hg].
  rewrite (find_none _ _ Hg), no_shadow, pure_builtin in He by done.
  destruct (forallb fst rs && negb so) eqn:Eb.
  - apply andb_true_iff in Eb as [Eb _]. destruct (list_final _ _ Hg Eb) as (ls & Els & Hls).
    apply bind_val_inv in He as (e & w1 & Hr & He). rewrite Els in Hr.
    apply run_builtin_pure in Hr as [Ec ->]; [|done]. cbv [mret Comp_ret] in He. injection He as <- <-.
    destruct (eval_call_lit _ _ _ Ec) as [l ->]. split; [done|].
    apply good_lit; [by eapply pure_exact|]. intros ρ v Hρ Hv. rewrite den_call, Hp in Hv.
    destruct (values ρ args) as [ls'|] eqn:E; [|done]. apply (list_values _ _ _ _ Hg Hρ) in E.
    rewrite Els in E. assert (values ρ (map LitExpr ls) = Some ls) as E'.
    { apply values_Forall2. clear. induction ls; simpl; constructor; auto. }
    rewrite E' in E. injection E as <-. rewrite Ec in Hv. by simplify_eq.
  - cbv [mret Comp_ret] in He. simplify_eq. split; [done|]. split_and!; [|done|done|].
    + simpl. rewrite Hp. simpl. clear -Hg. induction Hg as [|e r es rs Hr _ IH]; simpl; [done|].
      destruct Hr as (-> & _). done.
    + intros ρ v Hρ Hv. simpl snd. rewrite den_call, Hp in *.
      destruct (values ρ args) as [ls'|] eqn:E; [|done]. by rewrite (list_values _ _ _ _ Hg Hρ E).
Qed.

Lemma with_good so stmt e w r w' :
  frag stmt e = true -> PEval.peval_with internal pe so e w = (Val r, w') -> w' = w /\ good stmt e r.
Proof.
  intros Hf He. destruct e as [v|v u|l|e|p e|op e1 e2|b es|vs e1 e2|op vs e1 e2 acc|v e
    |c a o|vs ms e a|c e a|f args b]; try done.
  - cbv in He. simplify_eq. split; [done|]. by split_and!.
  - cbv in He. simplify_eq. split; [done|]. split_and!; try done. intros _. by exists (false, l).
  - simpl in Hf. apply andb_true_iff in Hf as [-> Hf]. apply bind_val_inv in He as ([b x] & w1 & He1 & He).
    destruct (Hpe _ _ _ _ _ _ Hf He1) as [-> G]. cbv [mret Comp_ret] in He. simplify_eq. split; [done|].
    split_and!; [by apply G| |done|].
    + simpl. intros Hb. destruct (good_final _ _ G Hb) as [l El]. simpl in El. subst. by exists (true, l).
    + intros ρ v Hρ Hv. rewrite den_return in Hv. destruct (value ρ e) as [l|] eqn:E; [|done].
      apply (good_value _ _ _ _ G) in E; [|done]. simplify_eq. cbn [snd] in E |- *. by rewrite den_return, E.
  - apply bind_val_inv in He as ([b x] & w1 & He1 & He). destruct (Hpe false so e _ _ _ Hf He1) as [-> G].
    destruct b.
    + destruct (good_final _ _ G eq_refl) as [l El]. simpl in El. subst.
      apply bind_val_inv in He as (o & w1 & Ho & He). apply lift_val in Ho as [Ho ->].
      rewrite run_prefix_lit in Ho. destruct o as [l'|]; [|done]. cbv [mret Comp_ret] in He. simplify_eq.
      split; [done|]. assert (cp_exact l = true) as Hl by apply G.
      apply good_lit; [by eapply prefix_exact|]. intros ρ v Hρ Hv. rewrite den_prefix in Hv.
      destruct (value ρ e) as [l0|] eqn:E; [|done]. apply (good_value _ _ _ _ G) in E; [|done].
      change (Some l = Some l0) in E. injection E as <-. rewrite Ho in Hv. simpl in Hv. by simplify_eq.
    + assert (frag false x = true) as Fx by apply G.
      assert ((Val (false, PrefixExpr p x), w) = (Val r, w')) as He' by (by destruct x).
      simplify_eq. split; [done|]. split_and!; [done..|].
      intros ρ v Hρ Hv. simpl snd. rewrite den_prefix in *.
      destruct (value ρ e) as [l0|] eqn:E; [|done]. apply (good_value _ _ _ _ G) in E; [|done].
      cbn [snd] in E. by rewrite E.
  - simpl in Hf. apply andb_true_iff in Hf as [[Ho F1]%andb_true_iff F2].
    destruct (infix_good _ _ _ _ _ _ _ Ho F1 F2 He) as [-> G]. split; [done|].
    destruct G as (Fr & Br & Nr & Gr). split_and!; try done. destruct stmt; [|done].
    clear -Fr. by apply frag_stmt.
  - destruct b; try done. by eapply peval_block_good.
  - by eapply peval_if_good.
  - by eapply call_good.
Qed.
End with_pe.

(** The theorem of partial evaluation, for any fuel. *)
Lemma peval_good n so stmt e w r w' :
  frag stmt e = true -> PEval.peval internal n so e w = (Val r, w') -> w' = w /\ good stmt e r.
Proof.
  revert so stmt e w r w'. induction n as [|n IH]; intros so stmt e w r w' Hf He; [done|].
  eapply with_good; [|exact Hf|exact He]. intros stmt' so' e' w1 r' w1' Hf' He'. by eapply IH.
Qed.
End peval.
End fragment.
