(* ===== verification/ControlState.v ===== *)
(** * The state of the control plane (src/src/armour-api/src/control.rs)

    The requests of the control plane, the documents that they are stored as,
    and the database.  Documents are BSON values; the derived serialization
    of the requests and identities is written out field by field.  The binary
    format of one policy, the text of addresses, and the database itself, are
    parameters. *)

From Stdlib Require Import ZArith Lia String Ascii List.
From stdpp Require Import base tactics list strings sets.
From S2P Require Import Prelude.
From S2P Require Import Ordered.
From S2P Require Import Strings.
From S2P Require Import Labels.
From S2P Require Import Syntax.
From S2P Require Import Types.
From S2P Require Import Net.
From S2P Require Import Literals.
From S2P Require Import FnHeaders.
From S2P Require Import Expressions.
From S2P Require Import Externals.
From S2P Require Import Lang.
From S2P Require Import Policies.
From S2P Require Import ControlLiterals.

Local Open Scope string_scope.
Local Open Scope list_scope.

(** ** Documents *)

(** The values of BSON that the requests are made of. *)
Inductive Bson :=
| BNull
| BString (s : string)
| BDouble (n : Z) (** a double with an integral value *)
| BArray (l : list Bson)
| BDocument (fields : list (string * Bson)).

(** [doc! { path: value, .. }] *)
Definition Filter := list (string * Bson).

(** ** What is outside the repository *)

(** Formats of libraries: bincode (compressed, in base 64) of a policy,
    the text of addresses. *)
Class Serde := {
  dp_to_bincode : DPPolicy -> option string;
  dp_of_bincode : string -> option DPPolicy;
  cp_to_bincode : GlobalPolicy -> option string;
  cp_of_bincode : string -> option GlobalPolicy;
  ip_to_string : IpAddr -> string;
  ip_of_string : string -> option IpAddr;
  Url : Type;
  url_to_string : Url -> string;
  url_of_string : string -> option Url;
  url_host_str : Url -> option string;
  url_port : Url -> option Z;
}.

(** A MongoDB database: every operation can fail. *)
Class Mongo := {
  Db : Type;
  (** What a cursor yields for the documents of a collection that pass a
      filter, in order: reading one may fail. *)
  db_find : string -> Filter -> Db -> option (list (option Bson)) * Db;
  db_find_one : string -> Filter -> Db -> option (option Bson) * Db;
  db_insert_one : string -> Bson -> Db -> bool * Db;
  db_delete_one : string -> Filter -> Db -> option Z * Db;
  db_delete_many : string -> Filter -> Db -> bool * Db;
  db_drop : string -> Db -> bool * Db;
}.

(** ** Fields *)

(** The operator [?] on options. *)
Local Notation "x <-? o ; k" := (match o with Some x => k | None => None end)
  (at level 100, o at level 90, k at level 200, right associativity, only parsing).

Module Bson.
Definition field (k : string) (b : Bson) : option Bson :=
  match b with BDocument fs => assoc k fs | _ => None end.
(** The field, read. *)
Definition get {A} (k : string) (f : Bson -> option A) (b : Bson) : option A :=
  match field k b with Some v => f v | None => None end.
Definition string_of (b : Bson) : option string := match b with BString s => Some s | _ => None end.
Fixpoint map_option {A B} (f : A -> option B) (l : list A) : option (list B) :=
  match l with
  | [] => Some []
  | x :: l' => match f x, map_option f l' with Some y, Some ys => Some (y :: ys) | _, _ => None end
  end.
Definition array_of {A} (f : Bson -> option A) (b : Bson) : option (list A) :=
  match b with BArray l => map_option f l | _ => None end.

Definition of_label (l : Label) : Bson := BString (Label.to_string l).
Definition to_label (b : Bson) : option Label :=
  match b with BString s => result_ok (Label.from_str s) | _ => None end.

Definition of_option {A} (f : A -> Bson) (o : option A) : Bson := match o with Some a => f a | None => BNull end.
(** A field of type [Option]: absent and null are both [None]. *)
Definition option_field {A} (f : Bson -> option A) (k : string) (b : Bson) : option (option A) :=
  match field k b with
  | None | Some BNull => Some None
  | Some v => match f v with Some a => Some (Some a) | None => None end
  end.

Definition of_labels (ls : BTreeSet Label) : Bson := BArray (map of_label ls).
Definition to_labels (b : Bson) : option (BTreeSet Label) :=
  ls <-? array_of to_label b; Some (BTreeSet.extend [] ls).

(** The unit value of a phantom field. *)
Definition null_of (b : Bson) : option unit := match b with BNull => Some tt | _ => None end.
End Bson.

(** ** Identities and policies *)

(** A 16-bit port travels as a double. *)
Module port_serde.
Definition serialize (x : option Z) : Bson :=
  match x with Some p => BDouble p | None => BNull end.
Definition deserialize (b : Bson) : option (option Z) :=
  match b with
  | BNull => Some None
  | BDouble n => if ((0 <=? n) && (n <=? 65535))%Z then Some (Some n) else None
  | _ => None
  end.
End port_serde.

Module IDBson.
Section serde.
Context `{Serde}.
Definition to_bson (i : ID) : Bson :=
  BDocument [("hosts", BArray (map BString (hosts i)));
             ("ips", BArray (map (fun a => BString (ip_to_string a)) (ips i)));
             ("port", port_serde.serialize (port i));
             ("labels", Bson.of_labels (labels i));
             ("phantom", BNull)].
Definition of_bson (b : Bson) : option ID :=
  hs <-? Bson.get "hosts" (Bson.array_of Bson.string_of) b;
  addrs <-? Bson.get "ips" (Bson.array_of (fun v => s <-? Bson.string_of v; ip_of_string s)) b;
  p <-? match Bson.field "port" b with None => Some None | Some v => port_serde.deserialize v end;
  ls <-? Bson.get "labels" Bson.to_labels b;
  _ <-? Bson.get "phantom" Bson.null_of b;
  Some (mkID (BTreeSet.extend [] hs) (BTreeSet.extend [] addrs) p ls).
End serde.
End IDBson.

Module Protocols.
Definition to_string (p : Protocol) : string := match p with HTTP => "HTTP" | TCP => "TCP" end.
Definition from_str (s : string) : option Protocol :=
  if s =? "HTTP" then Some HTTP else if s =? "TCP" then Some TCP else None.
End Protocols.

(** A map from the names of the protocols to their policies in bincode. *)
Module PoliciesBson.
Section policies.
Context {P : Type}.

Definition serialize (to_bincode : P -> option string) (ps : BTreeMap Protocol P) : option Bson :=
  fs <-? Bson.map_option (fun kv : Protocol * P => s <-? to_bincode kv.2; Some (Protocols.to_string kv.1, BString s)) ps;
  Some (BDocument fs).

(** [visit_map] *)
Fixpoint visit_map (from_bincode : string -> option P) (fs : list (string * Bson)) (map : BTreeMap Protocol P)
    : option (BTreeMap Protocol P) :=
  match fs with
  | [] => Some map
  | (k, v) :: fs' =>
    proto <-? Protocols.from_str k;
    bincode_policy <-? Bson.string_of v;
    policy <-? from_bincode bincode_policy;
    visit_map from_bincode fs' (BTreeMap.insert proto policy map)
  end.
Definition deserialize (from_bincode : string -> option P) (b : Bson) : option (BTreeMap Protocol P) :=
  match b with BDocument fs => visit_map from_bincode fs [] | _ => None end.
End policies.
End PoliciesBson.

(** ** Requests *)

Definition LabelMap := BTreeMap string (BTreeSet Label).

Section requests.
Context `{Serde}.

Record OnboardHostRequest := mkOnboardHost { oh_host : Url; oh_label : Label; oh_credentials : string }.
Record OnboardServiceRequest := mkOnboardService {
  os_service : Label; os_host : Label; os_tmp_dpid : option ID; os_credentials : string }.
(** What is stored of an onboarded service. *)
Record POnboardServiceRequest := mkPOnboardService { ps_service : Label; ps_service_id : ID; ps_host : Label }.
Record PolicyUpdateRequest := mkPolicyUpdate { pu_label : Label; pu_policy : DPPolicies; pu_labels : LabelMap }.
Record CPPolicyUpdateRequest := mkCPPolicyUpdate {
  cu_label : Label; cu_policy : GlobalPolicies; cu_labels : LabelMap; cu_selector : option Label }.
Record OnboardingUpdateRequest := mkOnboardingUpdate {
  ou_label : Label; ou_policy : GlobalPolicy; ou_labels : LabelMap }.
End requests.

Module LabelMapBson.
Definition of_map (m : LabelMap) : Bson := BDocument (map (fun kv => (kv.1, Bson.of_labels kv.2)) m).
Definition to_map (b : Bson) : option LabelMap :=
  match b with
  | BDocument fs =>
    l <-? Bson.map_option (fun kv : string * Bson => v <-? Bson.to_labels kv.2; Some (kv.1, v)) fs;
    Some (BTreeMap.collect l)
  | _ => None
  end.
End LabelMapBson.

Module OnboardHostRequest.
Section serde.
Context `{Serde}.
Definition to_bson (r : OnboardHostRequest) : Bson :=
  BDocument [("host", BString (url_to_string (oh_host r))); ("label", Bson.of_label (oh_label r));
             ("credentials", BString (oh_credentials r))].
Definition of_bson (b : Bson) : option OnboardHostRequest :=
  h <-? Bson.get "host" Bson.string_of b; h <-? url_of_string h;
  l <-? Bson.get "label" Bson.to_label b;
  c <-? Bson.get "credentials" Bson.string_of b;
  Some (mkOnboardHost h l c).
End serde.
End OnboardHostRequest.

Module OnboardServiceRequest.
Section serde.
Context `{Serde}.
Definition of_bson (b : Bson) : option OnboardServiceRequest :=
  s <-? Bson.get "service" Bson.to_label b;
  h <-? Bson.get "host" Bson.to_label b;
  i <-? Bson.option_field IDBson.of_bson "tmp_dpid" b;
  c <-? Bson.get "credentials" Bson.string_of b;
  Some (mkOnboardService s h i c).
End serde.
End OnboardServiceRequest.

Module POnboardServiceRequest.
Section serde.
Context `{Serde}.
Definition to_bson (r : POnboardServiceRequest) : Bson :=
  BDocument [("service", Bson.of_label (ps_service r)); ("service_id", IDBson.to_bson (ps_service_id r));
             ("host", Bson.of_label (ps_host r))].
Definition of_bson (b : Bson) : option POnboardServiceRequest :=
  s <-? Bson.get "service" Bson.to_label b;
  i <-? Bson.get "service_id" IDBson.of_bson b;
  h <-? Bson.get "host" Bson.to_label b;
  Some (mkPOnboardService s i h).
End serde.
End POnboardServiceRequest.

Module PolicyUpdateRequest.
Section serde.
Context `{Serde}.
Definition to_bson (r : PolicyUpdateRequest) : option Bson :=
  p <-? PoliciesBson.serialize dp_to_bincode (pu_policy r);
  Some (BDocument [("label", Bson.of_label (pu_label r)); ("policy", p); ("labels", LabelMapBson.of_map (pu_labels r))]).
Definition of_bson (b : Bson) : option PolicyUpdateRequest :=
  l <-? Bson.get "label" Bson.to_label b;
  p <-? Bson.get "policy" (PoliciesBson.deserialize dp_of_bincode) b;
  m <-? Bson.get "labels" LabelMapBson.to_map b;
  Some (mkPolicyUpdate l p m).
End serde.
End PolicyUpdateRequest.

Module CPPolicyUpdateRequest.
Section serde.
Context `{Serde}.
Definition to_bson (r : CPPolicyUpdateRequest) : option Bson :=
  p <-? PoliciesBson.serialize cp_to_bincode (cu_policy r);
  Some (BDocument [("label", Bson.of_label (cu_label r)); ("policy", p); ("labels", LabelMapBson.of_map (cu_labels r));
                   ("selector", Bson.of_option Bson.of_label (cu_selector r))]).
Definition of_bson (b : Bson) : option CPPolicyUpdateRequest :=
  l <-? Bson.get "label" Bson.to_label b;
  p <-? Bson.get "policy" (PoliciesBson.deserialize cp_of_bincode) b;
  m <-? Bson.get "labels" LabelMapBson.to_map b;
  s <-? Bson.option_field Bson.to_label "selector" b;
  Some (mkCPPolicyUpdate l p m s).
End serde.
End CPPolicyUpdateRequest.

Module OnboardingUpdateRequest.
(** The onboarding policy travels as the policy of HTTP. *)
Definition pack (r : OnboardingUpdateRequest) : CPPolicyUpdateRequest :=
  mkCPPolicyUpdate (ou_label r) (Policies.insert HTTP (ou_policy r) Policies.new) (ou_labels r) None.
Definition unpack (p : CPPolicyUpdateRequest) : Outcome OnboardingUpdateRequest :=
  pol ← unwrap (Policies.policy (cu_policy p) HTTP);
  mret (mkOnboardingUpdate (cu_label p) pol (cu_labels p)).
End OnboardingUpdateRequest.

Definition onboarding_policy_label : Label := [Str "onboarding_policy"].
Definition global_policy_label : Label := [Str "global_policy"].

Definition HOSTS_COL : string := "hosts".
Definition SERVICES_COL : string := "services".
Definition POLICIES_COL : string := "policies".

(** ** Operations of the database, as computations *)
Module Col.
Section col.
Context `{Mongo}.

(** [col.op(..).await.on_err(msg)?] *)
Definition find (col : string) (f : Filter) (msg : string) : Comp Db (list (option Bson)) := fun db =>
  match db_find col f db with
  | (Some ds, db) => (Val ds, db)
  | (None, db) => (Fail (error_new msg), db)
  end.

(** [if let Ok(Some(doc)) = col.find_one(..).await] *)
Definition find_one (col : string) (f : Filter) : Comp Db (option Bson) := fun db =>
  match db_find_one col f db with
  | (Some o, db) => (Val o, db)
  | (None, db) => (Val None, db)
  end.

(** [col.find_one(..).await.on_err(msg)?] *)
Definition find_one_on_err (col : string) (f : Filter) (msg : string) : Comp Db (option Bson) := fun db =>
  match db_find_one col f db with
  | (Some o, db) => (Val o, db)
  | (None, db) => (Fail (error_new msg), db)
  end.

Definition insert_one (col : string) (d : Bson) (msg : string) : Comp Db unit := fun db =>
  let '(ok, db) := db_insert_one col d db in (if ok : bool then Val tt else Fail (error_new msg), db).
Definition delete_one (col : string) (f : Filter) (msg : string) : Comp Db Z := fun db =>
  match db_delete_one col f db with
  | (Some n, db) => (Val n, db)
  | (None, db) => (Fail (error_new msg), db)
  end.
Definition delete_many (col : string) (f : Filter) (msg : string) : Comp Db unit := fun db =>
  let '(ok, db) := db_delete_many col f db in (if ok : bool then Val tt else Fail (error_new msg), db).
Definition drop (col : string) : Comp Db bool := fun db =>
  let '(ok, db) := db_drop col db in (Val ok, db).

(** [present]: also when the document cannot be read. *)
Definition present (col : string) (f : Filter) : Comp Db bool :=
  ds ← find col f "MongoDB query error"; mret (match ds with [] => false | _ => true end).
End col.
End Col.

(** ** Laws *)

(** Reading gives back what was written. *)
Class SerdeLaws `{Serde} := {
  dp_bincode_roundtrip (p : DPPolicy) s : dp_to_bincode p = Some s -> dp_of_bincode s = Some p;
  cp_bincode_roundtrip (p : GlobalPolicy) s : cp_to_bincode p = Some s -> cp_of_bincode s = Some p;
  ip_roundtrip a : ip_of_string (ip_to_string a) = Some a;
  url_roundtrip u : url_of_string (url_to_string u) = Some u;
}.

(** The documents of the collections, in no order.  An operation that fails
    may have been carried out in part. *)
Class MongoModel `{Mongo} := {
  db_docs : string -> Db -> list Bson;
  doc_matches : Filter -> Bson -> bool;
  find_spec col f db r db' : db_find col f db = (r, db') ->
    (forall c, db_docs c db' ≡ₚ db_docs c db) /\
    (forall rs, r = Some rs -> exists ds, ds ≡ₚ filter (fun d => doc_matches f d = true) (db_docs col db) /\
       Forall2 (fun r d => r = Some d \/ r = None) rs ds);
  find_one_spec col f db r db' : db_find_one col f db = (r, db') ->
    (forall c, db_docs c db' ≡ₚ db_docs c db) /\
    (forall d, r = Some (Some d) -> d ∈ db_docs col db /\ doc_matches f d = true) /\
    (r = Some None -> Forall (fun d => doc_matches f d = false) (db_docs col db));
  insert_spec col d db ok db' : db_insert_one col d db = (ok, db') ->
    (forall c, c <> col -> db_docs c db' ≡ₚ db_docs c db) /\
    (db_docs col db' ≡ₚ d :: db_docs col db \/ ok = false /\ db_docs col db' ≡ₚ db_docs col db);
  delete_one_spec col f db n db' : db_delete_one col f db = (n, db') ->
    (forall c, c <> col -> db_docs c db' ≡ₚ db_docs c db) /\
    exists ds, db_docs col db ≡ₚ ds ++ db_docs col db' /\ length ds <= 1 /\
      Forall (fun d => doc_matches f d = true) ds /\ (forall k, n = Some k -> k = Z.of_nat (length ds));
  delete_many_spec col f db ok db' : db_delete_many col f db = (ok, db') ->
    (forall c, c <> col -> db_docs c db' ≡ₚ db_docs c db) /\
    (exists ds, db_docs col db ≡ₚ ds ++ db_docs col db' /\ Forall (fun d => doc_matches f d = true) ds) /\
    (ok = true -> Forall (fun d => doc_matches f d = false) (db_docs col db'));
  drop_spec col db ok db' : db_drop col db = (ok, db') ->
    (forall c, c <> col -> db_docs c db' ≡ₚ db_docs c db) /\
    (exists ds, db_docs col db ≡ₚ ds ++ db_docs col db') /\ (ok = true -> db_docs col db' = []);
  matches_nothing d : doc_matches [] d = true;
  (** A field that is no array is compared with the value. *)
  matches_string k s t d : free_of "." k = true ->
    Bson.field k d = Some (BString t) -> doc_matches [(k, BString s)] d = (t =? s);
  matches_document k s fs d : free_of "." k = true ->
    Bson.field k d = Some (BDocument fs) -> doc_matches [(k, BString s)] d = false;
}.

(** ** A concrete serialization *)

(** Policies without a program that decide on one function. *)
Definition test_to_bincode {FT FL} (p : Policy FT FL) : option string :=
  match p with
  | mkPolicy (mkProgram [] (mkExternals [] 3) []) [(f, Allow)] => Some (String "A" f)
  | mkPolicy (mkProgram [] (mkExternals [] 3) []) [(f, Deny)] => Some (String "D" f)
  | _ => None
  end.
Definition test_of_bincode {FT FL} (s : string) : option (Policy FT FL) :=
  match s with
  | String c f => Some (mkPolicy (mkProgram [] Externals.default []) [(f, if Ascii.eqb c "A" then Allow else Deny)])
  | EmptyString => None
  end.

Fixpoint test_of_positive (p : positive) : string :=
  match p with xH => "" | xO p => String "0" (test_of_positive p) | xI p => String "1" (test_of_positive p) end.
Fixpoint test_to_positive (s : string) : positive :=
  match s with
  | EmptyString => xH
  | String c s => (if Ascii.eqb c "0" then xO else xI) (test_to_positive s)
  end.
Definition test_of_Z (z : Z) : string :=
  match z with Z0 => "" | Zpos p => String "+" (test_of_positive p) | Zneg p => String "-" (test_of_positive p) end.
Definition test_to_Z (s : string) : Z :=
  match s with
  | EmptyString => Z0
  | String c s => (if Ascii.eqb c "+" then Zpos else Zneg) (test_to_positive s)
  end.

#[export] Instance test_serde : Serde := {
  dp_to_bincode := test_to_bincode;
  dp_of_bincode := test_of_bincode;
  cp_to_bincode := test_to_bincode;
  cp_of_bincode := test_of_bincode;
  ip_to_string a := match a with V4 n => String "4" (test_of_Z n) | V6 n => String "6" (test_of_Z n) end;
  ip_of_string s :=
    match s with
    | String c s => Some ((if Ascii.eqb c "4" then V4 else V6) (test_to_Z s))
    | EmptyString => None
    end;
  Url := string;
  url_to_string u := u;
  url_of_string := Some;
  url_host_str := Some;
  url_port _ := None;
}.

Lemma test_positive_roundtrip p : test_to_positive (test_of_positive p) = p.
Proof. induction p; simpl; by rewrite ?IHp. Qed.
Lemma test_Z_roundtrip z : test_to_Z (test_of_Z z) = z.
Proof. destruct z; simpl; by rewrite ?test_positive_roundtrip. Qed.
Lemma test_bincode_roundtrip {FT FL} (p : Policy FT FL) s : test_to_bincode p = Some s -> test_of_bincode s = Some p.
Proof.
  destruct p as [[[] [[] t] []] fns]; simpl; intros Hp; repeat case_match; try done; by simplify_eq.
Qed.

#[export] Instance test_serde_laws : SerdeLaws.
Proof.
  split.
  - apply test_bincode_roundtrip.
  - apply test_bincode_roundtrip.
  - intros []; simpl; by rewrite test_Z_roundtrip.
  - done.
Qed.

(** ** A concrete database: collections of documents in memory *)
Module TestMongo.
Fixpoint eqb (a b : Bson) : bool :=
  let fix arrays (l m : list Bson) : bool :=
    match l, m with
    | [], [] => true
    | x :: l, y :: m => eqb x y && arrays l m
    | _, _ => false
    end in
  let fix documents (l m : list (string * Bson)) : bool :=
    match l, m with
    | [], [] => true
    | (k, x) :: l, (k', y) :: m => (k =? k') && eqb x y && documents l m
    | _, _ => false
    end in
  match a, b with
  | BNull, BNull => true
  | BString s, BString t => s =? t
  | BDouble n, BDouble m => (n =? m)%Z
  | BArray l, BArray m => arrays l m
  | BDocument l, BDocument m => documents l m
  | _, _ => false
  end.

(** The value at a path; a path into an array is one into its elements. *)
Fixpoint at_path (path : list string) (b : Bson) : list Bson :=
  match path with
  | [] => [b]
  | k :: path' => match Bson.field k b with Some v => at_path path' v | None => [] end
  end.
Definition value_matches (v b : Bson) : bool :=
  eqb b v || match b with BArray l => existsb (fun x => eqb x v) l | _ => false end.
Definition doc_matches (f : Filter) (d : Bson) : bool :=
  forallb (fun kv => existsb (value_matches kv.2) (at_path (split "." kv.1) d)) f.

Fixpoint remove_first {A} (p : A -> bool) (l : list A) : list A :=
  match l with [] => [] | x :: l' => if p x then l' else x :: remove_first p l' end.

Definition Collections := string -> list Bson.
Definition set (col : string) (ds : list Bson) (db : Collections) : Collections :=
  fun c => if c =? col then ds else db c.
End TestMongo.

#[export] Instance test_mongo : Mongo := {
  Db := TestMongo.Collections;
  db_find col f db := (Some (map Some (filter (fun d => TestMongo.doc_matches f d = true) (db col))), db);
  db_find_one col f db := (Some (List.find (TestMongo.doc_matches f) (db col)), db);
  db_insert_one col d db := (true, TestMongo.set col (d :: db col) db);
  db_delete_one col f db :=
    (Some (if existsb (TestMongo.doc_matches f) (db col) then 1%Z else 0%Z),
     TestMongo.set col (TestMongo.remove_first (TestMongo.doc_matches f) (db col)) db);
  db_delete_many col f db :=
    (true, TestMongo.set col (filter (fun d => TestMongo.doc_matches f d = false) (db col)) db);
  db_drop col db := (true, TestMongo.set col [] db);
}.
