(* ===== verification/StateTheory.v ===== *)
(** * Round trips of the documents of the control plane

    What is written of a well-formed request is read back, given that the
    formats of libraries do so ([ControlState.SerdeLaws]). *)

From Stdlib Require Import ZArith Lia String Ascii List.
From stdpp Require Import base tactics list strings sets.
From S2P Require Import Prelude.
From S2P Require Import Ordered.
From S2P Require Import Strings.
From S2P Require Import Labels.
From S2P Require Import Syntax.
From S2P Require Import Types.
From S2P Require Import Net.
From S2P Require Import Literals.
From S2P Require Import FnHeaders.
From S2P Require Import Expressions.
From S2P Require Import Externals.
From S2P Require Import Lang.
From S2P Require Import Policies.
From S2P Require Import ControlLiterals.
From S2P Require Import ControlState.

Local Open Scope string_scope.
Local Open Scope list_scope.

(** ** Well-formed requests: their labels can be read, their maps and sets are ordered *)
Definition valid_label (l : Label) : Prop := l <> [] /\ Forall (fun n => valid_node n = true) l.
Definition valid_labels (ls : BTreeSet Label) : Prop := BTreeSet.wf ls /\ Forall valid_label ls.
Definition valid_map (m : LabelMap) : Prop := BTreeMap.wf m /\ Forall (fun kv => valid_labels kv.2) m.
Definition valid_id (i : ID) : Prop :=
  BTreeSet.wf (hosts i) /\ BTreeSet.wf (ips i) /\ valid_labels (labels i) /\
  match port i with Some p => (0 <= p <= 65535)%Z | None => True end.

Lemma map_option_map {A B} (f : B -> option A) (g : A -> B) l :
  Forall (fun a => f (g a) = Some a) l -> Bson.map_option f (map g l) = Some l.
Proof. induction 1 as [|a l Ha _ IH]; simpl; [done|]. by rewrite Ha, IH. Qed.

Lemma extend_id {A} `{OrdLaws A} (s : BTreeSet A) : BTreeSet.wf s -> BTreeSet.extend [] s = s.
Proof.
  intros Hs. apply BTreeSet.set_ext; [apply BTreeSet.wf_extend; constructor|done|].
  intros x. rewrite BTreeSet.elem_extend. set_solver.
Qed.

Lemma label_roundtrip l : valid_label l -> Bson.to_label (Bson.of_label l) = Some l.
Proof. intros [Hn Hv]. unfold Bson.to_label, Bson.of_label. by rewrite label_from_to_string. Qed.

Lemma labels_roundtrip ls : valid_labels ls -> Bson.to_labels (Bson.of_labels ls) = Some ls.
Proof.
  intros [Hw Hv]. unfold Bson.to_labels, Bson.of_labels, Bson.array_of. rewrite map_option_map.
  - by rewrite extend_id.
  - eapply Forall_impl; [exact Hv|]. apply label_roundtrip.
Qed.

Lemma map_roundtrip m : valid_map m -> LabelMapBson.to_map (LabelMapBson.of_map m) = Some m.
Proof.
  intros [Hw Hv]. unfold LabelMapBson.to_map, LabelMapBson.of_map. rewrite map_option_map.
  - by rewrite BTreeMap.collect_id.
  - eapply Forall_impl; [exact Hv|]. intros [k v] Hkv. simpl in *. by rewrite labels_roundtrip.
Qed.

Section serde.
Context `{SerdeLaws}.

Lemma id_roundtrip i : valid_id i -> IDBson.of_bson (IDBson.to_bson i) = Some i.
Proof.
  intros (Hh & Ha & Hl & Hp). unfold IDBson.of_bson, IDBson.to_bson, Bson.get. cbn [Bson.field assoc String.eqb Ascii.eqb Bool.eqb].
  unfold Bson.array_of. rewrite map_option_map by (by apply List.Forall_forall).
  rewrite (map_option_map _ (fun a => BString (ip_to_string a))) by (apply List.Forall_forall; intros; apply ip_roundtrip).
  assert (port_serde.deserialize (port_serde.serialize (port i)) = Some (port i)) as ->.
  { destruct (port i) as [p|]; simpl; [|done]. case_match eqn:E; [done|].
    apply andb_false_iff in E. destruct E as [E|E]; apply Z.leb_gt in E; lia. }
  rewrite labels_roundtrip by done. simpl. rewrite !extend_id by done. by destruct i.
Qed.

Lemma to_string_from_str p : Protocols.from_str (Protocols.to_string p) = Some p.
Proof. by destruct p. Qed.

(** The policies of a request, in bincode. *)
Lemma policies_roundtrip {P} (enc : P -> option string) dec (ps : BTreeMap Protocol P) b :
  (forall p s, enc p = Some s -> dec s = Some p) -> BTreeMap.wf ps ->
  PoliciesBson.serialize enc ps = Some b -> PoliciesBson.deserialize dec b = Some ps.
Proof.
  intros Hd Hw. unfold PoliciesBson.serialize. destruct (Bson.map_option _ ps) as [fs|] eqn:E; [|done].
  intros; simplify_eq. simpl.
  assert (forall m, PoliciesBson.visit_map dec fs m = Some (foldl (fun m kv => BTreeMap.insert kv.1 kv.2 m) m ps)) as ->.
  { clear Hw. revert fs E. induction ps as [|[k p] ps IH]; intros fs E m; simpl in E; [by simplify_eq|].
    destruct (enc p) as [s|] eqn:Es; [|done]. destruct (Bson.map_option _ ps) as [fs'|]; [|done]. simplify_eq.
    cbn [PoliciesBson.visit_map]. rewrite to_string_from_str. simpl. rewrite (Hd _ _ Es). by apply IH. }
  exact (f_equal Some (BTreeMap.collect_id ps Hw)).
Qed.

(** ** Requests *)

Lemma host_request_roundtrip r : valid_label (oh_label r) ->
  OnboardHostRequest.of_bson (OnboardHostRequest.to_bson r) = Some r.
Proof.
  intros Hl. unfold OnboardHostRequest.of_bson, OnboardHostRequest.to_bson, Bson.get.
  cbn [Bson.field assoc String.eqb Ascii.eqb Bool.eqb Bson.string_of].
  rewrite url_roundtrip, label_roundtrip by done. by destruct r.
Qed.
Lemma service_request_roundtrip r : valid_label (ps_service r) -> valid_label (ps_host r) -> valid_id (ps_service_id r) ->
  POnboardServiceRequest.of_bson (POnboardServiceRequest.to_bson r) = Some r.
Proof.
  intros Hs Hh Hi. unfold POnboardServiceRequest.of_bson, POnboardServiceRequest.to_bson, Bson.get.
  cbn [Bson.field assoc String.eqb Ascii.eqb Bool.eqb].
  rewrite !label_roundtrip, id_roundtrip by done. by destruct r.
Qed.

Definition valid_policy_request (r : PolicyUpdateRequest) : Prop :=
  valid_label (pu_label r) /\ BTreeMap.wf (pu_policy r) /\ valid_map (pu_labels r).
Lemma policy_request_roundtrip r d : valid_policy_request r ->
  PolicyUpdateRequest.to_bson r = Some d -> PolicyUpdateRequest.of_bson d = Some r.
Proof.
  intros (Hl & Hp & Hm). unfold PolicyUpdateRequest.to_bson.
  destruct (PoliciesBson.serialize _ _) as [p|] eqn:E; [|done]. intros; simplify_eq.
  unfold PolicyUpdateRequest.of_bson, Bson.get. cbn [Bson.field assoc String.eqb Ascii.eqb Bool.eqb].
  rewrite label_roundtrip by done. rewrite (policies_roundtrip _ _ _ _ dp_bincode_roundtrip Hp E).
  rewrite map_roundtrip by done. by destruct r.
Qed.

Definition valid_cp_request (r : CPPolicyUpdateRequest) : Prop :=
  valid_label (cu_label r) /\ BTreeMap.wf (cu_policy r) /\ valid_map (cu_labels r) /\
  match cu_selector r with Some l => valid_label l | None => True end.
Lemma cp_request_roundtrip r d : valid_cp_request r ->
  CPPolicyUpdateRequest.to_bson r = Some d -> CPPolicyUpdateRequest.of_bson d = Some r.
Proof.
  intros (Hl & Hp & Hm & Hs). unfold CPPolicyUpdateRequest.to_bson.
  destruct (PoliciesBson.serialize _ _) as [p|] eqn:E; [|done]. intros; simplify_eq.
  unfold CPPolicyUpdateRequest.of_bson, Bson.get, Bson.option_field.
  cbn [Bson.field assoc String.eqb Ascii.eqb Bool.eqb].
  rewrite label_roundtrip by done. rewrite (policies_roundtrip _ _ _ _ cp_bincode_roundtrip Hp E).
  rewrite map_roundtrip by done. destruct r as [l p' m [s|]]; simpl in *; [|done].
  pose proof (label_roundtrip s Hs) as Hr. simpl in Hr. by rewrite Hr.
Qed.

(** An onboarding policy packs into a global policy and out of it. *)
Lemma pack_roundtrip r : OnboardingUpdateRequest.unpack (OnboardingUpdateRequest.pack r) = Val r.
Proof. by destruct r. Qed.
End serde.

(** ** The concrete database behaves as documented *)

Lemma set_same col ds (db : TestMongo.Collections) : TestMongo.set col ds db col = ds.
Proof. unfold TestMongo.set. by rewrite String.eqb_refl. Qed.
Lemma set_other col ds (db : TestMongo.Collections) c : c <> col -> TestMongo.set col ds db c ≡ₚ db c.
Proof. intros Hc. unfold TestMongo.set. apply String.eqb_neq in Hc. by rewrite Hc. Qed.

Lemma remove_first_spec (p : Bson -> bool) l : exists ds,
  l ≡ₚ ds ++ TestMongo.remove_first p l /\ Forall (fun d => p d = true) ds /\
  length ds = if existsb p l then 1 else 0.
Proof.
  induction l as [|x l (ds & Hp & Hf & Hl)]; simpl; [by exists []|]. destruct (p x) eqn:E.
  - exists [x]. simpl. auto.
  - exists ds. split_and!; [|done|done]. rewrite <- Permutation_middle. by constructor.
Qed.

Lemma filter_split (p : Bson -> bool) l :
  l ≡ₚ filter (fun d => p d = true) l ++ filter (fun d => p d = false) l.
Proof.
  induction l as [|x l IH]; [done|]. rewrite !filter_cons. destruct (p x); simpl.
  - by constructor.
  - rewrite <- Permutation_middle. by constructor.
Qed.

Lemma at_field k d v : free_of "." k = true -> Bson.field k d = Some v -> TestMongo.at_path (split "." k) d = [v].
Proof.
  intros Hk Hf. rewrite (split_join "." "" [k] : _ -> _ -> split "." k = [k]); [|done|by repeat constructor].
  simpl. by rewrite Hf.
Qed.

#[export] Instance test_mongo_model : @MongoModel test_mongo.
Proof.
  apply (@Build_MongoModel test_mongo (fun col (db : TestMongo.Collections) => db col) TestMongo.doc_matches).
  - intros col f db r db' E. injection E as <- <-. split; [done|]. intros rs E. simplify_eq. eexists. split; [done|].
    induction (filter _ _); simpl; constructor; auto.
  - intros col f db r db' E. injection E as <- <-. split; [done|]. split.
    + intros d Hd. injection Hd as Hd. apply find_some in Hd as [Hin Hm]. by rewrite list_elem_of_In.
    + intros Hn. injection Hn as Hn. apply Forall_forall. intros d Hd. apply (find_none _ _ Hn). by rewrite <- list_elem_of_In.
  - intros col d db ok db' E. injection E as <- <-. split; [apply set_other|]. left. by rewrite set_same.
  - intros col f db n db' E. injection E as <- <-. split; [apply set_other|]. rewrite set_same.
    destruct (remove_first_spec (TestMongo.doc_matches f) (db col)) as (ds & Hp & Hf & Hl).
    exists ds. split_and!; [done| |done|].
    + rewrite Hl. destruct (existsb _ _); lia.
    + intros k Hk. simplify_eq. rewrite Hl. by destruct (existsb _ _).
  - intros col f db ok db' E. injection E as <- <-. split; [apply set_other|]. rewrite set_same. split.
    + eexists. split; [apply filter_split|]. apply Forall_forall. intros d Hd. by apply list_elem_of_filter in Hd as [? _].
    + intros _. apply Forall_forall. intros d Hd. by apply list_elem_of_filter in Hd as [? _].
  - intros col db ok db' E. injection E as <- <-. split; [apply set_other|]. rewrite set_same. split; [|done].
    exists (db col). by rewrite app_nil_r.
  - done.
  - intros k s t d Hk Hf. unfold TestMongo.doc_matches. simpl. rewrite (at_field _ _ _ Hk Hf). simpl.
    unfold TestMongo.value_matches. simpl. by rewrite !orb_false_r, andb_true_r.
  - intros k s fs d Hk Hf. unfold TestMongo.doc_matches. simpl. by rewrite (at_field _ _ _ Hk Hf).
Defined.
