(* ===== verification/ControlInterpret.v ===== *)
(** * The evaluator of the control plane
    (src/src/armour-control/src/interpret.rs and policy.rs)

    Its builtins are those of control-plane literals, and builtins that read
    and write the database: the onboarding of services, and the compilation
    of the stored global policy for a service.  Compilation evaluates
    builtins in turn, so that [eval_call] recurs through the specialiser; the
    fuel bounds that recursion and the one of partial evaluation.  Onboarding
    policies are evaluated with it. *)

From Stdlib Require Import ZArith Lia String Ascii List.
From stdpp Require Import base tactics list strings sets.
From S2P Require Import Prelude.
From S2P Require Import Ordered.
From S2P Require Import Strings.
From S2P Require Import Labels.
From S2P Require Import Syntax.
From S2P Require Import Types.
From S2P Require Import Net.
From S2P Require Import Literals.
From S2P Require Import Ast.
From S2P Require Import FnHeaders.
From S2P Require Import Expressions.
From S2P Require Import Interpret.
From S2P Require Import TypeCheck.
From S2P Require Import Meta.
From S2P Require Import Eval.
From S2P Require Import Externals.
From S2P Require Import Lang.
From S2P Require Import Policies.
From S2P Require Import ControlLiterals.
From S2P Require Import Specialize.
From S2P Require Import ControlState.

Local Open Scope string_scope.
Local Open Scope list_scope.

(** ** Remote calls with literals of the control plane *)

Module CPExternals.
Section build.
Variable regex_to_string : PolicyRegex -> string.

(** [build_value]: a literal that only the control plane has is converted to
    itself and built again. *)
Fixpoint build_value (fuel : nat) (lit : CPLiteral) : option Value :=
  match fuel with
  | O => None
  | S n =>
    match lit with
    | FlatLit (LDP l) => TExternals.build_value regex_to_string (TExternals.depth (FlatLit l)) (FlatLit l)
    | FlatLit fl => build_value n (FlatLit fl)
    | LTuple ts => option_map VTuple (Bson.map_option (build_value n) ts)
    | LList ts => option_map VList (Bson.map_option (build_value n) ts)
    end
  end.

(** The nesting of lists and tuples. *)
Fixpoint depth (lit : CPLiteral) : nat :=
  match lit with
  | FlatLit _ => 1
  | LTuple ts | LList ts => S (foldr (fun t n => Nat.max (depth t) n) 0 ts)
  end.

Context {Net : Type}.
Variable network : Z -> string -> string -> list Value -> Net -> result Reader Error * Net.

Definition call (externals : Externals) (c : Call CPFlatLiteral) (net : Net) : Outcome CPExpr * Net :=
  match BTreeMap.get (sockets externals) (call_external c) with
  | Some socket =>
    match Bson.map_option (fun a => build_value (depth a) a) (call_args c) with
    | None => (OutOfFuel, net)
    | Some args =>
      let '(r, net) := network (timeout externals) socket (call_method c) args net in
      (v ← try r; lit ← try (TExternals.read_value v); Val (LitExpr lit), net)
    end
  | None =>
    (Fail (mkError "failed to get external: {}" [call_external c ^^ "::" ^^ call_method c]), net)
  end.
End build.

(** Literals whose atoms are those of the data plane. *)
Fixpoint sendable (lit : CPLiteral) : bool :=
  match lit with
  | FlatLit (LDP _) => true
  | FlatLit _ => false
  | LTuple ts | LList ts => forallb sendable ts
  end.

Lemma map_option_none {A B} (f : A -> option B) l x : In x l -> f x = None -> Bson.map_option f l = None.
Proof.
  intros Hin Hx. induction l as [|y l IH]; [done|]. simpl. destruct Hin as [->|Hin]; [by rewrite Hx|].
  rewrite (IH Hin). by destruct (f y).
Qed.
Lemma map_option_some {A B} (f : A -> option B) l : (forall x, In x l -> exists y, f x = Some y) ->
  exists ys, Bson.map_option f l = Some ys.
Proof.
  induction l as [|x l IH]; intros Hl; [by exists []|]. simpl. destruct (Hl x) as [y ->]; [by left|].
  destruct IH as [ys ->]; [intros; apply Hl; by right|]. by eexists.
Qed.

Lemma build_sendable regex_to_string n lit :
  sendable lit = true -> depth lit <= n -> exists v, build_value regex_to_string n lit = Some v.
Proof.
  revert lit. induction n as [|n IH]; intros lit Hs Hd; [destruct lit; simpl in Hd; lia|].
  assert (forall ts, forallb sendable ts = true -> S (foldr (fun t n => Nat.max (depth t) n) 0 ts) <= S n ->
            exists vs, Bson.map_option (build_value regex_to_string n) ts = Some vs) as Hts.
  { intros ts Hts Hn. apply map_option_some. intros t Ht. apply IH; [by eapply forallb_forall in Hts|].
    apply le_S_n in Hn. clear -Ht Hn. induction ts as [|t' ts IHt]; [done|]. simpl in Hn.
    destruct Ht as [->|Ht]; [lia|]. apply IHt; [lia|done]. }
  destruct lit as [[]|ts|ts]; simpl in *; try done.
  - destruct (build_sends regex_to_string _ (FlatLit l) (le_n _)) as (v & l' & Hv & _). by exists v.
  - destruct (Hts ts Hs Hd) as [vs ->]. by eexists.
  - destruct (Hts ts Hs Hd) as [vs ->]. by eexists.
Qed.

(** The other literals of the control plane are never sent: credentials,
    onboarding data, policies and primitives are converted to themselves
    without end. *)
Theorem control_literals_sent regex_to_string (lit : CPLiteral) :
  if sendable lit then exists v, build_value regex_to_string (depth lit) lit = Some v
  else forall n, build_value regex_to_string n lit = None.
Proof.
  destruct (sendable lit) eqn:Hs; [by apply build_sendable|]. intros n. revert lit Hs.
  induction n as [|n IH]; intros lit Hs; [done|].
  assert (forall ts, forallb sendable ts = false -> Bson.map_option (build_value regex_to_string n) ts = None) as Hts.
  { intros ts Hts. assert (exists t, In t ts /\ sendable t = false) as (t & Ht & Hn).
    { clear -Hts. induction ts as [|t ts IHt]; [done|]. simpl in Hts. destruct (sendable t) eqn:E; [|exists t; split; [by left|done]].
      destruct (IHt Hts) as (t' & Ht & Hn). exists t'. split; [by right|done]. }
    eapply map_option_none; [exact Ht|by apply IH]. }
  destruct lit as [[]|ts|ts]; simpl in *; try done; try by apply IH.
  - by rewrite Hts.
  - by rewrite Hts.
Qed.
End CPExternals.

(** ** The world: the environment of an evaluation, and the database *)

Record CPWorld (Net DB : Type) := mkCPWorld {
  cw_externals : Externals;
  cw_meta : IngressEgress;
  cw_net : Net;
  cw_spawned : list (Call CPFlatLiteral);
  cw_db : DB;
}.
Arguments mkCPWorld {Net DB} cw_externals cw_meta cw_net cw_spawned cw_db.
Arguments cw_externals {Net DB} c.
Arguments cw_meta {Net DB} c.
Arguments cw_net {Net DB} c.
Arguments cw_spawned {Net DB} c.
Arguments cw_db {Net DB} c.

Section control.
Context `{Profile} `{Lib} `{Petgraph} `{Serde} `{Mongo} {Net : Type}.
Notation World := (CPWorld Net Db).

(** An operation on the database alone. *)
Definition on_db {A} (m : Comp Db A) : Comp World A := fun w =>
  let '(r, db) := m (cw_db w) in
  (r, mkCPWorld (cw_externals w) (cw_meta w) (cw_net w) (cw_spawned w) db).

(** [Label::from_str(s)?] *)
Definition label_of {W} (s : string) : Comp W Label :=
  match Label.from_str s with Ok l => mret l | Err e => fail e end.

(** [bson::from_bson(..).on_err("Bson conversion error")?] *)
Definition converted {W A} (o : option A) : Comp W A :=
  match o with Some a => mret a | None => fail (error_new "Bson conversion error") end.

(** ** Builtins over the database *)

Definition get_global_pol : Comp Db CPPolicyUpdateRequest :=
  o ← Col.find_one POLICIES_COL [("label", Bson.of_label global_policy_label)];
  match o with
  | Some doc => converted (CPPolicyUpdateRequest.of_bson doc)
  | None => mret (mkCPPolicyUpdate global_policy_label Policies.new [] None)
  end.

Definition new_ID (obd : OnboardingData) : Label :=
  Label.prefix (Label.concat (obd_host obd) (obd_service obd)) "ServiceID".

(** [ControlPlane::newID] *)
Definition new_id (obd : OnboardingData) : ID :=
  let id := mkID [] [] (obd_port obd) [] in
  let id := ID.add_label id (new_ID obd) in
  let id := ID.add_label id (Label.prefix (obd_service obd) "Service") in
  ID.add_label id (Label.prefix (obd_host obd) "Host").

Definition helper_onboarded (obd : OnboardingData) : Comp Db CPLiteral :=
  o ← Col.find_one SERVICES_COL [("service_id.labels", Bson.of_label (new_ID obd))];
  match o with
  | Some doc =>
    request ← converted (POnboardServiceRequest.of_bson doc);
    mret (Literal.some (Literal.id (ps_service_id request)))
  | None => mret Literal.none
  end.

(** The first label of an identity that a pattern matches. *)
Definition find_label_or (i : ID) (pattern msg : string) : Comp Db Label :=
  p ← label_of pattern;
  match ID.find_label i p with Some l => mret l | None => fail (error_new msg) end.

Definition helper_onboard (i : ID) : Comp Db CPLiteral :=
  host ← find_label_or i "Host::**" "Extracting host from id labels";
  service_id ← find_label_or i "ServiceID::**" "Extracting service from id labels";
  there ← Col.present SERVICES_COL [("service_id", Bson.of_label service_id)];
  if (there : bool) then mret (Literal.bool true)
  else
    _ ← Col.insert_one SERVICES_COL (POnboardServiceRequest.to_bson (mkPOnboardService service_id i host))
          "error inserting in MongoDB";
    mret (Literal.bool true).

(** ** Calls of builtins *)

Definition policy_lit (p : DPPolicies) : CPLiteral := FlatLit (LPolicy (LitPolicy.from_policies p)).
Definition primitive_lit (s : string) : CPLiteral := FlatLit (LPrimitive (mkPrimitive s)).

Definition literals0 : list (string * CPLiteral) :=
  [("allow_egress", policy_lit Policies.allow_egress);
   ("allow_ingress", policy_lit Policies.allow_ingress);
   ("Primitive::allow_rest_request", primitive_lit "allow_rest_request");
   ("Primitive::allow_rest_response", primitive_lit "allow_rest_response");
   ("Primitive::allow_tcp_connection", primitive_lit "allow_tcp_connection");
   ("deny_egress", policy_lit Policies.deny_egress);
   ("deny_ingress", policy_lit Policies.deny_ingress);
   ("Primitive::on_tcp_disconnect", primitive_lit "on_tcp_disconnect")].

Definition seval_call0 (f : string) : Outcome (option CPLiteral) :=
  match assoc f literals0 with
  | Some l => Val (Some l)
  | None => CPInterpret.eval_call0 f
  end.

Definition some_lit (m : Comp World CPLiteral) : Comp World (option CPLiteral) :=
  l ← m; mret (Some l).

Definition seval_call1 (self : CPLiteral) (f : string) : Comp World (option CPLiteral) :=
  match self with
  | FlatLit (LDP (LID service_id)) =>
    if f =? "ControlPlane::onboard" then some_lit (on_db (helper_onboard service_id))
    else lift (LitInterpret.eval_call1 self f)
  | FlatLit (LOnboardingData obd) =>
    if f =? "ControlPlane::onboarded" then some_lit (on_db (helper_onboarded obd))
    else if f =? "ControlPlane::newID" then mret (Some (Literal.id (new_id obd)))
    else lift (LitInterpret.eval_call1 self f)
  | _ => lift (LitInterpret.eval_call1 self f)
  end.

Definition seval_call3 (self : CPLiteral) (f : string) (l1 l2 : CPLiteral) : Outcome (option CPLiteral) :=
  LitInterpret.eval_call3 self f l1 l2.
Definition seval_call4 (self : CPLiteral) (f : string) (l1 l2 l3 : CPLiteral) : Outcome (option CPLiteral) :=
  LitInterpret.eval_call4 self f l1 l2 l3.

Variable regex_to_string : PolicyRegex -> string.
Variable network : Z -> string -> string -> list Value -> Net -> result Reader Error * Net.

Definition meta_send (c : Call CPFlatLiteral) : Comp World CPExpr := fun w =>
  let '(r, m) := IngressEgress.handle c (cw_meta w) in
  (try r, mkCPWorld (cw_externals w) m (cw_net w) (cw_spawned w) (cw_db w)).
Definition external_send (c : Call CPFlatLiteral) : Comp World CPExpr := fun w =>
  let '(r, net) := CPExternals.call regex_to_string network (cw_externals w) c (cw_net w) in
  (r, mkCPWorld (cw_externals w) (cw_meta w) net (cw_spawned w) (cw_db w)).
Definition external_spawn (c : Call CPFlatLiteral) : Comp World unit := fun w =>
  (Val tt, mkCPWorld (cw_externals w) (cw_meta w) (cw_net w) (cw_spawned w ++ [c]) (cw_db w)).

(** The interface of the evaluators, for an [eval_call]. *)
Definition interp_of (builtin : string -> list CPExpr -> Comp World CPExpr) : Interp CPFlatLiteral World := {|
  run_prefix := LitInterpret.eval_prefix;
  run_infix := LitInterpret.eval_infix;
  run_match := PatternMatch.perform_match;
  run_builtin := builtin;
  run_meta := meta_send;
  run_external := external_send;
  spawn_external := external_spawn;
|}.

Section eval_call.
(** [eval_call] as partial evaluation calls it, and the fuel of that. *)
Variable builtin : string -> list CPExpr -> Comp World CPExpr.
Variable fuel : nat.

Definition helper_compile (f_egress : bool) (function : string) (i : ID) : Comp World CPLiteral :=
  global_pol ← on_db get_global_pol;
  p ← Compile.compile_egress_ingress (H0 := interp_of builtin) fuel f_egress (cu_policy global_pol) function i;
  mret (policy_lit p).
Definition helper_compile_ingress : string -> ID -> Comp World CPLiteral := helper_compile false.
Definition helper_compile_egress : string -> ID -> Comp World CPLiteral := helper_compile true.

Definition seval_call2 (self : CPLiteral) (f : string) (other : CPLiteral) : Comp World (option CPLiteral) :=
  match self, other with
  | FlatLit (LPrimitive p), FlatLit (LDP (LID i)) =>
    if f =? "compile_ingress" then some_lit (helper_compile_ingress (prim_name p) i)
    else if f =? "compile_egress" then some_lit (helper_compile_egress (prim_name p) i)
    else lift (LitInterpret.eval_call2 self f other)
  | FlatLit (LOnboardingData _), FlatLit (LDP (LLabel _)) =>
    if f =? "verify_credentials" then mret (Some (Literal.bool true))
    else lift (LitInterpret.eval_call2 self f other)
  | _, _ => lift (LitInterpret.eval_call2 self f other)
  end.

Definition eval_call_with (function : string) (args : list CPExpr) : Comp World CPExpr :=
  let result (n : string) (m : Comp World (option CPLiteral)) : Comp World CPExpr :=
    r ← m; match r with Some l => mret (LitExpr l) | None => fail (LitInterpret.type_error n) end in
  match args with
  | [] => result "0" (lift (seval_call0 function))
  | [LitExpr l1] => result "1" (seval_call1 l1 function)
  | [LitExpr l1; LitExpr l2] => result "2" (seval_call2 l1 function l2)
  | [LitExpr l1; LitExpr l2; LitExpr l3] => result "3" (lift (seval_call3 l1 function l2 l3))
  | [LitExpr l1; LitExpr l2; LitExpr l3; LitExpr l4] => result "4" (lift (seval_call4 l1 function l2 l3 l4))
  | _ => fail (mkError "eval, call: {}: {:?}" [function])
  end.
End eval_call.

Fixpoint eval_call (fuel : nat) : string -> list CPExpr -> Comp World CPExpr :=
  eval_call_with (match fuel with O => fun _ _ => out_of_fuel | S n => eval_call n end) fuel.

#[export] Instance CP_Interp (fuel : nat) : Interp CPFlatLiteral World := interp_of (eval_call fuel).

Definition cp_compile (fuel : nat) (f_egress : bool) : GlobalPolicies -> string -> ID -> Comp World DPPolicies :=
  Compile.compile_egress_ingress (H0 := CP_Interp fuel) fuel f_egress.

(** ** Onboarding policies *)

Definition ONBOARDING_SERVICES : string := "onboarding_policy".
Definition ONBOARDING_SIG : Signature CPFlatTyp :=
  Signature.new [CPTyp.onboarding_data] CPTyp.onboarding_result.

Definition check_onboarding_header (prog : CPProgram) : Outcome unit :=
  match BTreeMap.get (headers prog) ONBOARDING_SERVICES with
  | None => Fail (error_new "onboarding_policy has no signature")
  | Some sig =>
    if Policy.type_check ONBOARDING_SERVICES sig ONBOARDING_SIG then Val tt
    else Fail (error_new "onboarding_policy has a wrong signature")
  end.

Definition onboard_from (prog : CPProgram) : Outcome GlobalPolicy :=
  _ ← check_onboarding_header prog; Val (mkPolicy prog []).
Definition onboard_inner_from (pre : PreProgram CPFlatTyp CPFlatLiteral) : Outcome GlobalPolicy :=
  onboard_from (PreProgram.to_program pre [ONBOARDING_SERVICES]).

(** [CPEnv::new]: an environment of its own, on the shared network and
    database. *)
Definition in_env {A} (prog : CPProgram) (m : Comp World A) : Comp World A := fun w =>
  let '(r, w') := m (mkCPWorld (externals prog) IngressEgress.default (cw_net w) (cw_spawned w) (cw_db w)) in
  (r, mkCPWorld (cw_externals w) (cw_meta w) (cw_net w') (cw_spawned w') (cw_db w')).

(** [OnboardingPolicy::evaluate] *)
Definition evaluate_onboarding (fuel : nat) (p : GlobalPolicy) (onboarding_data : CPExpr)
    : Comp World OnboardingResult :=
  r ← in_env (pol_program p)
        (Eval.evaluate (H2 := CP_Interp fuel) (code (pol_program p)) fuel
          (Expr.call ONBOARDING_SERVICES [onboarding_data]));
  match r with
  | LitExpr (FlatLit (LOnboardingResult r)) => mret r
  | LitExpr _ => fail (error_new "literal has wrong type")
  | _ => fail (error_new "did not evaluate to a literal")
  end.
End control.
