(* ===== verification/CompileTheory.v ===== *)
(** * Compiled policies decide as the global policy does

    A function of a global policy that is written in the pure fragment is
    specialised for a service and installed on a proxy.  There it answers on
    a message as the global function answers on the service, the other
    endpoint and the message: partial evaluation preserves the denotation
    ([SpecializeTheory]), the endpoint of the message is what replaces the
    argument that is not known, and the literals of the control plane that
    are the data plane's are operated on alike.  Outside of the fragment this
    fails, by the rules in the last section. *)

From Stdlib Require Import ZArith Lia String Ascii List.
From stdpp Require Import base tactics list strings sets.
From S2P Require Import Prelude.
From S2P Require Import Ordered.
From S2P Require Import Strings.
From S2P Require Import Labels.
From S2P Require Import Syntax.
From S2P Require Import Types.
From S2P Require Import Net.
From S2P Require Import Literals.
From S2P Require Import FnHeaders.
From S2P Require Import Expressions.
From S2P Require Import Interpret.
From S2P Require Import Meta.
From S2P Require Import Eval.
From S2P Require Import EvalTheory.
From S2P Require Import Externals.
From S2P Require Import DataPlane.
From S2P Require Import Lang.
From S2P Require Import Graphs.
From S2P Require Import Policies.
From S2P Require Import Equality.
From S2P Require Import ControlLiterals.
From S2P Require Import Specialize.
From S2P Require Import Pure.
From S2P Require Import SpecializeTheory.
From S2P Require Import ControlState.
From S2P Require Import ControlInterpret.

Local Open Scope string_scope.
Local Open Scope list_scope.

(** ** Literals of both planes *)

Notation dp_exact := (Exact.literal Exact.flat).
Notation from_dp := CPLiteral.from_dp.

Lemma map_outcome_map {A B} (f : A -> Outcome B) (g : B -> A) ls :
  Forall (fun l => f (g l) = Val l) ls -> CPTyp.map_outcome f (map g ls) = Val ls.
Proof. induction 1 as [|l ls Hl _ IH]; simpl; [done|]. by rewrite Hl, IH. Qed.

Lemma to_from_dp l : CPLiteral.to_dp (from_dp l) = Val l.
Proof.
  induction l as [x|l IH|l IH] using Literal_ind'; [done|..]; simpl;
    by rewrite (map_outcome_map _ from_dp _ IH).
Qed.

Lemma from_dp_eqb a b : Literal.eqb (from_dp a) (from_dp b) = Literal.eqb a b.
Proof.
  revert b. induction a as [x|l IH|l IH] using Literal_ind'; intros [y|l'|l']; simpl; try done;
    revert l'; induction IH as [|x l Hx _ IHl]; intros [|y l']; simpl; try done; by rewrite Hx, IHl.
Qed.

(** Exact literals are those of the data plane. *)
Lemma exact_from_dp l : cp_exact l = true <-> exists l', l = from_dp l' /\ dp_exact l' = true.
Proof.
  split; [|intros (l' & -> & Hl'); revert Hl'; induction l' as [x|l' IH|l' IH] using Literal_ind'; simpl; try done;
    induction IH as [|x l' Hx _ IHl]; simpl; [done| |done|]; intros [? ?]%andb_true_iff;
    apply andb_true_iff; split; auto].
  assert (forall ls : list CPLiteral,
    Forall (fun l => cp_exact l = true -> exists l', l = from_dp l' /\ dp_exact l' = true) ls ->
    forallb cp_exact ls = true -> exists ls', ls = map from_dp ls' /\ forallb dp_exact ls' = true) as Hall.
  { induction 1 as [|x ls Hx _ IHl]; simpl; [by exists []|]. intros [Ex Els]%andb_true_iff.
    destruct (Hx Ex) as (x' & -> & ?). destruct (IHl Els) as (ls' & -> & ?). exists (x' :: ls'). simpl.
    by split; [|apply andb_true_iff]. }
  induction l as [x|l IH|l IH] using Literal_ind'; simpl.
  - intros Hx. destruct x as [|x| | | |]; try done. by exists (FlatLit x).
  - intros Hl. destruct (Hall l IH Hl) as (ls' & -> & ?). by exists (LList ls').
  - intros Hl. destruct (Hall l IH Hl) as (ls' & -> & ?). by exists (LTuple ls').
Qed.

Lemma exact_all_from_dp ls :
  Forall (fun l => cp_exact l = true) ls <->
  exists ls', ls = map from_dp ls' /\ Forall (fun l => dp_exact l = true) ls'.
Proof.
  split.
  - induction 1 as [|l ls Hl _ (ls' & -> & IH)]; [by exists []|].
    apply exact_from_dp in Hl as (l' & -> & ?). exists (l' :: ls'). by split; [|constructor].
  - intros (ls' & -> & Hls). induction Hls; simpl; constructor; [|done]. apply exact_from_dp. eauto.
Qed.

Lemma from_dp_inj : Inj (=) (=) from_dp.
Proof. intros a b Hab. assert (Val a = Val b) as Hv; [|by simplify_eq]. by rewrite <- !to_from_dp, Hab. Qed.

Lemma from_dp_bool l : Literal.dest_bool (from_dp l) = Literal.dest_bool l.
Proof. by destruct l as [x| |]. Qed.

(** ** Operators *)
Section planes.
Context `{Profile} `{Lib}.

Lemma prefix_from_dp l p :
  LitInterpret.eval_prefix (from_dp l) p = CPInterpret.lift_dp (LitInterpret.eval_prefix l p).
Proof. by destruct l. Qed.

Lemma mem_from_dp ls l : VecSet.mem (map from_dp ls) (from_dp l) = VecSet.mem ls l.
Proof.
  unfold VecSet.mem. induction ls as [|x ls IH]; [done|]. cbn [map existsb]. by rewrite from_dp_eqb, IH.
Qed.

Lemma infix_from_dp a op b :
  LitInterpret.eval_infix (from_dp a) op (from_dp b) = CPInterpret.lift_dp (LitInterpret.eval_infix a op b).
Proof.
  assert (forall ls l, Val (Some (VecSet.contains (map from_dp ls) (from_dp l))) =
    CPInterpret.lift_dp (Val (Some (VecSet.contains ls l)))) as Hin.
  { intros ls l. unfold VecSet.contains. by rewrite mem_from_dp. }
  destruct a as [x|xs|xs], b as [y|ys|ys]; destruct op; try done; try apply Hin;
    simpl; unfold ret; simpl; by rewrite map_app.
Qed.

(** ** Builtins that depend on their arguments only, with exact results *)
Definition pure_builtins : list string :=
  ["i64::abs"; "i64::to_str"; "i64::min"; "i64::max";
   "str::to_lowercase"; "str::to_uppercase"; "str::trim_start"; "str::trim_end"; "str::as_bytes";
   "str::to_base64"; "str::from_utf8"; "data::to_base64";
   "str::starts_with"; "str::ends_with"; "str::contains";
   "HttpRequest::connection"; "HttpRequest::from"; "HttpRequest::to"; "HttpRequest::method";
   "HttpRequest::version"; "HttpRequest::path"; "HttpRequest::query";
   "HttpResponse::connection"; "HttpResponse::from"; "HttpResponse::to"; "HttpResponse::version";
   "ID::has_label"; "ID::has_host"; "ID::has_ip"; "ID::labels"; "ID::hosts"; "ID::ips";
   "Connection::from"; "Connection::to"; "Label::is_match"; "list::is_subset"; "list::is_disjoint"].

Definition pure (f : string) : bool := existsb (String.eqb f) pure_builtins.

(** Names with a meaning of their own on the control plane, or whose meaning
    on lists and tuples is not needed here. *)
Definition special : list string :=
  ["Label::new"; "Label::login_time"; "OnboardingResult::ErrStr"; "OnboardingResult::ErrID";
   "list::reduce"; "list::difference"; "list::intersection";
   "allow_egress"; "allow_ingress"; "deny_egress"; "deny_ingress"; "Primitive::allow_rest_request";
   "Primitive::allow_rest_response"; "Primitive::allow_tcp_connection"; "Primitive::on_tcp_disconnect";
   "ControlPlane::onboard"; "ControlPlane::onboarded"; "ControlPlane::newID";
   "compile_ingress"; "compile_egress"; "verify_credentials"].

Definition plain (f : string) : bool :=
  negb (existsb (String.eqb f) special) && match parse_usize f with None => true | Some _ => false end.

Lemma pure_forall (P : string -> bool) f : forallb P pure_builtins = true -> pure f = true -> P f = true.
Proof.
  intros HP (x & Hx & ->%String.eqb_eq)%existsb_exists. rewrite forallb_forall in HP. by apply HP.
Qed.

Lemma pure_plain f : pure f = true -> plain f = true.
Proof. by apply pure_forall. Qed.

Lemma pure_is_builtin f : pure f = true -> FnHeaders.is_builtin (FT := CPFlatTyp) f = true.
Proof. by apply pure_forall. Qed.

Lemma pure_is_dp_builtin f : pure f = true -> FnHeaders.is_builtin (FT := FlatTyp) f = true.
Proof. by apply pure_forall. Qed.

Lemma plain_usize f : plain f = true -> parse_usize f = None.
Proof. intros [_ Hp]%andb_true_iff. by destruct (parse_usize f). Qed.

Lemma plain_ne f x : plain f = true -> existsb (String.eqb x) special = true -> (f =? x) = false.
Proof. intros [Hp _]%andb_true_iff Hx. destruct (String.eqb_spec f x) as [->|]; [|done]. by rewrite Hx in Hp. Qed.

Ltac plain_names :=
  repeat match goal with
  | Hp : plain ?f = true |- context [?f =? ?x] => rewrite (plain_ne f x Hp) by reflexivity
  end.

Lemma call1_from_dp l f :
  plain f = true -> LitInterpret.eval_call1 (from_dp l) f = CPInterpret.lift_dp (LitInterpret.eval_call1 l f).
Proof.
  intros Hf. destruct l as [x|ls|ls]; simpl.
  - destruct x; simpl; plain_names; done.
  - plain_names. destruct (f =? "list::len"); [|done]. unfold ret, CPInterpret.lift_dp, Literal.int. simpl. by rewrite length_map.
  - rewrite plain_usize, length_map by done. by destruct (f =? "option::is_none"), (f =? "option::is_some").
Qed.

Lemma subset_from_dp xs ys :
  VecSet.is_subset (map from_dp xs) (map from_dp ys) = from_dp (VecSet.is_subset xs ys) /\
  VecSet.is_disjoint (map from_dp xs) (map from_dp ys) = from_dp (VecSet.is_disjoint xs ys).
Proof.
  unfold VecSet.is_subset, VecSet.is_disjoint, Literal.bool. cbn. split; do 3 f_equal; [|f_equal];
    induction xs as [|x xs IH]; cbn [map forallb existsb]; [done| |done|]; by rewrite mem_from_dp, IH.
Qed.

Lemma call2_from_dp l f l' :
  plain f = true ->
  LitInterpret.eval_call2 (from_dp l) f (from_dp l') = CPInterpret.lift_dp (LitInterpret.eval_call2 l f l').
Proof.
  intros Hf. destruct l as [x|xs|xs], l' as [y|ys|ys]; try done; simpl.
  - destruct x, y; simpl; plain_names; done.
  - plain_names. destruct (subset_from_dp xs ys) as [Hs Hd].
    destruct (f =? "list::is_subset"); [unfold ret; by rewrite Hs|].
    destruct (f =? "list::is_disjoint"); [unfold ret; by rewrite Hd|done].
Qed.

Lemma call3_from_dp l f l1 l2 :
  LitInterpret.eval_call3 (from_dp l) f (from_dp l1) (from_dp l2) =
  CPInterpret.lift_dp (LitInterpret.eval_call3 l f l1 l2).
Proof. destruct l as [x| |], l1 as [y| |], l2 as [z| |]; try done. by destruct x, y, z. Qed.

Lemma call4_from_dp l f l1 l2 l3 :
  LitInterpret.eval_call4 (from_dp l) f (from_dp l1) (from_dp l2) (from_dp l3) =
  CPInterpret.lift_dp (LitInterpret.eval_call4 l f l1 l2 l3).
Proof.
  destruct l as [x| |], l1 as [y| |], l2 as [z| |], l3 as [u| |]; try done.
  destruct x; try done; destruct y; try done; destruct z; try done; by destruct u.
Qed.

Lemma lift_dp_some o r :
  CPInterpret.lift_dp o = Val (Some r) -> exists r', o = Val (Some r') /\ r = from_dp r'.
Proof. destruct o as [[r'|]| | |]; simpl; try done. intros; simplify_eq. eauto. Qed.

(** A call on the control plane with literals of the data plane is the call
    on the data plane. *)
Lemma call_from_dp f args r :
  plain f = true ->
  LitInterpret.eval_call (FL := CPFlatLiteral) f (map LitExpr (map from_dp args)) = Val (LitExpr r) ->
  exists r', LitInterpret.eval_call (FL := FlatLiteral) f (map LitExpr args) = Val (LitExpr r') /\ r = from_dp r'.
Proof.
  intros Hf. unfold LitInterpret.eval_call.
  assert (forall n o, (r0 ← CPInterpret.lift_dp o; match r0 with
    | Some l => Val (LitExpr l) | None => Fail (LitInterpret.type_error n) end) = Val (LitExpr r : CPExpr) ->
    exists r', (r0 ← o; match r0 with
    | Some l => Val (LitExpr l) | None => Fail (LitInterpret.type_error n) end) = Val (LitExpr r' : DPExpr) /\ r = from_dp r') as Ho.
  { intros n [[r'|]| | |]; simpl; try done. intros; simplify_eq. eauto. }
  destruct args as [|a [|b [|c [|d [|e args]]]]]; cbn [map]; [| | | | |done].
  - apply Ho.
  - rewrite call1_from_dp by done. apply Ho.
  - rewrite call2_from_dp by done. apply Ho.
  - rewrite call3_from_dp. apply Ho.
  - rewrite call4_from_dp. apply Ho.
Qed.

(** One branch for each name that is tested. *)
Ltac by_name Hp H :=
  repeat match type of H with
  | context [if ?f =? ?x then _ else _] =>
    destruct (String.eqb_spec f x) as [->|];
    [first [discriminate Hp | idtac]|]
  end; try discriminate H; unfold ret in H; simplify_eq; try done.

Lemma concrete_labels i : Exact.id i = true -> dp_exact (ID.labels_lit i) = true.
Proof. unfold Exact.id. simpl. induction (labels i); simpl; [done|]. rewrite !andb_true_iff. naive_solver. Qed.

Lemma forallb_lits {A} (g : A -> DPLiteral) l :
  (forall x, dp_exact (g x) = true) -> dp_exact (LList (map g l)) = true.
Proof. intros Hg. simpl. induction l; simpl; [done|]. by rewrite Hg. Qed.

Lemma exact_endpoints c :
  Exact.connection c = true -> Exact.id (from c) = true /\ Exact.id (to c) = true.
Proof. by intros [? ?]%andb_true_iff. Qed.

Lemma call1_exact f l r :
  pure f = true -> dp_exact l = true -> LitInterpret.eval_call1 l f = Val (Some r) -> dp_exact r = true.
Proof.
  intros Hp Hl Hr. destruct l as [x|ls|ls].
  - simpl in Hr. unfold DPInterpret.eval_call1 in Hr. by_name Hp Hr.
    destruct x; try discriminate Hr; simpl in Hl;
      unfold DPInterpret.call1_int, DPInterpret.call1_str, DPInterpret.call1_data, DPInterpret.call1_request,
        DPInterpret.call1_response, DPInterpret.call1_ip, DPInterpret.call1_id, DPInterpret.call1_connection,
        DPInterpret.call1_label in Hr; by_name Hp Hr.
    all: try (by apply exact_endpoints).
    all: try (by apply concrete_labels).
    all: try (by apply forallb_lits).
    destruct (arith_i64 _) eqn:E; simpl in Hr; simplify_eq. simpl. by eapply arith_i64_range.
  - simpl in Hr. by_name Hp Hr.
  - simpl in Hr. by_name Hp Hr. by rewrite plain_usize in Hr by (by apply pure_plain).
Qed.

Lemma min_max_range i j : in_i64 i = true -> in_i64 j = true -> in_i64 (Z.min i j) = true /\ in_i64 (Z.max i j) = true.
Proof. destruct (Z.min_spec i j) as [[_ ->]|[_ ->]], (Z.max_spec i j) as [[_ ->]|[_ ->]]; auto. Qed.

Lemma call2_exact f l l' r :
  pure f = true -> dp_exact l = true -> dp_exact l' = true ->
  LitInterpret.eval_call2 l f l' = Val (Some r) -> dp_exact r = true.
Proof.
  intros Hp Hl Hl' Hr. destruct l as [x|xs|xs], l' as [y|ys|ys]; try discriminate Hr.
  - destruct x, y; try discriminate Hr; simpl in Hr;
      unfold DPInterpret.call2_int, DPInterpret.call2_str, DPInterpret.call2_request,
        DPInterpret.call2_response, DPInterpret.call2_id, DPInterpret.call2_connection,
        DPInterpret.call2_label in Hr; by_name Hp Hr.
    all: simpl in *; by apply min_max_range.
  - simpl in Hr. by_name Hp Hr.
Qed.

Lemma call3_pure f (l l1 l2 : DPLiteral) : pure f = true -> LitInterpret.eval_call3 l f l1 l2 = Val None.
Proof.
  intros Hp. destruct l as [x| |], l1 as [y| |], l2 as [z| |]; try done.
  destruct x, y, z; try done; cbn [LitInterpret.eval_call3 flat_eval_call3 DP_TInterpret DPInterpret.eval_call3];
    match goal with |- context [f =? ?n] => destruct (String.eqb_spec f n) as [->|]; [discriminate Hp|done] end.
Qed.

Lemma call4_pure f (l l1 l2 l3 : DPLiteral) : pure f = true -> LitInterpret.eval_call4 l f l1 l2 l3 = Val None.
Proof.
  intros Hp. destruct l as [x| |], l1 as [y| |], l2 as [z| |], l3 as [u| |]; try done.
  destruct x; try done; destruct y; try done; destruct z; try done; destruct u; try done; cbn [LitInterpret.eval_call4 flat_eval_call4 DP_TInterpret DPInterpret.eval_call4];
    match goal with |- context [f =? ?n] => destruct (String.eqb_spec f n) as [->|]; [discriminate Hp|done] end.
Qed.

Lemma call0_pure f : pure f = true -> DPInterpret.eval_call0 f = Val None.
Proof.
  intros Hp. unfold DPInterpret.eval_call0.
  repeat match goal with
  | |- context [f =? ?n] => destruct (String.eqb_spec f n) as [->|]; [discriminate Hp|]
  end. done.
Qed.

Lemma result_some n o (r : DPLiteral) :
  (r0 ← o; match r0 with Some l => Val (LitExpr l) | None => Fail (LitInterpret.type_error n) end)
  = Val (LitExpr r) -> o = Val (Some r).
Proof. destruct o as [[]| | |]; simpl; try done. intros; by simplify_eq. Qed.

Lemma dp_call_exact f args r :
  pure f = true -> Forall (fun l => dp_exact l = true) args ->
  LitInterpret.eval_call (FL := FlatLiteral) f (map LitExpr args) = Val (LitExpr r) -> dp_exact r = true.
Proof.
  intros Hp Hargs. unfold LitInterpret.eval_call.
  destruct args as [|a [|b [|c [|d [|e args]]]]]; cbn [map]; [| | | | |done]; intros Hr%result_some.
  - cbn in Hr. by rewrite call0_pure in Hr.
  - apply Forall_cons in Hargs as [Ha _]. by apply (call1_exact f a).
  - apply Forall_cons in Hargs as [Ha [Hb _]%Forall_cons]. by apply (call2_exact f a b).
  - by rewrite call3_pure in Hr.
  - by rewrite call4_pure in Hr.
Qed.

Lemma cp_call_exact f ls r :
  pure f = true -> Forall (fun l => cp_exact l = true) ls ->
  LitInterpret.eval_call (FL := CPFlatLiteral) f (map LitExpr ls) = Val (LitExpr r) -> cp_exact r = true.
Proof.
  intros Hp (ls' & -> & Hls)%exact_all_from_dp (r' & Hr' & ->)%call_from_dp; [|by apply pure_plain].
  apply exact_from_dp. exists r'. split; [done|]. by eapply dp_call_exact.
Qed.

(** ** Conversion of expressions to the data plane *)
Notation cp_den := (Pure.den (FL := CPFlatLiteral) pure).
Notation dp_den := (Pure.den (FL := FlatLiteral) pure).
Notation cp_value := (Pure.value (FL := CPFlatLiteral) pure).
Notation dp_value := (Pure.value (FL := FlatLiteral) pure).
Notation frag := (Pure.frag (FL := CPFlatLiteral) pure safe_op cp_exact).

(** A literal of the data plane behind one of the control plane. *)
Definition behind (v : option CPLiteral) (v' : option (Literal FlatLiteral)) : Prop :=
  forall l, v = Some l -> exists l', v' = Some l' /\ l = from_dp l'.

Definition answers (r : option (bool * CPLiteral)) (r' : option (bool * Literal FlatLiteral)) : Prop :=
  forall b l, r = Some (b, l) -> exists l', r' = Some (b, l') /\ l = from_dp l'.

Definition sim (e : CPExpr) (e' : DPExpr) : Prop :=
  forall ρ : list (Literal FlatLiteral), answers (cp_den (map from_dp ρ) e) (dp_den ρ e').

Lemma answers_value ρ e e' :
  answers (cp_den (map from_dp ρ) e) (dp_den ρ e') ->
  behind (cp_value (map from_dp ρ) e) (dp_value ρ e').
Proof. intros Ha l Hl%den_value. apply Ha in Hl as (l' & Hl' & ->). exists l'. split; [|done]. by apply den_value. Qed.

Lemma val_some_lift (o : Outcome (option (Literal FlatLiteral))) : behind (Pure.val_some (CPInterpret.lift_dp o)) (Pure.val_some o).
Proof. destruct o as [[x|]| | |]; intros l; simpl; try done. intros; simplify_eq. eauto. Qed.

Lemma infix_answers op v1 v2 v1' v2' :
  behind v1 v1' -> behind v2 v2' -> answers (infix_den op v1 v2) (infix_den op v1' v2').
Proof.
  intros B1 B2 b l. destruct v1 as [l1|]; [|by destruct op]. destruct (B1 _ eq_refl) as (l1' & -> & ->).
  assert (answers (strict op (Some (from_dp l1')) v2) (strict op (Some l1') v2')) as Hs.
  { clear b l. intros b l. unfold strict. destruct v2 as [l2|]; [|done]. destruct (B2 _ eq_refl) as (l2' & -> & ->).
    rewrite infix_from_dp. pose proof (val_some_lift (LitInterpret.eval_infix l1' op l2')) as Hv.
    destruct (Pure.val_some (CPInterpret.lift_dp _)) as [r|]; [|done]. intros; simplify_eq.
    destruct (Hv _ eq_refl) as (r' & -> & ->). eauto. }
  assert (forall stop, answers (short_circuit stop (Some (from_dp l1')) v2) (short_circuit stop (Some l1') v2')) as Hc.
  { clear b l Hs. intros stop b l. simpl. rewrite from_dp_bool. destruct (Literal.dest_bool l1') as [x|]; [|done].
    destruct (Bool.eqb x stop); [intros; simplify_eq; eauto|].
    destruct v2 as [l2|]; [|done]. destruct (B2 _ eq_refl) as (l2' & -> & ->). rewrite from_dp_bool.
    destruct (Literal.dest_bool l2'); [|done]. intros; simplify_eq; eauto. }
  destruct op; (apply Hs || apply Hc).
Qed.

Lemma values_behind ρ es es' :
  Forall2 sim es es' ->
  forall ls, Pure.values pure (map from_dp ρ) es = Some ls ->
  exists ls', Pure.values pure ρ es' = Some ls' /\ ls = map from_dp ls'.
Proof.
  induction 1 as [|e e' es es' He _ IH]; intros ls Hls; [exists []; simpl in *; by simplify_eq|]. simpl in Hls.
  destruct (cp_value _ e) as [l|] eqn:E; [|done]. destruct (Pure.values _ _ es) as [ks|] eqn:Es; [|done].
  simplify_eq. apply (answers_value _ _ _ (He ρ)) in E as (l' & E & ->). destruct (IH _ eq_refl) as (ls' & Es' & ->).
  exists (l' :: ls'). simpl. by rewrite E, Es'.
Qed.

Lemma block_sim ρ es es' :
  Forall2 sim es es' -> answers (Pure.den_block pure (map from_dp ρ) es) (Pure.den_block pure ρ es').
Proof.
  induction 1 as [|e e' es es' He Hes IH]; intros b l.
  { simpl. intros; simplify_eq. by exists Literal.unit. }
  destruct Hes as [|x x' es es' Hx Hes]; [apply He|]. cbn [Pure.den_block].
  destruct (cp_den (map from_dp ρ) e) as [[b0 l0]|] eqn:E; [|done].
  apply He in E as (l' & -> & ->). destruct b0; [intros; simplify_eq; eauto|]. apply IH.
Qed.

(** Expressions of the fragment convert, and what they denote corresponds. *)
Definition converts (e : CPExpr) : Prop := exists e', CPExpr.to_dp e = Val e' /\ sim e e'.

Lemma convert_list es :
  Forall converts es -> exists es', CPTyp.map_outcome CPExpr.to_dp es = Val es' /\ Forall2 sim es es'.
Proof.
  induction 1 as [|e es (e' & He & Hs) _ (es' & Hes & Hss)]; [by exists []|].
  exists (e' :: es'). simpl. rewrite He. simpl. rewrite Hes. split; [done|]. by constructor.
Qed.

Lemma frag_converts stmt e : frag stmt e = true -> converts e.
Proof.
  revert stmt. induction e as [v|v u|l|e IH|p e IH|op e1 e2 IH1 IH2|b es IH|vs e1 e2|op vs e1 e2 acc|v e
    |c a o IHc IHa IHo|vs ms e a|c e a|f args b IH] using Expr_ind'; intros stmt Hf; try done; simpl in Hf.
  - exists (BVar v u). split; [done|]. intros ρ b l. simpl. rewrite list_lookup_fmap.
    match goal with |- context [from_dp <$> ?o] => change o with (ρ !! u) end.
    destruct (ρ !! u) as [x|]; [|done]. simpl. intros; simplify_eq. eauto.
  - apply exact_from_dp in Hf as (l' & -> & _). exists (LitExpr l'). simpl. rewrite to_from_dp.
    split; [done|]. intros ρ b k. simpl. intros; simplify_eq. eauto.
  - apply andb_true_iff in Hf as [_ Hf]. destruct (IH _ Hf) as (e' & He & Hs). exists (ReturnExpr e'). simpl.
    rewrite He. split; [done|]. intros ρ b l. rewrite !den_return.
    destruct (cp_value _ e) as [k|] eqn:E; [|done]. intros; simplify_eq.
    apply (answers_value _ _ _ (Hs ρ)) in E as (l' & -> & ->). eauto.
  - destruct (IH _ Hf) as (e' & He & Hs). exists (PrefixExpr p e'). simpl. rewrite He. split; [done|].
    intros ρ b l. rewrite !den_prefix. destruct (cp_value _ e) as [k|] eqn:E; [|done].
    apply (answers_value _ _ _ (Hs ρ)) in E as (l' & -> & ->). rewrite prefix_from_dp.
    pose proof (val_some_lift (LitInterpret.eval_prefix l' p)) as Hv.
    destruct (Pure.val_some (CPInterpret.lift_dp _)) as [r|]; [|done]. intros; simplify_eq.
    destruct (Hv _ eq_refl) as (r' & -> & ->). eauto.
  - apply andb_true_iff in Hf as [[_ F1]%andb_true_iff F2].
    destruct (IH1 _ F1) as (x & Hx & Sx), (IH2 _ F2) as (y & Hy & Sy). exists (InfixExpr op x y). simpl.
    rewrite Hx. simpl. rewrite Hy. split; [done|]. intros ρ. rewrite !den_infix.
    apply infix_answers; by apply answers_value.
  - destruct b; try done. destruct (convert_list es) as (es' & Hes & Hs).
    { rewrite forallb_Forall in Hf. induction IH; inversion Hf; subst; constructor; eauto. }
    exists (BlockExpr BBlock es'). simpl. rewrite Hes. split; [done|]. intros ρ. rewrite !den_block_eq.
    by apply block_sim.
  - apply andb_true_iff in Hf as [[Fc Fa]%andb_true_iff Fo].
    destruct (IHc _ Fc) as (c' & Hc & Sc), (IHa _ Fa) as (a' & Ha & Sa).
    assert (exists o', CPExpr.opt_to_dp CPExpr.to_dp o = Val o' /\
      match o, o' with Some x, Some x' => sim x x' | None, None => True | _, _ => False end) as (o' & Ho & So).
    { destruct o as [x|]; [|by exists None]. destruct (IHo _ Fo) as (x' & Hx & Sx). exists (Some x'). simpl. by rewrite Hx. }
    exists (IfExpr c' a' o'). simpl. rewrite Hc. simpl. rewrite Ha. simpl. rewrite Ho. split; [done|].
    intros ρ b l. rewrite !den_if. destruct (cp_value _ c) as [k|] eqn:E; [|done].
    apply (answers_value _ _ _ (Sc ρ)) in E as (k' & -> & ->). rewrite from_dp_bool.
    destruct (Literal.dest_bool k') as [[]|]; [apply Sa| |done].
    destruct o as [x|], o' as [x'|]; try done; [apply So|]. intros; simplify_eq. by exists Literal.unit.
  - apply andb_true_iff in Hf as [Hp Hfs]. destruct (convert_list args) as (args' & Hargs & Hs).
    { rewrite forallb_Forall in Hfs. induction IH; inversion Hfs; subst; constructor; eauto. }
    exists (CallExpr f args' b). simpl. rewrite Hargs. split; [done|]. intros ρ b' l. rewrite !den_call, Hp.
    destruct (Pure.values pure _ args) as [ls|] eqn:E; [|done].
    destruct (values_behind _ _ _ Hs _ E) as (ls' & -> & ->).
    destruct (LitInterpret.eval_call f (map LitExpr (map from_dp ls'))) as [[]| | |] eqn:Ec; try done.
    apply call_from_dp in Ec as (r' & -> & ->); [|by apply pure_plain]. intros; simplify_eq. eauto.
Qed.

(** ** Substitution in the fragment, which binds no variables *)
Lemma den_traverse f g d stmt e ρ ρ' :
  frag stmt e = true ->
  (forall v j, cp_den ρ' (g d v j) = match ρ !! j with Some l => Some (false, l) | None => None end) ->
  cp_den ρ' (Expr.traverse f g d e) = cp_den ρ e.
Proof.
  intros Hf Hg. assert (forall e, cp_den ρ' (Expr.traverse f g d e) = cp_den ρ e ->
    cp_value ρ' (Expr.traverse f g d e) = cp_value ρ e) as Hval by (intros x Hx; unfold Pure.value; by rewrite Hx).
  revert stmt Hf. induction e as [v|v u|l|e IH|p e IH|op e1 e2 IH1 IH2|b es IH|vs e1 e2|op vs e1 e2 acc|v e
    |c a o IHc IHa IHo|vs ms e a|c e a|f' args b IH] using Expr_ind'; intros stmt Hf; try done; simpl in Hf.
  - apply Hg.
  - apply andb_true_iff in Hf as [_ Hf]. cbn [Expr.traverse]. by rewrite !den_return, Hval by eauto.
  - cbn [Expr.traverse]. by rewrite !den_prefix, Hval by eauto.
  - apply andb_true_iff in Hf as [[_ F1]%andb_true_iff F2]. cbn [Expr.traverse].
    by rewrite !den_infix, !Hval by eauto.
  - destruct b; try done. cbn [Expr.traverse]. rewrite !den_block_eq. rewrite forallb_Forall in Hf.
    induction IH as [|x es Hx _ IHes]; [done|]. apply Forall_cons in Hf as [Fx Fes]. cbn [map Pure.den_block].
    rewrite (Hx _ Fx), IHes by done. by destruct es.
  - apply andb_true_iff in Hf as [[Fc Fa]%andb_true_iff Fo]. cbn [Expr.traverse]. rewrite !den_if, Hval by eauto.
    rewrite (IHa _ Fa). destruct o as [x|]; [|done]. simpl. by rewrite (IHo _ Fo).
  - apply andb_true_iff in Hf as [_ Hf]. cbn [Expr.traverse]. rewrite !den_call.
    assert (Pure.values pure ρ' (map (Expr.traverse f g d) args) = Pure.values pure ρ args) as ->; [|done].
    rewrite forallb_Forall in Hf. induction IH as [|x es Hx _ IHes]; [done|].
    apply Forall_cons in Hf as [Fx Fes]. cbn [map Pure.values]. by rewrite Hval, IHes by eauto.
Qed.

Lemma frag_traverse f g d stmt e :
  frag stmt e = true -> (forall v j, frag false (g d v j) = true) -> frag stmt (Expr.traverse f g d e) = true.
Proof.
  intros Hf Hg. revert stmt Hf. induction e as [v|v u|l|e IH|p e IH|op e1 e2 IH1 IH2|b es IH|vs e1 e2|op vs e1 e2 acc|v e
    |c a o IHc IHa IHo|vs ms e a|c e a|f' args b IH] using Expr_ind'; intros stmt Hf; try done; simpl in *;
    rewrite ?andb_true_iff in *.
  - destruct stmt; [apply frag_stmt|]; apply Hg.
  - naive_solver.
  - auto.
  - naive_solver.
  - destruct b; try done. rewrite forallb_Forall, Forall_map. rewrite forallb_Forall in Hf.
    induction IH; inversion Hf; subst; constructor; auto.
  - destruct Hf as [[? ?] Fo]. split_and!; auto. destruct o; simpl in *; auto.
  - destruct Hf as [? Hf]. split; [done|]. rewrite forallb_Forall, Forall_map. rewrite forallb_Forall in Hf.
    induction IH; inversion Hf; subst; constructor; auto.
Qed.

(** A literal for an index, the ones above it lowered. *)
Lemma den_subst_lit l ρ1 ρ2 stmt e :
  frag stmt e = true ->
  cp_den (ρ1 ++ ρ2) (Expr.subst (length ρ1) (LitExpr l) true e) = cp_den (ρ1 ++ l :: ρ2) e.
Proof.
  intros Hf. unfold Expr.subst. eapply den_traverse; [exact Hf|]. intros v j.
  destruct (Nat.compare_spec j (length ρ1)) as [->|Hj|Hj].
  - rewrite list_lookup_middle by done. unfold Expr.shift. by destruct (Nat.eqb _ 0).
  - simpl. by rewrite !lookup_app_l by lia.
  - simpl. rewrite !lookup_app_r by lia. by replace (j - length ρ1) with (S (j - 1 - length ρ1)) by lia.
Qed.

Lemma frag_subst_lit l i stmt e :
  cp_exact l = true -> frag stmt e = true -> frag stmt (Expr.subst i (LitExpr l) true e) = true.
Proof.
  intros Hl Hf. unfold Expr.subst. apply frag_traverse; [done|]. intros v j.
  destruct (Nat.compare j i); try done. unfold Expr.shift. by destruct (Nat.eqb _ 0).
Qed.

(** A call for the last index. *)
Lemma den_subst_call u l ρ stmt e :
  frag stmt e = true -> cp_den ρ u = Some (false, l) ->
  cp_den ρ (Expr.subst (length ρ) u false e) = cp_den (ρ ++ [l]) e.
Proof.
  intros Hf Hu. unfold Expr.subst. eapply den_traverse; [exact Hf|]. intros v j.
  destruct (Nat.compare_spec j (length ρ)) as [->|Hj|Hj].
  - by rewrite list_lookup_middle.
  - simpl. by rewrite lookup_app_l by lia.
  - simpl. rewrite !lookup_ge_None_2 by (rewrite ?length_app; simpl; lia). done.
Qed.

Lemma frag_subst_call u i stmt e :
  frag false u = true -> frag stmt e = true -> frag stmt (Expr.subst i u false e) = true.
Proof.
  intros Hu Hf. unfold Expr.subst. apply frag_traverse; [done|]. intros v j. by destruct (Nat.compare j i).
Qed.

Lemma frag_strip stmt e : frag stmt e = true -> frag stmt (Expr.strip_return e) = true.
Proof. destruct e; try done. simpl. intros [-> Hf]%andb_true_iff. by apply frag_stmt. Qed.

Lemma den_strip ρ e r : cp_den ρ e = Some r -> exists b, cp_den ρ (Expr.strip_return e) = Some (b, r.2).
Proof.
  intros Hr. assert (exists b, cp_den ρ e = Some (b, r.2)) as He by (exists r.1; by destruct r).
  destruct e; try exact He. rewrite den_return in Hr. unfold Pure.value in Hr. simpl.
  destruct (cp_den ρ e) as [[[] l]|]; try done. simplify_eq. by exists false.
Qed.
End planes.

(** ** Both evaluators on the fragment *)
Section evaluators.
Context `{Profile} `{Lib} `{Petgraph} `{Serde} `{Mongo} {Net : Type}.
Variable regex_to_string : PolicyRegex -> string.
Variable network : Z -> string -> string -> list Value -> Net -> result Reader Error * Net.
Notation World := (CPWorld Net Db).
Notation interp := (CP_Interp regex_to_string network).
Notation frag := (Pure.frag (FL := CPFlatLiteral) pure safe_op cp_exact).
Notation cp_den := (Pure.den (FL := CPFlatLiteral) pure).
Notation dp_den := (Pure.den (FL := FlatLiteral) pure).

Ltac plain_names :=
  repeat match goal with
  | Hp : plain ?f = true |- context [?f =? ?x] => rewrite (plain_ne f x Hp) by reflexivity
  end.

Lemma seval_call0_plain f : plain f = true -> seval_call0 f = CPInterpret.eval_call0 f.
Proof. intros Hf. unfold seval_call0, literals0, assoc. by plain_names. Qed.

Lemma seval_call1_plain l f (w : World) :
  plain f = true -> seval_call1 l f w = (LitInterpret.eval_call1 l f, w).
Proof.
  intros Hf. unfold seval_call1.
  destruct l as [[|[]| | | |]| |]; plain_names; done.
Qed.

Lemma seval_call2_plain builtin fuel l f l' (w : World) :
  plain f = true -> seval_call2 regex_to_string network builtin fuel l f l' w = (LitInterpret.eval_call2 l f l', w).
Proof.
  intros Hf. unfold seval_call2.
  destruct l as [[|[]| | | |]| |], l' as [[|[]| | | |]| |]; plain_names; done.
Qed.

Lemma eval_call_plain fuel f args e (w w' : World) :
  plain f = true ->
  eval_call regex_to_string network fuel f (map LitExpr args) w = (Val e, w') <->
  LitInterpret.eval_call f (map LitExpr args) = Val e /\ w' = w.
Proof.
  intros Hf.
  assert (forall n (m : Comp World (option CPLiteral)) o, m w = (o, w) ->
    (r ← m; match r with Some l => mret (LitExpr l) | None => fail (LitInterpret.type_error n) end) w = (Val e, w') <->
    (r ← o; match r with Some l => Val (LitExpr l) | None => Fail (LitInterpret.type_error n) end) = Val e /\ w' = w) as Hr.
  { intros n m o Hm. unfold mbind at 1, Comp_bind. rewrite Hm. destruct o as [[l|]| | |]; cbv -[LitInterpret.type_error]; naive_solver. }
  assert (exists bi, eval_call regex_to_string network fuel = eval_call_with regex_to_string network bi fuel) as [bi ->]
    by (destruct fuel; simpl; eauto).
  unfold eval_call_with, LitInterpret.eval_call.
  destruct args as [|a [|b [|c [|d [|x args]]]]]; cbn [map].
  - apply Hr. by rewrite seval_call0_plain.
  - apply Hr. by apply seval_call1_plain.
  - apply Hr. by apply seval_call2_plain.
  - by apply Hr.
  - by apply Hr.
  - unfold fail. split; [done|]. by intros [? _].
Qed.

#[export] Instance CP_pure fuel : PureInterp (H3 := interp fuel) CPFlatTyp CPFlatLiteral World pure.
Proof.
  split; [done|done|apply pure_is_builtin|]. intros f args e w w' Hf%pure_plain. by apply eval_call_plain.
Qed.

#[export] Instance DP_pure {N : Type} net : PureInterp (H3 := Env.DP_Interp regex_to_string net) FlatTyp FlatLiteral (Externals.World N) pure.
Proof.
  split; [done|done|apply pure_is_dp_builtin|]. intros f args e w w' _. simpl. unfold lift.
  split; [by intros [= -> ->]|by intros [-> ->]].
Qed.

(** ** Functions that are specialised *)

Definition mains : list string := [ALLOW_REST_REQUEST; ALLOW_REST_RESPONSE; ALLOW_TCP_CONNECTION].

(** The builtin for the endpoint of a message that the service is not. *)
Definition endpoint (f_egress : bool) (f : string) : string :=
  (if f =? ALLOW_REST_REQUEST then "HttpRequest::"
   else if f =? ALLOW_REST_RESPONSE then "HttpResponse::" else "Connection::")
  ^^ (if f_egress then "to" else "from").

(** The arguments that a message has on the data plane; the global function
    has the two endpoints before them. *)
Definition arity (f : string) : nat := if f =? ALLOW_TCP_CONNECTION then 1 else 2.

(** A function of [n] arguments whose body is in the fragment. *)
Fixpoint in_fragment (n : nat) (e : CPExpr) : bool :=
  match n, e with
  | O, e => frag true e
  | S n, Closure _ e => in_fragment n e
  | _, _ => false
  end.

Definition shadows_none (c : Code CPFlatLiteral) : bool :=
  forallb (fun f => match BTreeMap.get c f with None => true | Some _ => false end) pure_builtins.

(** What the theorem asks of a global policy, for a function. *)
Definition specialisable (f : string) (gp : GlobalPolicies) : bool :=
  forallb (fun p : Protocol * GlobalPolicy =>
    shadows_none (code (pol_program p.2)) &&
    match BTreeMap.get (code (pol_program p.2)) f with
    | Some e => in_fragment (S (S (arity f))) e
    | None => true
    end) gp.

Lemma in_fragment_close n e :
  in_fragment n e = true -> exists vs body, e = close vs body /\ length vs = n /\ frag true body = true.
Proof.
  revert e. induction n as [|n IH]; intros e He; [by exists [], e|]. destruct e; try done.
  apply IH in He as (vs & body & -> & <- & Hf). by eexists (_ :: vs), body.
Qed.

Lemma shadows_none_get c f : shadows_none c = true -> pure f = true -> BTreeMap.get c f = None.
Proof. intros Hc Hf. apply (pure_forall _ f Hc) in Hf. by destruct (BTreeMap.get c f). Qed.

Lemma frag_not_closure stmt e : frag stmt e = true -> forall v x, e <> Closure v x.
Proof. by intros Hf v x ->. Qed.

Lemma psubst_close i u vs e :
  (forall v x, e <> Closure v x) -> Expr.psubst i u (close vs e) = close vs (Expr.subst i u true e : CPExpr).
Proof. intros He. induction vs as [|v vs IH]; simpl; [|by f_equal]. destruct e; try done. by destruct (He v e). Qed.

Lemma at_depth_close vs e :
  (forall v x, e <> Closure v x) -> Expr.at_depth (length vs) (close vs e) = Val (Some e : option CPExpr).
Proof. intros He. induction vs as [|v vs IH]; simpl; [|done]. destruct e; try done. by destruct (He v e). Qed.

(** The argument of the service replaced, and its closure gone. *)
Lemma propagate_close (f_egress : bool) i u v1 v2 vs e :
  (forall v x, e <> Closure v x) ->
  exists v, Expr.propagate_subst i (if f_egress then 0 else 1) u (close (v1 :: v2 :: vs) e) =
            close (v :: vs) (Expr.subst i u true e : CPExpr).
Proof. intros He. exists (if f_egress then v2 else v1). destruct f_egress; simpl; by rewrite <- (psubst_close i u). Qed.

Lemma check_header_arity pol f n : f ∈ mains -> Compile.check_header pol f = Ok n -> n = S (S (arity f)).
Proof.
  intros Hf. unfold Compile.check_header.
  assert (exists args, Compile.expected_sig f = Some (Signature.new args Typ.bool) /\ length args = S (S (arity f))) as (args & -> & Hl).
  { unfold mains in Hf. set_unfold in Hf. destruct_or!; subst; try done; by eexists. }
  destruct (BTreeMap.get _ f) as [sig|]; [|done]. destruct (Signature.eqb _ _); [|done].
  intros; simplify_eq. done.
Qed.

Lemma local_closure_eq f_egress f e : f ∈ mains ->
  exists ws x, length ws = arity f /\
  Compile.local_closure f_egress f e =
  Ok (close ws (Expr.subst (arity f) (Expr.call (endpoint f_egress f) [BVar x (arity f - 1)]) false e)).
Proof.
  intros Hf. unfold mains in Hf. set_unfold in Hf. destruct_or!; subst; try done.
  - by exists ["req"; "payload"], "req".
  - by exists ["req"; "payload"], "req".
  - by exists ["con"], "conn".
Qed.

(** ** Dead code elimination leaves the one function *)

Lemma aux_deadcode_frag own stmt e g :
  frag stmt e = true -> Deadcode.aux_deadcode_elim (FT := CPFlatTyp) own e g = g.
Proof.
  assert (forall es stmt g,
    Forall (fun e => forall stmt g, frag stmt e = true -> Deadcode.aux_deadcode_elim (FT := CPFlatTyp) own e g = g) es ->
    forallb (frag stmt) es = true ->
    foldl (fun g e => Deadcode.aux_deadcode_elim (FT := CPFlatTyp) own e g) g es = g) as Hall.
  { clear. induction 1 as [|x es Hx _ IH]; simpl; [done|]. intros [Fx Fes]%andb_true_iff.
    by rewrite (Hx _ _ Fx), IH. }
  revert stmt g. induction e as [v|v u|l|e IH|p e IH|op e1 e2 IH1 IH2|b es IH|vs e1 e2|op vs e1 e2 acc|v e
    |c a o IHc IHa IHo|vs ms e a|c e a|f' args b IH] using Expr_ind'; intros stmt g Hf; try done; simpl in *.
  - apply andb_true_iff in Hf as [_ Hf]. eauto.
  - eauto.
  - apply andb_true_iff in Hf as [[_ F1]%andb_true_iff F2]. by rewrite (IH1 _ _ F1), (IH2 _ _ F2).
  - destruct b; try done. by eapply Hall.
  - apply andb_true_iff in Hf as [[Fc Fa]%andb_true_iff Fo]. rewrite (IHc _ _ Fc), (IHa _ _ Fa).
    destruct o as [x|]; [|done]. by eapply IHo.
  - apply andb_true_iff in Hf as [Hp Hfs]. rewrite (Hall _ _ _ IH Hfs). unfold FnHeaders.is_internal.
    by rewrite (pure_is_builtin _ Hp), orb_true_r.
Qed.

Lemma close_deadcode own ws e g :
  frag true e = true -> Deadcode.aux_deadcode_elim (FT := CPFlatTyp) own (close ws e) g = g.
Proof. intros Hf. induction ws; simpl; [by eapply aux_deadcode_frag|done]. Qed.

Context `{!PetgraphLaws}.

Lemma deadcode_single f ws e (sig : Signature CPFlatTyp) ext :
  frag true e = true ->
  Deadcode.deadcode_elim (mkProgram [(f, close ws e)] ext [(f, sig)]) [f] =
  Val (mkProgram [(f, close ws e)] ext [(f, sig)]).
Proof.
  intros Hf. unfold Deadcode.deadcode_elim. set (p := mkProgram _ _ _).
  assert (forall A (x : A), BTreeMap.get [(f, x)] f = Some x) as Hget by (intros; simpl; by rewrite cmp_refl).
  assert (Deadcode.build_graph p (BTreeMap.keys (headers p)) CallGraph.empty
          = Val (CallGraph.add_node CallGraph.empty f)) as ->.
  { change (BTreeMap.keys (headers p)) with [f]. cbn [Deadcode.build_graph]. unfold CallGraph.node.
    change (cg_nodes (CallGraph.add_node CallGraph.empty f)) with [(f, 0)]. rewrite Hget. simpl mbind.
    rewrite cmp_refl. simpl mbind. by rewrite close_deadcode. }
  simpl mbind. unfold PreProgram.to_program, CallGraph.unreachable. cbn [program call_graph].
  change (cg_nodes (CallGraph.add_node CallGraph.empty f)) with [(f, 0)]. cbn [omap list_omap]. rewrite Hget.
  cbn [existsb snd]. assert (has_path_connecting (cg_graph (CallGraph.add_node CallGraph.empty f)) 0 0 = true) as ->
    by (by apply path_spec). done.
Qed.

Lemma mains_length f : f ∈ mains -> exists args, Compile.local_args f = Some args /\ length args = arity f.
Proof. intros Hf. unfold mains in Hf. set_unfold in Hf. destruct_or!; subst; by eexists. Qed.

Lemma endpoint_pure f_egress f : f ∈ mains -> pure (endpoint f_egress f) = true.
Proof. intros Hf. unfold mains in Hf. set_unfold in Hf. by destruct_or!; subst; destruct f_egress. Qed.

(** What a function is compiled to. *)
Definition compiled (f_egress : bool) (f : string) (i : ID) (body : CPExpr) (n_pol : GlobalPolicy) : Prop :=
  exists ws e sig, length ws = arity f /\ frag true e = true /\
    n_pol = mkPolicy (mkProgram [(f, close ws e)] Externals.default [(f, sig)])
              [(f, Args (Z.of_nat (arity f)))] /\
    forall x ρ ep r, length ρ = arity f -> Forall (fun l => cp_exact l = true) (ep :: ρ) ->
      cp_den ρ (Expr.call (endpoint f_egress f) [BVar x (arity f - 1)]) = Some (false, ep) ->
      cp_den (ρ ++ (if f_egress then [ep; Literal.id i] else [Literal.id i; ep])) body = Some r ->
      exists b, cp_den ρ e = Some (b, r.2).

Lemma compile_helper_single pol f ws e n_pol : f ∈ mains -> frag true e = true ->
  Compile.compile_helper pol f (mkPolicy (mkProgram (BTreeMap.insert f (close ws e) []) Externals.default []) []) = Val n_pol ->
  exists sig, n_pol = mkPolicy (mkProgram [(f, close ws e)] Externals.default [(f, sig)])
                        [(f, Args (Z.of_nat (arity f)))].
Proof.
  intros Hf He. unfold Compile.compile_helper.
  destruct (FnHeaders.return_typ _ f) as [t|]; [|done]. cbn [mbind Outcome_bind].
  destruct (mains_length f Hf) as (args & -> & Hl).
  cbn [pol_program fn_policies code externals headers BTreeMap.insert FnPolicies.set_args].
  rewrite deadcode_single by done. intros Hv. eexists. 
  assert (as_u8 (Z.of_nat (length args)) = Z.of_nat (arity f)) as Ha by (rewrite Hl; unfold arity; by destruct (_ =? _)).
  rewrite Ha in Hv. unfold FnPolicies.set_args in Hv. cbv [mret Outcome_ret mbind Outcome_bind] in Hv. simplify_eq. done.
Qed.

Lemma compile_function_spec fuel fe f_egress pol f i vs body w n_pol w' :
  f ∈ mains -> length vs = S (S (arity f)) -> frag true body = true -> Exact.id i = true ->
  shadows_none (code (pol_program pol)) = true ->
  Compile.compile_function (H0 := interp fe) fuel f_egress pol f i (close vs body) w = (Val n_pol, w') ->
  w' = w /\ compiled f_egress f i body n_pol.
Proof.
  intros Hf Hvs Hb Hi Hs Hc. unfold Compile.compile_function in Hc.
  apply bind_val_inv in Hc as (n & w1 & Hn & Hc). apply lift_val in Hn as [Hn ->].
  destruct (Compile.check_header pol f) as [n'|] eqn:Eh; [|done]. simpl in Hn. simplify_eq.
  apply check_header_arity in Eh as ->; [|done].
  destruct vs as [|v1 [|v2 vs]]; [done..|]. simpl in Hvs.
  set (k := if f_egress then S (S (arity f)) - 1 else S (S (arity f)) - 2) in Hc.
  destruct (propagate_close f_egress k (LitExpr (Literal.id i)) v1 v2 vs body (frag_not_closure _ _ Hb)) as [v Hp].
  rewrite Hp in Hc. clear Hp. set (body0 := Expr.subst k (LitExpr (Literal.id i)) true body) in Hc.
  assert (frag true body0 = true) as Hb0 by (by apply frag_subst_lit).
  replace (S (S (arity f)) - 1) with (length (v :: vs)) in Hc by (simpl; lia).
  rewrite at_depth_close in Hc by (by eapply frag_not_closure). cbn [lift unwrap] in Hc.
  erewrite bind_val in Hc by (by apply lift_val). erewrite bind_val in Hc by (by apply lift_val).
  apply bind_val_inv in Hc as ([b e] & w1 & He & Hc). unfold PEval.pevaluate in He.
  apply bind_val_inv in He as ([b0 e0] & w2 & He & Hr). cbv [mret Comp_ret] in Hr. simplify_eq.
  apply (peval_good pure cp_call_exact (code (pol_program pol))) with (stmt := true) in He
    as [-> (Fe & _ & _ & Ge)]; [|by intros; apply shadows_none_get|done].
  destruct (local_closure_eq f_egress f (Expr.strip_return e0) Hf) as (ws & x & Hws & Hlc). rewrite Hlc in Hc.
  erewrite bind_val in Hc by (by apply lift_val). apply lift_val in Hc as [Hc ->]. split; [done|].
  set (e := Expr.subst (arity f) _ false _) in Hc.
  assert (frag true e = true) as Hfe.
  { apply frag_subst_call; [|by apply frag_strip]. simpl. by rewrite endpoint_pure. }
  apply compile_helper_single in Hc as [sig ->]; [|done..]. exists ws, e, sig. split_and!; [done..|].
  intros x' ρ ep r Hρ [Hep Hall]%Forall_cons Hcall Hden.
  pose proof (den_subst_call (Expr.call (endpoint f_egress f) [BVar x (arity f - 1)]) ep ρ true
    (Expr.strip_return e0) (frag_strip _ _ Fe) Hcall) as Hd.
  rewrite Hρ in Hd. fold e in Hd. rewrite Hd. apply den_strip, Ge; [by apply Forall_app; auto|].
  rewrite <- Hden. subst body0 k. clear -Hb Hρ. destruct f_egress.
  - pose proof (den_subst_lit (Literal.id i) (ρ ++ [ep]) [] true body Hb) as Hs.
    rewrite length_app, Hρ, app_nil_r, <- app_assoc in Hs. simpl in Hs.
    by replace (S (S (arity f)) - 1) with (arity f + 1) by lia.
  - pose proof (den_subst_lit (Literal.id i) ρ [ep] true body Hb) as Hs. rewrite Hρ in Hs.
    by replace (S (S (arity f)) - 2) with (arity f) by lia.
Qed.

(** ** All protocols, and conversion *)

Lemma specialisable_elem f gp proto pol : specialisable f gp = true -> (proto, pol) ∈ gp ->
  shadows_none (code (pol_program pol)) = true /\
  forall e, BTreeMap.get (code (pol_program pol)) f = Some e ->
    exists vs body, e = close vs body /\ length vs = S (S (arity f)) /\ frag true body = true.
Proof.
  unfold specialisable. rewrite forallb_Forall, Forall_forall. intros Hs Hin%Hs. simpl in Hin.
  apply andb_true_iff in Hin as [Hn He]. split; [done|]. intros e Hg. rewrite Hg in He. by apply in_fragment_close.
Qed.

Lemma close_inj vs vs' (e e' : CPExpr) :
  length vs' = length vs -> close vs' e' = close vs e -> vs' = vs /\ e' = e.
Proof.
  revert vs'. induction vs as [|v vs IH]; intros [|v' vs'] Hl Hc; try done.
  simpl in Hl, Hc. injection Hc as -> Hc. destruct (IH vs') as [-> ->]; [lia|done|done].
Qed.

Lemma compile_protocols_spec fuel fe f_egress f i pols acc w res w' :
  f ∈ mains -> Exact.id i = true -> specialisable f pols = true -> NoDup (BTreeMap.keys pols) -> BTreeMap.wf acc ->
  Compile.compile_protocols (H0 := interp fe) fuel f_egress pols f i acc w = (Val res, w') ->
  w' = w /\ BTreeMap.wf res /\
  (forall proto, proto ∉ BTreeMap.keys pols -> BTreeMap.get res proto = BTreeMap.get acc proto) /\
  (forall proto pol vs body, (proto, pol) ∈ pols ->
    BTreeMap.get (code (pol_program pol)) f = Some (close vs body) ->
    length vs = S (S (arity f)) -> frag true body = true ->
    exists n_pol, BTreeMap.get res proto = Some n_pol /\ compiled f_egress f i body n_pol).
Proof.
  intros Hf Hi. revert acc w. induction pols as [|[p pol] pols IH]; intros acc w Hs Hnd Hwf Hc.
  { cbv [mret Comp_ret Compile.compile_protocols] in Hc. simplify_eq. split_and!; try done. intros; set_solver. }
  destruct (specialisable_elem f ((p, pol) :: pols) p pol Hs) as [Hsh He]; [by left|].
  apply NoDup_cons in Hnd as [Hp Hnd]. apply andb_true_iff in Hs as [_ Hs]. cbn [Compile.compile_protocols] in Hc.
  destruct (BTreeMap.get (code (pol_program pol)) f) as [e|] eqn:Eg.
  - destruct (He e eq_refl) as (vs & body & -> & Hvs & Hb). clear He.
    apply bind_val_inv in Hc as (n_pol & w1 & Hc1 & Hc).
    destruct (compile_function_spec _ _ _ _ _ _ _ _ _ _ _ Hf Hvs Hb Hi Hsh Hc1) as [-> Hn].
    destruct (IH _ _ Hs Hnd (BTreeMap.wf_insert _ _ _ Hwf) Hc) as (-> & Hwf' & Hold & Hnew).
    split_and!; try done.
    + intros proto [Hne Hnin]%not_elem_of_cons. rewrite Hold by done. by apply BTreeMap.get_insert_ne.
    + intros proto pol' vs' body' [Heq|Hin]%elem_of_cons Hg; [|by eapply Hnew]. injection Heq as -> ->. rewrite Eg in Hg.
      intros Hvs' Hb'. assert (vs' = vs /\ body' = body) as [-> ->].
      { apply close_inj; [lia|congruence]. }
      exists n_pol. split; [|done]. rewrite Hold by done. apply BTreeMap.get_insert_eq.
  - destruct (IH _ _ Hs Hnd Hwf Hc) as (-> & Hwf' & Hold & Hnew). split_and!; try done.
    + intros proto [Hne Hnin]%not_elem_of_cons. by apply Hold.
    + intros proto pol' vs' body' [Heq|Hin]%elem_of_cons Hg; [|by eapply Hnew]. injection Heq as -> ->. by rewrite Eg in Hg.
Qed.

Lemma wf_nodup {V} (m : BTreeMap Protocol V) : BTreeMap.wf m -> NoDup (BTreeMap.keys m).
Proof.
  unfold BTreeMap.wf. induction 1 as [|k ks _ IH Hk]; constructor; [|done]. intros Hin.
  rewrite Forall_forall in Hk. by apply Hk, cmp_lt_irrefl in Hin.
Qed.

Lemma insert_all_spec l ps dps : NoDup (BTreeMap.keys l) -> BTreeMap.wf ps ->
  CPPolicy.insert_all l ps = Val dps ->
  (forall proto, proto ∉ BTreeMap.keys l -> BTreeMap.get dps proto = BTreeMap.get ps proto) /\
  (forall proto p, (proto, p) ∈ l ->
    exists d, CPPolicy.policy_to_dp p = Val d /\ BTreeMap.get dps proto = Some d).
Proof.
  revert ps. induction l as [|[k p] l IH]; intros ps Hnd Hwf Hi; cbn [CPPolicy.insert_all] in Hi.
  { simplify_eq. split; [done|]. intros; set_solver. }
  apply NoDup_cons in Hnd as [Hk Hnd]. destruct (CPPolicy.policy_to_dp p) as [d| | |] eqn:Ed; try done. simpl in Hi.
  destruct (IH _ Hnd (BTreeMap.wf_insert _ _ _ Hwf) Hi) as [Hold Hnew]. split.
  - intros proto [Hne Hnin]%not_elem_of_cons. rewrite Hold by done. by apply BTreeMap.get_insert_ne.
  - intros proto q [Heq|Hin]%elem_of_cons; [|by apply Hnew]. simplify_eq. exists d. split; [done|].
    rewrite Hold by done. apply BTreeMap.get_insert_eq.
Qed.

Lemma close_to_dp ws e e' : CPExpr.to_dp e = Val e' -> CPExpr.to_dp (close ws e) = Val (close ws e').
Proof. intros He. induction ws as [|x ws IH]; [done|]. simpl in *. by rewrite IH. Qed.

Lemma policy_to_dp_single f ws e ext sig fp d :
  frag true e = true ->
  CPPolicy.policy_to_dp (mkPolicy (mkProgram [(f, close ws e)] ext [(f, sig)]) fp) = Val d ->
  exists e' sig', sim e e' /\ d = mkPolicy (mkProgram [(f, close ws e')] ext [(f, sig')]) fp.
Proof.
  intros (e' & He & Hsim)%frag_converts Hd.
  unfold CPPolicy.policy_to_dp, CPPolicy.program_to_dp, CPPolicy.code_to_dp, CPPolicy.headers_to_dp in Hd.
  cbn [pol_program fn_policies code headers externals CPTyp.map_outcome fst snd] in Hd.
  rewrite (close_to_dp _ _ _ He) in Hd. cbn [mbind Outcome_bind mret Outcome_ret] in Hd.
  destruct (CPTyp.signature_to_dp sig) as [sig'| | |]; cbn in Hd; try discriminate Hd.
  injection Hd as <-. by exists e', sig'.
Qed.

(** ** The theorem *)

(** The arguments of the global function, for the service, the other endpoint
    and the arguments of the data plane. *)
Definition global_args (f_egress : bool) (i : ID) (ep : DPLiteral) (args : list DPLiteral) : list CPLiteral :=
  (if f_egress then [Literal.id i; from_dp ep] else [from_dp ep; Literal.id i]) ++ map from_dp args.

Lemma call1_to_cp f l r :
  plain f = true ->
  LitInterpret.eval_call (FL := FlatLiteral) f [LitExpr l] = Val (LitExpr r) ->
  LitInterpret.eval_call (FL := CPFlatLiteral) f [LitExpr (from_dp l)] = Val (LitExpr (from_dp r)).
Proof.
  intros Hf Hr. unfold LitInterpret.eval_call in *. rewrite call1_from_dp by done.
  destruct (LitInterpret.eval_call1 l f) as [[x|]| | |]; cbn in *; try done. by injection Hr as ->.
Qed.

Lemma rev_global_args f_egress i ep args :
  rev (global_args f_egress i ep args) =
  rev (map from_dp args) ++ (if f_egress then [from_dp ep; Literal.id i] else [Literal.id i; from_dp ep]).
Proof. unfold global_args. rewrite rev_app_distr. by destruct f_egress. Qed.

Lemma mains_not_pure f : f ∈ mains -> pure f = false.
Proof. intros Hf. unfold mains in Hf. set_unfold in Hf. by destruct_or!; subst. Qed.

Lemma single_get {A} (f : string) (x : A) : BTreeMap.get [(f, x)] f = Some x.
Proof. simpl. by rewrite cmp_refl. Qed.

Lemma single_shadows_none {A} (f : string) (x : A) g : f ∈ mains -> pure g = true -> BTreeMap.get [(f, x)] g = None.
Proof.
  intros Hf Hg. simpl. destruct (cmp g f) eqn:E; [|done..]. apply cmp_eq_iff in E as ->.
  by rewrite mains_not_pure in Hg.
Qed.

Lemma den_endpoint f_egress f x msg payload ep :
  f ∈ mains -> length (msg :: payload) = arity f ->
  LitInterpret.eval_call (endpoint f_egress f) [LitExpr msg] = Val (LitExpr ep) ->
  cp_den (rev (map from_dp (msg :: payload))) (Expr.call (endpoint f_egress f) [BVar x (arity f - 1)])
  = Some (false, from_dp ep).
Proof.
  intros Hf Hl Hep. unfold Expr.call. rewrite den_call, endpoint_pure by done. simpl. rewrite <- Hl. simpl.
  assert ((rev (map from_dp payload) ++ [from_dp msg]) !! (length payload - 0) = Some (from_dp msg)) as Hm.
  { apply list_lookup_middle. rewrite length_rev, length_map. apply Nat.sub_0_r. }
  unfold Pure.value. cbn [Pure.den]. rewrite Hm. cbn [map].
  by rewrite (call1_to_cp _ _ _ (pure_plain _ (endpoint_pure f_egress f Hf)) Hep).
Qed.

(** C5: a compiled policy decides as the global policy does. *)
Theorem compiled_policy_decides {N : Type} (net : Z -> string -> string -> list Value -> N -> result Reader Error * N)
    (fuel n : nat) (f_egress : bool) (gp : GlobalPolicies) (f : string) (i : ID) (dps : DPPolicies)
    (proto : Protocol) (pol : GlobalPolicy) (msg ep : DPLiteral) (payload : list DPLiteral)
    (v : CPExpr) (w w' w1 : World) :
  f ∈ mains -> NoDup (BTreeMap.keys gp) -> specialisable f gp = true -> Exact.id i = true ->
  cp_compile regex_to_string network fuel f_egress gp f i w = (Val dps, w') ->
  (proto, pol) ∈ gp -> is_Some (BTreeMap.get (code (pol_program pol)) f) ->
  length (msg :: payload) = arity f -> Forall (fun l => dp_exact l = true) (msg :: payload) ->
  LitInterpret.eval_call (endpoint f_egress f) [LitExpr msg] = Val (LitExpr ep) ->
  Eval.eval (H2 := interp fuel) (code (pol_program pol)) n
    (Expr.call f (map LitExpr (global_args f_egress i ep (msg :: payload)))) w = (Val v, w1) ->
  w' = w /\ w1 = w /\
  exists dpol l, Policies.policy dps proto = Some dpol /\
    Policy.get dpol f = Some (Args (Z.of_nat (arity f))) /\ v = LitExpr (from_dp l) /\
    exists k, forall m (dw : Externals.World N), k <= m ->
      dp_eval regex_to_string net (code (pol_program dpol)) m (Expr.call f (map LitExpr (msg :: payload))) dw
      = (Val (LitExpr l), dw).
Proof.
  intros Hf Hnd Hs Hi Hc Hin [e Hg] Hlen Hex Hep Hv.
  destruct (specialisable_elem _ _ _ _ Hs Hin) as [Hsh He].
  destruct (He _ Hg) as (vs & body & -> & Hvs & Hb). clear He.
  apply bind_val_inv in Hc as (gpol & w2 & Hc & Hd). apply lift_val in Hd as [Hd ->].
  destruct (compile_protocols_spec _ _ _ _ _ _ _ _ _ _ Hf Hi Hs Hnd BTreeMap.wf_nil Hc) as (-> & Hwf & _ & Hn).
  destruct (Hn _ _ _ _ Hin Hg Hvs Hb) as (n_pol & Hget & ws & e & sig & Hws & Hfe & -> & Hden). clear Hn.
  assert (NoDup (BTreeMap.keys gpol)) as Hnd' by (by apply wf_nodup).
  destruct (insert_all_spec _ _ _ Hnd' BTreeMap.wf_nil Hd) as [_ Hconv].
  destruct (Hconv proto _ (BTreeMap.get_Some_elem _ _ _ Hget)) as (d & Hd1 & Hd2).
  apply policy_to_dp_single in Hd1 as (e' & sig' & Hsim & ->); [|done].
  set (args := msg :: payload) in *.
  assert (dp_exact ep = true) as Hepx.
  { apply Forall_cons in Hex as [Hm _].
    eapply (dp_call_exact _ [msg]); [by apply endpoint_pure|by constructor|exact Hep]. }
  assert (length vs = length (global_args f_egress i ep args)) as Hvl.
  { rewrite Hvs. unfold global_args. rewrite length_app, length_map, Hlen. by destruct f_egress. }
  destruct (call_denoted pure (H3 := interp fuel) _ (fun g => shadows_none_get _ g Hsh) safe_op cp_exact
    f vs body _ false Hg Hvl n w v w1 Hb Hv) as (-> & r & Hr & ->).
  rewrite rev_global_args in Hr.
  destruct (Hden "" (rev (map from_dp args)) (from_dp ep) r) as [b Hr'];
    [by rewrite length_rev, length_map| |by apply den_endpoint|done|].
  { constructor; [by apply exact_from_dp; eauto|]. apply List.Forall_rev, exact_all_from_dp. eauto. }
  rewrite <- map_rev in Hr'. destruct (Hsim (rev args) b r.2 Hr') as (l & Hl & ->).
  split_and!; [done..|]. eexists _, l. split_and!; [exact Hd2| |done|].
  { unfold Policy.get. simpl. by rewrite cmp_refl. }
  destruct (call_computes pure (H3 := Env.DP_Interp regex_to_string net) [(f, close ws e')]
    (fun g => single_shadows_none f _ g Hf) f ws e' args false (single_get f _) (eq_trans Hws (eq_sym Hlen)) (b, l) Hl) as [k Hk].
  exists k. intros m dw Hm. by apply Hk.
Qed.
End evaluators.

(** ** A concrete global policy *)

(** The services that a request goes to must carry a label, and it must be a GET. *)
Definition test_body : CPExpr :=
  InfixExpr And
    (Expr.call "ID::has_label" [BVar "to" 2; LitExpr (Literal.label [Str "web"])])
    (InfixExpr Equal (Expr.call "HttpRequest::method" [BVar "req" 1]) (LitExpr (Literal.str "GET"))).
Definition test_global_policy : GlobalPolicy :=
  mkPolicy (mkProgram [("allow_rest_request", close ["from"; "to"; "req"; "payload"] test_body)] Externals.default
              [("allow_rest_request",
                Signature.new [Typ.id; Typ.id; Typ.http_request; Typ.data] Typ.bool : Signature CPFlatTyp)]) [].
Definition test_global : GlobalPolicies := [(HTTP, test_global_policy)].
Definition test_service : ID := mkID [] [] None [[Str "client"]].
Definition test_server : ID := mkID [] [] None [[Str "web"]].
Definition test_request : DPLiteral :=
  FlatLit (LHttpRequest (HttpRequest.new "GET" "HTTP/1.1" "/" "" [] (mkConnection ID.default test_server 1))).
Definition test_cp_world : CPWorld nat (Db (Mongo := test_mongo)) :=
  mkCPWorld Externals.default IngressEgress.default 0 [] (fun _ => []).

Notation test_cp_compile := (@cp_compile false test_lib test_petgraph test_serde test_mongo nat (fun _ => "") test_network).

Lemma compiled_policy_decides_witness :
  exists dps dpol (l : DPLiteral),
    test_cp_compile 9 true test_global "allow_rest_request" test_service test_cp_world = (Val dps, test_cp_world) /\
    Policies.policy dps HTTP = Some dpol /\ l = Literal.bool true /\
    exists k, forall m dw, k <= m ->
      @dp_eval false test_lib nat (fun _ => "") test_network (code (pol_program dpol)) m
        (Expr.call "allow_rest_request" (map LitExpr [test_request; FlatLit (LData [])])) dw = (Val (LitExpr l), dw).
Proof.
  destruct (test_cp_compile 9 true test_global "allow_rest_request" test_service test_cp_world) as [r w'] eqn:Hc.
  destruct r as [dps| | |] eqn:Hr; [|by vm_compute in Hc..].
  destruct (@compiled_policy_decides false test_lib test_petgraph test_serde test_mongo nat (fun _ => "") test_network
    test_petgraph_laws nat test_network 9 20 true test_global "allow_rest_request" test_service dps HTTP
    test_global_policy test_request (FlatLit (LID test_server)) [FlatLit (LData [])]
    (LitExpr (Literal.bool true)) test_cp_world w' test_cp_world) as (-> & _ & dpol & l & Hp & _ & Hl & Hk).
  - by repeat first [left|right].
  - repeat constructor; by apply not_elem_of_nil.
  - by vm_compute.
  - by vm_compute.
  - exact Hc.
  - by left.
  - by eexists.
  - done.
  - repeat constructor; by vm_compute.
  - by vm_compute.
  - by vm_compute.
  - assert (l = Literal.bool true) as ->.
    { destruct l as [[]| |]; try discriminate. simpl in Hl. by simplify_eq. }
    destruct Hk as [k Hk]. exists dps, dpol, (Literal.bool true). split_and!; [done..|].
    exists k. intros m dw Hm. apply Hk, Hm.
Defined.

(** ** Where the specialiser changes the decision *)

Definition body_policy (body : CPExpr) : GlobalPolicies :=
  [(HTTP, mkPolicy (mkProgram [("allow_rest_request", close ["from"; "to"; "req"; "payload"] body)] Externals.default
                      (headers (pol_program test_global_policy))) [])].
Definition test_args : list DPLiteral := [test_request; FlatLit (LData ["a"; "b"; "c"]%char)].

(** What the compiled egress policy of a body answers to the request. *)
Definition compiled_answer (body : CPExpr) : Outcome DPExpr :=
  dps ← (test_cp_compile 20 true (body_policy body) "allow_rest_request" test_service test_cp_world).1;
  dpol ← unwrap (Policies.policy dps HTTP);
  (@dp_eval false test_lib nat (fun _ => "") test_network (code (pol_program dpol)) 20
     (Expr.call "allow_rest_request" (map LitExpr test_args)) test_world).1.

(** What the global policy itself answers. *)
Definition global_answer (body : CPExpr) : Outcome CPExpr :=
  pol ← unwrap (Policies.policy (body_policy body) HTTP);
  (Eval.eval (H2 := @CP_Interp false test_lib test_petgraph test_serde test_mongo nat (fun _ => "") test_network 20)
     (code (pol_program pol)) 20
     (Expr.call "allow_rest_request"
        (map LitExpr (global_args true test_service (FlatLit (LID test_server)) test_args))) test_cp_world).1.

Definition not_a_get : CPExpr :=
  InfixExpr NotEqual (Expr.call "HttpRequest::method" [BVar "req" 1]) (LitExpr (Literal.str "GET")).
Definition minus_length : CPExpr :=
  InfixExpr Equal (InfixExpr IMinus (LitExpr (Literal.int 0)) (Expr.call "data::len" [BVar "payload" 0]))
    (LitExpr (Literal.int 3)).
Definition listed : CPExpr :=
  IterExpr Any_ ["x"] (LitExpr (LList [Literal.str "a"]))
    (Closure "x" (InfixExpr Equal (BVar "x" 0) (LitExpr (Literal.str "a")))) None.

(** The rules of the specialiser that change decisions. *)
Section rules.
Context {W : Type} `{Profile} `{Interp CPFlatLiteral W}.
Variable internal : Code CPFlatLiteral.
Notation peval := (PEval.peval internal).

Lemma peval_infix_open n so op e1 e2 w w1 w2 b1 x b2 y :
  peval n so e1 w = (Val (b1, x), w1) -> peval n so e2 w1 = (Val (b2, y), w2) -> b1 && b2 = false ->
  peval (S n) so (InfixExpr op e1 e2) w = (try (Simplify.simplify op b1 x b2 y), w2).
Proof.
  intros He1 He2 Hb. cbn [PEval.peval PEval.peval_with]. unfold PEval.peval_infix, mbind, Comp_bind. rewrite He1, He2.
  by destruct b1, b2.
Qed.

Lemma not_equal_true n so e1 e2 w w1 w2 b1 x b2 y :
  peval n so e1 w = (Val (b1, x), w1) -> peval n so e2 w1 = (Val (b2, y), w2) -> b1 && b2 = false ->
  ExprEq.eqb x y = false ->
  peval (S n) so (InfixExpr NotEqual e1 e2) w = (Val (false, LitExpr (Literal.bool true)), w2).
Proof.
  intros He1 He2 Hb Hne. rewrite (peval_infix_open _ _ _ _ _ _ _ _ _ _ _ _ He1 He2 Hb).
  unfold Simplify.simplify. simpl. by rewrite Hne, Hb.
Qed.

Lemma zero_minus n so e w w1 y :
  peval (S n) so e w = (Val (false, y), w1) ->
  peval (S (S n)) so (InfixExpr IMinus (LitExpr (Literal.int 0)) e) w = (Val (false, y), w1).
Proof. intros He. by rewrite (peval_infix_open (S n) so IMinus (LitExpr (Literal.int 0)) e w w w1 true (LitExpr (Literal.int 0)) false y eq_refl He eq_refl). Qed.

(** What an iteration over a known list becomes: the search for a return
    consumes the results. *)
Definition of_nothing (op : Iter) : CPLiteral :=
  match op with Any_ => Literal.bool false | All => Literal.bool true | _ => LList [] end.

Lemma find_rest_none {A} (f : A -> bool) l : Forall (fun x => f x = false) l -> find_rest f l = (None, []).
Proof. induction 1 as [|x l Hx _ IH]; [done|]. simpl. by rewrite Hx. Qed.

Lemma known_list n so op v body lits w w1 res :
  op ∈ [Any_; All; Map; Syntax.Filter] ->
  PEval.iter_loop (peval (S n)) so [v] body lits None [] w = (Val (None, res), w1) ->
  Forall (fun r => r.1 = true /\ Expr.is_return r.2 = false) res ->
  peval (S (S n)) so (IterExpr op [v] (LitExpr (LList lits)) body None) w = (Val (true, LitExpr (of_nothing op)), w1).
Proof.
  intros Hop Hloop Hres. set (pe := peval (S n)) in *. change (peval (S (S n))) with (PEval.peval_with internal pe).
  assert (pe so (LitExpr (LList lits)) w = (Val (true, LitExpr (LList lits)), w)) as Hl by done. clearbody pe.
  cbn [PEval.peval_with]. unfold PEval.peval_iter. unfold mbind at 1, Comp_bind at 1. rewrite Hl.
  cbn [option_map]. unfold mbind at 1, Comp_bind at 1. rewrite Hloop.
  unfold PEval.iter_result. rewrite find_rest_none.
  - assert (forallb fst res = true) as ->.
    { apply forallb_Forall. eapply Forall_impl; [exact Hres|]. by intros ? [? _]. }
    set_unfold in Hop. destruct_or!; subst; simpl; try done. by destruct lits.
  - apply Forall_map. eapply Forall_impl; [exact Hres|]. by intros ? [_ ?].
Qed.
End rules.


Definition test_peval := PEval.peval (H := false)
  (H0 := @CP_Interp false test_lib test_petgraph test_serde test_mongo nat (fun _ => "") test_network 20) [].
Definition the_method : CPExpr := Expr.call "HttpRequest::method" [BVar "req" 1].
Definition get_literal : CPLiteral := Literal.str "GET".

