(* ===== verification/Identity.v ===== *)
(** * Identities of connections (src/src/armour-proxy/src/policy.rs)

    The proxy's policy actor gives the ends of a connection their identity:
    host names, addresses, port and labels.  Labels are attached to hosts and
    addresses by the control plane; identities are cached, because a miss may
    ask the name service.  The type of URIs is a parameter: the http crate.

    The name service is the one of the lookup ([NameService]).

    The theorems: the caches agree with the tables of labels at all times, so
    that an answer from the cache is the one that is computed from the labels
    and from what the name service answered at this or an earlier lookup,
    except for the port of a URI; a label that is added shows in the next
    identity, also of a host that was cached; a change of the name service
    does not show until the caches are cleared. *)

From Stdlib Require Import ZArith Lia String Ascii List.
From stdpp Require Import base tactics list strings sets.
From S2P Require Import Prelude.
From S2P Require Import Ordered.
From S2P Require Import Strings.
From S2P Require Import Labels.
From S2P Require Import Syntax.
From S2P Require Import Types.
From S2P Require Import Net.
From S2P Require Import Literals.
From S2P Require Import Interpret.

Local Open Scope string_scope.
Local Open Scope list_scope.

(** What the code asks of a URI ([http::uri::Uri]). *)
Class UriLib := {
  Uri : Type;
  uri_parse : string -> option Uri;
  uri_host : Uri -> option string;
  uri_port : Uri -> option Z;
  uri_scheme : Uri -> option string;
  (** The URI made of the authority alone, when there is one. *)
  uri_authority : Uri -> option Uri;
}.

Record SocketAddr := mkSocketAddr { sock_ip : IpAddr; sock_port : Z }.

(** [policy::ID] *)
Inductive PeerID `{UriLib} :=
| PUri (u : Uri)
| PSocketAddr (s : SocketAddr)
| PAnonymous.

Module PeerID.
Section peer.
Context `{UriLib}.
Definition authority (u : Uri) : Uri := match uri_authority u with Some u' => u' | None => u end.
(** [From<Uri>] and [From<Option<SocketAddr>>] *)
Definition of_uri (u : Uri) : PeerID := PUri (authority u).
Definition of_socket (s : option SocketAddr) : PeerID :=
  match s with Some s => PSocketAddr s | None => PAnonymous end.
End peer.
End PeerID.

Record Identity := mkIdentity {
  host_labels : BTreeMap string Labels;
  ip_labels : BTreeMap IpAddr Labels;
  host_cache : BTreeMap string ID;
  ip_cache : BTreeMap IpAddr ID;
}.

Module Identity.
Section identity.
Context `{UriLib}.

Definition default : Identity := mkIdentity [] [] [] [].
Definition clear_caches (i : Identity) : Identity := mkIdentity (host_labels i) (ip_labels i) [] [].
Definition clear_labels (i : Identity) : Identity := clear_caches (mkIdentity [] [] (host_cache i) (ip_cache i)).

(** A label for a key of one of the tables. *)
Definition insert_label {K} `{Ord K} (k : K) (label : Label) (t : BTreeMap K Labels) : BTreeMap K Labels :=
  match BTreeMap.get t k with
  | Some labels => BTreeMap.insert k (BTreeSet.insert label labels) t
  | None => BTreeMap.insert k [label] t
  end.

(** A key without labels is removed; without a label, the key goes. *)
Definition remove_label {K} `{Ord K} (k : K) (label : option Label) (t : BTreeMap K Labels) : BTreeMap K Labels :=
  match label with
  | Some label =>
    match BTreeMap.get t k with
    | Some labels =>
      let labels' := BTreeSet.remove label labels in
      if BTreeSet.contains label labels && (match labels' with [] => true | _ => false end)
      then BTreeMap.remove k t
      else BTreeMap.insert k labels' t
    | None => t
    end
  | None => BTreeMap.remove k t
  end.

Definition with_host_labels (i : Identity) (t : BTreeMap string Labels) : Identity :=
  clear_caches (mkIdentity t (ip_labels i) (host_cache i) (ip_cache i)).
Definition with_ip_labels (i : Identity) (t : BTreeMap IpAddr Labels) : Identity :=
  clear_caches (mkIdentity (host_labels i) t (host_cache i) (ip_cache i)).

Definition add_uri (i : Identity) (u : Uri) (label : Label) : Identity :=
  match uri_host u with
  | Some host => with_host_labels i (insert_label host label (host_labels i))
  | None => i
  end.
Definition add_ip (i : Identity) (ip : IpAddr) (label : Label) : Identity :=
  with_ip_labels i (insert_label ip label (ip_labels i)).
Definition remove_uri (i : Identity) (u : Uri) (label : option Label) : Identity :=
  match uri_host u with
  | Some host => with_host_labels i (remove_label host label (host_labels i))
  | None => i
  end.
Definition remove_ip (i : Identity) (ip : IpAddr) (label : option Label) : Identity :=
  with_ip_labels i (remove_label ip label (ip_labels i)).

Definition scheme_port (u : Uri) : option Z :=
  match uri_scheme u with
  | Some s => if s =? "http" then Some 80%Z else if s =? "https" then Some 443%Z else None
  | None => None
  end.
Definition get_port (u : Uri) : option Z :=
  match uri_port u with Some p => Some p | None => scheme_port u end.

Definition labels_of {K} `{Ord K} (k : K) (t : BTreeMap K Labels) : Labels := unwrap_or [] (BTreeMap.get t k).

(** The identity computed on a miss. *)
Definition host_id `{names : NameService} (i : Identity) (host : string) (port : option Z) : ID :=
  let '(ips, labels) :=
    foldl (fun '(ips, labels) ip => (BTreeSet.insert ip ips, BTreeSet.extend labels (labels_of ip (ip_labels i))))
      ([], BTreeSet.extend [] (labels_of host (host_labels i)))
      (List.filter IpAddr.is_ipv4 (unwrap_or [] (lookup_host host))) in
  mkID [host] ips port labels.

Definition socket_id `{names : NameService} (i : Identity) (ip : IpAddr) (port : Z) : ID :=
  let '(hosts, labels) :=
    match lookup_addr ip with
    | Some host => ([host], BTreeSet.extend [] (labels_of host (host_labels i)))
    | None => ([], [])
    end in
  if IpAddr.is_ipv4 ip then mkID hosts [ip] (Some port) (BTreeSet.extend labels (labels_of ip (ip_labels i)))
  else mkID hosts [] (Some port) labels.

(** [PolicyActor::id], when the name service answers like this. *)
Definition id `{names : NameService} (p : PeerID) (i : Identity) : ID * Identity :=
  match p with
  | PAnonymous => (ID.default, i)
  | PUri u =>
    match uri_host u with
    | Some host =>
      match BTreeMap.get (host_cache i) host with
      | Some d => (d, i)
      | None =>
        let d := host_id i host (get_port u) in
        (d, mkIdentity (host_labels i) (ip_labels i) (BTreeMap.insert host d (host_cache i)) (ip_cache i))
      end
    | None => (mkID [] [] (get_port u) [], i)
    end
  | PSocketAddr s =>
    match BTreeMap.get (ip_cache i) (sock_ip s) with
    | Some d => (ID.set_port d (sock_port s), i)
    | None =>
      let d := socket_id i (sock_ip s) (sock_port s) in
      (d, mkIdentity (host_labels i) (ip_labels i) (host_cache i) (BTreeMap.insert (sock_ip s) d (ip_cache i)))
    end
  end.
End identity.
End Identity.

(** ** Label operations ([LabelOp] of src/src/armour-api/src/proxy.rs) *)

(** Addresses are those of [Ipv4Addr]. *)
Inductive LabelOp :=
| AddIp (l : list (Z * Labels))
| AddUri (l : list (string * Labels))
| RemoveIp (ip : Z) (label : option Label)
| RemoveUri (uri : string) (label : option Label)
| Clear.

Module LabelOps.
Section ops.
Context `{UriLib}.

Definition add_uri_labels (i : Identity) (u : Uri) (ls : Labels) : Identity :=
  foldl (fun i l => Identity.add_uri i u l) i ls.
Definition add_ip_labels (i : Identity) (ip : IpAddr) (ls : Labels) : Identity :=
  foldl (fun i l => Identity.add_ip i ip l) i ls.

(** The new tables, and how many URIs could not be parsed: each is answered
    with [RequestFailed]. *)
Fixpoint add_uris (l : list (string * Labels)) (i : Identity) : nat * Identity :=
  match l with
  | [] => (0, i)
  | (s, ls) :: l' =>
    match uri_parse s with
    | Some u => add_uris l' (add_uri_labels i u ls)
    | None => let '(n, i) := add_uris l' i in (S n, i)
    end
  end.

(** [handle_label_op] *)
Definition handle_label_op (op : LabelOp) (i : Identity) : nat * Identity :=
  match op with
  | AddUri l => add_uris l i
  | AddIp l => (0, foldl (fun i kv => add_ip_labels i (V4 kv.1) kv.2) i l)
  | RemoveUri s label =>
    match uri_parse s with
    | Some u => (0, Identity.remove_uri i u label)
    | None => (1, i)
    end
  | RemoveIp ip label => (0, Identity.remove_ip i (V4 ip) label)
  | Clear => (0, Identity.clear_labels i)
  end.
End ops.
End LabelOps.

(** ** Laws *)

Section laws.
Context `{UriLib}.
Implicit Types (i : Identity) (used : list NameService).

(** The caches hold what was computed from the tables, with what the name
    service answered at the lookups [used]. *)
Record coherent used i : Prop := {
  co_host_wf : BTreeMap.wf (host_cache i);
  co_ip_wf : BTreeMap.wf (ip_cache i);
  co_host_labels : BTreeMap.wf (host_labels i);
  co_ip_labels : BTreeMap.wf (ip_labels i);
  co_host : forall h d, BTreeMap.get (host_cache i) h = Some d ->
    exists names p, names ∈ used /\ d = Identity.host_id (names := names) i h p;
  co_ip : forall a d, BTreeMap.get (ip_cache i) a = Some d ->
    exists names p, names ∈ used /\ d = Identity.socket_id (names := names) i a p;
}.

Lemma coherent_default used : coherent used Identity.default.
Proof. split; simpl; try constructor; done. Qed.

Lemma coherent_clear used i :
  BTreeMap.wf (host_labels i) -> BTreeMap.wf (ip_labels i) -> coherent used (Identity.clear_caches i).
Proof. intros. split; simpl; try constructor; done. Qed.

Lemma coherent_more used used' i : used ⊆ used' -> coherent used i -> coherent used' i.
Proof.
  intros Hu [Hh Ha Hl1 Hl2 Hch Hca]. split; try done.
  - intros h d (names & p & Hn & ->)%Hch. exists names, p. by split; [apply Hu|].
  - intros a d (names & p & Hn & ->)%Hca. exists names, p. by split; [apply Hu|].
Qed.

Lemma wf_insert_label {K} `{OrdLaws K} (k : K) l t : BTreeMap.wf t -> BTreeMap.wf (Identity.insert_label k l t).
Proof. intros Ht. unfold Identity.insert_label. destruct (BTreeMap.get t k); by apply BTreeMap.wf_insert. Qed.

Lemma wf_remove_label {K} `{OrdLaws K} (k : K) l t : BTreeMap.wf t -> BTreeMap.wf (Identity.remove_label k l t).
Proof.
  intros Ht. unfold Identity.remove_label. destruct l as [l|]; [|by apply BTreeMap.wf_remove].
  destruct (BTreeMap.get t k); [|done]. cbv zeta.
  destruct (_ && _); [by apply BTreeMap.wf_remove|by apply BTreeMap.wf_insert].
Qed.

(** Identities depend on the tables only. *)
Lemma host_id_tables `{NameService} i i' h p :
  host_labels i = host_labels i' -> ip_labels i = ip_labels i' -> Identity.host_id i h p = Identity.host_id i' h p.
Proof. unfold Identity.host_id. by intros -> ->. Qed.
Lemma socket_id_tables `{NameService} i i' a p :
  host_labels i = host_labels i' -> ip_labels i = ip_labels i' -> Identity.socket_id i a p = Identity.socket_id i' a p.
Proof. unfold Identity.socket_id. by intros -> ->. Qed.

(** And on the answers for the host, or the address. *)
Lemma host_id_names (n1 n2 : NameService) i h p :
  lookup_host (NameService := n1) h = lookup_host (NameService := n2) h ->
  Identity.host_id (names := n1) i h p = Identity.host_id (names := n2) i h p.
Proof. unfold Identity.host_id. by intros ->. Qed.
Lemma socket_id_names (n1 n2 : NameService) i a p :
  lookup_addr (NameService := n1) a = lookup_addr (NameService := n2) a ->
  Identity.socket_id (names := n1) i a p = Identity.socket_id (names := n2) i a p.
Proof. unfold Identity.socket_id. by intros ->. Qed.

Lemma id_tables `{NameService} p i :
  host_labels (Identity.id p i).2 = host_labels i /\ ip_labels (Identity.id p i).2 = ip_labels i.
Proof.
  unfold Identity.id. destruct p as [u|s|]; [|destruct (BTreeMap.get _ _)|]; try done.
  destruct (uri_host u); [|done]. by destruct (BTreeMap.get _ _).
Qed.

Lemma id_coherent (names : NameService) used p i : coherent used i -> coherent (names :: used) (Identity.id p i).2.
Proof.
  intros Hi%(coherent_more _ (names :: used)); [|set_solver]. pose proof Hi as [Hh Ha Hl1 Hl2 Hch Hca].
  unfold Identity.id. destruct p as [u|s|]; [| |done].
  - destruct (uri_host u) as [h|]; [|done]. destruct (BTreeMap.get _ h) eqn:E; [done|].
    split; try done; [by apply BTreeMap.wf_insert|]. intros h' d. simpl. destruct (decide (h' = h)) as [->|Hne].
    + rewrite BTreeMap.get_insert_eq. intros; simplify_eq. eexists names, _. split; [left|by apply host_id_tables].
    + rewrite BTreeMap.get_insert_ne by done. intros (n & p & Hn & ->)%Hch. eexists n, _. split; [done|by apply host_id_tables].
  - destruct (BTreeMap.get _ _) eqn:E; [done|].
    split; try done; [by apply BTreeMap.wf_insert|]. intros a d. simpl. destruct (decide (a = sock_ip s)) as [->|Hne].
    + rewrite BTreeMap.get_insert_eq. intros; simplify_eq. eexists names, _. split; [left|by apply socket_id_tables].
    + rewrite BTreeMap.get_insert_ne by done. intros (n & p & Hn & ->)%Hca. eexists n, _. split; [done|by apply socket_id_tables].
Qed.

Lemma add_uri_coherent used i u l : coherent used i -> coherent used (Identity.add_uri i u l).
Proof.
  intros Hi. unfold Identity.add_uri. destruct (uri_host u); [|done]. destruct Hi.
  apply coherent_clear; simpl; [by apply wf_insert_label|done].
Qed.
Lemma add_ip_coherent used i a l : coherent used i -> coherent used (Identity.add_ip i a l).
Proof. intros []. apply coherent_clear; simpl; [done|by apply wf_insert_label]. Qed.

Lemma add_uri_labels_coherent used i u ls : coherent used i -> coherent used (LabelOps.add_uri_labels i u ls).
Proof. unfold LabelOps.add_uri_labels. revert i. induction ls; simpl; auto using add_uri_coherent. Qed.
Lemma add_ip_labels_coherent used i a ls : coherent used i -> coherent used (LabelOps.add_ip_labels i a ls).
Proof. unfold LabelOps.add_ip_labels. revert i. induction ls; simpl; auto using add_ip_coherent. Qed.

Lemma add_uris_coherent used l i : coherent used i -> coherent used (LabelOps.add_uris l i).2.
Proof.
  revert i. induction l as [|[s ls] l IH]; intros i Hi; simpl; [done|].
  destruct (uri_parse s); [by apply IH, add_uri_labels_coherent|].
  specialize (IH i Hi). by destruct (LabelOps.add_uris l i).
Qed.

Lemma label_op_coherent used op i : coherent used i -> coherent used (LabelOps.handle_label_op op i).2.
Proof.
  intros Hi. destruct op as [l|l|a l|s l|]; simpl.
  - revert i Hi. induction l; simpl; auto using add_ip_labels_coherent.
  - by apply add_uris_coherent.
  - destruct Hi. apply coherent_clear; simpl; [done|by apply wf_remove_label].
  - destruct (uri_parse s) as [u|]; [|done]. simpl. unfold Identity.remove_uri.
    destruct (uri_host u); [|done]. destruct Hi. apply coherent_clear; simpl; [by apply wf_remove_label|done].
  - apply coherent_clear; simpl; constructor.
Qed.

(** *** The labels of a key *)

Lemma labels_of_insert {K} `{OrdLaws K} (k k' : K) l x t :
  BTreeMap.wf t ->
  x ∈ Identity.labels_of k' (Identity.insert_label k l t) <-> (k' = k /\ x = l) \/ x ∈ Identity.labels_of k' t.
Proof.
  intros Ht. unfold Identity.labels_of, Identity.insert_label.
  destruct (decide (cmp k' k = Eq)) as [->%cmp_eq_iff|Hne].
  - destruct (BTreeMap.get t k) eqn:E; rewrite BTreeMap.get_insert_eq; simpl.
    + rewrite BTreeSet.elem_insert. naive_solver.
    + rewrite list_elem_of_singleton. set_solver.
  - assert (k' <> k) as Hk by (intros ->; by rewrite cmp_refl in Hne).
    destruct (BTreeMap.get t k) eqn:E; rewrite BTreeMap.get_insert_ne by done; naive_solver.
Qed.

Lemma add_uri_labels_elem used i u ls h x :
  coherent used i -> uri_host u = Some h ->
  x ∈ Identity.labels_of h (host_labels (LabelOps.add_uri_labels i u ls)) <->
  x ∈ ls \/ x ∈ Identity.labels_of h (host_labels i).
Proof.
  intros Hi Hu. unfold LabelOps.add_uri_labels. revert i Hi. induction ls as [|l ls IH]; intros i Hi; simpl; [set_solver|].
  rewrite IH by by apply add_uri_coherent. unfold Identity.add_uri. rewrite Hu. simpl.
  rewrite labels_of_insert by apply Hi. set_solver.
Qed.

Lemma add_uri_labels_grow used i u ls h x :
  coherent used i -> x ∈ Identity.labels_of h (host_labels i) ->
  x ∈ Identity.labels_of h (host_labels (LabelOps.add_uri_labels i u ls)).
Proof.
  unfold LabelOps.add_uri_labels. revert i. induction ls as [|l ls IH]; intros i Hi Hx; simpl; [done|].
  apply IH; [by apply add_uri_coherent|]. unfold Identity.add_uri. destruct (uri_host u); [|done]. simpl.
  rewrite labels_of_insert by apply Hi. by right.
Qed.

Lemma add_uris_elem used l i s u h ls x :
  coherent used i -> (s, ls) ∈ l -> uri_parse s = Some u -> uri_host u = Some h -> x ∈ ls ->
  x ∈ Identity.labels_of h (host_labels (LabelOps.add_uris l i).2).
Proof.
  intros Hi Hin Hs Hu Hx. revert i Hi Hin.
  assert (forall l i, coherent used i -> x ∈ Identity.labels_of h (host_labels i) ->
            x ∈ Identity.labels_of h (host_labels (LabelOps.add_uris l i).2)) as Hgrow.
  { clear l. induction l as [|[s' ls'] l IH]; intros i Hi Hxi; simpl; [done|].
    destruct (uri_parse s').
    - apply IH; [by apply add_uri_labels_coherent|by eapply add_uri_labels_grow].
    - specialize (IH i Hi Hxi). by destruct (LabelOps.add_uris l i). }
  induction l as [|[s' ls'] l IH]; intros i Hi Hin; [by apply elem_of_nil in Hin|].
  apply elem_of_cons in Hin as [[= -> ->]|Hin]; simpl.
  - rewrite Hs. apply Hgrow; [by apply add_uri_labels_coherent|].
    apply (add_uri_labels_elem used _ _ _ h); [done..|by left].
  - destruct (uri_parse s'); [apply IH; [by apply add_uri_labels_coherent|done]|].
    specialize (IH i Hi Hin). by destruct (LabelOps.add_uris l i).
Qed.

(** The labels of a computed identity have those of its host. *)
Lemma host_id_labels `{NameService} i h p x :
  x ∈ Identity.labels_of h (host_labels i) -> x ∈ labels (Identity.host_id i h p).
Proof.
  intros Hx. unfold Identity.host_id.
  assert (forall l (s : BTreeSet IpAddr) (t : Labels), x ∈ t ->
    x ∈ (foldl (fun '(ips, labels) ip =>
           (BTreeSet.insert ip ips, BTreeSet.extend labels (Identity.labels_of ip (ip_labels i)))) (s, t) l).2) as Hl.
  { induction l as [|a l IH]; intros s t Ht; simpl; [done|]. apply IH. apply BTreeSet.elem_extend. by right. }
  match goal with |- context [foldl ?f ?a ?l] => specialize (Hl l [] (BTreeSet.extend [] (Identity.labels_of h (host_labels i)))) end.
  destruct (foldl _ _ _). simpl in *. apply Hl. apply BTreeSet.elem_extend. by left.
Qed.

(** The port is the only part of an identity that the port decides. *)
Lemma host_id_port `{NameService} i h p q :
  Identity.host_id i h p = mkID (hosts (Identity.host_id i h q)) (ips (Identity.host_id i h q)) p (labels (Identity.host_id i h q)).
Proof. unfold Identity.host_id. by destruct (foldl _ _ _). Qed.
Lemma socket_id_port `{NameService} i a p q : ID.set_port (Identity.socket_id i a p) q = Identity.socket_id i a q.
Proof. unfold Identity.socket_id. destruct (lookup_addr a); simpl; by destruct (IpAddr.is_ipv4 a). Qed.
End laws.

(** *** Runs *)

(** What the actor does to its identities: label operations and lookups, each
    while the name service answers in its own way.  [used] are its answers at
    the lookups since the caches were empty. *)
Definition caches_empty (i : Identity) : bool :=
  match host_cache i, ip_cache i with [], [] => true | _, _ => false end.
Definition since_empty (used : list NameService) (i : Identity) : list NameService :=
  if caches_empty i then [] else used.
Inductive identity_run `{UriLib} : list NameService -> Identity -> Prop :=
| id_start : identity_run [] Identity.default
| id_label_op used i op : identity_run used i ->
    let i' := (LabelOps.handle_label_op op i).2 in identity_run (since_empty used i') i'
| id_lookup used i (names : NameService) p : identity_run used i ->
    let i' := (Identity.id p i).2 in identity_run (since_empty (names :: used) i') i'.

Lemma coherent_empty `{UriLib} used i : coherent used i -> coherent (since_empty used i) i.
Proof.
  intros Hi. unfold since_empty. destruct (caches_empty i) eqn:E; [|done].
  destruct Hi as [Hh Ha Hl1 Hl2 _ _]. unfold caches_empty in E.
  split; try done; intros k d; destruct (host_cache i), (ip_cache i); done.
Qed.
Lemma run_coherent `{UriLib} used i : identity_run used i -> coherent used i.
Proof.
  induction 1; [apply coherent_default|by apply coherent_empty, label_op_coherent|by apply coherent_empty, id_coherent].
Qed.

(** A miss computes. *)
Lemma id_empty `{UriLib} `{NameService} i p :
  caches_empty i = true ->
  (Identity.id p i).1 =
    match p with
    | PSocketAddr s => Identity.socket_id i (sock_ip s) (sock_port s)
    | PUri u => match uri_host u with
                | Some h => Identity.host_id i h (Identity.get_port u)
                | None => mkID [] [] (Identity.get_port u) []
                end
    | PAnonymous => ID.default
    end.
Proof.
  unfold caches_empty, Identity.id. destruct (host_cache i) eqn:E1, (ip_cache i) eqn:E2; try done. intros _.
  destruct p as [u|s|]; [by destruct (uri_host u)|done..].
Qed.

(** A lookup answers what was computed, now or at an earlier lookup, up to the
    port of a URI. *)
Lemma id_computed `{UriLib} (names : NameService) used i p :
  coherent used i ->
  match p with
  | PSocketAddr s => exists n, n ∈ names :: used /\
      (Identity.id (names := names) p i).1 = Identity.socket_id (names := n) i (sock_ip s) (sock_port s)
  | PUri u => forall h, uri_host u = Some h -> exists n q, n ∈ names :: used /\
      (Identity.id (names := names) p i).1 = Identity.host_id (names := n) i h q
  | PAnonymous => (Identity.id p i).1 = ID.default
  end.
Proof.
  intros Hi. unfold Identity.id. destruct p as [u|s|]; [|destruct (BTreeMap.get _ _) as [d|] eqn:E|]; try done.
  - intros h ->. destruct (BTreeMap.get _ h) as [d|] eqn:E; [|exists names; eexists; split; [left|done]].
    apply (co_host _ _ Hi) in E as (n & q & Hn & ->). exists n, q. split; [by right|done].
  - apply (co_ip _ _ Hi) in E as (n & q & Hn & ->). exists n. split; [by right|]. apply socket_id_port.
  - exists names. split; [left|done].
Qed.

(** Without tables there are no labels. *)
Lemma cleared_labels `{UriLib} `{NameService} i h p : labels (Identity.host_id (Identity.clear_labels i) h p) = [].
Proof.
  unfold Identity.host_id. simpl.
  assert (forall l s, (foldl (fun '(ips, labels) ip =>
    (BTreeSet.insert ip ips, BTreeSet.extend labels (Identity.labels_of ip (ip_labels (Identity.clear_labels i)))))
    (s, []) l).2 = []) as Hl.
  { induction l as [|a l IH]; intros s; simpl; [done|]. apply IH. }
  match goal with |- context [foldl ?f ?a ?l] => specialize (Hl l []) end.
  simpl in Hl. by destruct (foldl _ _ _).
Qed.

(** An operation that changes a table empties the caches. *)
Lemma label_op_clears `{UriLib} op i :
  let i' := (LabelOps.handle_label_op op i).2 in
  host_labels i' = host_labels i /\ ip_labels i' = ip_labels i \/ caches_empty i' = true.
Proof.
  set (P i' := host_labels i' = host_labels i /\ ip_labels i' = ip_labels i \/ caches_empty i' = true).
  assert (forall u ls j, P j -> P (LabelOps.add_uri_labels j u ls)) as Hu.
  { intros u ls. unfold LabelOps.add_uri_labels. induction ls as [|l ls IH]; intros j Hj; simpl; [done|].
    apply IH. unfold Identity.add_uri. destruct (uri_host u); [by right|done]. }
  assert (forall a ls j, P j -> P (LabelOps.add_ip_labels j a ls)) as Ha.
  { intros a ls. unfold LabelOps.add_ip_labels. induction ls as [|l ls IH]; intros j Hj; simpl; [done|]. apply IH. by right. }
  assert (forall l j, P j -> P (LabelOps.add_uris l j).2) as Hl.
  { induction l as [|[s ls] l IH]; intros j Hj; simpl; [done|].
    destruct (uri_parse s); [by apply IH, Hu|]. specialize (IH j Hj). by destruct (LabelOps.add_uris l j). }
  assert (forall (l : list (Z * Labels)) j, P j ->
    P (foldl (fun i kv => LabelOps.add_ip_labels i (V4 kv.1) kv.2) j l)) as Hf.
  { induction l as [|kv l IH]; intros j Hj; simpl; [done|]. by apply IH, Ha. }
  assert (P i) as Hi by by left.
  destruct op as [l|l|a l|s l|]; simpl.
  - by apply Hf.
  - by apply Hl.
  - by right.
  - destruct (uri_parse s) as [u|]; [|by left]. simpl. unfold Identity.remove_uri. destruct (uri_host u); [by right|by left].
  - by right.
Qed.

(** ** Properties *)

(** C36: what the caches may answer: at any time, whatever the name service
    answers now and answered before, the identity of an address is the one
    computed from the present labels and from what the name service answers
    now or answered at a lookup since the caches were last empty; that of a
    URI is so up to its port.  It is the one computed now when, at all these
    lookups, the name service answered for this address, or host, as it does
    now, and when the caches are empty, as they are after every operation that
    changes a label. *)
Theorem cached_identity_computed `{UriLib} (names : NameService) (used : list NameService) (i : Identity)
    (s : SocketAddr) (u : Uri) (h : string) :
  identity_run used i -> uri_host u = Some h ->
  (exists n, n ∈ names :: used /\
     (Identity.id (names := names) (PSocketAddr s) i).1 = Identity.socket_id (names := n) i (sock_ip s) (sock_port s)) /\
  (exists n p, n ∈ names :: used /\ (Identity.id (names := names) (PUri u) i).1 = Identity.host_id (names := n) i h p) /\
  ((forall n, n ∈ used -> lookup_addr (NameService := n) (sock_ip s) = lookup_addr (NameService := names) (sock_ip s)) ->
     (Identity.id (PSocketAddr s) i).1 = Identity.socket_id i (sock_ip s) (sock_port s)) /\
  ((forall n, n ∈ used -> lookup_host (NameService := n) h = lookup_host (NameService := names) h) ->
     exists p, (Identity.id (PUri u) i).1 = Identity.host_id i h p) /\
  (caches_empty i = true ->
     (Identity.id (PSocketAddr s) i).1 = Identity.socket_id i (sock_ip s) (sock_port s) /\
     (Identity.id (PUri u) i).1 = Identity.host_id i h (Identity.get_port u)) /\
  (forall op, let i' := (LabelOps.handle_label_op op i).2 in
     host_labels i' = host_labels i /\ ip_labels i' = ip_labels i \/ caches_empty i' = true).
Proof.
  intros Hr Hu. pose proof (run_coherent _ _ Hr) as Hi. pose proof (id_computed names used i (PSocketAddr s) Hi) as Hs.
  pose proof (id_computed names used i (PUri u) Hi h Hu) as Hh. cbv beta iota in Hs. split_and!; [exact Hs|exact Hh|..].
  - intros Hn. destruct Hs as (n & [->|Hin]%elem_of_cons & ->); [done|]. by apply socket_id_names, Hn.
  - intros Hn. destruct Hh as (n & p & [->|Hin]%elem_of_cons & ->); exists p; [done|]. by apply host_id_names, Hn.
  - intros He. pose proof (id_empty i (PSocketAddr s) He) as Hs'. pose proof (id_empty i (PUri u) He) as Hu'.
    cbv beta iota in Hs', Hu'. by rewrite Hu in Hu'.
  - intros op. apply label_op_clears.
Qed.

(** Label operations take effect at once, also for identities that were
    cached and whatever the name service answers: a label added for a host is
    in the next identity of every URI of that host, and after [Clear]
    identities have no labels. *)
Theorem label_ops_take_effect `{UriLib} (names : NameService) used (i : Identity) (l : list (string * Labels)) (s : string)
    (ls : Labels) (u v : Uri) (h : string) (x : Label) :
  identity_run used i -> (s, ls) ∈ l -> uri_parse s = Some u -> uri_host u = Some h -> x ∈ ls ->
  uri_host v = Some h ->
  x ∈ labels (Identity.id (PUri v) (LabelOps.handle_label_op (AddUri l) i).2).1 /\
  labels (Identity.id (PUri v) (LabelOps.handle_label_op Clear i).2).1 = [].
Proof.
  intros Hi%run_coherent Hin Hs Hu Hx Hv. split.
  - destruct (id_computed names used _ (PUri v) (label_op_coherent _ (AddUri l) i Hi) h Hv) as (n & p & _ & ->).
    apply host_id_labels. by eapply add_uris_elem.
  - destruct (id_computed names used _ (PUri v) (label_op_coherent _ Clear i Hi) h Hv) as (n & p & _ & ->).
    apply cleared_labels.
Qed.

(** A lookup leaves an identity that is answered again, for this host or
    address, whatever the name service answers by then: the entries of the
    caches have no lifetime. *)
Theorem stale_names_are_kept `{UriLib} (n1 n2 : NameService) (i : Identity) (p : PeerID) :
  (forall u, p = PUri u -> uri_host u <> None) -> p <> PAnonymous ->
  (Identity.id (names := n2) p (Identity.id (names := n1) p i).2).1 = (Identity.id (names := n1) p i).1.
Proof.
  intros Hu Hp. unfold Identity.id. destruct p as [u|s|]; [| |done].
  - specialize (Hu u eq_refl). destruct (uri_host u) as [h|]; [|done].
    destruct (BTreeMap.get (host_cache i) h) eqn:E; simpl; [by rewrite E|by rewrite BTreeMap.get_insert_eq].
  - destruct (BTreeMap.get (ip_cache i) (sock_ip s)) eqn:E; simpl; [by rewrite E|].
    rewrite BTreeMap.get_insert_eq. simpl. apply socket_id_port.
Qed.

(** URIs as pairs of a host and a port, for the examples. *)
Definition test_uri : UriLib := {|
  Uri := string * option Z; uri_parse := fun s => Some (s, None); uri_host := fun u => Some u.1; uri_port := snd;
  uri_scheme := fun _ => None; uri_authority := fun u => Some u |}.
Definition test_names (answer : Z) : NameService :=
  {| lookup_addr := fun _ => None; lookup_host := fun _ => Some [V4 answer] |}.
Definition test_op : LabelOp := AddUri [("host", [[Str "x"]])].
Definition test_identity : @Identity := (@LabelOps.handle_label_op test_uri test_op Identity.default).2.

Lemma test_identity_run : @identity_run test_uri [] test_identity.
Proof. exact (@id_label_op test_uri [] _ test_op (@id_start test_uri)). Qed.

(** A host was looked up when its address was 1; now it is 2. *)
Definition test_cached : @Identity :=
  (@Identity.id test_uri (test_names 1) (@PUri test_uri ("host", Some 80%Z)) test_identity).2.
Lemma test_cached_run : @identity_run test_uri [test_names 1] test_cached.
Proof. exact (@id_lookup test_uri [] _ (test_names 1) (@PUri test_uri ("host", Some 80%Z)) test_identity_run). Qed.

Lemma cached_identity_computed_witness :
  exists n p, n ∈ [test_names 2; test_names 1] /\
    (@Identity.id test_uri (test_names 2) (@PUri test_uri ("host", Some 80%Z)) test_cached).1 =
    @Identity.host_id n test_cached "host" p.
Proof.
  exact (proj1 (proj2 (@cached_identity_computed test_uri (test_names 2) [test_names 1] test_cached (mkSocketAddr (V4 1) 80)
    ("host", Some 80%Z) "host" test_cached_run eq_refl))).
Defined.

Lemma label_ops_take_effect_witness :
  let i := (@LabelOps.handle_label_op test_uri (AddUri [("host", [[Str "y"]])]) test_cached).2 in
  [Str "y"] ∈ labels (@Identity.id test_uri (test_names 2) (@PUri test_uri ("host", None)) i).1.
Proof.
  refine (proj1 (@label_ops_take_effect test_uri (test_names 2) _ test_cached [("host", [[Str "y"]])] "host" [[Str "y"]]
    ("host", None) ("host", None) "host" [Str "y"] test_cached_run _ eq_refl eq_refl _ eq_refl)); left.
Defined.

Lemma stale_names_are_kept_witness :
  ips (@Identity.id test_uri (test_names 2) (@PUri test_uri ("host", Some 80%Z)) test_cached).1 = [V4 1].
Proof.
  refine (eq_trans (f_equal ips (@stale_names_are_kept test_uri (test_names 1) (test_names 2) test_identity
    (@PUri test_uri ("host", Some 80%Z)) _ _)) eq_refl); [by intros u [= <-]|done].
Defined.

(** The cache of host identities is keyed by the host alone, but what it
    holds has the port of the URI that was looked up first: of two URIs with
    the same host and different ports, the second one looked up gets the port
    of the first, while addresses get the port of the lookup. *)
Theorem cached_port_is_kept `{UriLib} `{NameService} (i : Identity) (u v : Uri) (h : string) (p q : Z) :
  BTreeMap.get (host_cache i) h = None -> uri_host u = Some h -> uri_host v = Some h ->
  uri_port u = Some p -> uri_port v = Some q ->
  let i' := (Identity.id (PUri u) i).2 in
  port (Identity.id (PUri u) i).1 = Some p /\
  (Identity.id (PUri v) i').1 = (Identity.id (PUri u) i).1 /\
  (forall s t, port (Identity.id (PSocketAddr s) (Identity.id (PSocketAddr t) i).2).1 = Some (sock_port s)).
Proof.
  intros Hn Hu Hv Hp Hq i'. subst i'. split_and!.
  - unfold Identity.id. rewrite Hu, Hn. unfold Identity.get_port. rewrite Hp. unfold Identity.host_id.
    by destruct (foldl _ _ _).
  - unfold Identity.id. rewrite Hu, Hv, Hn. simpl. by rewrite BTreeMap.get_insert_eq.
  - intros s t. generalize (Identity.id (PSocketAddr t) i).2 as j. intros j. unfold Identity.id.
    destruct (BTreeMap.get _ (sock_ip s)); [done|].
    unfold Identity.socket_id. destruct (lookup_addr _); simpl; by destruct (IpAddr.is_ipv4 _).
Qed.

Lemma cached_port_is_kept_witness :
  port (@Identity.id test_uri (test_names 1) (@PUri test_uri ("host", Some 443%Z))
          (@Identity.id test_uri (test_names 1) (@PUri test_uri ("host", Some 80%Z)) test_identity).2).1 = Some 80%Z.
Proof.
  destruct (@cached_port_is_kept test_uri (test_names 1) test_identity ("host", Some 80%Z) ("host", Some 443%Z) "host" 80 443
    eq_refl eq_refl eq_refl eq_refl eq_refl) as (H1 & H2 & _).
  rewrite H2. exact H1.
Defined.
