(* ===== verification/LangTheory.v ===== *)
(** * What linking guarantees

    A program that the linker accepts has a call graph without cycles that
    contains every call of every body, so its functions can be ranked and
    evaluation terminates; it calls declared functions only. *)

From Stdlib Require Import ZArith Lia String Ascii List.
From stdpp Require Import base tactics list strings sets relations.
From S2P Require Import Prelude.
From S2P Require Import Ordered.
From S2P Require Import Strings.
From S2P Require Import Labels.
From S2P Require Import Syntax.
From S2P Require Import Types.
From S2P Require Import Net.
From S2P Require Import Literals.
From S2P Require Import Ast.
From S2P Require Import FnHeaders.
From S2P Require Import Expressions.
From S2P Require Import Interpret.
From S2P Require Import TypeCheck.
From S2P Require Import Meta.
From S2P Require Import Eval.
From S2P Require Import EvalTheory.
From S2P Require Import Termination.
From S2P Require Import TypeCheckTheory.
From S2P Require Import Effects.
From S2P Require Import Externals.
From S2P Require Import DataPlane.
From S2P Require Import Lang.

Local Open Scope string_scope.
Local Open Scope list_scope.

(** The names a list of declarations declares, in order. *)
Definition decl_names {FL} (d : Decl FL) : list string :=
  match d with
  | DFnDecl d => [FnDecl.name d]
  | DExternal e => map (fun h => Syntax.id (ext_name e) ^^ "::" ^^ Head.name h) (ext_headers e)
  end.
Definition declared {FL} (ds : list (Decl FL)) : list string := concat (map decl_names ds).

(** The name of a function of the program: not one of a builtin or service. *)
Definition user_name {FT} `{TFlatTyp FT} `{TBuiltin FT} (f : string) : bool :=
  negb (f =? "option::Some") && negb (FnHeaders.is_internal (FT := FT) f).

Section link.
Context {FT FL : Type} `{TFlatTyp FT} `{TFlatLiteral FT FL} `{TBuiltin FT} `{Lib} `{RegexNew} `{HashOrder}
  `{Petgraph}.
Notation PreProgram := (PreProgram FT FL).

Definition has_edge (g : DiGraph) (i j : nat) : bool :=
  existsb (fun x => Nat.eqb x.1.1 i && Nat.eqb x.1.2 j) (g_edges g).

Lemma has_edge_edge g i j : has_edge g i j = true -> edge g i j.
Proof.
  unfold has_edge, edge. rewrite existsb_Exists, Exists_exists.
  intros ([[a b] l] & Hx & [Ha Hb]%andb_true_iff). simpl in Ha, Hb.
  apply Nat.eqb_eq in Ha as ->. apply Nat.eqb_eq in Hb as ->. by exists l.
Qed.

(** A call that needs no edge, or has one. *)
Definition linked (g : CallGraph) (f c : string) : bool :=
  (c =? "option::Some") || FnHeaders.is_internal (FT := FT) c ||
  match BTreeMap.get (cg_nodes g) f, BTreeMap.get (cg_nodes g) c with
  | Some i, Some j => has_edge (cg_graph g) i j
  | _, _ => false
  end.

(** [g'] has the nodes of [g] and at least its edges. *)
Definition extends (g g' : CallGraph) : Prop :=
  cg_nodes g' = cg_nodes g /\ forall i j, has_edge (cg_graph g) i j = true -> has_edge (cg_graph g') i j = true.

Lemma extends_refl g : extends g g.
Proof. done. Qed.
Lemma extends_trans g1 g2 g3 : extends g1 g2 -> extends g2 g3 -> extends g1 g3.
Proof. intros [Hn1 He1] [Hn2 He2]. split; [congruence|auto]. Qed.

Lemma linked_extends g g' f c : extends g g' -> linked g f c = true -> linked g' f c = true.
Proof.
  intros [Hn He]. unfold linked. rewrite Hn, !orb_true_iff. intros [Hi|Hl]; [by left|]. right.
  destruct (BTreeMap.get (cg_nodes g) f), (BTreeMap.get (cg_nodes g) c); auto.
Qed.

Lemma add_edge_extends g a b l : extends g (CallGraph.add_edge g a b l).
Proof.
  split; [done|]. intros i j. unfold has_edge. simpl. rewrite existsb_app. by intros ->.
Qed.

Lemma add_edge_has g a b l : has_edge (cg_graph (CallGraph.add_edge g a b l)) a b = true.
Proof. unfold has_edge. simpl. rewrite existsb_app. simpl. by rewrite !Nat.eqb_refl, orb_true_r. Qed.

Lemma add_calls_linked f own calls g g' :
  BTreeMap.get (cg_nodes g) f = Some own ->
  PreProgram.add_calls (FT := FT) own calls g = Val g' ->
  extends g g' /\ forall c, c ∈ calls -> linked g' f (cs_name c) = true.
Proof.
  revert g. induction calls as [|c calls IH]; intros g Hf; simpl.
  { intros; simplify_eq. split; [done|]. intros c Hc. by apply elem_of_nil in Hc. }
  destruct (FnHeaders.is_internal (cs_name c)) eqn:Ei.
  - intros Ha. destruct (IH g Hf Ha) as [Hext Hl]. split; [done|]. intros c' [->|Hc']%elem_of_cons; [|auto].
    unfold linked. by rewrite Ei, orb_true_r.
  - unfold CallGraph.node. destruct (BTreeMap.get (cg_nodes g) (cs_name c)) as [j|] eqn:Ej; simpl; [|done].
    intros Ha. set (g1 := CallGraph.add_edge g own j (cs_loc c)) in *.
    destruct (IH g1 Hf Ha) as [Hext Hl].
    split; [eapply extends_trans; [apply add_edge_extends|exact Hext]|].
    intros c' [->|Hc']%elem_of_cons; [|auto]. apply (linked_extends g1); [done|].
    unfold linked. change (cg_nodes g1) with (cg_nodes g). rewrite Hf, Ej.
    unfold g1. by rewrite add_edge_has, orb_true_r.
Qed.

(** ** The headers *)

(** After the first pass has met the names [ns]: they are the names with a
    signature and a node, each met once. *)
Record known_names (ns : list string) (m : PreProgram) : Prop := {
  kn_headers : BTreeMap.wf (headers (program m));
  kn_nodes : BTreeMap.wf (cg_nodes (call_graph m));
  kn_nodup : NoDup ns;
  kn_sig : forall f, is_Some (BTreeMap.get (headers (program m)) f) <-> f ∈ ns;
  kn_node : forall f, is_Some (BTreeMap.get (cg_nodes (call_graph m)) f) <-> f ∈ ns;
}.

Lemma is_some_insert {V} k (v : V) (t : BTreeMap string V) f :
  BTreeMap.wf t -> is_Some (BTreeMap.get (BTreeMap.insert k v t) f) <-> f = k \/ is_Some (BTreeMap.get t f).
Proof.
  intros Hwf. destruct (decide (f = k)) as [->|Hne].
  - rewrite BTreeMap.get_insert_eq. split; [by left|eauto].
  - rewrite BTreeMap.get_insert_ne by done. split; [by right|by intros [?|?]].
Qed.

Lemma add_header_names ns m name sig k l m' :
  known_names ns m -> PreProgram.add_header m name sig k l = Val m' ->
  known_names (name :: ns) m' /\ code (program m') = code (program m).
Proof.
  intros [Hh Hn Hd Hs Hg]. unfold PreProgram.add_header. destruct sig as [s|]; simpl; [|done].
  destruct (BTreeMap.get _ name) eqn:E; simpl; [done|]. intros; simplify_eq. simpl.
  split; [|done]. split; simpl.
  - by apply BTreeMap.wf_insert.
  - by apply BTreeMap.wf_insert.
  - constructor; [|done]. rewrite <- Hs, E. by intros [].
  - intros f. rewrite is_some_insert, elem_of_cons, Hs by done. done.
  - intros f. rewrite is_some_insert, elem_of_cons, Hg by done. done.
Qed.

Lemma known_names_perm ns ns' m : Permutation ns ns' -> known_names ns m -> known_names ns' m.
Proof.
  intros Hp [Hh Hn Hd Hs Hg]. split; [done..|by rewrite <- Hp| |]; intros f; [rewrite Hs|rewrite Hg]; by rewrite Hp.
Qed.

Lemma add_heads_names ns m ename hs m' :
  known_names ns m -> PreProgram.add_heads m ename hs = Val m' ->
  known_names (map (fun h => ename ^^ "::" ^^ Head.name h) hs ++ ns) m' /\ code (program m') = code (program m).
Proof.
  revert ns m. induction hs as [|h hs IH]; simpl; intros ns m Hm; [by intros; simplify_eq|].
  destruct (PreProgram.add_header m _ _ _ _) as [m1| | |] eqn:E; simpl; try done. intros Hm'.
  destruct (add_header_names _ _ _ _ _ _ _ Hm E) as [Hm1 Hc1].
  destruct (IH _ _ Hm1 Hm') as [Hn Hc]. split; [|congruence].
  eapply known_names_perm; [|exact Hn]. symmetry. apply Permutation_middle.
Qed.

Lemma known_names_externals ns m c exts :
  known_names ns m ->
  known_names ns (mkPreProgram (call_graph m) (mkProgram c exts (headers (program m)))).
Proof. by intros []. Qed.

Lemma add_headers_names ns m ds m' :
  known_names ns m -> PreProgram.add_headers m ds = Val m' ->
  known_names (declared ds ++ ns) m' /\ code (program m') = code (program m).
Proof.
  revert ns m. induction ds as [|[e|d] ds IH]; simpl; intros ns m Hm; [by intros; simplify_eq| |].
  - destruct (PreProgram.add_heads m _ _) as [m1| | |] eqn:E; simpl; try done. intros Hm'.
    destruct (add_heads_names _ _ _ _ _ Hm E) as [Hm1 Hc1].
    eapply IH in Hm' as [Hn Hc]; [|by eapply known_names_externals]. split; [|simpl in Hc; congruence].
    eapply known_names_perm; [|exact Hn]. unfold declared. simpl. rewrite app_assoc.
    apply Permutation_app_tail, Permutation_app_comm.
  - destruct (PreProgram.add_header m _ _ _ _) as [m1| | |] eqn:E; simpl; try done. intros Hm'.
    destruct (add_header_names _ _ _ _ _ _ _ Hm E) as [Hm1 Hc1].
    destruct (IH _ _ Hm1 Hm') as [Hn Hc]. split; [|congruence].
    eapply known_names_perm; [|exact Hn]. unfold declared. simpl. symmetry. apply Permutation_middle.
Qed.

(** ** The bodies *)

(** A call that the checker accepts. *)
Definition callable (hs : FnHeaders FT) (c : string) : bool :=
  (c =? "option::Some") || FnHeaders.is_builtin (FT := FT) c ||
  match FnHeaders.typ hs c with Some _ => true | None => false end.

(** A compiled function: closed, its calls accepted and linked. *)
Record body_ok (hs : FnHeaders FT) (g : CallGraph) (f : string) (body : Expr FL) : Prop := {
  body_node : is_Some (BTreeMap.get (cg_nodes g) f);
  body_closed : Expr.lc 0 body = true;
  body_linked : forall_calls (linked g f) body = true;
  body_calls : forall_calls (callable hs) body = true;
}.

Definition bodies_inv (hs : FnHeaders FT) (names : list string) (m : PreProgram) : Prop :=
  headers (program m) = hs /\ BTreeMap.wf (code (program m)) /\
  forall f body, BTreeMap.get (code (program m)) f = Some body ->
    f ∈ names /\ body_ok hs (call_graph m) f body.

Lemma body_extends hs g g' f body : extends g g' -> body_ok hs g f body -> body_ok hs g' f body.
Proof.
  intros Hext [Hn Hc Hl Hk]. split; [by rewrite (proj1 Hext)|done| |done].
  eapply forall_calls_impl; [|exact Hl]. intros c. by apply linked_extends.
Qed.

Lemma known_callable hs calls c : known hs calls c = true -> callable hs c = true.
Proof.
  unfold known, callable. rewrite !orb_true_iff, andb_true_iff. intros [?|[_ ?]]; [by left|by right].
Qed.

Lemma add_decl_inv hs names m d m' :
  bodies_inv hs names m -> FnDecl.name d ∈ names -> PreProgram.add_decl m d = Val m' ->
  bodies_inv hs names m'.
Proof.
  intros (Hh & Hwf & Hb) Hd. unfold PreProgram.add_decl. rewrite Hh.
  destruct (TypeCheck.from_decl hs d) as [[[name e] calls]| | |] eqn:Ed; simpl; try done.
  destruct (from_decl_good _ _ _ _ _ Ed) as [-> [Hlc _ Hcalls]].
  unfold CallGraph.node. destruct (BTreeMap.get _ (FnDecl.name d)) as [own|] eqn:En; simpl; [|done].
  destruct (PreProgram.add_calls own calls (call_graph m)) as [g| | |] eqn:Eg; simpl; try done.
  intros; simplify_eq. destruct (add_calls_linked _ _ _ _ _ En Eg) as [Hext Hlinked].
  split_and!; [done|by apply BTreeMap.wf_insert|]. simpl. intros f body Hf.
  destruct (decide (f = FnDecl.name d)) as [->|Hne].
  - rewrite BTreeMap.get_insert_eq in Hf. simplify_eq. split; [done|]. split; [|done| |].
    + rewrite (proj1 Hext), En. eauto.
    + eapply forall_calls_impl; [|exact Hcalls]. intros c Hc. unfold known in Hc.
      rewrite !orb_true_iff, andb_true_iff, existsb_Exists, Exists_exists in Hc.
      destruct Hc as [[Hc|Hc]|[(cs & Hcs & <-%String.eqb_eq) _]]; [| |by apply Hlinked].
      * unfold linked. by rewrite Hc.
      * unfold linked, FnHeaders.is_internal. by rewrite Hc, !orb_true_r.
    + eapply forall_calls_impl; [|exact Hcalls]. intros c. apply known_callable.
  - rewrite BTreeMap.get_insert_ne in Hf by done. destruct (Hb f body Hf) as [? ?].
    split; [done|]. by eapply body_extends.
Qed.

Lemma add_decls_inv hs names m ds m' :
  bodies_inv hs names m -> declared ds ⊆ names -> PreProgram.add_decls m ds = Val m' ->
  bodies_inv hs names m'.
Proof.
  revert m. induction ds as [|[e|d] ds IH]; simpl; intros m Hm Hds; [by intros; simplify_eq| |].
  - apply IH; [done|]. unfold declared in *. simpl in Hds. set_solver.
  - destruct (PreProgram.add_decl m d) as [m1| | |] eqn:E; simpl; try done.
    apply IH; [|unfold declared in *; simpl in Hds; set_solver].
    eapply add_decl_inv; [done| |done]. unfold declared in Hds. simpl in Hds. set_solver.
Qed.

(** What the second pass keeps of the first. *)
Lemma add_decls_keeps m ds m' :
  PreProgram.add_decls m ds = Val m' ->
  headers (program m') = headers (program m) /\ cg_nodes (call_graph m') = cg_nodes (call_graph m).
Proof.
  revert m. induction ds as [|[e|d] ds IH]; simpl; intros m; [by intros; simplify_eq|apply IH|].
  destruct (PreProgram.add_decl m d) as [m1| | |] eqn:E; simpl; try done. intros Hm.
  destruct (IH _ Hm) as [-> ->]. clear Hm IH. revert E. unfold PreProgram.add_decl.
  destruct (TypeCheck.from_decl _ d) as [[[name e] calls]| | |]; simpl; try done.
  unfold CallGraph.node. destruct (BTreeMap.get _ name) as [own|] eqn:En; simpl; [|done].
  destruct (PreProgram.add_calls own calls (call_graph m)) as [g| | |] eqn:Eg; simpl; try done.
  intros; simplify_eq. simpl. split; [done|]. by destruct (add_calls_linked _ _ _ _ _ En Eg) as [[? _] _].
Qed.

Lemma known_names_default : known_names [] PreProgram.default.
Proof. split; simpl; [constructor..| |]; intros f; (split; [by intros []|by intros ?%elem_of_nil]). Qed.

Lemma from_decls_inv ds m :
  PreProgram.from_decls ds = Val m ->
  known_names (declared ds) m /\ bodies_inv (headers (program m)) (declared ds) m.
Proof.
  unfold PreProgram.from_decls.
  destruct (PreProgram.add_headers PreProgram.default ds) as [m1| | |] eqn:E; simpl; try done. intros Hm.
  destruct (add_headers_names _ _ _ _ known_names_default E) as [Hk Hc]. rewrite app_nil_r in Hk.
  destruct (add_decls_keeps _ _ _ Hm) as [Hh Hn]. split.
  - destruct Hk. by split; rewrite ?Hh, ?Hn.
  - eapply add_decls_inv; [|reflexivity|exact Hm]. split_and!; [done| |]; rewrite Hc; [constructor|done].
Qed.

(** Adding a declaration compiles it and leaves the other functions. *)
Lemma add_decl_code m d m' :
  BTreeMap.wf (code (program m)) -> PreProgram.add_decl m d = Val m' ->
  BTreeMap.wf (code (program m')) /\
  (exists e calls, TypeCheck.from_decl (headers (program m)) d = Val (FnDecl.name d, e, calls) /\
                   BTreeMap.get (code (program m')) (FnDecl.name d) = Some e) /\
  forall f, f <> FnDecl.name d -> BTreeMap.get (code (program m')) f = BTreeMap.get (code (program m)) f.
Proof.
  intros Hwf. unfold PreProgram.add_decl.
  destruct (TypeCheck.from_decl _ d) as [[[name e] calls]| | |] eqn:Ed; simpl; try done.
  destruct (from_decl_good _ _ _ _ _ Ed) as [-> _].
  destruct (CallGraph.node _ _) as [own| | |]; simpl; try done.
  destruct (PreProgram.add_calls _ _ _) as [g| | |]; simpl; try done.
  intros; simplify_eq. simpl. split_and!; [by apply BTreeMap.wf_insert| |].
  - exists e, calls. by rewrite BTreeMap.get_insert_eq.
  - intros f Hf. by rewrite BTreeMap.get_insert_ne by done.
Qed.

Lemma decl_name_in (d : FnDecl FL) ds : DFnDecl d ∈ ds -> FnDecl.name d ∈ declared ds.
Proof.
  intros Hd. unfold declared. apply list_elem_of_In, in_concat. exists [FnDecl.name d].
  split; [|by left]. apply list_elem_of_In, (list_elem_of_fmap_2 decl_names _ _ Hd).
Qed.

Lemma add_decls_code m ds m' :
  BTreeMap.wf (code (program m)) -> NoDup (declared ds) -> PreProgram.add_decls m ds = Val m' ->
  (forall f, f ∉ declared ds -> BTreeMap.get (code (program m')) f = BTreeMap.get (code (program m)) f) /\
  forall d, DFnDecl d ∈ ds -> exists e calls,
    TypeCheck.from_decl (headers (program m)) d = Val (FnDecl.name d, e, calls) /\
    BTreeMap.get (code (program m')) (FnDecl.name d) = Some e.
Proof.
  revert m. induction ds as [|d0 ds IH]; intros m Hwf Hnd Hm.
  { simpl in Hm. simplify_eq. split; [done|]. by intros d ?%elem_of_nil. }
  unfold declared in Hnd. simpl in Hnd. apply NoDup_app in Hnd as (_ & Hdisj & Hnd).
  assert (forall f, f ∉ declared (d0 :: ds) -> f ∉ decl_names d0 /\ f ∉ declared ds) as Hsplit.
  { intros f Hf. unfold declared in Hf. simpl in Hf. by apply not_elem_of_app in Hf. }
  destruct d0 as [x|d0]; simpl in Hm.
  { destruct (IH m Hwf Hnd Hm) as [Hf Hd]. split; [intros f Hn; by apply Hf, Hsplit|].
    intros d [?|?]%elem_of_cons; [done|auto]. }
  destruct (PreProgram.add_decl m d0) as [m1| | |] eqn:E; simpl in Hm; try done.
  destruct (add_decl_code _ _ _ Hwf E) as (Hwf1 & (e & calls & He & Hg) & Ho).
  destruct (IH m1 Hwf1 Hnd Hm) as [Hf Hd]. split.
  - intros f Hn. destruct (Hsplit f Hn) as [Hn1 Hn2]. rewrite Hf by done. apply Ho.
    intros ->. by apply Hn1; left.
  - assert (headers (program m1) = headers (program m)) as Hh.
    { apply (add_decls_keeps m [DFnDecl d0] m1). simpl. by rewrite E. }
    intros d [Heq|Hin]%elem_of_cons; [|rewrite <- Hh; auto]. injection Heq as ->.
    exists e, calls. split; [done|]. rewrite Hf, Hg; [done|]. apply Hdisj. by left.
Qed.

(** ** Ranks from the topological order *)

Definition position (ord : list nat) (i : nat) : nat :=
  match list_find (fun j => j = i) ord with Some (k, _) => k | None => 0 end.

Definition graph_rank (g : CallGraph) (ord : list nat) (f : string) : nat :=
  match BTreeMap.get (cg_nodes g) f with Some i => length ord - position ord i | None => 0 end.

Lemma position_lookup ord k i : NoDup ord -> ord !! k = Some i -> position ord i = k.
Proof.
  intros Hnd Hk. unfold position. destruct (list_find _ ord) as [[k' j]|] eqn:E.
  - apply list_find_Some in E as (Hk' & -> & _). by eapply NoDup_lookup.
  - exfalso. rewrite list_find_None, Forall_forall in E. by apply (E i); [eapply list_elem_of_lookup_2|].
Qed.

Lemma linked_ranked `{!PetgraphLaws} ds m :
  PreProgram.from_buf ds = Val m -> Forall (fun f => user_name (FT := FT) f = true) (declared ds) ->
  exists rank, forall code', (forall f b, BTreeMap.get code' f = Some b -> BTreeMap.get (code (program m)) f = Some b) ->
    ranked code' rank.
Proof.
  unfold PreProgram.from_buf. intros Hm Hnames.
  destruct (PreProgram.from_decls ds) as [m'| | |] eqn:Ed; simpl in Hm; try done.
  destruct (CallGraph.check_for_cycles (call_graph m')) as [[]|] eqn:Ec; simpl in Hm; [|done]. simplify_eq.
  unfold CallGraph.check_for_cycles in Ec.
  destruct (toposort (cg_graph (call_graph m))) as [ord|n] eqn:Et; [|by destruct (_ !! n)].
  destruct (from_decls_inv _ _ Ed) as (_ & _ & _ & Hb).
  exists (graph_rank (call_graph m) ord). intros code' Hcode f body Hf.
  destruct (Hb f body (Hcode _ _ Hf)) as [_ [[i Hi] _ Hl _]].
  unfold calls_below. eapply forall_calls_impl; [|exact Hl]. intros c Hc.
  destruct (BTreeMap.get code' c) as [bc|] eqn:Ebc; [|done].
  destruct (Hb c bc (Hcode _ _ Ebc)) as [Hin _]. rewrite Forall_forall in Hnames. specialize (Hnames c Hin).
  unfold user_name in Hnames. apply andb_true_iff in Hnames as [H1'%negb_true_iff H2'%negb_true_iff].
  unfold linked in Hc. rewrite H1', H2', Hi in Hc. simpl in Hc.
  destruct (BTreeMap.get (cg_nodes (call_graph m)) c) as [j|] eqn:Ej; [|done].
  destruct (toposort_order _ _ i j Et (has_edge_edge _ _ _ Hc)) as (ki & kj & Hki & Hkj & Hlt).
  apply Nat.ltb_lt. unfold graph_rank. rewrite Hi, Ej.
  pose proof (toposort_nodup _ _ Et) as Hnd.
  rewrite (position_lookup _ _ _ Hnd Hki), (position_lookup _ _ _ Hnd Hkj).
  apply lookup_lt_Some in Hkj. lia.
Qed.
End link.
