(* ===== verification/Linking.v ===== *)
(** * Linked programs

    The guarantees of the linker (src/src/armour-lang/src/lang.rs) for the
    evaluation of the programs it accepts, and where the dead code
    elimination of complete programs fails. *)

From Stdlib Require Import ZArith Lia String Ascii List.
From stdpp Require Import base tactics list strings sets relations.
From S2P Require Import Prelude.
From S2P Require Import Ordered.
From S2P Require Import Strings.
From S2P Require Import Labels.
From S2P Require Import Syntax.
From S2P Require Import Types.
From S2P Require Import Net.
From S2P Require Import Literals.
From S2P Require Import Ast.
From S2P Require Import FnHeaders.
From S2P Require Import Expressions.
From S2P Require Import Interpret.
From S2P Require Import TypeCheck.
From S2P Require Import Meta.
From S2P Require Import Eval.
From S2P Require Import EvalTheory.
From S2P Require Import Termination.
From S2P Require Import TypeCheckTheory.
From S2P Require Import Effects.
From S2P Require Import Externals.
From S2P Require Import DataPlane.
From S2P Require Import Lang.
From S2P Require Import Graphs.
From S2P Require Import LangTheory.

Local Open Scope string_scope.
Local Open Scope list_scope.

(** ** Reachability and cutting *)

(** A path of calls from [t] to [f]. *)
Definition reaches (g : CallGraph) (t f : string) : Prop :=
  exists i j, BTreeMap.get (cg_nodes g) t = Some i /\ BTreeMap.get (cg_nodes g) f = Some j /\
              rtc (edge (cg_graph g)) i j.

Lemma elem_unreachable `{PetgraphLaws} g top f :
  BTreeMap.wf (cg_nodes g) ->
  f ∈ CallGraph.unreachable g top <->
  is_Some (BTreeMap.get (cg_nodes g) f) /\ forall t, t ∈ top -> ~ reaches g t f.
Proof.
  intros Hwf. unfold CallGraph.unreachable. rewrite list_elem_of_omap. split.
  - intros ([f' j] & Hin & Hx). simpl in Hx. destruct (existsb _ _) eqn:E; [done|]. simplify_eq.
    apply BTreeMap.get_elem in Hin; [|done]. split; [eauto|]. intros t Ht (i & j' & Hi & Hj & Hp). simplify_eq.
    apply not_true_iff_false in E. apply E, existsb_Exists, Exists_exists. exists i.
    split; [apply list_elem_of_omap; eauto|]. by apply path_spec.
  - intros [[j Hj] Hn]. exists (f, j). split; [by apply BTreeMap.get_elem|]. simpl.
    destruct (existsb _ _) eqn:E; [|done]. exfalso.
    apply existsb_Exists, Exists_exists in E as (i & (t & Ht & Hi)%list_elem_of_omap & Hp).
    apply (Hn t Ht). exists i, j. split_and!; [done..|]. by apply path_spec.
Qed.

Lemma get_foldl_remove {V} set (t : BTreeMap string V) f :
  BTreeMap.wf t ->
  BTreeMap.get (foldl (fun c s => BTreeMap.remove s c) t set) f =
  if existsb (String.eqb f) set then None else BTreeMap.get t f.
Proof.
  revert t. induction set as [|s set IH]; intros t Hwf; simpl; [done|].
  rewrite IH by by apply BTreeMap.wf_remove. destruct (String.eqb_spec f s) as [->|Hne]; simpl.
  - rewrite BTreeMap.get_remove_eq by done. by destruct (existsb _ _).
  - by rewrite BTreeMap.get_remove_ne by done.
Qed.

Lemma existsb_elem f set : existsb (String.eqb f) set = true <-> f ∈ set.
Proof.
  rewrite existsb_Exists, Exists_exists. split; [by intros (x & Hx & ->%String.eqb_eq)|].
  intros Hf. exists f. by rewrite String.eqb_refl.
Qed.

Section linking.
Context {FT FL : Type} `{TFlatTyp FT} `{TFlatLiteral FT FL} `{TBuiltin FT} `{Lib} `{RegexNew} `{HashOrder}
  `{PetgraphLaws}.
Notation PreProgram := (PreProgram FT FL).

Lemma from_buf_decls ds (m : PreProgram) :
  PreProgram.from_buf ds = Val m ->
  PreProgram.from_decls ds = Val m /\ CallGraph.check_for_cycles (call_graph m) = Ok tt.
Proof.
  unfold PreProgram.from_buf. destruct (PreProgram.from_decls ds) as [m'| | |]; simpl; try done.
  destruct (CallGraph.check_for_cycles _) as [[]|] eqn:E; simpl; try done. intros; by simplify_eq.
Qed.

Lemma code_to_program (m : PreProgram) fs f :
  BTreeMap.wf (code (program m)) -> fs <> [] ->
  BTreeMap.get (code (PreProgram.to_program m fs)) f =
  if existsb (String.eqb f) (CallGraph.unreachable (call_graph m) fs) then None
  else BTreeMap.get (code (program m)) f.
Proof. intros Hwf Hfs. destruct fs as [|f0 fs]; [done|]. by apply get_foldl_remove. Qed.

Lemma headers_to_program (m : PreProgram) fs f :
  BTreeMap.wf (headers (program m)) -> fs <> [] ->
  BTreeMap.get (headers (PreProgram.to_program m fs)) f =
  if existsb (String.eqb f) (CallGraph.unreachable (call_graph m) fs) then None
  else BTreeMap.get (headers (program m)) f.
Proof. intros Hwf Hfs. destruct fs as [|f0 fs]; [done|]. by apply get_foldl_remove. Qed.

Lemma to_program_sub (m : PreProgram) fs f b :
  BTreeMap.wf (code (program m)) ->
  BTreeMap.get (code (PreProgram.to_program m fs)) f = Some b -> BTreeMap.get (code (program m)) f = Some b.
Proof.
  intros Hwf. destruct (decide (fs = [])) as [->|Hne]; [done|]. rewrite code_to_program by done.
  by destruct (existsb _ _).
Qed.
End linking.

(** ** Properties *)

(** The call graph is accepted exactly when no function leads back to
    itself; a rejected graph has a cycle. *)
Theorem check_for_cycles_exact `{PetgraphLaws} (g : CallGraph) :
  CallGraph.check_for_cycles g = Ok tt <-> ~ exists n, tc (edge (cg_graph g)) n n.
Proof.
  unfold CallGraph.check_for_cycles. destruct (toposort (cg_graph g)) as [ord|n] eqn:Et.
  - split; [|done]. intros _ [n Hn]. pose proof (toposort_nodup _ _ Et) as Hnd.
    assert (forall a b, tc (edge (cg_graph g)) a b ->
      exists i j, ord !! i = Some a /\ ord !! j = Some b /\ i < j) as Htc.
    { induction 1 as [a b Hab|a b c Hab _ (i & j & Hi & Hj & Hij)]; [by eapply toposort_order|].
      destruct (toposort_order _ _ _ _ Et Hab) as (i' & j' & Hi' & Hj' & Hij').
      exists i', j. split_and!; [done..|]. pose proof (NoDup_lookup _ _ _ _ Hnd Hi Hj'). lia. }
    destruct (Htc _ _ Hn) as (i & j & Hi & Hj & Hij). pose proof (NoDup_lookup _ _ _ _ Hnd Hi Hj). lia.
  - split; [by destruct (_ !! n)|]. intros Hn. destruct Hn. exists n. by apply toposort_cycle.
Qed.

(** C24: a program is accepted only when every name is declared once; its
    headers are exactly the declared names, every function has its compiled
    body, and the bodies are closed and call builtins, services and declared
    names only. *)
Theorem accepted_program_linked {FT FL} `{TFlatTyp FT} `{TFlatLiteral FT FL} `{TBuiltin FT} `{Lib} `{RegexNew}
    `{HashOrder} `{PetgraphLaws} (ds : list (Decl FL)) (m : PreProgram FT FL) :
  PreProgram.from_buf ds = Val m ->
  NoDup (declared ds) /\
  (forall f, is_Some (BTreeMap.get (headers (program m)) f) <-> f ∈ declared ds) /\
  (forall d, DFnDecl d ∈ ds -> exists e calls,
     TypeCheck.from_decl (headers (program m)) d = Val (FnDecl.name d, e, calls) /\
     BTreeMap.get (code (program m)) (FnDecl.name d) = Some e) /\
  (forall f body, BTreeMap.get (code (program m)) f = Some body ->
     f ∈ declared ds /\ Expr.lc 0 body = true /\
     forall_calls (callable (headers (program m))) body = true).
Proof.
  intros [Hm _]%from_buf_decls. destruct (from_decls_inv _ _ Hm) as [[Hwf _ Hnd Hs _] (_ & _ & Hb)].
  split_and!; [done|done| |].
  - unfold PreProgram.from_decls in Hm.
    destruct (PreProgram.add_headers PreProgram.default ds) as [m1| | |] eqn:E; simpl in Hm; try done.
    destruct (add_headers_names [] _ _ _ known_names_default E) as [_ Hc].
    destruct (add_decls_keeps _ _ _ Hm) as [-> _]. apply (add_decls_code m1 ds m); [|done..].
    rewrite Hc. constructor.
  - intros f body Hf. destruct (Hb f body Hf) as [? [_ ? _ ?]]. done.
Qed.

(** Keeping what the given functions need keeps exactly the functions
    that a path of calls leads to. *)
Theorem program_cut_spec {FT FL} `{TFlatTyp FT} `{TFlatLiteral FT FL} `{TBuiltin FT} `{Lib} `{RegexNew}
    `{HashOrder} `{PetgraphLaws} (ds : list (Decl FL)) (m : PreProgram FT FL) fs f :
  PreProgram.from_buf ds = Val m -> fs <> [] ->
  (is_Some (BTreeMap.get (headers (PreProgram.to_program m fs)) f) <->
   f ∈ declared ds /\ exists t, t ∈ fs /\ reaches (call_graph m) t f) /\
  forall body, BTreeMap.get (code (PreProgram.to_program m fs)) f = Some body <->
   BTreeMap.get (code (program m)) f = Some body /\ exists t, t ∈ fs /\ reaches (call_graph m) t f.
Proof.
  intros [Hm _]%from_buf_decls Hfs. destruct (from_decls_inv _ _ Hm) as [[Hwf Hwn _ Hs Hg] (_ & Hwc & Hb)].
  rewrite headers_to_program, code_to_program by done.
  assert (f ∈ declared ds -> (exists t, t ∈ fs /\ reaches (call_graph m) t f) <->
                             existsb (String.eqb f) (CallGraph.unreachable (call_graph m) fs) = false) as Hr.
  { intros Hf%Hg. rewrite <- not_true_iff_false, existsb_elem, elem_unreachable by done. split.
    - intros (t & Ht & Hp) [_ Hn]. by eapply Hn.
    - intros Hn. destruct (existsb (fun t => match BTreeMap.get (cg_nodes (call_graph m)) t with
        | Some i => has_path_connecting (cg_graph (call_graph m)) i (default 0 (BTreeMap.get (cg_nodes (call_graph m)) f))
        | None => false end) fs) eqn:E.
      + apply existsb_Exists, Exists_exists in E as (t & Ht & Hp). exists t. split; [done|].
        destruct Hf as [j Hj]. rewrite Hj in Hp. simpl in Hp.
        destruct (BTreeMap.get _ t) as [i|] eqn:Hi; [|done]. exists i, j. by rewrite <- path_spec.
      + destruct Hn. split; [done|]. intros t Ht (i & j & Hi & Hj & Hp). apply not_true_iff_false in E. apply E.
        apply existsb_Exists, Exists_exists. exists t. split; [done|]. rewrite Hi, Hj. by apply path_spec. }
  split.
  - rewrite <- Hs. destruct (existsb _ _) eqn:E.
    + split; [by intros []|]. intros [Hf He]. apply Hr in He; [done|by apply Hs].
    + split; [|by intros []]. intros Hf. split; [done|]. apply Hr; [by apply Hs|done].
  - intros body. destruct (existsb _ _) eqn:E.
    + split; [done|]. intros [Hf He]. apply Hr in He; [done|]. by apply (Hb f body).
    + split; [|by intros []]. intros Hf. split; [done|]. apply Hr; [|done]. by apply (Hb f body).
Qed.

(** The relation that allows every effect. *)
Definition any_state {W} : relation W := fun _ _ => True.
#[export] Instance any_state_preorder {W} : PreOrder (any_state (W := W)).
Proof. by split. Qed.

(** A function that an entry may call: one of [fs], or none of the program's. *)
Definition entry (c : Code FlatLiteral) (fs : list string) (f : string) : bool :=
  existsb (String.eqb f) fs || match BTreeMap.get c f with None => true | Some _ => false end.

(** A declaration outside of the module of the request's metadata. *)
Definition not_ingress (f : string) : bool :=
  match FnHeaders.split f with Some (module, _) => negb (module =? "Ingress") | None => true end.

(** No builtin has the module of the metadata. *)
Lemma builtin_declared f : is_Some (TypBuiltins.builtins (FT := FlatTyp) f) -> declared_call f = true.
Proof.
  assert (forall A (t : list (string * A)) v, forallb declared_call (map fst t) = true ->
    assoc f t = Some v -> declared_call f = true) as Ht.
  { intros A t v Hall Hf%assoc_elem. rewrite forallb_forall in Hall. apply Hall, list_elem_of_In.
    apply (list_elem_of_fmap_2 fst _ _ Hf). }
  intros [s Hs]. unfold TypBuiltins.builtins in Hs.
  destruct (assoc f TypBuiltins.table) as [r|] eqn:E; [refine (Ht _ _ _ _ E); vm_compute; reflexivity|].
  apply fmap_Some in Hs as (r & Er & _). refine (Ht _ _ _ _ Er); vm_compute; reflexivity.
Qed.

Lemma callable_declared hs f :
  callable (FT := FlatTyp) hs f = true -> (is_Some (BTreeMap.get hs f) -> not_ingress f = true) ->
  FnHeaders.is_builtin (FT := FlatTyp) f || declared_call f = true.
Proof.
  unfold callable, FnHeaders.typ. intros Hc Hi.
  destruct (FnHeaders.is_builtin f) eqn:Eb; [done|]. simpl.
  rewrite orb_false_r, orb_true_iff in Hc. destruct Hc as [->%String.eqb_eq|Hc]; [reflexivity|].
  destruct (TypBuiltins.builtins f) eqn:E; [by apply builtin_declared; eauto|].
  unfold declared_call. destruct (TypBuiltins.internal_service f) eqn:Es.
  { destruct (FnHeaders.split f) as [[module ?]|]; [|done]. by destruct (module =? "Ingress"). }
  destruct (BTreeMap.get hs f) eqn:Eh; [|done]. specialize (Hi ltac:(eauto)). unfold not_ingress in Hi.
  destruct (FnHeaders.split f) as [[module ?]|]; [|done]. apply negb_true_iff in Hi. by rewrite Hi.
Qed.

Section dataplane.
Context `{Profile} `{Lib} `{RegexNew} `{HashOrder} `{PetgraphLaws} {Net : Type}.
Variable regex_to_string : PolicyRegex -> string.
Variable network : Z -> string -> string -> list Value -> Net -> result Reader Error * Net.
Notation eval := (dp_eval regex_to_string network).
Notation PreProgram := (PreProgram FlatTyp FlatLiteral).

(** C9: policies of the data plane terminate: when the linker accepts a list
    of declarations, and none is named like a builtin or service, then,
    whatever part of the program is kept, every expression evaluates to a
    result, an error or a panic.  The linker accepts such names (they hold
    [::] in the data plane, so that only externals can have them, but not in
    the control plane), and does not record calls of them: then recursion is
    not seen ([builtin_name_recurs]). *)
Theorem accepted_programs_terminate (ds : list (Decl FlatLiteral)) (m : PreProgram) (fs : list string)
    (e : Expr FlatLiteral) (w : World Net) :
  PreProgram.from_buf ds = Val m ->
  Forall (fun f => user_name (FT := FlatTyp) f = true) (declared ds) ->
  exists n, forall k, n <= k ->
    eval (code (PreProgram.to_program m fs)) k e w = eval (code (PreProgram.to_program m fs)) n e w /\
    (eval (code (PreProgram.to_program m fs)) k e w).1 <> OutOfFuel.
Proof.
  intros Hm Hds. destruct (linked_ranked ds m Hm Hds) as [rank Hr].
  destruct (from_decls_inv _ _ (proj1 (from_buf_decls _ _ Hm))) as (_ & _ & Hwc & _).
  assert (ranked (code (PreProgram.to_program m fs)) rank) as Hrank.
  { apply Hr. intros f b. by apply to_program_sub. }
  destruct (calls_below_converges (H3 := DP_InterpLaws regex_to_string network) _ rank Hrank _ e
    (calls_below_top _ rank e) w) as [n Hn].
  exists n. intros k Hk.
  assert (eval (code (PreProgram.to_program m fs)) k e w = eval (code (PreProgram.to_program m fs)) n e w) as Heq
    by by apply (eval_mono (H2 := Env.DP_Interp regex_to_string network)).
  split; [done|]. by rewrite Heq.
Qed.

(** C23: an accepted program never changes the metadata received with a
    request, unless it declares externals of the name [Ingress]: not by
    calling its own functions, builtins, services or externals. *)
Theorem accepted_programs_keep_ingress (ds : list (Decl FlatLiteral)) (m : PreProgram) (n : nat)
    (e : Expr FlatLiteral) (w : World Net) :
  PreProgram.from_buf ds = Val m ->
  Forall (fun f => not_ingress f = true) (declared ds) ->
  forall_calls (callable (headers (program m))) e = true ->
  ingress (w_meta (eval (code (program m)) n e w).2) = ingress (w_meta w).
Proof.
  intros [Hm _]%from_buf_decls Hds He. destruct (from_decls_inv _ _ Hm) as [[_ _ _ Hs _] (_ & _ & Hb)].
  assert (forall c, callable (headers (program m)) c = true ->
                    FnHeaders.is_builtin (FT := FlatTyp) c || declared_call c = true) as Hcall.
  { intros c Hc. apply (callable_declared _ _ Hc). intros Hh%Hs. rewrite Forall_forall in Hds. by apply Hds. }
  refine (proj1 (proj2 (eval_moves (H3 := DP_InterpLaws regex_to_string network) _ _ same_ingress
    (fun c => FnHeaders.is_builtin (FT := FlatTyp) c || declared_call c) (fun _ _ => eq_refl) _ _ _ n e _)) w).
  - intros f body _ Hf. destruct (Hb f body Hf) as [_ [_ _ _ Hk]]. by eapply forall_calls_impl.
  - done.
  - intros f args b w' Hf _ Hbu. rewrite Hbu in Hf. by apply service_keeps_ingress.
  - by eapply forall_calls_impl.
Qed.

(** C10: cutting what the entry functions do not reach changes no evaluation
    in the data plane, when no declaration is named like a builtin or service
    (calls of such names are not recorded, [builtin_name_recurs]): an
    expression that calls, of the functions of the program, entry functions
    only, has the same outcome and effects in the program that is kept. *)
Theorem cut_keeps_evaluation (ds : list (Decl FlatLiteral)) (m : PreProgram) (fs : list string) (n : nat)
    (e : Expr FlatLiteral) (w : World Net) :
  PreProgram.from_buf ds = Val m ->
  Forall (fun f => user_name (FT := FlatTyp) f = true) (declared ds) ->
  forall_calls (entry (code (program m)) fs) e = true ->
  eval (code (PreProgram.to_program m fs)) n e w = eval (code (program m)) n e w.
Proof.
  intros [Hm _]%from_buf_decls Hds He. destruct (decide (fs = [])) as [->|Hfs]; [done|].
  destruct (from_decls_inv _ _ Hm) as [[_ Hwn _ _ _] (_ & Hwc & Hb)].
  pose (kept := fun c => negb (existsb (String.eqb c) (CallGraph.unreachable (call_graph m) fs)) ||
                         match BTreeMap.get (code (program m)) c with None => true | Some _ => false end).
  assert (forall c, kept c = true <-> BTreeMap.get (code (program m)) c = None \/
                    ~ c ∈ CallGraph.unreachable (call_graph m) fs) as Hkept.
  { intros c. unfold kept. rewrite orb_true_iff, negb_true_iff, <- not_true_iff_false, existsb_elem.
    destruct (BTreeMap.get _ c); naive_solver. }
  symmetry. refine (proj1 (eval_moves (H3 := DP_InterpLaws regex_to_string network) _ _ any_state
    kept _ _ _ _ n e _) w); [| |done|done|].
  - intros c [Hc|Hc]%Hkept; rewrite code_to_program by done.
    + rewrite Hc. by destruct (existsb _ _).
    + rewrite <- existsb_elem, not_true_iff_false in Hc. by rewrite Hc.
  - intros f body Hf Hbody. apply Hkept in Hf as [Hf|Hf]; [congruence|].
    destruct (Hb f body Hbody) as [_ [[i Hi] _ Hl _]]. eapply forall_calls_impl; [|exact Hl].
    intros c Hc. apply Hkept. destruct (BTreeMap.get (code (program m)) c) as [bc|] eqn:Ec; [right|by left].
    destruct (Hb c bc Ec) as [Hin _]. rewrite Forall_forall in Hds. specialize (Hds c Hin).
    unfold user_name in Hds. apply andb_true_iff in Hds as [H1'%negb_true_iff H2'%negb_true_iff].
    unfold linked in Hc. rewrite H1', H2', Hi in Hc. simpl in Hc.
    destruct (BTreeMap.get (cg_nodes (call_graph m)) c) as [j|] eqn:Ej; [|done].
    rewrite elem_unreachable by done. intros [_ Hn]. apply Hf, elem_unreachable; [done|].
    split; [eauto|]. intros t Ht (k & i' & Hk & Hi' & Hp). simplify_eq. apply (Hn t Ht).
    exists k, j. split_and!; [done..|]. eapply rtc_r; [exact Hp|]. by apply has_edge_edge.
  - eapply forall_calls_impl; [|exact He]. intros c Hc. apply Hkept. unfold entry in Hc.
    apply orb_true_iff in Hc as [Hc%existsb_elem|Hc]; [|by destruct (BTreeMap.get _ c); [|left]].
    destruct (BTreeMap.get (code (program m)) c) as [bc|] eqn:Ec; [right|by left].
    destruct (Hb c bc Ec) as [_ [[i Hi] _ _ _]]. rewrite elem_unreachable by done. intros [_ Hn].
    apply (Hn c Hc). exists i, i. by split_and!.
Qed.
End dataplane.

(** ** An example program

    [fn double(x: i64) -> i64 { x * 2 }],
    [fn quadruple(x: i64) -> i64 { double(double(x)) }] and
    [fn unused() -> i64 { double(1) }]. *)

Definition i64_typ : PTyp := PAtom (id0 "i64").
Definition body_of (e : PExpr FlatLiteral) : BlockStmt FlatLiteral :=
  mkBlock [mkLocStmt Loc.dummy (ExprStmt e false false)] false.
Definition fn1 (f : string) (e : PExpr FlatLiteral) : Decl FlatLiteral :=
  DFnDecl (mkFnDecl (mkFnHead (id0 f) [mkParam (id0 "x") i64_typ] (Some i64_typ)) (body_of e)).
Definition pcall (f : string) (e : PExpr FlatLiteral) : PExpr FlatLiteral := PCall Loc.dummy f [at0 e].

Definition test_decls : list (Decl FlatLiteral) :=
  [fn1 "double" (PInfix Multiply (at0 (PIdent "x")) (at0 (PLit (Literal.int 2))));
   fn1 "quadruple" (pcall "double" (pcall "double" (PIdent "x")));
   fn1 "unused" (pcall "double" (PLit (Literal.int 1)))].

Definition test_from_buf : list (Decl FlatLiteral) -> Outcome (PreProgram FlatTyp FlatLiteral) :=
  @PreProgram.from_buf _ _ _ _ _ test_lib test_regex_new test_hash_order test_petgraph.

Definition test_linked : PreProgram FlatTyp FlatLiteral :=
  Eval vm_compute in match test_from_buf test_decls with Val m => m | _ => PreProgram.default end.
Definition run_linked (m : PreProgram FlatTyp FlatLiteral) (fs : list string) (n : nat) (e : Expr FlatLiteral)
    (w : World nat) : Outcome (Expr FlatLiteral) * World nat :=
  @dp_eval false test_lib nat (fun _ => "") test_network
    (code (PreProgram.to_program m fs)) n e w.

Lemma test_linked_ok : test_from_buf test_decls = Val test_linked.
Proof. vm_compute. reflexivity. Qed.

Lemma accepted_program_linked_witness :
  NoDup (declared test_decls) /\ is_Some (BTreeMap.get (headers (program test_linked)) "quadruple").
Proof.
  destruct (@accepted_program_linked _ _ _ _ _ test_lib test_regex_new test_hash_order test_petgraph
    test_petgraph_laws test_decls test_linked test_linked_ok) as (Hn & Hh & _).
  split; [exact Hn|]. apply Hh. vm_compute. apply elem_of_cons. right. apply elem_of_cons. by left.
Defined.

Lemma program_cut_spec_witness :
  (is_Some (BTreeMap.get (headers (PreProgram.to_program test_linked ["quadruple"])) "double") <->
   "double" ∈ declared test_decls /\ exists t, t ∈ ["quadruple"] /\ reaches (call_graph test_linked) t "double") /\
  BTreeMap.get (headers (PreProgram.to_program test_linked ["quadruple"])) "unused" = None.
Proof.
  split; [|vm_compute; reflexivity].
  apply (@program_cut_spec _ _ _ _ _ test_lib test_regex_new test_hash_order test_petgraph
    test_petgraph_laws test_decls test_linked ["quadruple"] "double" test_linked_ok). discriminate.
Defined.

Lemma test_names_ok : Forall (fun f => user_name (FT := FlatTyp) f = true) (declared test_decls).
Proof. repeat constructor. Qed.

Definition test_quadruple : Expr FlatLiteral := Expr.call "quadruple" [LitExpr (Literal.int 10)].

Lemma accepted_programs_terminate_witness :
  exists n, forall k, n <= k ->
    run_linked test_linked ["quadruple"] k test_quadruple test_world =
    run_linked test_linked ["quadruple"] n test_quadruple test_world /\
    (run_linked test_linked ["quadruple"] k test_quadruple test_world).1 <> OutOfFuel.
Proof.
  exact (@accepted_programs_terminate false test_lib test_regex_new test_hash_order test_petgraph
    test_petgraph_laws nat (fun _ => "") test_network test_decls test_linked ["quadruple"] test_quadruple
    test_world test_linked_ok test_names_ok).
Defined.

Lemma accepted_programs_keep_ingress_witness :
  let e := BlockExpr BBlock [Expr.call "Egress::set_id" []; test_quadruple] in
  (run_linked test_linked [] 30 e test_world).1 = Val (LitExpr (Literal.int 40)) /\
  w_meta (run_linked test_linked [] 30 e test_world).2 <> w_meta test_world /\
  ingress (w_meta (run_linked test_linked [] 30 e test_world).2) = ingress (w_meta test_world).
Proof.
  intros e. split; [vm_compute; reflexivity|]. split; [vm_compute; discriminate|].
  refine (@accepted_programs_keep_ingress false test_lib test_regex_new test_hash_order test_petgraph
    nat (fun _ => "") test_network test_decls test_linked 30 e test_world test_linked_ok _ _);
    [repeat constructor|vm_compute; reflexivity].
Defined.

Lemma cut_keeps_evaluation_witness :
  code (PreProgram.to_program test_linked ["quadruple"]) <> code (program test_linked) /\
  run_linked test_linked ["quadruple"] 30 test_quadruple test_world =
  run_linked test_linked [] 30 test_quadruple test_world.
Proof.
  split; [vm_compute; discriminate|].
  refine (@cut_keeps_evaluation false test_lib test_regex_new test_hash_order test_petgraph
    test_petgraph_laws nat (fun _ => "") test_network test_decls test_linked ["quadruple"] 30 test_quadruple
    test_world test_linked_ok test_names_ok _). vm_compute. reflexivity.
Defined.

Lemma check_for_cycles_exact_witness :
  ~ exists n, tc (edge (cg_graph (call_graph test_linked))) n n.
Proof.
  apply (@check_for_cycles_exact test_petgraph test_petgraph_laws). vm_compute. reflexivity.
Defined.

(** ** Where accepted programs misbehave *)

(** [fn i64::abs(x: i64) -> i64 { i64::abs(x) }]: accepted, since calls of
    builtins are no edges of the call graph, and recurs without end, since the
    evaluator looks for a function of the program first. *)
Definition recursive_decls : list (Decl FlatLiteral) := [fn1 "i64::abs" (pcall "i64::abs" (PIdent "x"))].
Definition recursive_linked : PreProgram FlatTyp FlatLiteral :=
  Eval vm_compute in match test_from_buf recursive_decls with Val m => m | _ => PreProgram.default end.
Definition abs_call (l : Literal FlatLiteral) : Expr FlatLiteral := Expr.call "i64::abs" [LitExpr l].
Lemma builtin_name_recurs :
  test_from_buf recursive_decls = Val recursive_linked /\ forall n w, run_linked recursive_linked [] n (abs_call (Literal.int 1)) w = (OutOfFuel, w).
Proof.
  split; [vm_compute; reflexivity|].
  assert (forall n, (forall w, run_linked recursive_linked [] n (abs_call (Literal.int 1)) w = (OutOfFuel, w)) /\
    (forall w, run_linked recursive_linked [] (S n) (abs_call (Literal.int 1)) w = (OutOfFuel, w))) as Hn; [|intros n; apply Hn].
  induction n as [|n [IH1 IH2]]; [by split|]. split; [exact IH2|]. intros w.
  transitivity ((Comp_bind _ _ (fun r => mret (Expr.strip_return r)) (run_linked recursive_linked [] (S n) (abs_call (Literal.int 1)))) w); [done|].
  unfold Comp_bind. by rewrite IH2.
Qed.

(** [a() { b() }] and [b() { 1 }]. *)
Definition two_functions : Program FlatTyp FlatLiteral :=
  mkProgram [("a", Expr.call "b" []); ("b", LitExpr (Literal.int 1))] Externals.default
    [("a", Signature.new [] Typ.i64); ("b", Signature.new [] Typ.i64)].
(** A function and the method of an external. *)
Definition with_external : Program FlatTyp FlatLiteral :=
  mkProgram [("a", LitExpr (Literal.int 1))] Externals.default
    [("Log::put", Signature.new [] Typ.unit); ("a", Signature.new [] Typ.i64)].

(** The elimination of dead code from a complete program may remove a
    function that is called: a function met as a callee before its own turn
    gets a second node, which no edge leads to.  With a header of an external
    it panics. *)
Theorem deadcode_elim_cuts_callees `{PetgraphLaws} :
  (exists p, Deadcode.deadcode_elim two_functions ["a"] = Val p /\
     BTreeMap.get (code p) "a" = Some (Expr.call "b" []) /\ BTreeMap.get (code p) "b" = None) /\
  Deadcode.deadcode_elim with_external ["a"] = Panic.
Proof.
  split; [|vm_compute; reflexivity].
  pose (g := mkGraph ["a"; "b"; "b"] [(0, 1, Loc.dummy)]).
  assert (has_path_connecting g 0 0 = true) as Ha by (apply path_spec; reflexivity).
  assert (has_path_connecting g 0 2 = false) as Hb.
  { apply not_true_iff_false. rewrite path_spec. intros Hp. apply rtc_inv in Hp as [?|(i & [l Hi] & Hp)]; [done|].
    apply list_elem_of_singleton in Hi. simplify_eq. apply rtc_inv in Hp as [?|(j & [l' Hj] & _)]; [done|].
    by apply list_elem_of_singleton in Hj. }
  exists (mkProgram [("a", Expr.call "b" [])] Externals.default [("a", Signature.new [] Typ.i64)]).
  split; [|done]. unfold Deadcode.deadcode_elim.
  assert (Deadcode.build_graph two_functions (BTreeMap.keys (headers two_functions)) CallGraph.empty =
          Val (mkCallGraph g [("a", 0); ("b", 2)])) as -> by (vm_compute; reflexivity).
  assert (CallGraph.unreachable (mkCallGraph g [("a", 0); ("b", 2)]) ["a"] = ["b"]) as Hu.
  { unfold CallGraph.unreachable. simpl. by rewrite Ha, Hb. }
  unfold mbind, Outcome_bind, PreProgram.to_program. cbn [call_graph program]. by rewrite Hu.
Qed.

Lemma deadcode_elim_cuts_callees_witness :
  Deadcode.deadcode_elim with_external ["a"] = Panic.
Proof. exact (proj2 (@deadcode_elim_cuts_callees test_petgraph test_petgraph_laws)). Defined.

Definition block_of (l : list (Stmt FlatLiteral)) : BlockStmt FlatLiteral :=
  mkBlock (map (mkLocStmt Loc.dummy) l) false.
Definition num (n : Z) : LocExpr FlatLiteral := at0 (PLit (Literal.int n)).
(** [fn f(ps) -> i64 { e; 3 }] *)
Definition fn_stmt (ps : list Param) (e : PExpr FlatLiteral) : FnDecl FlatLiteral :=
  mkFnDecl (mkFnHead (id0 "f") ps (Some i64_typ))
    (block_of [ExprStmt e false true; ExprStmt (PLit (Literal.int 3)) false false]).

(** The checker panics on two well-formed bodies: [filter_map] over a
    block that always returns, which its type check lets through, and
    [list::reduce] of an argument that always returns. *)
Theorem checker_panics `{Lib} `{RegexNew} `{HashOrder} (headers : FnHeaders FlatTyp) :
  let returns := PIf (at0 (PLit (Literal.bool true))) (block_of [ReturnStmt (num 1)])
                   (Some (block_of [ReturnStmt (num 2)])) in
  TypeCheck.from_decl headers
    (fn_stmt [] (PIter FilterMap [id0 "x"] (at0 (PList [num 1])) (block_of [ReturnStmt (num 2)]) None)) = Panic /\
  TypeCheck.from_decl headers (fn_stmt [] (PCall Loc.dummy "list::reduce" [at0 returns])) = Panic.
Proof. split; reflexivity. Qed.

(** [external Ingress @ "x" { fn wipe() }] and [fn f() -> i64 { Ingress::wipe(); 3 }] *)
Definition wipe_decls : list (Decl FlatLiteral) :=
  [DExternal (mkExternal (id0 "Ingress") (id0 "x") [mkHead (id0 "wipe") (Some []) None]);
   DFnDecl (fn_stmt [] (PCall Loc.dummy "Ingress::wipe" []))].
Definition labelled_world : World nat :=
  let m := Meta.insert_label Meta.default [Str "secret"] in
  mkWorld Externals.default (IngressEgress.new (Some m) [Str "egress"]) 0 [].

(** A program that declares an external called [Ingress] is accepted, and
    its calls go to the metadata of the request, which it can erase. *)
Theorem declared_ingress_erases_metadata :
  exists m, test_from_buf wipe_decls = Val m /\
    let w := (run_linked m [] 10 (Expr.call "f" []) labelled_world).2 in
    meta_labels (ingress (w_meta labelled_world)) = [[Str "secret"]] /\
    meta_labels (ingress (w_meta w)) = [].
Proof. eexists. split; [vm_compute; reflexivity|]. split; reflexivity. Qed.

(** Two parameters may have one name, and then the body is checked with
    the type of the first and run with the value of the last: the function
    [f(x: i64, x: str) -> i64 { x }] returns a string. *)
Theorem duplicate_parameters_unsound :
  let d := mkFnDecl (mkFnHead (id0 "f") [mkParam (id0 "x") i64_typ; mkParam (id0 "x") (PAtom (id0 "str"))]
                       (Some i64_typ)) (body_of (PIdent "x")) in
  exists m, test_from_buf [DFnDecl d] = Val m /\
    BTreeMap.get (headers (program m)) "f" = Some (Signature.new [Typ.i64; Typ.str] Typ.i64) /\
    (run_linked m [] 10 (Expr.call "f" [LitExpr (Literal.int 1); LitExpr (Literal.str "a")]) test_world).1 =
      Val (LitExpr (Literal.str "a")).
Proof. eexists. split; [vm_compute; reflexivity|]. split; reflexivity. Qed.
