(* ===== verification/Source.v ===== *)
(** * From text to programs (src/src/armour-lang/src/lang.rs, expressions.rs)

    [PreProgram::from_str]: the text of a policy is split into tokens, parsed
    and linked; and [Expr::from_string] for a block or an expression. *)

From Stdlib Require Import ZArith Lia String Ascii List.
From stdpp Require Import base tactics list strings sets relations.
From S2P Require Import Prelude.
From S2P Require Import Ordered.
From S2P Require Import Strings.
From S2P Require Import Labels.
From S2P Require Import Syntax.
From S2P Require Import Types.
From S2P Require Import Net.
From S2P Require Import Literals.
From S2P Require Import Nom.
From S2P Require Import Ast.
From S2P Require Import FnHeaders.
From S2P Require Import Expressions.
From S2P Require Import Interpret.
From S2P Require Import TypeCheck.
From S2P Require Import Lexer.
From S2P Require Import Parser.
From S2P Require Import ParserTheory.
From S2P Require Import LexerTheory.
From S2P Require Import ParserSafety.
From S2P Require Import Meta.
From S2P Require Import Eval.
From S2P Require Import Externals.
From S2P Require Import TypeCheckTheory.
From S2P Require Import DataPlane.
From S2P Require Import Lang.
From S2P Require Import Graphs.
From S2P Require Import Linking.

Local Open Scope string_scope.
Local Open Scope list_scope.

(** The column of a span, which the nom_locate crate counts. *)
Class Columns := get_column : Span -> Z.

Section source.
Context {FT FL : Type} `{TFlatTyp FT} `{TFlatLiteral FT FL} `{TBuiltin FT} `{Lib} `{RegexNew} `{HashOrder}
  `{Petgraph} `{LexLib} `{Columns}.

(** [Tokens::new] and [Tokens::loc] *)
Definition tokens_of (l : list SToken) : Tokens :=
  map (fun t => mkLocToken (mkLoc (sp_line (st_span t)) (get_column (st_span t))) (st_tok t)) l.

(** [many0!] of [parse_program], whose end is where an error is reported. *)
Definition parse_decls : P (list (Decl FL)) := Nom.many0 (Nom.alt [DFnDecl <$> parse_fn_expr; DExternal <$> parse_external]).

(** What is said of tokens that are no declaration: the head and the body are
    parsed again; that the body is read is [unreachable!()]. *)
Definition syntax_error {A} (ts : Tokens) : Outcome A :=
  match parse_fn_head ts with
  | Done rest head =>
    match (enough block_stmt : P (BlockStmt FL)) rest with
    | Done _ _ => Panic
    | NError | Incomplete => Fail (mkError "syntax error in body of function {} starting at line {:?}" [Syntax.id (fn_id head)])
    | NPanic => Panic
    | NFuel => OutOfFuel
    end
  | NError => Fail (error_new "syntax error in function header, starting: {}")
  | Incomplete => Fail (error_new "{:?}")
  | NPanic => Panic
  | NFuel => OutOfFuel
  end.

Definition parse_source (buf : string) : Outcome (list (Decl FL)) :=
  toks ← lex buf;
  let ts := tokens_of toks in
  match parse_program ts with
  | Done _ ds => Val ds
  | NError => match parse_decls ts with Done rest _ => syntax_error rest | _ => Fail (error_new "{:?}") end
  | Incomplete => Fail (error_new "{:?}")
  | NPanic => Panic
  | NFuel => OutOfFuel
  end.

(** [from_str] and [from_buf] *)
Definition from_str (buf : string) : Outcome (PreProgram FT FL) := ds ← parse_source buf; PreProgram.from_decls ds.
Definition from_buf (buf : string) : Outcome (PreProgram FT FL) := ds ← parse_source buf; PreProgram.from_buf ds.

(** ** Theorems *)

(** The tokens at which the declarations end begin none. *)
Lemma parse_decls_stop i rest ds : parse_decls i = Done rest ds ->
  Nom.alt [DFnDecl <$> parse_fn_expr; DExternal <$> parse_external] rest = (NError : IResult Tokens (Decl FL)).
Proof. apply many0_stop. Qed.

(** What is reported as a syntax error is one: its body is not readable after
    all, and the mark of unreachable code in [from_str] is not reached. *)
Lemma syntax_error_fails (ts rest : Tokens) (ds : list (Decl FL)) A :
  parse_decls ts = Done rest ds -> exists e, (syntax_error rest : Outcome A) = Fail e.
Proof.
  intros Hd%parse_decls_stop. unfold syntax_error.
  pose proof (eats_fn_head (S (length rest)) rest (le_n _)) as He.
  simpl in Hd. unfold Nom.or, Nom.complete, parse_fn_expr, fmap, Parser_fmap, mbind, Parser_bind in Hd.
  destruct (parse_fn_head rest) as [rest' head| | | |] eqn:Eh; try done; [|by eexists..].
  pose proof (eats_enough_block (S (length rest')) rest' (le_n _) : match (enough block_stmt : P (BlockStmt FL)) rest' with _ => _ end) as Hb.
  destruct ((enough block_stmt : P (BlockStmt FL)) rest') as [r b| | | |]; try done; by eexists.
Qed.

Context `{!LexLaws}.

(** Declarations or an error, or a panic for one of two reasons. *)
Definition decided {A} (buf : string) (o : Outcome A) : Prop :=
  match o with
  | Val _ | Fail _ => True
  | Panic => oversized buf \/ exists toks, lex buf = Val toks /\ dot_negative (tokens_of toks)
  | OutOfFuel => False
  end.

(** C12: the front end on any text: its declarations, a syntax error, or a panic,
    for one of two reasons: a run of digits in the text that is no [i64], or a
    dot before a negative integer.  It always ends, and what is marked as
    unreachable is not reached. *)
Theorem source_total (buf : string) : decided buf (parse_source buf : Outcome (list (Decl FL))).
Proof.
  unfold parse_source, decided. destruct (lex_cases buf) as [(ts & eof & Hl & _ & _)|[Hl Ho]]; rewrite Hl; [|simpl; by left].
  simpl. set (toks := tokens_of (ts ++ [eof])).
  assert (dot_negative toks -> oversized buf \/ exists toks, Val (ts ++ [eof]) = Val toks /\ dot_negative (tokens_of toks)) as Hp by eauto.
  pose proof (good_program (S (length toks)) toks (le_n _)) as Hg. pose proof (safe_program toks) as Hs.
  destruct (parse_program toks) as [rest ds| | | |]; try done; [|by apply Hp].
  destruct (parse_decls toks) as [rest ds| | | |] eqn:Ed; try done.
  by destruct (syntax_error_fails toks rest ds (list (Decl FL)) Ed) as [e ->].
Qed.
End source.

(** ** An example: tests/policies/pol1.policy *)

Definition test_columns : Columns := fun i => (sp_offset i + 1)%Z.
Definition newline : string := String (ascii_of_nat 10) "".

Definition test_policy : string :=
  join newline
    ["fn allow_rest_request(req: HttpRequest) -> bool { ";
     "    let (from, to) = req.from_to(); ";
     "    to.server_ok() && from.has_label('allowed')";
     "}";
     "";
     "fn server_ok(id: ID) -> bool {";
     "    " ^^ quote "server" ^^ " in id.hosts() &&";
     "    if let Some(port) = id.port() {";
     "        port == 80";
     "    } else {";
     "        // default is port 80";
     "        true";
     "    } ";
     "}"].

Definition test_source (buf : string) : Outcome (list (Decl FlatLiteral)) :=
  @parse_source FlatTyp FlatLiteral _ test_lib test_regex_new test_lexlib test_columns buf.
Definition test_program (buf : string) : Outcome (PreProgram FlatTyp FlatLiteral) :=
  @from_buf FlatTyp FlatLiteral _ _ _ test_lib test_regex_new test_hash_order test_petgraph test_lexlib test_columns buf.

Lemma source_total_witness :
  (exists ds, test_source test_policy = Val ds /\ length ds = 2) /\ test_source "fn f() { . -1 }" = Panic /\
  @decided test_lexlib test_columns _ "fn f() { . -1 }" (test_source "fn f() { . -1 }").
Proof.
  split; [eexists; split; [vm_compute; reflexivity|reflexivity]|]. split; [vm_compute; reflexivity|].
  exact (@source_total FlatTyp FlatLiteral _ _ test_lib test_regex_new test_lexlib test_columns test_lexlaws "fn f() { . -1 }").
Defined.

(** The policy in the repository's tests compiles; a request is refused when
    its label is missing. *)
Example test_policy_compiles : exists m, test_program test_policy = Val m /\
  BTreeMap.keys (code (program m)) = ["allow_rest_request"; "server_ok"].
Proof. eexists. split; [vm_compute; reflexivity|reflexivity]. Qed.
