(* ===== verification/PolicyTheory.v ===== *)
(** * What policies guarantee

    The policies made from an accepted program have a decision for every
    function of the protocol, with the number of arguments that was declared;
    merging prefers one side; and which of the trivial policies are recognised
    as such. *)

From Stdlib Require Import ZArith Lia String Ascii List.
From stdpp Require Import base tactics list strings sets relations.
From S2P Require Import Prelude.
From S2P Require Import Ordered.
From S2P Require Import Strings.
From S2P Require Import Labels.
From S2P Require Import Syntax.
From S2P Require Import Types.
From S2P Require Import Net.
From S2P Require Import Literals.
From S2P Require Import Ast.
From S2P Require Import FnHeaders.
From S2P Require Import Expressions.
From S2P Require Import Interpret.
From S2P Require Import TypeCheck.
From S2P Require Import Termination.
From S2P Require Import TypeCheckTheory.
From S2P Require Import Lang.
From S2P Require Import Graphs.
From S2P Require Import LangTheory.
From S2P Require Import Linking.
From S2P Require Import Policies.

Local Open Scope string_scope.
Local Open Scope list_scope.

(** ** Decisions *)

Section decisions.
Context {FT FL : Type} `{TFlatTyp FT} `{TFlatLiteral FT FL} `{TBuiltin FT}.

(** What the policy of a function is, given its signature in the program. *)
Definition decision_spec (function : string) (signatures : list (Signature FT)) (sig : option (Signature FT))
    (d : option FnPolicy) : Prop :=
  match sig with
  | None => d = Some Allow
  | Some sig =>
    existsb (Policy.type_check function sig) signatures = true /\
    forall args, sig_args sig = Some args -> (Z.of_nat (length args) <= 255)%Z -> d = Some (Args (Z.of_nat (length args)))
  end.

Lemma fn_policies_of_spec (p : Program FT FL) fs fp fp' :
  Policy.fn_policies_of p fs fp = Val fp' -> BTreeMap.wf fp -> NoDup (map fst fs) ->
  BTreeMap.wf fp' /\
  (forall f, f ∉ map fst fs -> BTreeMap.get fp' f = BTreeMap.get fp f) /\
  (forall f sigs, (f, sigs) ∈ fs -> decision_spec f sigs (FnHeaders.typ (headers p) f) (BTreeMap.get fp' f)).
Proof.
  revert fp. induction fs as [|[f sigs] fs IH]; intros fp; simpl.
  { intros; simplify_eq. split_and!; [done..|]. by intros f sigs ?%elem_of_nil. }
  intros Hfp Hwf [Hf Hnd]%NoDup_cons.
  assert (exists fp1, Policy.fn_policies_of p fs fp1 = Val fp' /\ BTreeMap.wf fp1 /\
    (forall g, g <> f -> BTreeMap.get fp1 g = BTreeMap.get fp g) /\
    decision_spec f sigs (FnHeaders.typ (headers p) f) (BTreeMap.get fp1 f)) as (fp1 & H1' & Hwf1 & Ho & Hd).
  { destruct (FnHeaders.typ (headers p) f) as [sig|].
    - destruct (existsb _ _) eqn:Ex; [|done]. unfold decision_spec. destruct (sig_args sig) as [v|].
      + destruct (Z.of_nat (length v) <=? 255)%Z eqn:El.
        * eexists. split; [exact Hfp|]. split; [by apply BTreeMap.wf_insert|]. split.
          { intros g Hg. by rewrite BTreeMap.get_insert_ne. }
          split; [done|]. intros args [= <-] _. by rewrite BTreeMap.get_insert_eq.
        * exists fp. split_and!; try done. intros args [= <-]. lia.
      + exists fp. by split_and!.
    - eexists. split; [exact Hfp|]. split; [by apply BTreeMap.wf_insert|]. split.
      { intros g Hg. by rewrite BTreeMap.get_insert_ne. }
      simpl. by rewrite BTreeMap.get_insert_eq. }
  destruct (IH fp1 H1' Hwf1 Hnd) as (Hw & Hkeep & Hin). split_and!; [done| |].
  - intros g Hg. rewrite not_elem_of_cons in Hg. destruct Hg as [Hg1 Hg2]. by rewrite Hkeep, Ho.
  - intros g gs [[= -> ->]|Hg]%elem_of_cons; [|by apply Hin]. by rewrite Hkeep.
Qed.

Lemma type_check_args function sig1 sig2 args :
  Policy.type_check function sig1 sig2 = true -> sig_args sig1 = Some args ->
  exists args', sig_args sig2 = Some args' /\ length args' = length args.
Proof.
  unfold Policy.type_check. intros [_ Ht]%andb_true_iff Ha. rewrite Ha in Ht.
  destruct (sig_args sig2) as [args'|]; [|done]. exists args'. split; [done|].
  unfold Typ.type_check in Ht. rewrite !length_map in Ht.
  destruct (Nat.eqb_spec (length args) (length args')); [lia|done].
Qed.

(** The permitted signatures have at most five arguments. *)
Lemma permitted_small p f sigs sig args :
  (f, sigs) ∈ Protocol.policy (FT := FT) p -> sig ∈ sigs -> sig_args sig = Some args -> length args <= 5.
Proof.
  intros Hf Hs Ha. destruct p; simpl in Hf;
    repeat (apply elem_of_cons in Hf as [Hf|Hf]; [injection Hf as -> ->|]); try (by apply elem_of_nil in Hf);
    simpl in Hs; repeat (apply elem_of_cons in Hs as [->|Hs]; [injection Ha as <-; simpl; lia|]);
    by apply elem_of_nil in Hs.
Qed.

Lemma decision_args p f sigs sig args d :
  (f, sigs) ∈ Protocol.policy (FT := FT) p -> decision_spec f sigs (Some sig) d ->
  sig_args sig = Some args -> d = Some (Args (Z.of_nat (length args))).
Proof.
  intros Hf [Ht Hd] Ha. apply (Hd args Ha). rewrite existsb_Exists, Exists_exists in Ht.
  destruct Ht as (sig2 & Hin & Hc). destruct (type_check_args _ _ _ _ Hc Ha) as (args' & Ha' & Hl).
  pose proof (permitted_small _ _ _ _ _ Hf Hin Ha'). lia.
Qed.

Lemma policy_nodup p : NoDup (map fst (Protocol.policy (FT := FT) p)).
Proof. destruct p; repeat constructor; set_solver. Qed.
End decisions.

Lemma dp_protocol_typ p f (hs : FnHeaders FlatTyp) :
  f ∈ Protocol.functions (FT := FlatTyp) p -> FnHeaders.typ hs f = BTreeMap.get hs f.
Proof.
  intros Hf. destruct p; repeat (apply elem_of_cons in Hf as [->|Hf]; [reflexivity|]); by apply elem_of_nil in Hf.
Qed.

Section policies.
Context `{Lib} `{RegexNew} `{HashOrder} `{PetgraphLaws}.
Notation PreProgram := (PreProgram FlatTyp FlatLiteral).

(** The functions that are kept have their headers. *)
Lemma entry_header ds (pre : PreProgram) fs f :
  PreProgram.from_decls ds = Val pre -> f ∈ fs ->
  BTreeMap.get (headers (PreProgram.to_program pre fs)) f = BTreeMap.get (headers (program pre)) f.
Proof.
  intros Hpre Hf. destruct (from_decls_inv _ _ Hpre) as [[Hwf Hwn _ Hs Hg] _].
  rewrite headers_to_program by (done || by destruct fs; [apply elem_of_nil in Hf|]).
  destruct (existsb _ _) eqn:E; [|done]. apply existsb_elem in E. apply elem_unreachable in E; [|done].
  destruct E as [[i Hi] Hn]. exfalso. apply (Hn f Hf). by exists i, i; split_and!; [..|reflexivity].
Qed.

Lemma add_protocol_spec ds (pre : PreProgram) p ps ps' :
  PreProgram.from_decls ds = Val pre -> Policies.add_protocol pre p ps = Val ps' ->
  ps' = ps \/
  exists pol, ps' = Policies.insert p pol ps /\
    pol_program pol = PreProgram.to_program pre (Protocol.functions (FT := FlatTyp) p) /\
    forall f sigs, (f, sigs) ∈ Protocol.policy (FT := FlatTyp) p ->
      decision_spec f sigs (BTreeMap.get (headers (program pre)) f) (Policy.get pol f).
Proof.
  intros Hpre. unfold Policies.add_protocol. destruct (Program.is_empty _); [intros; simplify_eq; by left|].
  unfold Policy.from_program.
  destruct (Policy.fn_policies_of _ _ _) as [fp| | |] eqn:E; simpl; try done. intros; simplify_eq. right.
  eexists. split; [done|]. split; [done|]. intros f sigs Hf.
  destruct (fn_policies_of_spec _ _ _ _ E ltac:(constructor) (policy_nodup p)) as (_ & _ & Hd).
  specialize (Hd f sigs Hf).
  assert (f ∈ Protocol.functions (FT := FlatTyp) p) as Hin by apply (list_elem_of_fmap_2 fst _ _ Hf).
  rewrite (dp_protocol_typ p) in Hd by done. by rewrite (entry_header ds) in Hd.
Qed.
Lemma inner_from_spec ds (pre : PreProgram) ps p pol :
  PreProgram.from_decls ds = Val pre -> Policies.inner_from pre = Val ps -> Policies.policy ps p = Some pol ->
  pol_program pol = PreProgram.to_program pre (Protocol.functions (FT := FlatTyp) p) /\
  forall f sigs, (f, sigs) ∈ Protocol.policy (FT := FlatTyp) p ->
    decision_spec f sigs (BTreeMap.get (headers (program pre)) f) (Policy.get pol f).
Proof.
  intros Hpre Hps Hp. unfold Policies.inner_from in Hps.
  destruct (Policies.add_protocol pre HTTP Policies.new) as [ps1| | |] eqn:E1; simpl in Hps; try done.
  destruct (add_protocol_spec _ _ _ _ _ Hpre E1) as [->|(pol1 & -> & Hpol1 & Hd1)];
    destruct (add_protocol_spec _ _ _ _ _ Hpre Hps) as [->|(pol2 & -> & Hpol2 & Hd2)];
    destruct p; cbv in Hp; try discriminate Hp; injection Hp as <-; split; auto.
Qed.
End policies.

(** What the functions kept of a program need terminates. *)
Definition terminating (pol : Policy FlatTyp FlatLiteral) : Prop :=
  exists rank, ranked (code (pol_program pol)) rank.

Lemma from_buf_terminating `{Lib} `{RegexNew} `{HashOrder} `{PetgraphLaws} ds ps p pol :
  Policies.from_buf ds = Val ps -> Forall (fun f => user_name (FT := FlatTyp) f = true) (declared ds) ->
  Policies.policy ps p = Some pol -> terminating pol.
Proof.
  unfold Policies.from_buf. intros Hb Hn Hp. destruct (PreProgram.from_buf ds) as [m| | |] eqn:Hm; simpl in Hb; try done.
  destruct (linked_ranked ds m Hm Hn) as [rank Hr]. exists rank. apply Hr. intros f b.
  destruct (from_buf_decls _ _ Hm) as [Hd _]. destruct (from_decls_inv _ _ Hd) as (_ & _ & Hwc & _).
  destruct (inner_from_spec _ _ _ _ _ Hd Hb Hp) as [-> _]. by apply to_program_sub.
Qed.

(** One's own policies and the other's, merged. *)
Lemma policies_merge_get {FT FL} `{TFlatTyp FT} `{TFlatLiteral FT FL} (a b : Policies FT FL) (p : Protocol) :
  BTreeMap.wf a -> BTreeMap.wf b ->
  Policies.policy (Policies.merge a b) p =
  match Policies.policy b p with
  | Some y => Some match Policies.policy a p with Some x => Policy.merge y x | None => y end
  | None => Policies.policy a p
  end.
Proof.
  intros Ha Hb. unfold Policies.policy, Policies.merge, Policies.insert.
  set (f := fun k y => match BTreeMap.get a k with Some x => Policy.merge y x | None => y end).
  transitivity (BTreeMap.get (foldl (fun m kv => BTreeMap.insert kv.1 (f kv.1 kv.2) m) a b) p);
    [|exact (BTreeMap.get_foldl_map f b a p Ha Hb)].
  f_equal. unfold f. clear Ha Hb f. generalize a at 2 4 as t.
  induction b as [|[k v] b IH]; intros t; [done|]. simpl. destruct (BTreeMap.get a k); apply IH.
Qed.

(** ** Properties *)

(** C30: the policies of an accepted program say for every function of the
    protocol what to do: call it with as many arguments as it declares, when
    its type is one of the permitted, or allow when it is not declared; the
    program of the policy is the part that the functions need. *)
Theorem policies_from_program `{Lib} `{RegexNew} `{HashOrder} `{PetgraphLaws} (ds : list (Decl FlatLiteral))
    (pre : PreProgram FlatTyp FlatLiteral) (ps : Policies FlatTyp FlatLiteral) (p : Protocol)
    (pol : Policy FlatTyp FlatLiteral) (f : string) (sigs : list (Signature FlatTyp)) :
  PreProgram.from_buf ds = Val pre -> Policies.inner_from pre = Val ps -> Policies.policy ps p = Some pol ->
  (f, sigs) ∈ Protocol.policy p ->
  pol_program pol = PreProgram.to_program pre (Protocol.functions (FT := FlatTyp) p) /\
  match BTreeMap.get (headers (program pre)) f with
  | None => Policy.get pol f = Some Allow
  | Some sig =>
    existsb (Policy.type_check f sig) sigs = true /\
    forall args, sig_args sig = Some args -> Policy.get pol f = Some (Args (Z.of_nat (length args)))
  end.
Proof.
  intros [Hpre _]%from_buf_decls Hps Hp Hf. destruct (inner_from_spec _ _ _ _ _ Hpre Hps Hp) as [Hprog Hd].
  split; [done|]. specialize (Hd f sigs Hf). destruct (BTreeMap.get _ f) as [sig|]; [|done]. split; [apply Hd|].
  intros args Ha. by eapply decision_args.
Qed.

(** Merging keeps the policies of both sides; where both have one for a
    protocol, the functions are decided by the first, and the code of the
    first replaces that of the second under the same name. *)
Theorem policies_merge_spec {FT FL} `{TFlatTyp FT} `{TFlatLiteral FT FL} (a b : Policies FT FL) (p : Protocol) :
  BTreeMap.wf a -> BTreeMap.wf b ->
  Forall (fun kv => BTreeMap.wf (fn_policies kv.2) /\ BTreeMap.wf (code (pol_program kv.2))) (a ++ b) ->
  match Policies.policy a p, Policies.policy b p with
  | Some x, Some y => exists z, Policies.policy (Policies.merge a b) p = Some z /\
    (forall f, Policy.get z f = match Policy.get x f with Some d => Some d | None => Policy.get y f end) /\
    (forall f, BTreeMap.get (code (pol_program z)) f =
       match BTreeMap.get (code (pol_program x)) f with Some e => Some e | None => BTreeMap.get (code (pol_program y)) f end)
  | Some x, None => Policies.policy (Policies.merge a b) p = Some x
  | None, y => Policies.policy (Policies.merge a b) p = y
  end.
Proof.
  intros Ha Hb Hall. rewrite policies_merge_get by done.
  unfold Policies.policy. rewrite Forall_app in Hall. destruct Hall as [Hall1 Hall2].
  rewrite Forall_forall in Hall1, Hall2.
  destruct (BTreeMap.get a p) as [x|] eqn:Ex, (BTreeMap.get b p) as [y|] eqn:Ey; try done.
  apply BTreeMap.get_elem in Ex; [|done]. apply BTreeMap.get_elem in Ey; [|done].
  destruct (Hall1 _ Ex) as [Hx1 Hx2]. destruct (Hall2 _ Ey) as [Hy1 Hy2]. simpl in *.
  exists (Policy.merge y x). split; [done|].
  unfold Policy.get, Policy.merge, FnPolicies.merge, Program.merge, Code.merge. simpl.
  split; intros f; by apply BTreeMap.get_collect_app.
Qed.

(** [fn f(ps) -> bool { true }] *)
Definition bool_fn (f : string) (ps : list (string * string)) : Decl FlatLiteral :=
  DFnDecl (mkFnDecl
    (mkFnHead (id0 f) (map (fun p => mkParam (id0 p.1) (PAtom (id0 p.2))) ps) (Some (PAtom (id0 "bool"))))
    (body_of (PLit (Literal.bool true)))).

Definition tcp_decls : list (Decl FlatLiteral) := [bool_fn ALLOW_TCP_CONNECTION []].
Definition http_decls : list (Decl FlatLiteral) :=
  [bool_fn ALLOW_REST_REQUEST [("f", "ID"); ("t", "ID"); ("r", "HttpRequest"); ("p", "data")]].
Definition test_policies : list (Decl FlatLiteral) -> Outcome (Policies FlatTyp FlatLiteral) :=
  @Policies.from_buf _ _ _ _ _ test_lib test_regex_new test_hash_order test_petgraph.

Definition http_linked : PreProgram FlatTyp FlatLiteral :=
  Eval vm_compute in match test_from_buf http_decls with Val m => m | _ => PreProgram.default end.
Definition http_policies : Policies FlatTyp FlatLiteral :=
  Eval vm_compute in match test_policies http_decls with Val ps => ps | _ => [] end.
Definition tcp_policies : Policies FlatTyp FlatLiteral :=
  Eval vm_compute in match test_policies tcp_decls with Val ps => ps | _ => [] end.

Lemma policies_from_program_witness :
  exists pol, Policies.policy http_policies HTTP = Some pol /\
    Policy.get pol ALLOW_REST_REQUEST = Some (Args 4) /\ Policy.get pol ALLOW_REST_RESPONSE = Some Allow.
Proof.
  eexists. split; [reflexivity|]. pose (pf := fun f sigs => @policies_from_program test_lib test_regex_new test_hash_order
    test_petgraph test_petgraph_laws http_decls http_linked http_policies HTTP _ f sigs
    ltac:(vm_compute; reflexivity) ltac:(vm_compute; reflexivity) eq_refl).
  split.
  - refine (proj2 (proj2 (pf ALLOW_REST_REQUEST _ _)) [Typ.id; Typ.id; Typ.http_request; Typ.data] _); [|reflexivity].
    apply elem_of_cons. by left.
  - refine (proj2 (pf ALLOW_REST_RESPONSE _ _)). apply elem_of_cons. right. apply elem_of_cons. by left.
Defined.

Lemma policies_merge_spec_witness :
  Policies.policy (Policies.merge http_policies tcp_policies) TCP = Policies.policy tcp_policies TCP /\
  exists z, Policies.policy (Policies.merge http_policies (Policies.allow_all (H := DP_TFlatTyp))) HTTP = Some z /\
    Policy.get z ALLOW_REST_REQUEST = Some (Args 4).
Proof.
  split.
  - refine (@policies_merge_spec _ _ _ _ http_policies tcp_policies TCP _ _ _);
      repeat (constructor || split || done).
  - destruct (@policies_merge_spec _ _ _ _ http_policies (Policies.allow_all (H := DP_TFlatTyp)) HTTP) as (z & Hz & Hf & _);
      [repeat (constructor || split || done)..|].
    exists z. split; [exact Hz|]. rewrite Hf. reflexivity.
Defined.

(** ** Which trivial policies are recognised *)

(** What is said of the trivial policies is not what they are: of the
    policies for both protocols, the one that allows answers only and the one
    that denies answers only are not recognised, because no TCP function is an
    answer; a HTTP policy for requests only is said to allow all, though
    answers are then denied; the default policies are all kinds at once; and
    what denies requests only is printed twice as such. *)
Theorem trivial_policies_recognised `{Lib} :
  Policies.is_allow_all (Policies.allow_all (H := DP_TFlatTyp) (FL := FlatLiteral)) = true /\
  Policies.is_deny_all (Policies.deny_all (H := DP_TFlatTyp) (FL := FlatLiteral)) = true /\
  Policies.is_allow_egress (Policies.allow_egress (H := DP_TFlatTyp) (FL := FlatLiteral)) = false /\
  Policies.is_deny_egress (Policies.deny_egress (H := DP_TFlatTyp) (FL := FlatLiteral)) = false /\
  (let p := Policy.allow_ingress (H := DP_TFlatTyp) (FL := FlatLiteral) HTTP in
   Policy.is_allow_all p = true /\ Policy.get p ALLOW_REST_RESPONSE = None) /\
  (let ps : Policies FlatTyp FlatLiteral := Policies.new in
   Policies.is_allow_all ps = true /\ Policies.is_deny_all ps = true) /\
  (let show fps := Policy.to_string (FT := FlatTyp) (FL := FlatLiteral) (fun _ => "hash") (fun _ => "code")
                     (mkPolicy Program.default fps) in
   let deny_request := [(ALLOW_REST_REQUEST, Deny); (ALLOW_REST_RESPONSE, Args 1)] in
   let deny_response := [(ALLOW_REST_REQUEST, Args 1); (ALLOW_REST_RESPONSE, Deny)] in
   let nl := String (ascii_of_nat 10) EmptyString in
   FnPolicies.is_deny_ingress deny_request = true /\
   show deny_request = "deny ingressdeny ingress[hash]" ^^ nl ^^ "code" /\
   FnPolicies.is_deny_egress deny_response = true /\
   show deny_response = "[hash]" ^^ nl ^^ "code").
Proof. repeat split; vm_compute; reflexivity. Qed.
