(* ===== verification/Proxy.v ===== *)
(** * The policy actor and the proxies (src/src/armour-proxy/src)

    The actor of policy.rs holds the policies of a proxy; http_policy.rs and
    tcp_policy.rs have its handlers for the proxies, http_proxy.rs and
    tcp_proxy.rs what the proxies do with its answers.  Messages to the host
    are a list in the state of the actor.  Parameters: the encryption of
    metadata (aead and serde_json), the hash of a policy, the start of
    servers, the headers that awc copies of a request, and the upstream
    server. *)

From Stdlib Require Import ZArith Lia String Ascii List.
From stdpp Require Import base tactics list strings sets.
From S2P Require Import Prelude.
From S2P Require Import Ordered.
From S2P Require Import Strings.
From S2P Require Import Labels.
From S2P Require Import Syntax.
From S2P Require Import Types.
From S2P Require Import Net.
From S2P Require Import Literals.
From S2P Require Import FnHeaders.
From S2P Require Import Expressions.
From S2P Require Import Interpret.
From S2P Require Import Meta.
From S2P Require Import Eval.
From S2P Require Import Externals.
From S2P Require Import DataPlane.
From S2P Require Import Lang.
From S2P Require Import Policies.
From S2P Require Import Identity.

Local Open Scope string_scope.
Local Open Scope list_scope.

Notation DPPolicy := (Policy FlatTyp FlatLiteral).
Notation DPPolicies := (Policies FlatTyp FlatLiteral).
Notation DPExpr := (Expr FlatLiteral).

(** ** The encryption of metadata *)
Class Aead := {
  (** Nanoseconds since the epoch, big endian, the last eight bytes. *)
  clock_bytes : option bytes;
  encrypt_in_place : bytes -> bytes -> option bytes;
  decrypt_in_place : bytes -> bytes -> option bytes;
  json_of_meta : Meta -> option string;
  meta_of_json : bytes -> option Meta;
}.

Module Crypt.
Section crypt.
Context `{Aead} `{Lib}.
Definition nonce : option bytes := (fun t => as_bytes "armo" ++ t) <$> clock_bytes.

(** [GenericArray::from_slice] panics unless the nonce has twelve bytes. *)
Definition generic_array (b : bytes) : Outcome bytes := if Nat.eqb (length b) 12 then Val b else Panic.

Definition encrypt (message : string) : Outcome (option string) :=
  match nonce with
  | None => Val None
  | Some n =>
    n ← generic_array n;
    Val ((fun block => base64_encode block ^^ ";" ^^ base64_encode n) <$> encrypt_in_place n (as_bytes message))
  end.

Definition decrypt (message : string) : Outcome (option bytes) :=
  match mapM base64_decode (split ";" message) with
  | Some [block; n] => n ← generic_array n; Val (decrypt_in_place n block)
  | _ => Val None
  end.

Definition encrypt_meta (m : option Meta) : Outcome (option string) :=
  match m ≫= json_of_meta with Some s => encrypt s | None => Val None end.
Definition decrypt_meta (message : string) : Outcome (option Meta) :=
  b ← decrypt message; Val (b ≫= meta_of_json).
End crypt.
End Crypt.

(** ** Policies of the proxies *)

(** [http_policy::PolicyStatus], times in seconds. *)
Record PolicyStatus := mkStatus { st_timeout : Z; st_request : FnPolicy; st_response : FnPolicy; st_allow_all : bool }.

(** The environment of a policy is that of its program: its code and its
    externals. *)
Record HttpPolicy := mkHttpPolicy {
  http_policy : DPPolicy;
  http_proxy : option (Z * option SocketAddr);
  http_status : PolicyStatus;
}.
Record TcpPolicy := mkTcpPolicy {
  connect : FnPolicy;
  disconnect : FnPolicy;
  tcp_policy : DPPolicy;
  tcp_proxy : option Z;
}.

Definition get_or_default (p : DPPolicy) (f : string) : FnPolicy := unwrap_or FnPolicy_default (Policy.get p f).

Module HttpPolicy.
Definition default_status : PolicyStatus := mkStatus 5 FnPolicy_default FnPolicy_default false.
Definition default : HttpPolicy := mkHttpPolicy (Policy.deny_all HTTP) None default_status.
Definition update_for_policy (st : PolicyStatus) (p : DPPolicy) : PolicyStatus :=
  let request := get_or_default p ALLOW_REST_REQUEST in
  let response := get_or_default p ALLOW_REST_RESPONSE in
  mkStatus (st_timeout st) request response (bool_decide (request = Allow) && bool_decide (response = Allow)).
Definition set_policy (h : HttpPolicy) (p : DPPolicy) : HttpPolicy :=
  mkHttpPolicy p (http_proxy h) (update_for_policy (http_status h) p).
Definition start (h : HttpPolicy) (ingress : option SocketAddr) (port : Z) : HttpPolicy :=
  mkHttpPolicy (http_policy h) (Some (port, ingress)) (http_status h).
Definition stop (h : HttpPolicy) : HttpPolicy := mkHttpPolicy (http_policy h) None (http_status h).
Definition port (h : HttpPolicy) : option Z := fst <$> http_proxy h.
Definition ingress (h : HttpPolicy) : option SocketAddr := http_proxy h ≫= snd.
Definition set_timeout (h : HttpPolicy) (secs : Z) : HttpPolicy :=
  let st := http_status h in
  mkHttpPolicy (http_policy h) (http_proxy h) (mkStatus secs (st_request st) (st_response st) (st_allow_all st)).
End HttpPolicy.

Module TcpPolicy.
Definition default : TcpPolicy := mkTcpPolicy FnPolicy_default FnPolicy_default (Policy.deny_all TCP) None.
Definition set_policy (t : TcpPolicy) (p : DPPolicy) : TcpPolicy :=
  mkTcpPolicy (get_or_default p ALLOW_TCP_CONNECTION) (get_or_default p ON_TCP_DISCONNECT) p (tcp_proxy t).
Definition start (t : TcpPolicy) (port : Z) : TcpPolicy := mkTcpPolicy (connect t) (disconnect t) (tcp_policy t) (Some port).
Definition stop (t : TcpPolicy) : TcpPolicy := mkTcpPolicy (connect t) (disconnect t) (tcp_policy t) None.
Definition port (t : TcpPolicy) : option Z := tcp_proxy t.
End TcpPolicy.

(** ** Messages with the host *)

(** [armour_api::proxy::HttpConfig] *)
Inductive HttpConfig := Port (p : Z) | Ingress (p : Z) (s : SocketAddr).

Module HttpConfig.
Definition port (c : HttpConfig) : Z := match c with Port p | Ingress p _ => p end.
Definition ingress (c : HttpConfig) : option SocketAddr := match c with Port _ => None | Ingress _ s => Some s end.
End HttpConfig.

Inductive PolicyRequest :=
| CPOnboard (ip_labels : BTreeMap IpAddr Labels)
| Label_ (op : LabelOp)
| SetPolicy (ps : DPPolicies)
| Shutdown
| StartHttp (c : HttpConfig)
| StartTcp (port : Z)
| Status
| Stop (p : Protocol)
| Timeout (secs : Z).

(** [armour_api::host::Status] *)
Record ProxyStatus := mkProxyStatus { s_policy : DPPolicy; s_port : option Z; s_ingress : option SocketAddr }.

Inductive PolicyResponse :=
| Connect (pid : Z) (tmp_dpid : option ID) (label : Label) (http tcp : string)
| CPOnboardingProxy (ip_labels : BTreeMap IpAddr Labels)
| RequestFailed
| ShuttingDown
| Started
| StatusReport (label : Label) (labels : BTreeMap string Labels) (http tcp : ProxyStatus)
| Stopped
| UpdatedPolicy (p : Protocol) (hash : string).

(** ** The actor *)

Record PolicyActor := mkActor {
  a_label : Label;
  connection_number : Z;
  a_http : HttpPolicy;
  a_tcp : TcpPolicy;
  a_identity : Identity;
  (** Messages written to the host, the last at the end. *)
  a_sent : list PolicyResponse;
  (** [System::current().stop()] was called. *)
  a_stopped : bool;
}.

Module PolicyActor.
Section actor.
Context `{UriLib} `{Profile} `{NameService}.
(** The hash of a policy, and the text of an address. *)
Variable blake3 : DPPolicy -> string.
Variable ip_to_string : IpAddr -> string.

Definition with_http (a : PolicyActor) (h : HttpPolicy) : PolicyActor :=
  mkActor (a_label a) (connection_number a) h (a_tcp a) (a_identity a) (a_sent a) (a_stopped a).
Definition with_tcp (a : PolicyActor) (t : TcpPolicy) : PolicyActor :=
  mkActor (a_label a) (connection_number a) (a_http a) t (a_identity a) (a_sent a) (a_stopped a).
Definition with_identity (a : PolicyActor) (i : Identity) : PolicyActor :=
  mkActor (a_label a) (connection_number a) (a_http a) (a_tcp a) i (a_sent a) (a_stopped a).
Definition write (a : PolicyActor) (r : PolicyResponse) : PolicyActor :=
  mkActor (a_label a) (connection_number a) (a_http a) (a_tcp a) (a_identity a) (a_sent a ++ [r]) (a_stopped a).
Definition with_number (a : PolicyActor) (n : Z) : PolicyActor :=
  mkActor (a_label a) n (a_http a) (a_tcp a) (a_identity a) (a_sent a) (a_stopped a).
(** The counter is a [usize]: it wraps, or panics with overflow checks, at
    [2^64]. *)
Definition next_connection (a : PolicyActor) : Outcome PolicyActor :=
  n ← arith_usize (connection_number a + 1); Val (with_number a n).
Definition stop_system (a : PolicyActor) : PolicyActor :=
  mkActor (a_label a) (connection_number a) (a_http a) (a_tcp a) (a_identity a) (a_sent a) true.

(** [create_policy] *)
Definition create_policy (label : Label) (timeout : Z) : PolicyActor :=
  mkActor label 0 (HttpPolicy.set_timeout HttpPolicy.default timeout) TcpPolicy.default Identity.default [] false.

(** [started]: the process tells the host who it is. *)
Definition started (pid : Z) (a : PolicyActor) : PolicyActor :=
  write a (Connect pid None (a_label a) (blake3 (http_policy (a_http a))) (blake3 (tcp_policy (a_tcp a)))).

(** [connection]: the identities of both ends, in order. *)
Definition connection (a : PolicyActor) (from to : PeerID) : Outcome Connection * PolicyActor :=
  let number := connection_number a in
  match next_connection a with
  | Val a =>
    let '(f, i) := Identity.id from (a_identity a) in
    let '(t, i) := Identity.id to i in
    (Val (Connection.of_triple f t number), with_identity a i)
  | _ => (Panic, a)
  end.

(** The labels of hosts and addresses under their texts. *)
Definition labels (a : PolicyActor) : BTreeMap string Labels :=
  BTreeMap.collect (host_labels (a_identity a) ++ map (fun kv => (ip_to_string kv.1, kv.2)) (ip_labels (a_identity a))).

Fixpoint write_n (n : nat) (a : PolicyActor) (r : PolicyResponse) : PolicyActor :=
  match n with O => a | S n => write_n n (write a r) r end.
Definition handle_label_op (a : PolicyActor) (op : LabelOp) : PolicyActor :=
  let '(n, i) := LabelOps.handle_label_op op (a_identity a) in
  write_n n (with_identity a i) RequestFailed.

Definition install_http (a : PolicyActor) (p : DPPolicy) : PolicyActor :=
  write (with_http a (HttpPolicy.set_policy (a_http a) p)) (UpdatedPolicy HTTP (blake3 p)).
Definition install_tcp (a : PolicyActor) (p : DPPolicy) : PolicyActor :=
  write (with_tcp a (TcpPolicy.set_policy (a_tcp a) p)) (UpdatedPolicy TCP (blake3 p)).

Definition http_report (h : HttpPolicy) : ProxyStatus := mkProxyStatus (http_policy h) (HttpPolicy.port h) (HttpPolicy.ingress h).
Definition tcp_report (t : TcpPolicy) : ProxyStatus := mkProxyStatus (tcp_policy t) (TcpPolicy.port t) None.

(** [Handler<PolicyRequest>]; [started] is whether a server could be started.
    The handler waits for the server before the next message. *)
Definition handle (started : bool) (msg : PolicyRequest) (a : PolicyActor) : PolicyActor :=
  match msg with
  | CPOnboard ip_labels => write a (CPOnboardingProxy ip_labels)
  | Label_ op => handle_label_op a op
  | Timeout secs => with_http a (HttpPolicy.set_timeout (a_http a) secs)
  | Status => write a (StatusReport (a_label a) (labels a) (http_report (a_http a)) (tcp_report (a_tcp a)))
  | Stop HTTP =>
    match HttpPolicy.port (a_http a) with
    | None => write a RequestFailed
    | Some _ => write (with_http a (HttpPolicy.stop (a_http a))) Stopped
    end
  | Stop TCP =>
    match TcpPolicy.port (a_tcp a) with
    | None => write a RequestFailed
    | Some _ => write (with_tcp a (TcpPolicy.stop (a_tcp a))) Stopped
    end
  | StartHttp config =>
    let port := HttpConfig.port config in
    if bool_decide (HttpPolicy.port (a_http a) = Some port) then write a RequestFailed
    else
      let a := with_http a (HttpPolicy.stop (a_http a)) in
      if started then write (with_http a (HttpPolicy.start (a_http a) (HttpConfig.ingress config) port)) Started
      else a
  | StartTcp port =>
    (* the port of the HTTP proxy, as in the source *)
    if bool_decide (HttpPolicy.port (a_http a) = Some port) then write a RequestFailed
    else
      let a := with_tcp a (TcpPolicy.stop (a_tcp a)) in
      if started then write (with_tcp a (TcpPolicy.start (a_tcp a) port)) Started else a
  | SetPolicy ps =>
    let a := match Policies.policy ps TCP with Some p => install_tcp a p | None => a end in
    match Policies.policy ps HTTP with Some p => install_http a p | None => a end
  | Shutdown => stop_system (write a ShuttingDown)
  end.
End actor.
End PolicyActor.

(** ** Evaluation of policy functions *)

Section evaluate.
Context `{Profile} `{Lib} `{Aead} {Net : Type}.
Variable regex_to_string : PolicyRegex -> string.
Variable network : Z -> string -> string -> list Value -> Net -> result Reader Error * Net.

(** [Policy::evaluate], with the conversion of the literal to the type the
    caller asks for. *)
Definition evaluate {T} (dest : Literal FlatLiteral -> option T) (fuel : nat) (p : DPPolicy) (function : string)
    (args : list DPExpr) (meta : IngressEgress) : Comp Net (T * option Meta) := fun net =>
  let prog := pol_program p in
  let '(r, w) :=
    @Eval.evaluate _ _ _ _ _ _ (Env.DP_Interp regex_to_string network) (code prog) fuel (Expr.call function args)
      (mkWorld (externals prog) meta net []) in
  (e ← r;
   match e with
   | LitExpr lit =>
     match dest lit with
     | Some t => Val (t, Env.egress w)
     | None => Fail (error_new "literal has wrong type")
     end
   | _ => Fail (error_new "did not evaluate to a literal")
   end, w_net w).

Definition dest_unit (l : Literal FlatLiteral) : option unit := if Literal.is_unit l then Some tt else None.

Inductive HttpFn := Request | Response.
Definition http_function (f : HttpFn) : string :=
  match f with Request => ALLOW_REST_REQUEST | Response => ALLOW_REST_RESPONSE end.

(** [Handler<EvalHttpFn>]: the answer, with the encrypted metadata. *)
Definition eval_http_fn (fuel : nat) (a : PolicyActor) (f : HttpFn) (args : list DPExpr) (xarmour : option string)
    : Comp Net (bool * option string) :=
  ingress ← lift (match xarmour with Some x => Crypt.decrypt_meta x | None => Val None end);
  r ← evaluate Literal.dest_bool fuel (http_policy (a_http a)) (http_function f) args
        (IngressEgress.new ingress (a_label a));
  encrypted ← lift (Crypt.encrypt_meta r.2);
  mret (r.1, encrypted).

(** [Handler<GetTcpPolicy>]: the connection with its statistics, or a block.
    Sent and received bytes are counted from zero. *)
Record ConnectionStats := mkStats { sent : Z; received : Z; stats_connection : Connection }.
Inductive TcpPolicyStatus := TcpAllow (c : option ConnectionStats) | TcpBlock.

Definition tcp_answer (c : Connection) (r : bool * option Meta) : Comp Net TcpPolicyStatus :=
  mret (if r.1 then TcpAllow (Some (mkStats 0 0 c)) else TcpBlock).

Definition get_tcp_policy `{UriLib} (fuel : nat) (a : PolicyActor) (src dst : SocketAddr)
    : Comp Net TcpPolicyStatus * PolicyActor :=
  match connect (a_tcp a) with
  | Allow =>
    match PolicyActor.next_connection a with
    | Val a' => (mret (TcpAllow None), a')
    | _ => (panic, a)
    end
  | Deny => (mret TcpBlock, a)
  | Args n =>
    if (n =? 1)%Z then
      let '(c, a') := PolicyActor.connection a (PSocketAddr src) (PSocketAddr dst) in
      (c ← lift c;
       evaluate Literal.dest_bool fuel (tcp_policy (a_tcp a)) ALLOW_TCP_CONNECTION
         [LitExpr (Literal.connection c)] IngressEgress.default ≫= tcp_answer c, a')
    else (panic, a)
  end.

(** [Handler<ConnectionStats>]: the end of a connection; errors are logged. *)
Definition end_connection (fuel : nat) (a : PolicyActor) (msg : ConnectionStats) : Comp Net unit :=
  match disconnect (a_tcp a) with
  | Args n =>
    if (n =? 3)%Z then fun net =>
      match evaluate dest_unit fuel (tcp_policy (a_tcp a)) ON_TCP_DISCONNECT
              [LitExpr (Literal.connection (stats_connection msg)); LitExpr (Literal.int (wrap_i64 (sent msg)));
               LitExpr (Literal.int (wrap_i64 (received msg)))] IngressEgress.default net with
      | (Val _, net) | (Fail _, net) => (Val tt, net)
      | (Panic, net) => (Panic, net)
      | (OutOfFuel, net) => (OutOfFuel, net)
      end
    else panic
  | _ => mret tt
  end.
End evaluate.

(** ** The HTTP proxy (http_proxy.rs) *)

(** A header map: names in lower case, in order, a name may occur again. *)
Definition HeaderMap := list (string * bytes).

Module HeaderMap.
Definition remove (k : string) (h : HeaderMap) : HeaderMap := List.filter (fun kv => negb (kv.1 =? k)) h.
Definition insert (k : string) (v : bytes) (h : HeaderMap) : HeaderMap := remove k h ++ [(k, v)].
Definition append (k : string) (v : bytes) (h : HeaderMap) : HeaderMap := h ++ [(k, v)].
Definition get_all (k : string) (h : HeaderMap) : list bytes := map snd (List.filter (fun kv => kv.1 =? k) h).
Definition get (k : string) (h : HeaderMap) : option bytes := head (get_all k h).
(** [HeaderValue::to_str] and [from_str] accept tabs and visible ASCII. *)
Definition visible (b : bytes) : bool :=
  forallb (fun c => let n := N_of_ascii c in ((32 <=? n) && (n <? 127) || (n =? 9))%N) b.
Definition to_str (b : bytes) : option string := if visible b then Some (of_bytes b) else None.
Definition from_str (s : string) : option bytes := if visible (as_bytes s) then Some (as_bytes s) else None.
End HeaderMap.

Definition X_ARMOUR : string := "x-armour".
Definition get_x_armour (h : HeaderMap) : option string := HeaderMap.get X_ARMOUR h ≫= HeaderMap.to_str.

(** What the proxy reads of a request; the body fails to arrive or not. *)
Record WebRequest := mkWebRequest {
  w_method : string; w_version : string; w_path : string; w_query : string;
  w_headers : HeaderMap; w_payload : option bytes;
  w_scheme : string; w_host : string; w_path_and_query : option string; w_peer : option SocketAddr;
}.
(** And of the answer of the server. *)
Record WebResponse := mkWebResponse {
  r_version : string; r_status : Z; r_reason : option string; r_headers : HeaderMap; r_payload : option bytes;
}.

Inductive Reply :=
| Internal
| Unauthorized (message : string)
(** A body that cannot be read: the error goes to the framework. *)
| PayloadError
(** The server could not be reached. *)
| ServerError
| Deliver (status : Z) (headers : HeaderMap) (payload : bytes).

(** The outside of the proxy: the network of the policies, and the requests
    that were forwarded, the last at the end. *)
Record Outside (Net Uri : Type) := mkOutside { o_net : Net; o_forwarded : list (Uri * HeaderMap * bytes) }.
Arguments mkOutside {Net Uri} o_net o_forwarded.
Arguments o_net {Net Uri} o.
Arguments o_forwarded {Net Uri} o.

Module HttpProxy.
Section http.
Context `{Profile} `{Lib} `{Aead} `{UriLib} {Net : Type}.
Variable regex_to_string : PolicyRegex -> string.
Variable network : Z -> string -> string -> list Value -> Net -> result Reader Error * Net.
(** Building a URI, the text of a socket, and the names and addresses of the
    machine. *)
Variable build_uri : string -> string -> option string -> option Uri.
Variable socket_to_string : SocketAddr -> string.
Variable own_ip : IpAddr -> bool.
Variable local_host_names : list string.
Variable to_ascii_lowercase : string -> string.
(** The headers of a client request that awc starts from those of another
    ([Client::request_from]). *)
Variable request_from : HeaderMap -> HeaderMap.
(** The server: its answer to a forwarded request, given the headers and the
    body. *)
Variable server : Uri -> HeaderMap -> bytes -> Net -> option WebResponse * Net.
Notation M := (Comp (Outside Net Uri)).

Definition is_local_host (host : string) : bool :=
  match IpAddr.from_str host with
  | Some (V4 n) => own_ip (V4 n)
  | _ => existsb (String.eqb (to_ascii_lowercase host)) local_host_names
  end.

(** The address to forward to; [None] also when it is the proxy itself. *)
Definition forward_uri (req : WebRequest) (config : HttpConfig) : option Uri :=
  let host := match HttpConfig.ingress config with Some s => socket_to_string s | None => w_host req end in
  match build_uri (w_scheme req) host (w_path_and_query req) with
  | Some u =>
    if (unwrap_or 80%Z (uri_port u) =? HttpConfig.port config)%Z
       && match uri_host u with Some h => is_local_host h | None => true end
    then None else Some u
  | None => None
  end.

(** [ToArmourExpression] *)
Definition request_expr (req : WebRequest) (c : Connection) : DPExpr :=
  LitExpr (Literal.http_request
    (HttpRequest.new (w_method req) (w_version req) (w_path req) (w_query req) (w_headers req) c)).
Definition response_expr (res : WebResponse) (hs : HeaderMap) (c : Connection) : DPExpr :=
  LitExpr (Literal.http_response (HttpResponse.new (r_version res) (r_status res) (r_reason res) hs c)).

(** The headers of the forwarded request: awc starts it from the original. *)
Definition build_headers (req : WebRequest) (meta : option string) : HeaderMap :=
  let h := request_from (w_headers req) in
  let h := match HeaderMap.get_all "x-forwarded-host" (w_headers req) with
           | [] => h
           | host :: forward_hosts =>
             foldl (fun h host => HeaderMap.append "x-forwarded-host" host h)
               (HeaderMap.remove "x-forwarded-host" (HeaderMap.insert "host" host h)) forward_hosts
           end in
  let h := match w_peer req ≫= fun s => HeaderMap.from_str (socket_to_string s) with
           | Some addr => HeaderMap.insert "x-forwarded-for" addr h
           | None => h
           end in
  match meta ≫= HeaderMap.from_str with
  | Some m => HeaderMap.insert X_ARMOUR m h
  | None => HeaderMap.remove X_ARMOUR h
  end.

(** The headers of the answer for the client. *)
Definition response_builder (res : WebResponse) : HeaderMap :=
  List.filter (fun kv => negb ((kv.1 =? "connection") || (kv.1 =? "content-length") ||
                               (kv.1 =? "content-encoding") || (kv.1 =? X_ARMOUR))) (r_headers res).

(** [Handler<GetHttpPolicy>] *)
Definition get_http_policy (a : PolicyActor) (from to : PeerID) : Outcome (PolicyStatus * Connection) * PolicyActor :=
  let status := http_status (a_http a) in
  if st_allow_all status then (Val (status, Connection.default), a)
  else let '(c, a) := PolicyActor.connection a from to in (c ← c; Val (status, c), a).

(** The answer of the actor; an error of the policy is an internal error for
    the client. *)
Definition on_answer {A} (m : Comp Net A) (k : A -> M Reply) : M Reply := fun o =>
  let '(r, net) := m (o_net o) in
  let o := mkOutside net (o_forwarded o) in
  match r with
  | Val a => k a o
  | Fail _ => (Val Internal, o)
  | Panic => (Panic, o)
  | OutOfFuel => (OutOfFuel, o)
  end.

(** The arguments of a policy function by their number. *)
Definition arguments (count : Z) (message : DPExpr) (payload : bytes) : M (list DPExpr) :=
  if (count =? 0)%Z then mret []
  else if (count =? 1)%Z then mret [message]
  else if (count =? 2)%Z then mret [message; LitExpr (Literal.data payload)]
  else panic.

(** [response]: [a] is the actor when it gets the message of the proxy. *)
Definition response (fuel : nat) (a : PolicyActor) (status : PolicyStatus) (c : Connection)
    (res : option WebResponse) : M Reply :=
  match res with
  | None => mret ServerError
  | Some res =>
    match st_response status with
    | Args count =>
      match r_payload res with
      | None => mret PayloadError
      | Some payload =>
        args ← arguments count (response_expr res (response_builder res) c) payload;
        on_answer (eval_http_fn regex_to_string network fuel a Response args (get_x_armour (r_headers res)))
          (fun r =>
             if r.1 then
               mret (Deliver (r_status res)
                       (response_builder res ++
                        match r.2 with Some m => [(X_ARMOUR, as_bytes m)] | None => [] end) payload)
             else mret (Unauthorized "request denied (bad server response)"))
      end
    | Allow =>
      match r_payload res with
      | None => mret PayloadError
      | Some payload => mret (Deliver (r_status res) (response_builder res) payload)
      end
    | Deny => mret (Unauthorized "request denied (bad server response)")
    end
  end.

(** Sending the request on, with the metadata of the policy. *)
Definition forward (fuel : nat) (a_res : PolicyActor) (status : PolicyStatus) (c : Connection) (u : Uri)
    (req : WebRequest) (meta : option string) (payload : bytes) : M Reply := fun o =>
  let headers := build_headers req meta in
  let '(res, net) := server u headers payload (o_net o) in
  response fuel a_res status c res (mkOutside net (o_forwarded o ++ [(u, headers, payload)])).

(** [request].  The proxy sends up to three messages to the actor; [a] is the
    actor at the first, and [a_req] and [a_res] at the others: in between it
    may handle other messages. *)
Definition request (fuel : nat) (a a_req a_res : PolicyActor) (req : WebRequest) (config : HttpConfig)
    : M Reply :=
  match forward_uri req config with
  | None => mret Internal
  | Some u =>
    policy ← lift (get_http_policy a (PeerID.of_socket (w_peer req)) (PeerID.of_uri u)).1;
    let '(status, c) := policy in
    match st_request status with
    | Args count =>
      match w_payload req with
      | None => mret PayloadError
      | Some payload =>
        args ← arguments count (request_expr req c) payload;
        on_answer (eval_http_fn regex_to_string network fuel a_req Request args (get_x_armour (w_headers req)))
          (fun r => if r.1 then forward fuel a_res status c u req r.2 payload
                    else mret (Unauthorized "bad client request"))
      end
    | Allow =>
      match w_payload req with
      | None => mret PayloadError
      | Some payload => forward fuel a_res status c u req None payload
      end
    | Deny => mret (Unauthorized "request denied")
    end
  end.
End http.
End HttpProxy.
