(* ===== verification/ProxyTheory.v ===== *)
(** * What the proxies enforce

    No request is forwarded and no answer delivered that the policy does not
    allow; nothing passes before a policy is installed; the metadata header of
    a message is the policy's, never the client's.  The state of the actor
    follows the installed policies.  Some policies that are accepted, and some
    messages of clients, make the actor panic. *)

From Stdlib Require Import ZArith Lia String Ascii List.
From stdpp Require Import base tactics list strings sets.
From S2P Require Import Prelude.
From S2P Require Import Ordered.
From S2P Require Import Strings.
From S2P Require Import Labels.
From S2P Require Import Syntax.
From S2P Require Import Types.
From S2P Require Import Net.
From S2P Require Import Literals.
From S2P Require Import Ast.
From S2P Require Import FnHeaders.
From S2P Require Import Expressions.
From S2P Require Import Interpret.
From S2P Require Import TypeCheck.
From S2P Require Import Meta.
From S2P Require Import Eval.
From S2P Require Import TypeCheckTheory.
From S2P Require Import Externals.
From S2P Require Import DataPlane.
From S2P Require Import Lang.
From S2P Require Import Policies.
From S2P Require Import Identity.
From S2P Require Import Graphs.
From S2P Require Import LangTheory.
From S2P Require Import Linking.
From S2P Require Import PolicyTheory.
From S2P Require Import Proxy.

Local Open Scope string_scope.
Local Open Scope list_scope.

(** ** Header maps *)

Lemma get_all_app k h1 h2 : HeaderMap.get_all k (h1 ++ h2) = HeaderMap.get_all k h1 ++ HeaderMap.get_all k h2.
Proof. unfold HeaderMap.get_all. by rewrite List.filter_app, map_app. Qed.

Lemma get_all_remove k h : HeaderMap.get_all k (HeaderMap.remove k h) = [].
Proof.
  unfold HeaderMap.get_all, HeaderMap.remove. induction h as [|[k' v] h IH]; simpl; [done|].
  destruct (k' =? k) eqn:E; simpl; [done|]. by rewrite E.
Qed.

Lemma get_all_insert k v h : HeaderMap.get_all k (HeaderMap.insert k v h) = [v].
Proof.
  unfold HeaderMap.insert. rewrite get_all_app, get_all_remove.
  unfold HeaderMap.get_all. simpl. by rewrite String.eqb_refl.
Qed.

(** ** Counting connections *)

(** With overflow checks, the [2^64]-th connection panics. *)
Definition counter_panics `{Profile} (a : PolicyActor) : Prop :=
  overflow_checks = true /\ (2 ^ 64 <= connection_number a + 1)%Z.

Lemma next_connection_cases `{Profile} a :
  (exists n, PolicyActor.next_connection a = Val (PolicyActor.with_number a n)) \/
  (PolicyActor.next_connection a = Panic /\ counter_panics a).
Proof.
  unfold PolicyActor.next_connection, arith_usize, counter_panics.
  destruct (Z.ltb_spec (connection_number a + 1) (2 ^ 64)); [left; by eexists|].
  destruct overflow_checks; [right; split_and!; [done..|lia]|left; by eexists].
Qed.

(** A connection changes the counter and the caches only. *)
Definition with_connection (a : PolicyActor) (n : Z) (i : Identity) : PolicyActor :=
  PolicyActor.with_identity (PolicyActor.with_number a n) i.

Lemma connection_state `{UriLib} `{Profile} `{NameService} a from to :
  (exists c n, PolicyActor.connection a from to =
     (Val c, with_connection a n (Identity.id to (Identity.id from (a_identity a)).2).2)) \/
  (PolicyActor.connection a from to = (Panic, a) /\ counter_panics a).
Proof.
  unfold PolicyActor.connection. destruct (next_connection_cases a) as [[n ->]|[-> Hp]]; [left|by right].
  cbn [a_identity PolicyActor.with_number]. destruct (Identity.id from _) as [f i]. cbn [snd].
  destruct (Identity.id to i) as [t i']. eexists _, n. reflexivity.
Qed.

Lemma connection_cases `{UriLib} `{Profile} `{NameService} a from to :
  (exists c a', PolicyActor.connection a from to = (Val c, a')) \/
  (PolicyActor.connection a from to = (Panic, a) /\ counter_panics a).
Proof. destruct (connection_state a from to) as [(c & n & ->)|Hp]; [left; by eexists _, _|by right]. Qed.

Section proxy.
Context `{Profile} `{Lib} `{Aead} `{UriLib} {Net : Type}.
Variable regex_to_string : PolicyRegex -> string.
Variable network : Z -> string -> string -> list Value -> Net -> result Reader Error * Net.
Variable build_uri : string -> string -> option string -> option Uri.
Variable socket_to_string : SocketAddr -> string.
Variable own_ip : IpAddr -> bool.
Variable local_host_names : list string.
Variable to_ascii_lowercase : string -> string.
Variable request_from : HeaderMap -> HeaderMap.
Variable server : Uri -> HeaderMap -> bytes -> Net -> option WebResponse * Net.
Notation request := (HttpProxy.request regex_to_string network build_uri socket_to_string own_ip
                       local_host_names to_ascii_lowercase request_from server).
Notation eval_fn := (eval_http_fn regex_to_string network).
Notation build_headers := (HttpProxy.build_headers socket_to_string request_from).

(** The header for metadata that goes to the server. *)
Definition armour_values (meta : option string) : list bytes :=
  match meta ≫= HeaderMap.from_str with Some m => [m] | None => [] end.

Lemma build_headers_armour req meta : HeaderMap.get_all X_ARMOUR (build_headers req meta) = armour_values meta.
Proof.
  unfold HttpProxy.build_headers, armour_values. cbv zeta.
  destruct (meta ≫= HeaderMap.from_str); [apply get_all_insert|apply get_all_remove].
Qed.

Lemma response_builder_armour res : HeaderMap.get_all X_ARMOUR (HttpProxy.response_builder res) = [].
Proof.
  unfold HttpProxy.response_builder, HeaderMap.get_all. induction (r_headers res) as [|[k v] h IH]; simpl; [done|].
  destruct (k =? X_ARMOUR) eqn:E; rewrite ?orb_true_r; simpl; [done|].
  destruct (_ || _); simpl; [done|]. by rewrite E.
Qed.

(** The policy function for a message, given the number of its arguments,
    returns true with the metadata [m]. *)
Definition fn_allows (fuel : nat) (a : PolicyActor) (f : HttpFn) (n : Z) (message : DPExpr) (payload : bytes)
    (x : option string) (net : Net) (m : option string) : Prop :=
  exists args net', (forall o : Outside Net Uri, HttpProxy.arguments n message payload o = (Val args, o)) /\
    eval_fn fuel a f args x net = (Val (true, m), net').

(** The policy allows a request with the metadata [m]. *)
Definition request_allowed (fuel : nat) (a a_req : PolicyActor) (req : WebRequest) (u : Uri) (payload : bytes)
    (net : Net) (m : option string) : Prop :=
  exists c,
    (HttpProxy.get_http_policy a (PeerID.of_socket (w_peer req)) (PeerID.of_uri u)).1 = Val (http_status (a_http a), c) /\
    match st_request (http_status (a_http a)) with
    | Allow => m = None
    | Deny => False
    | Args n =>
      fn_allows fuel a_req Request n (HttpProxy.request_expr req c) payload (get_x_armour (w_headers req)) net m
    end.

(** And the answer of the server. *)
Definition response_allowed (fuel : nat) (a a_res : PolicyActor) (c : Connection) (res : WebResponse) (payload : bytes)
    (m : option string) : Prop :=
  match st_response (http_status (a_http a)) with
  | Allow => m = None
  | Deny => False
  | Args n => exists net,
    fn_allows fuel a_res Response n (HttpProxy.response_expr res (HttpProxy.response_builder res) c) payload
      (get_x_armour (r_headers res)) net m
  end.

(** What the client gets of an answer. *)
Definition delivered (fuel : nat) (a a_res : PolicyActor) (c : Connection) (s : Z) (hs : HeaderMap) (b : bytes) : Prop :=
  exists res m, r_status res = s /\ r_payload res = Some b /\ response_allowed fuel a a_res c res b m /\
    HeaderMap.get_all X_ARMOUR hs = match m with Some m => [as_bytes m] | None => [] end.

(** The status is the one of the actor; counting the connection may panic. *)
Lemma get_http_policy_cases a from to :
  (exists c, (HttpProxy.get_http_policy a from to).1 = Val (http_status (a_http a), c)) \/
  ((HttpProxy.get_http_policy a from to).1 = Panic /\ counter_panics a).
Proof.
  unfold HttpProxy.get_http_policy. destruct (st_allow_all _); [left; by eexists|].
  destruct (connection_cases a from to) as [(c & a' & ->)|[-> Hp]]; [left; by eexists|by right].
Qed.

Lemma arguments_cases count e payload :
  (exists args, forall o : Outside Net Uri, HttpProxy.arguments (Net := Net) count e payload o = (Val args, o)) \/
  (forall o : Outside Net Uri, HttpProxy.arguments (Net := Net) count e payload o = (Panic, o)).
Proof. unfold HttpProxy.arguments. repeat case_match; [left; by eexists..|by right]. Qed.

Lemma on_answer_cases {A} (m : Comp Net A) (k : A -> Comp (Outside Net Uri) Reply) (o : Outside Net Uri) :
  (exists a net, m (o_net o) = (Val a, net) /\ HttpProxy.on_answer m k o = k a (mkOutside net (o_forwarded o))) \/
  (o_forwarded (HttpProxy.on_answer m k o).2 = o_forwarded o /\
   forall r, (HttpProxy.on_answer m k o).1 = Val r -> r = Internal).
Proof.
  unfold HttpProxy.on_answer. destruct (m (o_net o)) as [[a|x| |] net]; [by left; eauto|right; simpl..];
    split; try done; intros; by simplify_eq.
Qed.

(** An answer forwards nothing, and is delivered only if it is allowed. *)
Lemma response_spec fuel a a_res c res o :
  let r := HttpProxy.response regex_to_string network fuel a_res (http_status (a_http a)) c res o in
  o_forwarded r.2 = o_forwarded o /\
  forall s hs b, r.1 = Val (Deliver s hs b) -> delivered fuel a a_res c s hs b.
Proof.
  intros r. subst r. unfold HttpProxy.response, delivered, response_allowed. destruct res as [res|]; [|done].
  destruct (st_response (http_status (a_http a))) as [| |n]; [|done|];
    (destruct (r_payload res) as [payload|] eqn:Ep; [|done]).
  - split; [done|]. simpl. intros; simplify_eq. exists res, None. split_and!; [done..|apply response_builder_armour].
  - unfold mbind, Comp_bind.
    destruct (arguments_cases n (HttpProxy.response_expr res (HttpProxy.response_builder res) c) payload)
      as [[args Hargs]|Hargs]; rewrite Hargs; [|done].
    match goal with |- context [HttpProxy.on_answer ?m ?k o] => destruct (on_answer_cases m k o) as
      [([b m'] & net & Hm & ->)|[-> Hr]] end; simpl.
    + destruct b; simpl; [|done]. split; [done|]. intros; simplify_eq. exists res, m'.
      split_and!; [done..| |].
      * exists (o_net o), args, net. by split.
      * rewrite get_all_app, response_builder_armour. by destruct m'.
    + split; [done|]. intros s hs b' Hd. by apply Hr in Hd.
Qed.

Lemma forward_spec fuel a a_res c u req meta payload o :
  let r := HttpProxy.forward regex_to_string network socket_to_string request_from server fuel a_res
             (http_status (a_http a)) c u req meta payload o in
  o_forwarded r.2 = o_forwarded o ++ [(u, build_headers req meta, payload)] /\
  forall s hs b, r.1 = Val (Deliver s hs b) -> delivered fuel a a_res c s hs b.
Proof.
  intros r. subst r. unfold HttpProxy.forward. destruct (server _ _ _ _) as [res net].
  match goal with |- context [HttpProxy.response _ _ _ _ _ _ _ ?o] => pose proof (response_spec fuel a a_res c res o) as [Hf Hd] end.
  cbv zeta in *. by rewrite Hf.
Qed.

(** C1: the proxy enforces the policy: a request is forwarded at most once,
    only when the policy allows it (without checks, or because its function
    returned true for the request), and its metadata header is the one the
    policy made; the client gets the body of the server only when the policy
    allows the answer as well, and with the metadata header of the policy
    only.  Other messages to the actor may be handled in between. *)
Theorem proxy_enforces_policy (fuel : nat) (a a_req a_res : PolicyActor) (req : WebRequest) (config : HttpConfig)
    (o : Outside Net Uri) :
  let r := request fuel a a_req a_res req config o in
  (o_forwarded r.2 = o_forwarded o \/
   exists u hs payload m,
     o_forwarded r.2 = o_forwarded o ++ [(u, hs, payload)] /\
     w_payload req = Some payload /\ request_allowed fuel a a_req req u payload (o_net o) m /\
     HeaderMap.get_all X_ARMOUR hs = armour_values m) /\
  (forall s hs b, r.1 = Val (Deliver s hs b) ->
     o_forwarded r.2 <> o_forwarded o /\ exists c, delivered fuel a a_res c s hs b).
Proof.
  assert (forall (l : list (Uri * HeaderMap * bytes)) x, l ++ [x] <> l) as Hne.
  { intros l x Hl. apply (f_equal length) in Hl. rewrite length_app in Hl. simpl in Hl. lia. }
  intros r. subst r. unfold HttpProxy.request, request_allowed.
  destruct (HttpProxy.forward_uri _ _ _ _ _ req config) as [u|]; [|by split; [left|]].
  destruct (get_http_policy_cases a (PeerID.of_socket (w_peer req)) (PeerID.of_uri u)) as [[c Hc]|[-> _]];
    [rewrite Hc, !lifted_val|rewrite !lifted_panic; by split; [left|]].
  destruct (st_request (http_status (a_http a))) as [| |n] eqn:Est; [|by split; [left|]|];
    (destruct (w_payload req) as [payload|] eqn:Ep; [|by split; [left|]]).
  - destruct (forward_spec fuel a a_res c u req None payload o) as [Hf Hd]. rewrite Hf. split.
    + right. exists u, (build_headers req None), payload, None. split_and!; [done..|by exists c|apply build_headers_armour].
    + intros s hs b Hv. split; [apply Hne|eauto].
  - unfold mbind, Comp_bind.
    destruct (arguments_cases n (HttpProxy.request_expr req c) payload) as [[args Hargs]|Hargs]; rewrite Hargs;
      [|by split; [left|]].
    match goal with |- context [HttpProxy.on_answer ?m ?k o] => destruct (on_answer_cases m k o) as
      [([b m'] & net & Hm & ->)|[-> Hr]] end; simpl.
    + destruct b; simpl; [|by split; [left|]].
      destruct (forward_spec fuel a a_res c u req m' payload (mkOutside net (o_forwarded o))) as [Hf Hd].
      rewrite Hf. split.
      * right. exists u, (build_headers req m'), payload, m'. split_and!; [done..| |apply build_headers_armour].
        exists c. split; [done|]. exists args, net. by split.
      * intros s hs b Hv. split; [apply Hne|eauto].
    + split; [by left|]. intros s hs b Hd. by apply Hr in Hd.
Qed.
End proxy.

(** ** Runs of the actor *)

Section runs.
Context `{UriLib} `{Profile}.
Variable blake3 : DPPolicy -> string.
Variable ip_to_string : IpAddr -> string.

(** Messages of the host that satisfy [P], connections and counted
    connections, in any order. *)
Inductive actor_run (P : PolicyRequest -> Prop) (a0 : PolicyActor) : PolicyActor -> Prop :=
| run_start : actor_run P a0 a0
| run_handle a started msg :
    actor_run P a0 a -> P msg -> actor_run P a0 (PolicyActor.handle blake3 ip_to_string started msg a)
| run_connection `{NameService} a from to : actor_run P a0 a -> actor_run P a0 (PolicyActor.connection a from to).2
| run_count a a' : actor_run P a0 a -> PolicyActor.next_connection a = Val a' -> actor_run P a0 a'.

(** What the handlers read is what the installed policies say. *)
Record actor_ok (a : PolicyActor) : Prop := {
  ok_request : st_request (http_status (a_http a)) = get_or_default (http_policy (a_http a)) ALLOW_REST_REQUEST;
  ok_response : st_response (http_status (a_http a)) = get_or_default (http_policy (a_http a)) ALLOW_REST_RESPONSE;
  ok_allow_all : st_allow_all (http_status (a_http a)) = true <->
    st_request (http_status (a_http a)) = Allow /\ st_response (http_status (a_http a)) = Allow;
  ok_connect : connect (a_tcp a) = get_or_default (tcp_policy (a_tcp a)) ALLOW_TCP_CONNECTION;
  ok_disconnect : disconnect (a_tcp a) = get_or_default (tcp_policy (a_tcp a)) ON_TCP_DISCONNECT;
  ok_identity : exists used, identity_run used (a_identity a);
}.

Lemma actor_ok_same a a' :
  actor_ok a -> http_status (a_http a') = http_status (a_http a) -> http_policy (a_http a') = http_policy (a_http a) ->
  connect (a_tcp a') = connect (a_tcp a) -> disconnect (a_tcp a') = disconnect (a_tcp a) ->
  tcp_policy (a_tcp a') = tcp_policy (a_tcp a) -> (exists used, identity_run used (a_identity a')) -> actor_ok a'.
Proof. intros [] Hs Hp Hc Hd Ht Hi. split; rewrite ?Hs, ?Hp, ?Hc, ?Hd, ?Ht; done. Qed.

Ltac same Hok := apply (actor_ok_same _ _ Hok); try done; by destruct Hok.

Lemma write_ok a r : actor_ok a -> actor_ok (PolicyActor.write a r).
Proof. intros Hok. same Hok. Qed.

Lemma set_http_ok a p : actor_ok a -> actor_ok (PolicyActor.install_http blake3 a p).
Proof.
  intros []. split; simpl; try done. rewrite andb_true_iff, !bool_decide_eq_true. done.
Qed.
Lemma set_tcp_ok a p : actor_ok a -> actor_ok (PolicyActor.install_tcp blake3 a p).
Proof. intros []. by split. Qed.

Lemma write_n_ok n a r : actor_ok a -> actor_ok (PolicyActor.write_n n a r).
Proof. revert a. induction n; simpl; intros a Ha; [done|]. by apply IHn, write_ok. Qed.

Lemma connection_ok `{NameService} a from to : actor_ok a -> actor_ok (PolicyActor.connection a from to).2.
Proof.
  intros Hok. destruct (connection_state a from to) as [(c & n & ->)|[-> _]]; [|done]. simpl.
  destruct (ok_identity _ Hok) as [used Hi]. pose proof (id_lookup _ _ _ to (id_lookup _ _ _ from Hi)) as Hi'.
  apply (actor_ok_same _ _ Hok); try done. by eexists.
Qed.

Lemma actor_handle_ok started msg a : actor_ok a -> actor_ok (PolicyActor.handle blake3 ip_to_string started msg a).
Proof.
  intros Hok. destruct msg as [t|op|ps| |c|p| |[]|t]; simpl.
  - by apply write_ok.
  - unfold PolicyActor.handle_label_op. destruct (ok_identity _ Hok) as [used Hi]. pose proof (id_label_op _ _ op Hi) as Hi'. cbv zeta in Hi'.
    destruct (LabelOps.handle_label_op op _) as [n i]. apply write_n_ok. apply (actor_ok_same _ _ Hok); try done. by eexists.
  - assert (actor_ok match Policies.policy ps TCP with
                     | Some p => PolicyActor.install_tcp blake3 a p | None => a end) as Ht.
    { destruct (Policies.policy ps TCP); [by apply set_tcp_ok|done]. }
    destruct (Policies.policy ps HTTP); [by apply set_http_ok|done].
  - same Hok.
  - case_bool_decide; [by apply write_ok|]. destruct started; same Hok.
  - case_bool_decide; [by apply write_ok|]. destruct started; same Hok.
  - by apply write_ok.
  - destruct (HttpPolicy.port _); [|by apply write_ok]. same Hok.
  - destruct (TcpPolicy.port _); [|by apply write_ok]. same Hok.
  - destruct Hok. by split.
Qed.

Lemma run_ok P label timeout a : actor_run P (PolicyActor.create_policy label timeout) a -> actor_ok a.
Proof.
  induction 1 as [|a started msg _ IH _|names a from to _ IH|a a' _ IH Hn].
  - split; simpl; try done; [by split; [|intros [? _]]|exists []; apply id_start].
  - by apply actor_handle_ok.
  - by apply connection_ok.
  - destruct (next_connection_cases a) as [[n Hc]|[Hc _]]; rewrite Hc in Hn; simplify_eq. same IH.
Qed.

(** Policies stay until others are installed. *)
Definition installs (msg : PolicyRequest) : bool := match msg with SetPolicy _ => true | _ => false end.

Lemma write_n_policies n a r :
  a_http (PolicyActor.write_n n a r) = a_http a /\ a_tcp (PolicyActor.write_n n a r) = a_tcp a.
Proof. revert a. induction n; simpl; intros a; [done|]. apply (IHn (PolicyActor.write a r)). Qed.

Lemma run_policies a0 a :
  actor_run (fun m => installs m = false) a0 a ->
  http_policy (a_http a) = http_policy (a_http a0) /\ tcp_policy (a_tcp a) = tcp_policy (a_tcp a0).
Proof.
  induction 1 as [|a started msg _ [<- <-] Hm|names a from to _ [<- <-]|a a' _ [<- <-] Hn]; [done|..].
  - destruct msg as [t|op|ps| |c|p| |[]|t]; simpl in *; try done.
    + unfold PolicyActor.handle_label_op. destruct (LabelOps.handle_label_op op _) as [n i].
      destruct (write_n_policies n (PolicyActor.with_identity a i) RequestFailed) as [-> ->]. done.
    + case_bool_decide; [done|]. by destruct started.
    + case_bool_decide; [done|]. by destruct started.
    + by destruct (HttpPolicy.port _).
    + by destruct (TcpPolicy.port _).
  - by destruct (connection_state a from to) as [(c & n & ->)|[-> _]].
  - destruct (next_connection_cases a) as [[n Hc]|[Hc _]]; rewrite Hc in Hn; by simplify_eq.
Qed.


(** Nothing passes before a policy is installed: until a [SetPolicy]
    message, HTTP requests are answered by the proxy without forwarding, and
    TCP connections are blocked.  With overflow checks the request panics when
    connections cannot be counted any more. *)
Theorem default_deny `{Lib} `{Aead} {Net : Type} regex_to_string network build_uri socket_to_string own_ip names lower
    request_from server
    (label : Label) (timeout : Z) (a a_req a_res : PolicyActor) (fuel : nat) (req : WebRequest) (config : HttpConfig)
    (src dst : SocketAddr) (net : Net) (o : Outside Net Uri) :
  actor_run (fun m => installs m = false) (PolicyActor.create_policy label timeout) a ->
  (exists r, HttpProxy.request regex_to_string network build_uri socket_to_string own_ip names lower request_from server
               fuel a a_req a_res req config o = (r, o) /\
             (r = Val Internal \/ r = Val (Unauthorized "request denied") \/ r = Panic /\ counter_panics a)) /\
  (get_tcp_policy regex_to_string network fuel a src dst).1 net = (Val TcpBlock, net).
Proof.
  intros Hr. destruct (run_policies _ _ Hr) as [Hh Ht].
  destruct (run_ok _ _ _ _ Hr) as [Hreq _ _ Hcon _ _]. rewrite Hh in Hreq. rewrite Ht in Hcon. split.
  - unfold HttpProxy.request. destruct (HttpProxy.forward_uri _ _ _ _ _ req config) as [u|]; [|by eexists; split; [|left]].
    destruct (get_http_policy_cases a (PeerID.of_socket (w_peer req)) (PeerID.of_uri u)) as [[c ->]|[-> Hp]];
      [rewrite lifted_val|rewrite lifted_panic; eexists; split; [done|by right; right]].
    assert (st_request (http_status (a_http a)) = Deny) as -> by by rewrite Hreq.
    eexists. split; [done|by right; left].
  - unfold get_tcp_policy. by rewrite Hcon.
Qed.
End runs.

(** ** Panics of the actor *)

Definition test_actor `{UriLib} (ps : DPPolicies) : PolicyActor :=
  @PolicyActor.handle _ (fun _ => "") (fun _ => "") true (SetPolicy ps) (PolicyActor.create_policy [Str "proxy"] 5).

(** The handlers rely on policies being checked beforehand, but the check
    accepts numbers of arguments that they do not handle: with the policy
    [allow_tcp_connection() -> bool] every TCP connection panics the actor,
    and with a request function of four arguments the HTTP proxy panics. *)
Theorem accepted_policies_panic `{UriLib} `{Aead} {Net : Type} (network : Z -> string -> string -> list Value -> Net -> result Reader Error * Net)
    (fuel : nat) (src dst : SocketAddr) (net : Net) (message : DPExpr) (payload : bytes) (o : Outside Net Uri) :
  (exists ps, test_policies tcp_decls = Val ps /\
     ((get_tcp_policy (H := false) (H0 := test_lib) (fun _ => "") network fuel (test_actor ps) src dst).1 net).1 = Panic) /\
  (exists ps n, test_policies http_decls = Val ps /\
     st_request (http_status (a_http (test_actor ps))) = Args n /\
     HttpProxy.arguments n message payload o = (Panic, o)).
Proof.
  split.
  - eexists. split; [vm_compute; reflexivity|reflexivity].
  - eexists _, _. split; [vm_compute; reflexivity|]. split; reflexivity.
Qed.

(** A client can make the actor panic: a metadata header of two parts
    whose second part does not decode to twelve bytes panics the handler of
    every policy function, whatever the policy. *)
Theorem metadata_header_panics `{Profile} `{Lib} `{Aead} {Net : Type} regex_to_string network fuel (a : PolicyActor)
    (f : HttpFn) (args : list DPExpr) (header : string) (block nonce : bytes) (net : Net) :
  mapM base64_decode (split ";" header) = Some [block; nonce] -> length nonce <> 12 ->
  eval_http_fn regex_to_string network fuel a f args (Some header) net = (Panic, net).
Proof.
  intros Hm Hn. unfold eval_http_fn, Crypt.decrypt_meta, Crypt.decrypt. rewrite Hm.
  unfold Crypt.generic_array. apply Nat.eqb_neq in Hn. by rewrite Hn.
Qed.

Definition test_aead : Aead := {|
  clock_bytes := Some (as_bytes "12345678"); encrypt_in_place := fun _ b => Some b; decrypt_in_place := fun _ b => Some b;
  json_of_meta := fun _ => Some "{}"; meta_of_json := fun b => if String.eqb (of_bytes b) "{}" then Some Meta.default else None |}.
Lemma metadata_header_panics_witness :
  @eval_http_fn false test_lib test_aead nat (fun _ => "") test_network 10 (@test_actor test_uri []) Request [] (Some "x;y") 0 =
    (Panic, 0).
Proof.
  refine (@metadata_header_panics false test_lib test_aead nat (fun _ => "") test_network 10 (@test_actor test_uri []) Request []
    "x;y" (as_bytes "x") (as_bytes "y") 0 _ _); [reflexivity|discriminate].
Defined.

(** Examples of runs: a label and an installed policy; and a label alone. *)
Definition test_start : PolicyActor := PolicyActor.create_policy [Str "proxy"] 5.
Definition run_actor (msgs : list PolicyRequest) : PolicyActor :=
  foldl (fun a msg => @PolicyActor.handle test_uri (fun _ => "") (fun _ => "") true msg a) test_start msgs.

Lemma run_actor_ok (P : PolicyRequest -> Prop) msgs :
  Forall P msgs -> @actor_run test_uri false (fun _ => "") (fun _ => "") P test_start (run_actor msgs).
Proof.
  unfold run_actor. generalize (run_start (H := test_uri) (H0 := false) (fun _ => "") (fun _ => "") P test_start).
  generalize test_start at 2 4 as a. induction msgs as [|m msgs IH]; intros a Ha Hall; simpl; [done|].
  apply Forall_cons in Hall as [Hm Hall]. apply IH; [|done]. by apply run_handle.
Qed.


Definition test_request : WebRequest :=
  mkWebRequest "GET" "HTTP/1.1" "/" "" [] (Some []) "http" "host" None None.
Definition test_server (u : string * option Z) (hs : HeaderMap) (b : bytes) (n : nat) : option WebResponse * nat :=
  (Some (mkWebResponse "HTTP/1.1" 200 None [] (Some [])), n).
(** The first value of each header. *)
Definition first_headers (h : HeaderMap) : HeaderMap :=
  foldl (fun acc kv => if existsb (fun kv' => (kv'.1 =? kv.1)%string) acc then acc else acc ++ [kv]) [] h.
Definition test_proxy (fuel : nat) (a : PolicyActor) (req : WebRequest) (o : Outside nat (string * option Z)) :=
  @HttpProxy.request false test_lib test_aead test_uri nat (fun _ => "") test_network
    (fun _ host _ => Some (host, Some 80%Z)) (fun _ => "") (fun _ => false) [] (fun s => s) first_headers test_server
    fuel a a a req (Port 8080) o.

Lemma default_deny_witness :
  let a := run_actor [Label_ (AddUri [("host", [[Str "x"]])])] in
  test_proxy 10 a test_request (mkOutside 0 []) = (Val (Unauthorized "request denied"), mkOutside 0 []).
Proof.
  intros a. assert (Forall (fun m => installs m = false) [Label_ (AddUri [("host", [[Str "x"]])])]) as Hm
    by repeat constructor.
  destruct (proj1 (@default_deny test_uri false (fun _ => "") (fun _ => "") test_lib test_aead nat (fun _ => "")
    test_network (fun _ host _ => Some (host, Some 80%Z)) (fun _ => "") (fun _ => false) [] (fun s => s) first_headers
    test_server [Str "proxy"] 5 a a a 10 test_request (Port 8080) (mkSocketAddr (V4 1) 1) (mkSocketAddr (V4 2) 2) 0
    (mkOutside 0 []) (run_actor_ok _ _ Hm))) as (r & Hr & Hc).
  change (test_proxy 10 a test_request (mkOutside 0 []) = (r, mkOutside 0 [])) in Hr. rewrite Hr. destruct Hc as [->|[->|[-> [[=] _]]]]; [|done].
  exfalso. revert Hr. by vm_compute.
Defined.

(** ** The metadata header *)

(** The documented behaviour of the libraries: decryption inverts encryption
    under the same nonce, parsing inverts printing, and base64 has no [;]. *)
Class CryptLaws `{Aead} `{Lib} : Prop := {
  decrypt_encrypt n b c : encrypt_in_place n b = Some c -> decrypt_in_place n c = Some b;
  json_roundtrip m s : json_of_meta m = Some s -> meta_of_json (as_bytes s) = Some m;
  base64_roundtrip b : base64_decode (base64_encode b) = Some b;
  base64_alphabet b : free_of ";"%char (base64_encode b) = true;
}.

(** Metadata crosses the network unchanged: what one proxy encrypts into
    the header, another with the same key decrypts to the same metadata. *)
Theorem metadata_roundtrip `{CryptLaws} (m : Meta) (s : string) :
  Crypt.encrypt_meta (Some m) = Val (Some s) -> Crypt.decrypt_meta s = Val (Some m).
Proof.
  unfold Crypt.encrypt_meta, Crypt.encrypt, Crypt.decrypt_meta, Crypt.decrypt. cbn [mbind option_bind].
  destruct (json_of_meta m) as [j|] eqn:Ej; [|done]. destruct Crypt.nonce as [n|]; [|done].
  unfold Crypt.generic_array. destruct (Nat.eqb (length n) 12) eqn:En; [|done].
  cbn [mbind Outcome_bind]. destruct (encrypt_in_place n (as_bytes j)) as [c|] eqn:Ec; [|done].
  cbn [fmap option_fmap option_map]. intros; simplify_eq.
  assert (split ";" (base64_encode c ^^ String ";" (base64_encode n)) = [base64_encode c; base64_encode n]) as ->.
  { apply (split_join ";"%char EmptyString [base64_encode c; base64_encode n]); [done|].
    repeat constructor; apply base64_alphabet. }
  simpl. rewrite !base64_roundtrip. simpl. rewrite En. simpl. rewrite (decrypt_encrypt _ _ _ Ec). simpl.
  by rewrite (json_roundtrip _ _ Ej).
Qed.

(** Bytes as pairs of letters, for the example. *)
Definition nibble (n : N) : ascii := ascii_of_N (n + 65).
Definition hex_encode (b : bytes) : string :=
  of_bytes (flat_map (fun c => [nibble (N_of_ascii c / 16); nibble (N_of_ascii c mod 16)]%N) b).
Fixpoint hex_pairs (b : bytes) : bytes :=
  match b with
  | x :: y :: b' => ascii_of_N ((N_of_ascii x - 65) * 16 + (N_of_ascii y - 65))%N :: hex_pairs b'
  | _ => []
  end.
Definition hex_decode (s : string) : option bytes := Some (hex_pairs (as_bytes s)).

Definition hex_lib : Lib := {|
  now := None; to_lowercase := fun s => s; to_uppercase := fun s => s;
  from_utf8_lossy := of_bytes; base64_encode := hex_encode; base64_decode := hex_decode;
  Lib_names := {| lookup_addr := fun _ => None; lookup_host := fun _ => None |}; url_query_pairs := fun _ => Some [];
  regex_escape := fun s => s; regex_is_match := fun re s => false;
  regex_capture_names := fun _ => []; regex_captures := fun _ _ => None |}.
Definition label_aead : Aead := {|
  clock_bytes := Some (as_bytes "12345678"); encrypt_in_place := fun _ b => Some (rev b);
  decrypt_in_place := fun _ b => Some (rev b);
  json_of_meta := fun m => match m with mkMeta (Some [Str s]) [] [] => Some s | _ => None end;
  meta_of_json := fun b => Some (Meta.new [Str (of_bytes b)]) |}.

Lemma nibble_value n : (n < 16)%N -> N_of_ascii (nibble n) = (n + 65)%N.
Proof. intros Hn. unfold nibble. apply N_ascii_embedding. lia. Qed.

Lemma hex_roundtrip b : hex_decode (hex_encode b) = Some b.
Proof.
  unfold hex_decode, hex_encode, as_bytes, of_bytes. rewrite list_ascii_of_string_of_list_ascii. f_equal.
  induction b as [|c b IH]; [done|]. cbn [flat_map app hex_pairs]. rewrite IH. f_equal.
  assert (N_of_ascii c < 256)%N as Hc by apply N_ascii_bounded.
  rewrite !nibble_value by (first [apply N.Div0.div_lt_upper_bound; lia|apply N.mod_lt; lia]).
  rewrite !N.add_sub. rewrite <- (ascii_N_embedding c) at 3. f_equal.
  rewrite (N.div_mod' (N_of_ascii c) 16) at 3. lia.
Qed.

Lemma hex_alphabet b : free_of ";"%char (hex_encode b) = true.
Proof.
  unfold hex_encode, of_bytes. induction b as [|c b IH]; [done|]. cbn [flat_map app string_of_list_ascii].
  assert (N_of_ascii c < 256)%N as Hc by apply N_ascii_bounded.
  assert (forall n, (n < 16)%N -> Ascii.eqb ";"%char (nibble n) = false /\ Ascii.eqb (nibble n) ";"%char = false) as Hn.
  { intros n Hn. rewrite (Ascii.eqb_sym (nibble n)). split; apply Ascii.eqb_neq; intros He;
      apply (f_equal N_of_ascii) in He; rewrite nibble_value in He by done; change (N_of_ascii ";") with 59%N in He; lia. }
  destruct (Hn (N_of_ascii c / 16)%N) as [H1 H2]; [apply N.Div0.div_lt_upper_bound; lia|].
  destruct (Hn (N_of_ascii c mod 16)%N) as [H3 H4]; [apply N.mod_lt; lia|].
  unfold free_of in *. simpl. rewrite ?H1, ?H2, ?H3, ?H4. simpl. exact IH.
Qed.

#[export] Instance hex_laws : @CryptLaws label_aead hex_lib.
Proof.
  split; simpl.
  - intros n b c Hc. injection Hc as <-. by rewrite rev_involutive.
  - intros m s. destruct m as [[[|[x|x|x] [|]]|] [|] [|]]; try done. intros Hs. injection Hs as ->.
    unfold Meta.new. unfold of_bytes, as_bytes. by rewrite string_of_list_ascii_of_string.
  - apply hex_roundtrip.
  - apply hex_alphabet.
Qed.

Lemma metadata_roundtrip_witness :
  exists s, @Crypt.encrypt_meta label_aead hex_lib (Some (Meta.new [Str "x"])) = Val (Some s) /\
            @Crypt.decrypt_meta label_aead hex_lib s = Val (Some (Meta.new [Str "x"])).
Proof.
  eexists. split; [vm_compute; reflexivity|].
  apply (@metadata_roundtrip label_aead hex_lib hex_laws). vm_compute. reflexivity.
Defined.
