(* ===== verification/Host.v ===== *)
(** * The host daemon (src/src/armour-host/src, src/src/armour-api/src/host.rs)

    The daemon of a host launches proxies and keeps an instance for each
    process that connects.  It passes on requests, from its REST interface and
    from the control plane, to the instances that a selector picks, and
    onboards proxies with the control plane.

    [Instances] and [DataHost] model instance.rs and host.rs: the state of the
    host actor is [HostState]; [HostWorld] adds what its handlers do outside.
    [HostApi] models host.rs of the API and [HostRest] the REST handlers, as
    the messages that they send to the actor.  Parameters: the operating
    system, the HTTP client, and the order of hash maps. *)

From Stdlib Require Import ZArith Lia String Ascii List.
From stdpp Require Import base tactics list strings sets.
From S2P Require Import Prelude.
From S2P Require Import Ordered.
From S2P Require Import Strings.
From S2P Require Import Labels.
From S2P Require Import Syntax.
From S2P Require Import Types.
From S2P Require Import Net.
From S2P Require Import Literals.
From S2P Require Import Expressions.
From S2P Require Import Interpret.
From S2P Require Import Lang.
From S2P Require Import Policies.
From S2P Require Import ControlLiterals.
From S2P Require Import ControlState.
From S2P Require Import Identity.
From S2P Require Import Proxy.

Local Open Scope string_scope.
Local Open Scope list_scope.

(** ** Ports and sockets *)

Definition u16_max : Z := 2 ^ 16 - 1.
(** The result of [+] on [u16]. *)
Definition arith_u16 `{Profile} (z : Z) : Outcome Z :=
  if (0 <=? z)%Z && (z <=? u16_max)%Z then Val z else if overflow_checks then Panic else Val (as_u16 z).

Definition parse_unsigned (max : Z) (s : string) : option Z :=
  z ← match s with String "+" s' => nonempty_digits s' | _ => nonempty_digits s end;
  if (z <=? max)%Z then Some z else None.

Module SocketAddrV4.
(** [SocketAddrV4::from_str]: a port is any number of digits. *)
Definition from_str (s : string) : option SocketAddr :=
  '(ip, s) ← IpAddr.read_ipv4 s;
  s ← IpAddr.read_char ":" s;
  p ← nonempty_digits s;
  if (p <=? u16_max)%Z then Some (mkSocketAddr (V4 ip) p) else None.
(** [Display], of an address with 32 bits. *)
Definition to_string (ip port : Z) : string :=
  join "." (map i64_to_string (IpAddr.octets_v4 ip)) ^^ ":" ^^ i64_to_string port.
End SocketAddrV4.

(** ** Onboarding information (armour-api) *)
Module HostApi.

Record Proxy := mkProxy {
  px_label : Label;
  px_port : option Z;
  px_timeout : option Z;
  px_debug : bool;
  px_ingress : option string;
}.
Record OnboardInformation := mkOnboardInformation { oi_proxies : list Proxy; oi_labels : list (Z * Labels) }.

Definition of_label (label : Label) : Proxy := mkProxy label None None false None.

(** The port of a proxy; without one, that after [p]. *)
Definition port `{Profile} (x : Proxy) (p : Z) : Outcome Z :=
  match px_port x with Some q => Val q | None => arith_u16 (p + 1) end.

Definition ingress (x : Proxy) : option SocketAddr := px_ingress x ≫= SocketAddrV4.from_str.

(** An ingress [name:port] gets the address of the name. *)
Definition set_ingress (x : Proxy) (hosts : BTreeMap string Z) : result Proxy string :=
  match ingress x, px_ingress x with
  | None, Some i =>
    let failed := Err ("failed to set ingress: " ^^ i) in
    match split ":" i with
    | [host; port] =>
      match BTreeMap.get hosts host, parse_unsigned u16_max port with
      | Some host_ip, Some port =>
        Ok (mkProxy (px_label x) (px_port x) (px_timeout x) (px_debug x) (Some (SocketAddrV4.to_string host_ip port)))
      | _, _ => failed
      end
    | _ => failed
    end
  | _, _ => Ok x
  end.

Definition config `{Profile} (x : Proxy) (p : Z) : Outcome HttpConfig :=
  port ← port x p;
  Val (match ingress x with Some s => Ingress port s | None => Port port end).

Definition top_port (i : OnboardInformation) : Z :=
  match omap px_port (oi_proxies i) with
  | [] => 5999%Z
  | p :: ps => foldl Z.max p ps
  end.
End HostApi.

(** ** Instances (instance.rs) *)

Inductive InstanceSelector := All | OfLabel (l : Label) | OfID (id : Z).

(** [instance::Meta] *)
Record ProxyMeta := mkProxyMeta {
  pm_pid : Z;
  pm_tmp_dpid : option ID;
  pm_label : Label;
  pm_http : string;
  pm_tcp : string;
}.
(** [armour_api::host::PolicyStatus] *)
Record HostPolicyStatus := mkHostPolicyStatus { hs_label : Label; hs_http : string; hs_tcp : string }.
(** [instance::Instance]; an address is the number of a connection. *)
Record HostInstance := mkInstance { in_meta : option ProxyMeta; in_addr : Z }.

Module Instances.
Definition status (m : ProxyMeta) : HostPolicyStatus := mkHostPolicyStatus (pm_label m) (pm_http m) (pm_tcp m).
Definition new (addr : Z) : HostInstance := mkInstance None addr.
Definition set_meta (meta : ProxyMeta) (i : HostInstance) : HostInstance := mkInstance (Some meta) (in_addr i).
Definition with_meta (f : ProxyMeta -> ProxyMeta) (i : HostInstance) : HostInstance :=
  mkInstance (option_map f (in_meta i)) (in_addr i).
Definition set_http_hash (s : string) : HostInstance -> HostInstance :=
  with_meta (fun m => mkProxyMeta (pm_pid m) (pm_tmp_dpid m) (pm_label m) s (pm_tcp m)).
Definition set_tcp_hash (s : string) : HostInstance -> HostInstance :=
  with_meta (fun m => mkProxyMeta (pm_pid m) (pm_tmp_dpid m) (pm_label m) (pm_http m) s).
Definition set_tmp_dpid (d : ID) : HostInstance -> HostInstance :=
  with_meta (fun m => mkProxyMeta (pm_pid m) (Some d) (pm_label m) (pm_http m) (pm_tcp m)).

(** [get_mut], when the instance is there. *)
Definition update (id : Z) (f : HostInstance -> HostInstance) (m : BTreeMap Z HostInstance) : BTreeMap Z HostInstance :=
  match BTreeMap.get m id with Some i => BTreeMap.insert id (f i) m | None => m end.
End Instances.

(** ** Messages to the host actor *)

Inductive LogLevel := LError | LWarn | LInfo | LDebug | LTrace.
Definition log_level (l : LogLevel) : string :=
  match l with
  | LError => "error" | LWarn => "warn" | LInfo => "info" | LDebug => "debug" | LTrace => "trace"
  end.

Record Launch := mkLaunch { la_force : bool; la_label : Label; la_log : LogLevel; la_timeout : option Z }.

Inductive HostMsg :=
| MConnect (addr : Z)
| MDisconnect (id : Z)
| MRegisterProxy (id : Z) (meta : ProxyMeta)
| MCPOnboardProxy (id : Z) (ip_labels : BTreeMap IpAddr Labels)
| MRegisterHttpHash (id : Z) (hash : string)
| MRegisterTcpHash (id : Z) (hash : string)
| MLaunch (l : Launch)
| MQuit
| MList
| MMetaData (s : InstanceSelector)
| MServiceGlobalID (global_id : ID) (s : InstanceSelector)
| MPolicyCommand (retry : bool) (s : InstanceSelector) (req : PolicyRequest).

(** What the actor answers. *)
Inductive HostReply :=
| RUnit
| RId (id : Z)
| RLabels (l : list string)
| RStatuses (l : list HostPolicyStatus)
| RError (s : option string).

(** The actor of an instance: what a message of its process, or its end, makes
    it tell the host. *)
Module ArmourDataInstance.
Section instance.
Variable blake3 : DPPolicy -> string.
Definition handle (id : Z) (msg : PolicyResponse) : list HostMsg :=
  match msg with
  | Connect pid tmp_dpid label http tcp => [MRegisterProxy id (mkProxyMeta pid tmp_dpid label http tcp)]
  | CPOnboardingProxy ip_labels => [MCPOnboardProxy id ip_labels]
  | UpdatedPolicy HTTP hash => [MRegisterHttpHash id hash]
  | UpdatedPolicy TCP hash => [MRegisterTcpHash id hash]
  | Started | Stopped | RequestFailed => []
  | ShuttingDown => [MDisconnect id]
  | StatusReport _ _ http tcp =>
    [MRegisterHttpHash id (blake3 (s_policy http)); MRegisterTcpHash id (blake3 (s_policy tcp))]
  end.
Definition finished (id : Z) : list HostMsg := [MDisconnect id].
End instance.
End ArmourDataInstance.

(** ** The host actor (host.rs) *)

(** The process that is launched for a proxy. *)
Record ProxyCommand := mkCommand { cmd_program : string; cmd_pass : string; cmd_args : list string }.

Inductive HttpMethod := GET | POST | DELETE | OtherMethod.
(** What is sent to the control plane. *)
Inductive CPValue := CPService (r : OnboardServiceRequest) | CPQuery (label : Label).

(** The processes and the control plane that a host deals with. *)
Class HostOutside (E : Type) := {
  (** The directory of the program of the daemon. *)
  exe_dir : option string;
  spawn : ProxyCommand -> E -> option Z * E;
  (** Waiting for the end of a process can fail. *)
  child_wait : Z -> E -> bool * E;
  (** The answer of a server: whether its status is a success, and its body
      when it can be read. *)
  Body : Type;
  send_json : HttpMethod -> string -> CPValue -> E -> option (bool * option Body) * E;
  body_service_id : Body -> option Label;
  body_policy : Body -> option (DPPolicies * LabelMap);
}.

(** The order in which a hash map is iterated. *)
Class IterOrder := {
  iter_order : forall {A : Type}, list A -> list A;
  iter_order_perm {A} (l : list A) : iter_order l ≡ₚ l;
}.

Section state.
Context `{Serde}.

Record HostState := mkHostState {
  h_url : Url;
  h_label : Label;
  h_onboarded : bool;
  h_instances : BTreeMap Z HostInstance;
  h_children : BTreeSet Z;
  h_count : Z;
  h_socket : string;
  h_key : bytes;
}.

Definition with_instances (h : HostState) (m : BTreeMap Z HostInstance) : HostState :=
  mkHostState (h_url h) (h_label h) (h_onboarded h) m (h_children h) (h_count h) (h_socket h) (h_key h).
Definition with_children (h : HostState) (c : BTreeSet Z) : HostState :=
  mkHostState (h_url h) (h_label h) (h_onboarded h) (h_instances h) c (h_count h) (h_socket h) (h_key h).
Definition with_count (h : HostState) (n : Z) : HostState :=
  mkHostState (h_url h) (h_label h) (h_onboarded h) (h_instances h) (h_children h) n (h_socket h) (h_key h).
End state.

Record HostWorld {S : Serde} {E : Type} := mkHostWorld {
  hw_host : HostState;
  hw_outside : E;
  (** Requests sent to instances, by address, the last at the end. *)
  hw_sent : list (Z * PolicyRequest);
  (** Messages to itself, for now and for later. *)
  hw_notified : list HostMsg;
  hw_later : list HostMsg;
  (** The system was stopped. *)
  hw_stopped : bool;
}.
Arguments HostWorld {S} E.
Arguments mkHostWorld {S E} hw_host hw_outside hw_sent hw_notified hw_later hw_stopped.

Module DataHost.
Section host.
Context `{Profile} `{Serde} `{Lib} `{IterOrder} {E : Type} `{HostOutside E}.
Notation World := (HostWorld E).

Definition on_outside {A} (f : E -> A * E) (w : World) : A * World :=
  let '(a, e) := f (hw_outside w) in
  (a, mkHostWorld (hw_host w) e (hw_sent w) (hw_notified w) (hw_later w) (hw_stopped w)).
Definition with_host (h : HostState) (w : World) : World :=
  mkHostWorld h (hw_outside w) (hw_sent w) (hw_notified w) (hw_later w) (hw_stopped w).
Definition send (l : list (Z * PolicyRequest)) (w : World) : World :=
  mkHostWorld (hw_host w) (hw_outside w) (hw_sent w ++ l) (hw_notified w) (hw_later w) (hw_stopped w).
Definition notify (l : list HostMsg) (w : World) : World :=
  mkHostWorld (hw_host w) (hw_outside w) (hw_sent w) (hw_notified w ++ l) (hw_later w) (hw_stopped w).
Definition notify_later (m : HostMsg) (w : World) : World :=
  mkHostWorld (hw_host w) (hw_outside w) (hw_sent w) (hw_notified w) (hw_later w ++ [m]) (hw_stopped w).
Definition stop_system (w : World) : World :=
  mkHostWorld (hw_host w) (hw_outside w) (hw_sent w) (hw_notified w) (hw_later w) true.

Definition new (url : Url) (label : Label) (onboarded : bool) (socket : string) (key : bytes) : HostState :=
  mkHostState url label onboarded [] [] 0 socket key.

(** The instances that a selector picks, with their numbers. *)
Definition selected (s : InstanceSelector) (kv : Z * HostInstance) : bool :=
  match s, in_meta kv.2 with
  | OfLabel l, Some m => Label.matches_with l (pm_label m)
  | OfLabel _, None => false
  | All, _ | OfID _, _ => true
  end.
Definition get_instances (s : InstanceSelector) (m : BTreeMap Z HostInstance) : list (Z * HostInstance) :=
  match s with
  | OfID id => match BTreeMap.get m id with Some i => [(id, i)] | None => [] end
  | All | OfLabel _ => List.filter (selected s) (iter_order m)
  end.
Definition update_instances (s : InstanceSelector) (tmp_dpid : ID) (m : BTreeMap Z HostInstance)
    : BTreeMap Z HostInstance :=
  foldl (fun m kv => Instances.update kv.1 (Instances.set_tmp_dpid tmp_dpid) m) m (get_instances s m).

(** [control_plane] and [control_plane_deserialize] (lib.rs); errors are only
    logged. *)
Definition control_plane (url : Url) (method : HttpMethod) (path : string) (value : CPValue) (w : World)
    : option Body * World :=
  match url_host_str url with
  | Some host_str =>
    let full_path := "https://" ^^ host_str ^^ ":" ^^ i64_to_string (default 8088%Z (url_port url)) ^^ "/" ^^ path in
    match method with
    | OtherMethod => (None, w)
    | _ =>
      let '(r, w) := on_outside (send_json method full_path value) w in
      (match r with Some (true, body) => body | _ => None end, w)
    end
  | None => (None, w)
  end.
Definition control_plane_deserialize {D} (dec : Body -> option D) (url : Url) (method : HttpMethod) (path : string)
    (value : CPValue) (w : World) : option D * World :=
  let '(r, w) := control_plane url method path value w in (r ≫= dec, w).

Definition connect (addr : Z) (w : World) : HostReply * World :=
  let h := hw_host w in
  let count := h_count h in
  let h := with_instances h (BTreeMap.insert count (Instances.new addr) (h_instances h)) in
  (RId count, with_host (with_count h ((count + 1) mod 2 ^ 64)) w).

Definition service_id_pattern : Label := [Str "ServiceID"; RecAny ""].

(** The request that tells the control plane of the end of a proxy. *)
Definition drop_request (h : HostState) (meta : ProxyMeta) : OnboardServiceRequest :=
  let service :=
    match pm_tmp_dpid meta with
    | Some dpid => match ID.find_label dpid service_id_pattern with Some l => l | None => pm_label meta end
    | None => pm_label meta
    end in
  mkOnboardService service (h_label h) (pm_tmp_dpid meta) "".

(** Only a proxy that the host launched is waited for and reported. *)
Definition disconnect (id : Z) (w : World) : HostReply * World :=
  let h := hw_host w in
  match BTreeMap.get (h_instances h) id with
  | Some i =>
    let h := with_instances h (BTreeMap.remove id (h_instances h)) in
    match in_meta i with
    | Some meta =>
      if BTreeSet.contains (pm_pid meta) (h_children h) then
        let h := with_children h (BTreeSet.remove (pm_pid meta) (h_children h)) in
        let '(ok, w) := on_outside (child_wait (pm_pid meta)) (with_host h w) in
        if (ok : bool) && h_onboarded h then
          let '(_, w) := control_plane (h_url h) DELETE "service/drop" (CPService (drop_request h meta)) w in
          (RUnit, w)
        else (RUnit, w)
      else (RUnit, with_host h w)
    | None => (RUnit, with_host h w)
    end
  | None => (RUnit, w)
  end.

Definition update_instance (id : Z) (f : HostInstance -> HostInstance) (w : World) : HostReply * World :=
  (RUnit, with_host (with_instances (hw_host w) (Instances.update id f (h_instances (hw_host w)))) w).

(** The identity sent to the control plane: the address and labels of one
    service. *)
Definition onboard_dpid (meta : ProxyMeta) (ip_labels : BTreeMap IpAddr Labels) : ID :=
  let tmp_dpid := default ID.default (pm_tmp_dpid meta) in
  match iter_order ip_labels with
  | (ip, labels) :: _ => mkID (hosts tmp_dpid) [ip] (port tmp_dpid) labels
  | [] => tmp_dpid
  end.

Definition with_labels (i : ID) (l : Labels) : ID := mkID (hosts i) (ips i) (port i) l.

(** The service is registered with the control plane; then its policy is
    asked for, under the label that the control plane gave it, or its own. *)
Definition cp_onboard_proxy (id : Z) (ip_labels : BTreeMap IpAddr Labels) (w : World) : HostReply * World :=
  let h := hw_host w in
  if negb (h_onboarded h) then (RUnit, w)
  else
    match BTreeMap.get (h_instances h) id with
    | Some i =>
      match in_meta i with
      | Some meta =>
        let label := pm_label meta in
        let tmp_dpid := onboard_dpid meta ip_labels in
        let instance := OfLabel label in
        let onboard := mkOnboardService label (h_label h) (Some tmp_dpid) "" in
        let '(res, w) := control_plane_deserialize body_service_id (h_url h) POST "service/on-board" (CPService onboard) w in
        let service_id := default label res in
        let '(res, w) := control_plane_deserialize body_policy (h_url h) GET "policy/query" (CPQuery service_id) w in
        let tmp_dpid := with_labels tmp_dpid (BTreeSet.insert service_id (labels tmp_dpid)) in
        match res with
        | Some (policy, labels) =>
          (RUnit, notify [MPolicyCommand false instance (Label_ (AddUri labels));
                          MPolicyCommand false instance (SetPolicy policy);
                          MServiceGlobalID tmp_dpid instance] w)
        | None => (RUnit, w)
        end
      | None => (RUnit, w)
      end
    | None => (RUnit, w)
    end.

Definition armour_proxy : string :=
  match exe_dir with Some dir => dir ^^ "/armour-proxy" | None => "./armour-proxy" end.

Definition launch_command (h : HostState) (l : Launch) : ProxyCommand :=
  mkCommand armour_proxy (base64_encode (h_key h))
    (["-l"; log_level (la_log l); "--label"; Label.to_string (la_label l)] ++
     match la_timeout l with Some secs => ["--timeout"; i64_to_string secs] | None => [] end ++ [h_socket h]).

Definition launch (l : Launch) (w : World) : HostReply * World :=
  let h := hw_host w in
  if la_force l || match get_instances (OfLabel (la_label l)) (h_instances h) with [] => true | _ => false end then
    let '(r, w) := on_outside (spawn (launch_command h l)) w in
    match r with
    | Some pid => (RUnit, with_host (with_children h (BTreeSet.insert pid (h_children h))) w)
    | None => (RUnit, w)
    end
  else (RUnit, w).

(** The labels of the instances, each once. *)
Definition list_labels (h : HostState) : list string :=
  BTreeSet.extend [] (omap (fun kv => option_map (fun m => Label.to_string (pm_label m)) (in_meta kv.2)) (h_instances h)).

Definition meta_data (s : InstanceSelector) (h : HostState) : list HostPolicyStatus :=
  omap (fun kv => option_map Instances.status (in_meta kv.2)) (get_instances s (h_instances h)).

Definition no_proxy : string := "failed to select a proxy".
Definition no_proxy_retry : string := "failed to select a proxy: will try once more...".

Definition policy_command (retry : bool) (s : InstanceSelector) (req : PolicyRequest) (w : World) : HostReply * World :=
  match get_instances s (h_instances (hw_host w)) with
  | [] =>
    if retry then (RError (Some no_proxy_retry), notify_later (MPolicyCommand false s req) w)
    else (RError (Some no_proxy), w)
  | l => (RError None, send (map (fun kv => (in_addr kv.2, req)) l) w)
  end.

Definition handle (msg : HostMsg) (w : World) : HostReply * World :=
  match msg with
  | MConnect addr => connect addr w
  | MDisconnect id => disconnect id w
  | MRegisterProxy id meta => update_instance id (Instances.set_meta meta) w
  | MCPOnboardProxy id ip_labels => cp_onboard_proxy id ip_labels w
  | MRegisterHttpHash id hash => update_instance id (Instances.set_http_hash hash) w
  | MRegisterTcpHash id hash => update_instance id (Instances.set_tcp_hash hash) w
  | MLaunch l => launch l w
  | MQuit => (RUnit, stop_system w)
  | MList => (RLabels (list_labels (hw_host w)), w)
  | MMetaData s => (RStatuses (meta_data s (hw_host w)), w)
  | MServiceGlobalID global_id s =>
    (RUnit, with_host (with_instances (hw_host w) (update_instances s global_id (h_instances (hw_host w)))) w)
  | MPolicyCommand retry s req => policy_command retry s req w
  end.
End host.
End DataHost.

(** ** The REST interface (rest_api.rs) *)

Inductive RestRequest :=
| ServiceOnBoard (information : HostApi.OnboardInformation)
| ServiceDrop (proxies : list HostApi.Proxy)
| HostLabel
| HostProxies
| PolicyQuery (label : Label)
| PolicyUpdate (label : Label) (policy : DPPolicies).

Inductive RestAnswer :=
| AnswerOk
| AnswerText (s : string)
| AnswerLabels (l : list string)
| AnswerStatuses (l : list HostPolicyStatus)
| AnswerBadRequest (s : string).

Module HostRest.
Section rest.
Context `{Profile}.

Definition launch_proxy (x : HostApi.Proxy) : HostMsg :=
  MLaunch (mkLaunch false (HostApi.px_label x) (if HostApi.px_debug x then LDebug else LInfo) (HostApi.px_timeout x)).
(** A process may be slow to start: these are tried twice. *)
Definition with_retry (s : InstanceSelector) (req : PolicyRequest) : HostMsg := MPolicyCommand true s req.
Definition add_ip_labels (s : InstanceSelector) (ip_labels : list (Z * Labels)) : HostMsg :=
  with_retry s (Label_ (AddIp ip_labels)).
(** The labels of an address that is listed more than once are put together. *)
Definition ip_labels_map (ip_labels : list (Z * Labels)) : BTreeMap IpAddr Labels :=
  foldl (fun m kv =>
    match BTreeMap.get m (V4 kv.1) with
    | Some labels2 => BTreeMap.insert (V4 kv.1) (BTreeSet.extend labels2 kv.2) m
    | None => BTreeMap.insert (V4 kv.1) kv.2 m
    end) [] ip_labels.
Definition start_onboarding (s : InstanceSelector) (ip_labels : list (Z * Labels)) : HostMsg :=
  with_retry s (CPOnboard (ip_labels_map ip_labels)).
Definition start_proxy (s : InstanceSelector) (config : HttpConfig) : HostMsg := with_retry s (StartHttp config).

(** The messages that are sent to the host actor, each after the answer to
    the one before, and whether the handler comes to its end. *)
Fixpoint on_board_proxies (port : Z) (ip_labels : list (Z * Labels)) (proxies : list HostApi.Proxy)
    : list HostMsg * Outcome unit :=
  match proxies with
  | [] => ([], Val tt)
  | x :: proxies =>
    let instance := OfLabel (HostApi.px_label x) in
    let before := [launch_proxy x; add_ip_labels instance ip_labels] in
    match HostApi.config x port with
    | Val config =>
      let '(msgs, r) := on_board_proxies port ip_labels proxies in
      (before ++ [start_onboarding instance ip_labels; start_proxy instance config] ++ msgs, r)
    | Fail e => (before, Fail e)
    | Panic => (before, Panic)
    | OutOfFuel => (before, OutOfFuel)
    end
  end.
Definition on_board (i : HostApi.OnboardInformation) : list HostMsg * Outcome unit :=
  on_board_proxies (HostApi.top_port i) (HostApi.oi_labels i) (HostApi.oi_proxies i).

Definition drop (proxies : list HostApi.Proxy) : list HostMsg :=
  map (fun x => MPolicyCommand false (OfLabel (HostApi.px_label x)) Shutdown) proxies.

Definition messages (r : RestRequest) : list HostMsg * Outcome unit :=
  match r with
  | ServiceOnBoard i => on_board i
  | ServiceDrop proxies => (drop proxies, Val tt)
  | HostLabel => ([], Val tt)
  | HostProxies => ([MList], Val tt)
  | PolicyQuery label => ([MMetaData (OfLabel label)], Val tt)
  | PolicyUpdate label policy => ([MPolicyCommand false (OfLabel label) (SetPolicy policy)], Val tt)
  end.

(** The answer, given the label of the host and the last reply of the actor. *)
Definition respond (label : Label) (r : RestRequest) (reply : HostReply) : RestAnswer :=
  match r, reply with
  | HostLabel, _ => AnswerText (Label.to_string label)
  | HostProxies, RLabels l => AnswerLabels l
  | PolicyQuery _, RStatuses l => AnswerStatuses l
  | PolicyUpdate _ _, RError (Some err) => AnswerBadRequest err
  | _, _ => AnswerOk
  end.
End rest.
End HostRest.

(** ** A world for the examples *)

Inductive TestBody := TService (l : Label) | TPolicy (ps : DPPolicies) (m : LabelMap).

Definition test_policies : DPPolicies := [(HTTP, Policy.deny_all HTTP); (TCP, Policy.deny_all TCP)].

(** Processes start and end, services get the name [ServiceID::s], and every
    policy denies all; the state counts the calls. *)
#[export] Instance test_outside : HostOutside nat := {
  exe_dir := Some "/bin";
  spawn _ e := (Some (Z.of_nat e), S e);
  child_wait _ e := (true, S e);
  Body := TestBody;
  send_json _ _ v e :=
    (Some (true, Some (match v with
                       | CPService _ => TService [Str "ServiceID"; Str "s"]
                       | CPQuery _ => TPolicy test_policies [("host", [[Str "x"]])]
                       end)), S e);
  body_service_id b := match b with TService l => Some l | TPolicy _ _ => None end;
  body_policy b := match b with TPolicy ps m => Some (ps, m) | TService _ => None end;
}.

#[export] Instance test_order : IterOrder.
Proof. by refine {| iter_order A l := l |}. Defined.
