(* ===== verification/HostSystem.v ===== *)
(** * A host and its proxies

    The host daemon ([Host.DataHost]), the policy actors of its proxies
    ([Proxy.PolicyActor]) and the messages between them, as a transition
    system: processes connect, messages are handled in any order that the
    queues allow, timers fire, requests arrive, the control plane changes.

    The theorems: what the host records of each proxy becomes the truth when
    the messages in flight are handled; a proxy runs only policies that it was
    given by the control plane or the operator; a command reaches exactly the
    selected instances; onboarding installs what the control plane answers. *)

From Stdlib Require Import ZArith Lia String Ascii List.
From stdpp Require Import base tactics list strings sets.
From S2P Require Import Prelude.
From S2P Require Import Ordered.
From S2P Require Import Strings.
From S2P Require Import Labels.
From S2P Require Import Syntax.
From S2P Require Import Types.
From S2P Require Import Net.
From S2P Require Import Literals.
From S2P Require Import Expressions.
From S2P Require Import Interpret.
From S2P Require Import Lang.
From S2P Require Import Policies.
From S2P Require Import ControlLiterals.
From S2P Require Import ControlState.
From S2P Require Import Identity.
From S2P Require Import Proxy.
From S2P Require Import ProxyTheory.
From S2P Require Import Host.

Local Open Scope string_scope.
Local Open Scope list_scope.

(** ** The system *)

(** A connection of a proxy with the actor of its instance. *)
Record Link := mkLink {
  ln_proxy : PolicyActor;
  (** How many of the responses of the proxy the instance has handled. *)
  ln_read : nat;
  (** The number that the host gave the instance. *)
  ln_id : option Z;
  (** Requests that the proxy has not handled. *)
  ln_requests : list PolicyRequest;
  (** The actor of the instance has stopped. *)
  ln_closed : bool;
}.

Record HostSystem {S : Serde} {E : Type} := mkSystem {
  s_world : HostWorld E;
  s_links : list Link;
  s_mailbox : list HostMsg;
}.
Arguments HostSystem {S} E.
Arguments mkSystem {S E} s_world s_links s_mailbox.

Module Link.
Definition push (r : PolicyRequest) (l : Link) : Link :=
  if ln_closed l then l
  else mkLink (ln_proxy l) (ln_read l) (ln_id l) (ln_requests l ++ [r]) (ln_closed l).
Definition set_id (id : Z) (l : Link) : Link :=
  mkLink (ln_proxy l) (ln_read l) (Some id) (ln_requests l) (ln_closed l).
Definition set_proxy (a : PolicyActor) (rs : list PolicyRequest) (l : Link) : Link :=
  mkLink a (ln_read l) (ln_id l) rs (ln_closed l).
Definition read (closed : bool) (l : Link) : Link :=
  mkLink (ln_proxy l) (S (ln_read l)) (ln_id l) (ln_requests l) closed.
Definition close (l : Link) : Link := mkLink (ln_proxy l) (ln_read l) (ln_id l) (ln_requests l) true.
Definition connect (a : PolicyActor) : Link := mkLink a 0 None [] false.
End Link.

(** What clients and the command line send to the host. *)
Definition external (m : HostMsg) : bool :=
  match m with MLaunch _ | MQuit | MList | MMetaData _ | MPolicyCommand _ _ _ => true | _ => false end.

Definition is_shutdown (r : PolicyResponse) : bool := match r with ShuttingDown => true | _ => false end.

Module HostSystem.
Section system.
Context `{Profile} `{Serde} `{Lib} `{IterOrder} `{UriLib} {E : Type} `{HostOutside E}.
Variable blake3 : DPPolicy -> string.
(** What clients and the command line may send, and the states in which the
    world outside may be found. *)
Variable operator : HostMsg -> Prop.
Variable outside : E -> Prop.
Notation World := (HostWorld E).
Notation System := (HostSystem E).
Notation proxy_handle := (PolicyActor.handle blake3 ip_to_string).

Definition deliver (sent : list (Z * PolicyRequest)) (links : list Link) : list Link :=
  foldl (fun ls kv => alter (Link.push kv.2) (Z.to_nat kv.1) ls) links sent.

Definition clear_sent (w : World) : World :=
  mkHostWorld (hw_host w) (hw_outside w) [] (hw_notified w) (hw_later w) (hw_stopped w).

(** The host handles a message that was taken from its queue: requests go to
    the instances, and a new instance gets its number. *)
Definition handled (m : HostMsg) (s : System) : System :=
  let '(r, w) := DataHost.handle m (s_world s) in
  let links := deliver (hw_sent w) (s_links s) in
  let links := match m, r with MConnect addr, RId id => alter (Link.set_id id) (Z.to_nat addr) links | _, _ => links end in
  mkSystem (clear_sent w) links (s_mailbox s).

Definition with_world (s : System) (w : World) : System := mkSystem w (s_links s) (s_mailbox s).
Definition with_queues (s : System) (notified later : list HostMsg) : System :=
  let w := s_world s in
  with_world s (mkHostWorld (hw_host w) (hw_outside w) (hw_sent w) notified later (hw_stopped w)).
Definition with_outside (s : System) (e : E) : System :=
  let w := s_world s in
  with_world s (mkHostWorld (hw_host w) e (hw_sent w) (hw_notified w) (hw_later w) (hw_stopped w)).
Definition running (s : System) : Prop := hw_stopped (s_world s) = false.

Definition initial (h : HostState) (e : E) : System := mkSystem (mkHostWorld h e [] [] [] false) [] [].

Inductive step : System -> System -> Prop :=
(** A process starts, and its connection is accepted. *)
| step_connect s pid label timeout :
  let a := PolicyActor.started blake3 pid (PolicyActor.create_policy label timeout) in
  step s (mkSystem (s_world s) (s_links s ++ [Link.connect a])
            (s_mailbox s ++ [MConnect (Z.of_nat (length (s_links s)))]))
(** The host handles a message of its mailbox, its own, or a delayed one. *)
| step_mailbox s m ms :
  running s -> s_mailbox s = m :: ms -> step s (handled m (mkSystem (s_world s) (s_links s) ms))
| step_notified s m ms :
  running s -> hw_notified (s_world s) = m :: ms ->
  step s (handled m (with_queues s ms (hw_later (s_world s))))
| step_later s ms1 m ms2 :
  running s -> hw_later (s_world s) = ms1 ++ m :: ms2 ->
  step s (handled m (with_queues s (hw_notified (s_world s)) (ms1 ++ ms2)))
(** A proxy handles a request; a server may fail to start. *)
| step_request s i l r rs started :
  s_links s !! i = Some l -> ln_requests l = r :: rs -> a_stopped (ln_proxy l) = false ->
  step s (mkSystem (s_world s) (<[i := Link.set_proxy (proxy_handle started r (ln_proxy l)) rs l]> (s_links s))
            (s_mailbox s))
(** A proxy identifies the ends of a connection, as the name service answers
    then. *)
| step_serve `{NameService} s i l from to :
  s_links s !! i = Some l ->
  step s (mkSystem (s_world s)
            (<[i := Link.set_proxy (PolicyActor.connection (ln_proxy l) from to).2 (ln_requests l) l]> (s_links s))
            (s_mailbox s))
(** The actor of an instance handles a response, or the end of the stream. *)
| step_response s i l id r :
  s_links s !! i = Some l -> ln_id l = Some id -> ln_closed l = false ->
  a_sent (ln_proxy l) !! ln_read l = Some r ->
  step s (mkSystem (s_world s) (<[i := Link.read (is_shutdown r) l]> (s_links s))
            (s_mailbox s ++ ArmourDataInstance.handle blake3 id r))
| step_finished s i l id :
  s_links s !! i = Some l -> ln_id l = Some id -> ln_closed l = false ->
  step s (mkSystem (s_world s) (<[i := Link.close l]> (s_links s)) (s_mailbox s ++ ArmourDataInstance.finished id))
(** A client or the command line sends a message. *)
| step_external s m :
  external m = true -> operator m -> step s (mkSystem (s_world s) (s_links s) (s_mailbox s ++ [m]))
(** The world outside changes. *)
| step_outside s e : outside e -> step s (with_outside s e).

Inductive reachable : System -> Prop :=
| reachable_initial url label onboarded socket key e :
  outside e -> reachable (initial (DataHost.new url label onboarded socket key) e)
| reachable_step s s' : reachable s -> step s s' -> reachable s'.
End system.
End HostSystem.

(** ** What the host records of a proxy *)

(** The label of a proxy and the hashes of its policies. *)
Definition View := option (Label * string * string).
Definition meta_view (m : option ProxyMeta) : View := option_map (fun m => (pm_label m, pm_http m, pm_tcp m)) m.

Definition set_http (s : string) (v : View) : View := option_map (fun x => (x.1.1, s, x.2)) v.
Definition set_tcp (s : string) (v : View) : View := option_map (fun x => (x.1.1, x.1.2, s)) v.

(** What a message to the host, and a response of a proxy, makes of it. *)
Definition apply_msg (id : Z) (v : View) (m : HostMsg) : View :=
  match m with
  | MRegisterProxy i meta => if (i =? id)%Z then meta_view (Some meta) else v
  | MRegisterHttpHash i s => if (i =? id)%Z then set_http s v else v
  | MRegisterTcpHash i s => if (i =? id)%Z then set_tcp s v else v
  | _ => v
  end.
Definition apply_response (blake3 : DPPolicy -> string) (v : View) (r : PolicyResponse) : View :=
  match r with
  | Connect _ _ label http tcp => Some (label, http, tcp)
  | UpdatedPolicy HTTP hash => set_http hash v
  | UpdatedPolicy TCP hash => set_tcp hash v
  | StatusReport _ _ http tcp => set_tcp (blake3 (s_policy tcp)) (set_http (blake3 (s_policy http)) v)
  | _ => v
  end.

(** What is true of a proxy. *)
Definition proxy_view (blake3 : DPPolicy -> string) (a : PolicyActor) : View :=
  Some (a_label a, blake3 (http_policy (a_http a)), blake3 (tcp_policy (a_tcp a))).

Definition msg_id (m : HostMsg) : option Z :=
  match m with
  | MDisconnect id | MRegisterProxy id _ | MCPOnboardProxy id _ | MRegisterHttpHash id _ | MRegisterTcpHash id _ => Some id
  | _ => None
  end.
Definition connect_addr (m : HostMsg) : option Z := match m with MConnect a => Some a | _ => None end.
Definition is_disconnect (id : Z) (m : HostMsg) : Prop := m = MDisconnect id.

(** Messages about no instance in particular. *)
Definition neutral (m : HostMsg) : Prop := msg_id m = None /\ connect_addr m = None.

Lemma apply_neutral id v m : msg_id m <> Some id -> apply_msg id v m = v.
Proof. intros Hm. destruct m as [|i|i| |i|i| | | | | |]; simpl in *; try done; destruct (Z.eqb_spec i id); congruence. Qed.

Lemma apply_handle blake3 id v r :
  foldl (apply_msg id) v (ArmourDataInstance.handle blake3 id r) = apply_response blake3 v r.
Proof. destruct r as [| | | | | | |[]]; simpl; rewrite ?Z.eqb_refl; done. Qed.

Lemma handle_ids blake3 id r m : m ∈ ArmourDataInstance.handle blake3 id r ->
  msg_id m = Some id /\ connect_addr m = None /\ (forall i, m = MDisconnect i -> is_shutdown r = true).
Proof.
  destruct r as [| | | | | | |[]]; simpl; rewrite ?elem_of_cons, ?elem_of_nil;
    intros Hm; destruct_or?; subst; try done.
Qed.

Section proxies.
Context `{UriLib} `{Profile} `{NameService}.
Variable blake3 : DPPolicy -> string.
Variable ip_to_string : IpAddr -> string.
Notation proxy_handle := (PolicyActor.handle blake3 ip_to_string).

Lemma write_n_view n a r : (forall v, apply_response blake3 v r = v) ->
  exists new, a_sent (PolicyActor.write_n n a r) = a_sent a ++ new /\
    (forall v, foldl (apply_response blake3) v new = v) /\
    proxy_view blake3 (PolicyActor.write_n n a r) = proxy_view blake3 a.
Proof.
  intros Hr. revert a. induction n as [|n IH]; intros a; simpl; [exists []; by rewrite app_nil_r|].
  destruct (IH (PolicyActor.write a r)) as (new & Hs & Hf & Hv). exists (r :: new).
  split_and!; [by rewrite Hs; simpl; rewrite <- app_assoc|intros v; simpl; by rewrite Hr|by rewrite Hv].
Qed.

(** A proxy reports what changes of its view. *)
Lemma handle_view started r a : exists new,
  a_sent (proxy_handle started r a) = a_sent a ++ new /\
  foldl (apply_response blake3) (proxy_view blake3 a) new = proxy_view blake3 (proxy_handle started r a).
Proof.
  destruct r as [m|op|ps| |c|p| |[|]|secs]; simpl.
  - by exists [CPOnboardingProxy m].
  - unfold PolicyActor.handle_label_op. destruct (LabelOps.handle_label_op op (a_identity a)) as [n i].
    destruct (write_n_view n (PolicyActor.with_identity a i) RequestFailed) as (new & Hs & Hf & Hv); [done|].
    exists new. by rewrite Hs, Hf, Hv.
  - destruct (Policies.policy ps TCP) as [t|], (Policies.policy ps HTTP) as [h|]; simpl.
    + exists [UpdatedPolicy TCP (blake3 t); UpdatedPolicy HTTP (blake3 h)]. by rewrite <- app_assoc.
    + by exists [UpdatedPolicy TCP (blake3 t)].
    + by exists [UpdatedPolicy HTTP (blake3 h)].
    + exists []. by rewrite app_nil_r.
  - by exists [ShuttingDown].
  - case_bool_decide; [by exists [RequestFailed]|]. destruct started; [by exists [Started]|]. exists []. by rewrite app_nil_r.
  - case_bool_decide; [by exists [RequestFailed]|]. destruct started; [by exists [Started]|]. exists []. by rewrite app_nil_r.
  - by eexists [_].
  - destruct (HttpPolicy.port (a_http a)); [by exists [Stopped]|by exists [RequestFailed]].
  - destruct (TcpPolicy.port (a_tcp a)); [by exists [Stopped]|by exists [RequestFailed]].
  - exists []. by rewrite app_nil_r.
Qed.

Lemma connection_view a from to :
  a_sent (PolicyActor.connection a from to).2 = a_sent a /\
  proxy_view blake3 (PolicyActor.connection a from to).2 = proxy_view blake3 a.
Proof.
  by destruct (connection_state a from to) as [(c & n & ->)|[-> _]].
Qed.
End proxies.

(** ** Instances after a message *)

(** The address and the view of an instance. *)
Definition inst_view (m : BTreeMap Z HostInstance) (id : Z) : option (Z * View) :=
  option_map (fun i => (in_addr i, meta_view (in_meta i))) (BTreeMap.get m id).

(** What a message makes of it, for a host that has given [count] numbers. *)
Definition apply_inst (count id : Z) (m : HostMsg) (v : option (Z * View)) : option (Z * View) :=
  match m with
  | MConnect addr => if (count =? id)%Z then Some (addr, None) else v
  | MDisconnect i => if (i =? id)%Z then None else v
  | _ => option_map (fun x => (x.1, apply_msg id x.2 m)) v
  end.

Lemma option_map_id_ext {A} (f : A -> A) (o : option A) : (forall a, f a = a) -> option_map f o = o.
Proof. intros Hf. destruct o; simpl; by rewrite ?Hf. Qed.

Lemma update_view id f g (m : BTreeMap Z HostInstance) i : BTreeMap.wf m ->
  (forall x, in_addr (f x) = in_addr x) -> (forall x, meta_view (in_meta (f x)) = g (meta_view (in_meta x))) ->
  inst_view (Instances.update id f m) i =
    option_map (fun x => (x.1, if (id =? i)%Z then g x.2 else x.2)) (inst_view m i).
Proof.
  intros Hwf Ha Hg. unfold inst_view, Instances.update. destruct (BTreeMap.get m id) as [x|] eqn:E.
  - destruct (Z.eqb_spec id i) as [->|Hne].
    + rewrite BTreeMap.get_insert_eq, E. simpl. by rewrite Ha, Hg.
    + rewrite BTreeMap.get_insert_ne by done. by destruct (BTreeMap.get m i).
  - destruct (Z.eqb_spec id i) as [->|Hne]; [by rewrite E|]. by destruct (BTreeMap.get m i).
Qed.

Lemma update_wf id f (m : BTreeMap Z HostInstance) : BTreeMap.wf m -> BTreeMap.wf (Instances.update id f m).
Proof. intros Hwf. unfold Instances.update. destruct (BTreeMap.get m id); [by apply BTreeMap.wf_insert|done]. Qed.

Lemma http_hash_view s x : meta_view (in_meta (Instances.set_http_hash s x)) = set_http s (meta_view (in_meta x)).
Proof. by destruct x as [[]]. Qed.
Lemma tcp_hash_view s x : meta_view (in_meta (Instances.set_tcp_hash s x)) = set_tcp s (meta_view (in_meta x)).
Proof. by destruct x as [[]]. Qed.
Lemma tmp_dpid_view d x : meta_view (in_meta (Instances.set_tmp_dpid d x)) = meta_view (in_meta x).
Proof. by destruct x as [[]]. Qed.

Section host.
Context `{Profile} `{Serde} `{Lib} `{IterOrder} {E : Type} `{HostOutside E}.
Implicit Types (w : HostWorld E).

Lemma update_instances_view s d (m : BTreeMap Z HostInstance) : BTreeMap.wf m ->
  BTreeMap.wf (DataHost.update_instances s d m) /\
  forall i, inst_view (DataHost.update_instances s d m) i = inst_view m i.
Proof.
  intros Hwf. unfold DataHost.update_instances. generalize (DataHost.get_instances s m). intros l.
  assert (forall m', BTreeMap.wf m' -> BTreeMap.wf (foldl (fun m kv => Instances.update kv.1 (Instances.set_tmp_dpid d) m) m' l) /\
    forall i, inst_view (foldl (fun m kv => Instances.update kv.1 (Instances.set_tmp_dpid d) m) m' l) i = inst_view m' i) as Hl.
  { induction l as [|[k x] l IH]; intros m' Hm'; [done|]. simpl.
    destruct (IH _ (update_wf k (Instances.set_tmp_dpid d) m' Hm')) as [Hw Hv]. split; [done|]. intros i.
    rewrite Hv, (update_view k _ (fun v => v)) by (done || apply tmp_dpid_view).
    apply option_map_id_ext. intros [a v]. simpl. by destruct (_ =? _)%Z. }
  by apply Hl.
Qed.

Lemma control_plane_host url method path value w :
  let w' := (DataHost.control_plane url method path value w).2 in
  hw_host w' = hw_host w /\ hw_sent w' = hw_sent w /\ hw_notified w' = hw_notified w /\ hw_later w' = hw_later w /\
  hw_stopped w' = hw_stopped w.
Proof.
  unfold DataHost.control_plane. destruct (url_host_str url); [|done].
  destruct method; [| | |done]; unfold DataHost.on_outside; by destruct (send_json _ _ _ _).
Qed.
Lemma control_plane_deserialize_host {D} (dec : Body -> option D) url method path value w :
  let w' := (DataHost.control_plane_deserialize dec url method path value w).2 in
  hw_host w' = hw_host w /\ hw_sent w' = hw_sent w /\ hw_notified w' = hw_notified w /\ hw_later w' = hw_later w /\
  hw_stopped w' = hw_stopped w.
Proof.
  pose proof (control_plane_host url method path value w) as Hc. unfold DataHost.control_plane_deserialize.
  by destruct (DataHost.control_plane url method path value w).
Qed.

(** A message to itself is neutral. *)
Definition internal (m : HostMsg) : Prop :=
  match m with MServiceGlobalID _ _ | MPolicyCommand _ _ _ => True | _ => False end.

(** The parts of the world that are looked at here. *)
Definition host_effect (m : HostMsg) (w w' : HostWorld E) : Prop :=
  BTreeMap.wf (h_instances (hw_host w')) /\
  (forall id, inst_view (h_instances (hw_host w')) id =
     apply_inst (h_count (hw_host w)) id m (inst_view (h_instances (hw_host w)) id)) /\
  h_count (hw_host w') = (if connect_addr m then (h_count (hw_host w) + 1) mod 2 ^ 64 else h_count (hw_host w))%Z /\
  exists n l, hw_notified w' = hw_notified w ++ n /\ hw_later w' = hw_later w ++ l /\ Forall internal (n ++ l).


Lemma same_instances m w w' : connect_addr m = None -> (forall i, m <> MDisconnect i) ->
  (forall id v, apply_msg id v m = v) -> BTreeMap.wf (h_instances (hw_host w)) ->
  h_instances (hw_host w') = h_instances (hw_host w) -> h_count (hw_host w') = h_count (hw_host w) ->
  (exists n l, hw_notified w' = hw_notified w ++ n /\ hw_later w' = hw_later w ++ l /\ Forall internal (n ++ l)) ->
  host_effect m w w'.
Proof.
  intros Hc Hd Ha Hwf Hi Hn Hq. unfold host_effect. rewrite Hi, Hn, Hc. split_and!; [done| |done|done].
  intros id. assert (apply_inst (h_count (hw_host w)) id m = option_map (fun x => (x.1, apply_msg id x.2 m))) as ->.
  { destruct m; try done. by specialize (Hd id0). }
  symmetry. apply option_map_id_ext. intros [a v]. by rewrite Ha.
Qed.

Lemma no_messages w w' : hw_notified w' = hw_notified w -> hw_later w' = hw_later w ->
  exists n l, hw_notified w' = hw_notified w ++ n /\ hw_later w' = hw_later w ++ l /\ Forall internal (n ++ l).
Proof. intros -> ->. exists [], []. by rewrite !app_nil_r. Qed.

Lemma one_notified (ms : list HostMsg) w w' : hw_notified w' = hw_notified w ++ ms -> hw_later w' = hw_later w ->
  Forall internal ms ->
  exists n l, hw_notified w' = hw_notified w ++ n /\ hw_later w' = hw_later w ++ l /\ Forall internal (n ++ l).
Proof. intros -> -> Hms. exists ms, []. by rewrite !app_nil_r. Qed.
Lemma one_later (m : HostMsg) w w' : hw_notified w' = hw_notified w -> hw_later w' = hw_later w ++ [m] -> internal m ->
  exists n l, hw_notified w' = hw_notified w ++ n /\ hw_later w' = hw_later w ++ l /\ Forall internal (n ++ l).
Proof. intros -> -> Hm. exists [], [m]. rewrite app_nil_r. split_and!; [done|done|by repeat constructor]. Qed.

Lemma update_instance_effect m id f g w :
  connect_addr m = None -> (forall i, m <> MDisconnect i) ->
  (forall i v, apply_msg i v m = if (id =? i)%Z then g v else v) ->
  (forall x, in_addr (f x) = in_addr x) -> (forall x, meta_view (in_meta (f x)) = g (meta_view (in_meta x))) ->
  BTreeMap.wf (h_instances (hw_host w)) -> host_effect m w (DataHost.update_instance id f w).2.
Proof.
  intros Hc Hd Hm Ha Hg Hwf. unfold host_effect. rewrite Hc. simpl. split_and!; [by apply update_wf| |done|by apply no_messages].
  intros i. rewrite (update_view id f g) by done.
  assert (apply_inst (h_count (hw_host w)) i m = option_map (fun x => (x.1, apply_msg i x.2 m))) as ->.
  { destruct m; try done. by specialize (Hd id0). }
  destruct (inst_view _ i) as [[a v]|]; [|done]. simpl. by rewrite Hm.
Qed.

Lemma disconnect_effect id w :
  BTreeMap.wf (h_instances (hw_host w)) -> host_effect (MDisconnect id) w (DataHost.disconnect id w).2.
Proof.
  intros Hwf. assert (forall w', h_instances (hw_host w') = BTreeMap.remove id (h_instances (hw_host w)) ->
    h_count (hw_host w') = h_count (hw_host w) -> hw_notified w' = hw_notified w -> hw_later w' = hw_later w ->
    host_effect (MDisconnect id) w w') as Hr.
  { intros w' Hi Hn Hq Hl. unfold host_effect. rewrite Hi, Hn. split_and!; [by apply BTreeMap.wf_remove| |done|by apply no_messages].
    intros i. simpl. unfold inst_view. destruct (Z.eqb_spec id i) as [->|Hne].
    - by rewrite BTreeMap.get_remove_eq.
    - by rewrite BTreeMap.get_remove_ne. }
  unfold DataHost.disconnect. destruct (BTreeMap.get _ id) as [i|] eqn:Ei.
  - destruct (in_meta i) as [meta|]; [|by apply Hr]. destruct (BTreeSet.contains _ _); [|by apply Hr].
    unfold DataHost.on_outside. destruct (child_wait _ _) as [ok e]. destruct (ok && _); [|by apply Hr].
    match goal with |- context [DataHost.control_plane ?u ?m ?p ?v ?w] =>
      pose proof (control_plane_host u m p v w) as Hc; destruct (DataHost.control_plane u m p v w) as [r w2] end.
    destruct Hc as (Hh & _ & Hq & Hl & _). apply Hr; simpl in *; [by rewrite Hh|by rewrite Hh|done|done].
  - unfold host_effect. simpl. split_and!; [done| |done|by apply no_messages].
    intros i. destruct (Z.eqb_spec id i) as [->|]; [|done]. unfold inst_view. by rewrite Ei.
Qed.

Lemma cp_onboard_proxy_effect id m w :
  BTreeMap.wf (h_instances (hw_host w)) -> host_effect (MCPOnboardProxy id m) w (DataHost.cp_onboard_proxy id m w).2.
Proof.
  intros Hwf. unfold DataHost.cp_onboard_proxy.
  assert (host_effect (MCPOnboardProxy id m) w w) as Hsame by (apply same_instances; try done; by apply no_messages).
  destruct (negb _); [done|]. destruct (BTreeMap.get _ id) as [i|]; [|done]. destruct (in_meta i) as [meta|]; [|done].
  match goal with |- context [DataHost.control_plane_deserialize body_service_id ?u ?m ?p ?v w] =>
    pose proof (control_plane_deserialize_host body_service_id u m p v w) as Hc;
    destruct (DataHost.control_plane_deserialize body_service_id u m p v w) as [r w2] end.
  match goal with |- context [DataHost.control_plane_deserialize body_policy ?u ?m ?p ?v w2] =>
    pose proof (control_plane_deserialize_host body_policy u m p v w2) as Hc2;
    destruct (DataHost.control_plane_deserialize body_policy u m p v w2) as [r2 w3] end.
  simpl in *. destruct Hc as (Hh & _ & Hq & Hl & _), Hc2 as (Hh2 & _ & Hq2 & Hl2 & _).
  destruct r2 as [[policy ls]|]; simpl; apply same_instances; try done; simpl; try congruence.
  - eapply (one_notified _ w (DataHost.notify _ w3)); simpl; [by rewrite Hq2, Hq|congruence|by repeat constructor].
  - apply no_messages; congruence.
Qed.

Lemma handle_effect m w :
  BTreeMap.wf (h_instances (hw_host w)) -> host_effect m w (DataHost.handle m w).2.
Proof.
  intros Hwf. destruct m as [addr|id|id meta|id ip|id s|id s|l| | |s|d s|retry s req]; simpl.
  - unfold host_effect. simpl. split_and!; [by apply BTreeMap.wf_insert| |done|by apply no_messages].
    intros i. unfold inst_view. destruct (Z.eqb_spec (h_count (hw_host w)) i) as [->|].
    + by rewrite BTreeMap.get_insert_eq.
    + by rewrite BTreeMap.get_insert_ne.
  - by apply disconnect_effect.
  - by apply (update_instance_effect _ _ _ (fun _ => meta_view (Some meta))).
  - by apply cp_onboard_proxy_effect.
  - apply (update_instance_effect _ _ _ (set_http s)); try done. intros x. apply http_hash_view.
  - apply (update_instance_effect _ _ _ (set_tcp s)); try done. intros x. apply tcp_hash_view.
  - unfold DataHost.launch. case_match; [|apply same_instances; try done; by apply no_messages].
    unfold DataHost.on_outside. destruct (spawn _ _) as [[pid|] e]; apply same_instances; try done; by apply no_messages.
  - apply same_instances; try done. by apply no_messages.
  - apply same_instances; try done. by apply no_messages.
  - apply same_instances; try done. by apply no_messages.
  - destruct (update_instances_view s d _ Hwf) as [Hw Hv]. split_and!; [done| |done|by apply no_messages].
    intros id. simpl. rewrite Hv. symmetry. apply option_map_id_ext. by intros [].
  - unfold DataHost.policy_command. destruct (DataHost.get_instances _ _); [destruct retry|].
    + apply same_instances; try done. by eapply (one_later _ w (DataHost.notify_later _ w)).
    + apply same_instances; try done. by apply no_messages.
    + apply same_instances; try done. by apply no_messages.
Qed.
End host.

(** ** The invariant *)
Definition connects (ms : list HostMsg) : list Z := omap connect_addr ms.

(** Links that differ in the requests to the proxy only. *)
Definition same (l l' : Link) : Prop :=
  ln_proxy l' = ln_proxy l /\ ln_read l' = ln_read l /\ ln_id l' = ln_id l /\ ln_closed l' = ln_closed l.

Section invariant.
Context `{Profile} `{Serde} `{Lib} `{IterOrder} `{UriLib} {E : Type} `{HostOutside E}.
Variable blake3 : DPPolicy -> string.
Variable operator : HostMsg -> Prop.
Variable outside : E -> Prop.
Notation step := (HostSystem.step blake3 operator outside).
Notation reachable := (HostSystem.reachable blake3 operator outside).
Implicit Types (w : HostWorld E) (links : list Link) (mb : list HostMsg).

(** What the host has recorded of the proxy of a link, updated by the messages
    and responses on their way, is its view; before the host has numbered the
    link, by the responses alone. *)
Definition link_ok w mb (i : nat) (l : Link) : Prop :=
  ln_read l <= length (a_sent (ln_proxy l)) /\
  match ln_id l with
  | None =>
    Z.of_nat i ∈ connects mb /\ ln_closed l = false /\ ln_read l = 0 /\
    foldl (apply_response blake3) None (a_sent (ln_proxy l)) = proxy_view blake3 (ln_proxy l)
  | Some id =>
    (0 <= id < h_count (hw_host w))%Z /\
    (ln_closed l = false -> MDisconnect id ∉ mb /\
       exists v, inst_view (h_instances (hw_host w)) id = Some (Z.of_nat i, v) /\
         foldl (apply_response blake3) (foldl (apply_msg id) v mb) (drop (ln_read l) (a_sent (ln_proxy l)))
           = proxy_view blake3 (ln_proxy l))
  end.

Record inv w links mb : Prop := {
  inv_wf : BTreeMap.wf (h_instances (hw_host w));
  inv_queues : Forall internal (hw_notified w ++ hw_later w);
  inv_count : (0 <= h_count (hw_host w) /\
               h_count (hw_host w) + Z.of_nat (length (connects mb)) = Z.of_nat (length links))%Z;
  inv_nodup : NoDup (connects mb);
  inv_connects a : a ∈ connects mb -> exists i l, a = Z.of_nat i /\ links !! i = Some l /\ ln_id l = None;
  inv_ids m id : m ∈ mb -> msg_id m = Some id -> (id < h_count (hw_host w))%Z;
  inv_unique i j l l' id : links !! i = Some l -> links !! j = Some l' -> ln_id l = Some id -> ln_id l' = Some id -> i = j;
  inv_link i l : links !! i = Some l -> link_ok w mb i l;
}.

Lemma connects_app ms ms' : connects (ms ++ ms') = connects ms ++ connects ms'.
Proof. apply omap_app. Qed.
Lemma connects_none (ms : list HostMsg) : (forall m, m ∈ ms -> connect_addr m = None) -> connects ms = [].
Proof.
  intros Hms. induction ms as [|m ms IH]; [done|]. unfold connects. simpl. rewrite (Hms m) by left.
  apply IH. intros m' Hm'. apply Hms. by right.
Qed.

Lemma foldl_apply_neutral id v (ms : list HostMsg) : (forall m, m ∈ ms -> msg_id m <> Some id) -> foldl (apply_msg id) v ms = v.
Proof.
  induction ms as [|m ms IH] in v |- *; intros Hms; [done|]. simpl. rewrite apply_neutral by (apply Hms; left).
  apply IH. intros m' Hm'. apply Hms. by right.
Qed.

Lemma disconnect_not_in id (ms : list HostMsg) : (forall m, m ∈ ms -> msg_id m <> Some id) -> MDisconnect id ∉ ms.
Proof. intros Hms Hin. by apply (Hms _ Hin). Qed.

Lemma inv_same w links links' mb : Forall2 same links links' -> inv w links mb -> inv w links' mb.
Proof.
  intros Hs [Hwf Hq Hc Hn Hcl Hi Hu Hl].
  assert (forall i l', links' !! i = Some l' -> exists l, links !! i = Some l /\ same l l') as Hr.
  { intros i l' Hl'. by destruct (Forall2_lookup_r _ _ _ _ _ Hs Hl') as (l & ? & ?); exists l. }
  split; try done.
  - by rewrite <- (Forall2_length _ _ _ Hs).
  - intros a Ha. destruct (Hcl a Ha) as (i & l & -> & Hil & Hid).
    destruct (Forall2_lookup_l _ _ _ _ _ Hs Hil) as (l' & Hil' & (_ & _ & Hid' & _)). exists i, l'. by rewrite Hid'.
  - intros i j l l' id Hil Hjl Hid Hid'. destruct (Hr i l Hil) as (k & Hk & (_ & _ & E1 & _)).
    destruct (Hr j l' Hjl) as (k' & Hk' & (_ & _ & E2 & _)). eapply (Hu i j k k' id); congruence.
  - intros i l' Hil. destruct (Hr i l' Hil) as (l & Hk & (E1 & E2 & E3 & E4)). specialize (Hl i l Hk).
    unfold link_ok in *. by rewrite E1, E2, E3, E4.
Qed.

(** Messages that concern no link. *)
Lemma inv_insert w links mb1 ms mb2 : Forall neutral ms -> inv w links (mb1 ++ mb2) -> inv w links (mb1 ++ ms ++ mb2).
Proof.
  intros Hms [Hwf Hq Hc Hn Hcl Hi Hu Hl]. rewrite Forall_forall in Hms.
  assert (connects (mb1 ++ ms ++ mb2) = connects (mb1 ++ mb2)) as Hcon.
  { rewrite !connects_app, (connects_none ms); [done|]. intros m Hm. by apply Hms. }
  assert (forall id v, foldl (apply_msg id) v (mb1 ++ ms ++ mb2) = foldl (apply_msg id) v (mb1 ++ mb2)) as Hfold.
  { intros id v. rewrite !foldl_app. f_equal. apply foldl_apply_neutral. intros m Hm. by destruct (Hms m Hm) as [-> _]. }
  split; try done; rewrite ?Hcon; try done.
  - intros m id Hm Hid. apply (Hi m id); [|done]. rewrite !elem_of_app in *. destruct Hm as [|[Hm|]]; [by left| |by right].
    destruct (Hms m Hm). congruence.
  - intros i l Hil. destruct (Hl i l Hil) as [Hr Hok]. split; [done|]. destruct (ln_id l) as [id|]; [|by rewrite Hcon].
    destruct Hok as [Hb Hok]. split; [done|]. intros Ho. destruct (Hok Ho) as [Hd (v & Hv & Hf)]. split.
    + rewrite !elem_of_app in *. intros [|[Hm|]]; [by apply Hd; left| |by apply Hd; right]. by destruct (Hms _ Hm).
    + exists v. by rewrite Hfold.
Qed.

Lemma external_neutral m : external m = true -> neutral m.
Proof. by destruct m. Qed.
Lemma internal_neutral m : internal m -> neutral m.
Proof. by destruct m. Qed.

Lemma queues_effect w w' :
  Forall internal (hw_notified w ++ hw_later w) ->
  (exists n l, hw_notified w' = hw_notified w ++ n /\ hw_later w' = hw_later w ++ l /\ Forall internal (n ++ l)) ->
  Forall internal (hw_notified w' ++ hw_later w').
Proof. intros Hq (n & l & -> & -> & Hnl). rewrite !Forall_app in *. tauto. Qed.

Lemma apply_inst_other count id m a v : connect_addr m = None -> m <> MDisconnect id ->
  apply_inst count id m (Some (a, v)) = Some (a, apply_msg id v m).
Proof. intros Hc Hd. destruct m; try done. simpl. destruct (Z.eqb_spec id0 id); [congruence|done]. Qed.

Lemma inv_handle_other w w' links m ms : connect_addr m = None ->
  inv w links (m :: ms) -> host_effect m w w' -> inv w' links ms.
Proof.
  intros Hm [Hwf Hq Hc Hn Hcl Hi Hu Hl] (Hwf' & Hv & Hc' & Hq'). rewrite Hm in Hc'.
  assert (connects (m :: ms) = connects ms) as Hcon by (unfold connects; simpl; by rewrite Hm). rewrite Hcon in *.
  split; try done.
  - by eapply queues_effect.
  - by rewrite Hc'.
  - intros m' id Hm' Hid. rewrite Hc'. apply (Hi m' id); [by right|done].
  - intros i l Hil. destruct (Hl i l Hil) as [Hr Hok]. split; [done|]. destruct (ln_id l) as [id|]; [|by rewrite <- Hcon].
    destruct Hok as [Hb Hok]. rewrite Hc'. split; [done|]. intros Ho. destruct (Hok Ho) as [Hd (v & Hiv & Hf)].
    split; [intros Hin; apply Hd; by right|]. exists (apply_msg id v m). split; [|done].
    rewrite Hv, Hiv. apply apply_inst_other; [done|]. intros ->. apply Hd. left.
Qed.

Lemma inv_handle_connect w w' links addr ms : (Z.of_nat (length links) < 2 ^ 64)%Z ->
  inv w links (MConnect addr :: ms) -> host_effect (MConnect addr) w w' ->
  inv w' (alter (Link.set_id (h_count (hw_host w))) (Z.to_nat addr) links) ms.
Proof.
  intros Hbound [Hwf Hq Hc Hn Hcl Hi Hu Hl] (Hwf' & Hv & Hc' & Hq').
  set (n := h_count (hw_host w)) in *. simpl in Hc'.
  assert (connects (MConnect addr :: ms) = addr :: connects ms) as Hcon by done. rewrite Hcon in *. simpl in Hc.
  rewrite Z.mod_small in Hc' by lia. apply NoDup_cons in Hn as [Hna Hn].
  destruct (Hcl addr) as (k & lk & -> & Hk & Hkid); [left|]. rewrite Nat2Z.id.
  assert (forall m id, m ∈ ms -> msg_id m = Some id -> (id < n)%Z) as Hi'
    by (intros m id Hm Hid; apply (Hi m id); [by right|done]).
  assert (forall i l, alter (Link.set_id n) k links !! i = Some l ->
            i = k /\ l = Link.set_id n lk \/ i <> k /\ links !! i = Some l) as Hlook.
  { intros i l. destruct (decide (i = k)) as [->|Hne].
    - rewrite list_lookup_alter_eq, Hk. intros [= <-]. by left.
    - rewrite list_lookup_alter_ne by congruence. by right. }
  split; try done.
  - by eapply queues_effect.
  - rewrite length_alter. lia.
  - intros a Ha. destruct (Hcl a) as (i & l & -> & Hil & Hid); [by right|]. exists i, l. split_and!; [done| |done].
    rewrite list_lookup_alter_ne; [done|]. intros <-. by apply Hna.
  - intros m id Hm Hid. specialize (Hi' m id Hm Hid). lia.
  - intros i j l l' id Hil Hjl Hid Hid'. apply Hlook in Hil as [[-> ->]|[Hne Hil]], Hjl as [[-> ->]|[Hne' Hjl]].
    + done.
    + injection Hid as <-. destruct (Hl j l' Hjl) as [_ Hok]. rewrite Hid' in Hok. lia.
    + injection Hid' as <-. destruct (Hl i l Hil) as [_ Hok]. rewrite Hid in Hok. lia.
    + eapply Hu; eauto.
  - intros i l Hil. apply Hlook in Hil as [[-> ->]|[Hne Hil]].
    + destruct (Hl k lk Hk) as [Hr Hok]. rewrite Hkid in Hok. destruct Hok as (_ & Ho & Hrd & Hf).
      split; [done|]. simpl. rewrite Hc'. split; [lia|]. intros _.
      assert (forall m, m ∈ ms -> msg_id m <> Some n) as Hnot by (intros m Hm Hid; specialize (Hi' m n Hm Hid); lia).
      split; [by apply disconnect_not_in|]. exists None. rewrite Hv. simpl. fold n. rewrite Z.eqb_refl.
      by rewrite foldl_apply_neutral, Hrd.
    + destruct (Hl i l Hil) as [Hr Hok]. split; [done|]. rewrite Hc'. destruct (ln_id l) as [id|].
      * destruct Hok as [Hb Hok]. split; [lia|]. intros Ho. destruct (Hok Ho) as [Hd (v & Hiv & Hf)].
        split; [intros Hin; apply Hd; by right|]. exists v. split; [|done].
        rewrite Hv. simpl. fold n. by destruct (Z.eqb_spec n id) as [?|]; [lia|].
      * destruct Hok as (Hin & Hok). split; [|done]. rewrite Hcon in Hin. apply elem_of_cons in Hin as [E1|Hin]; [|done].
        apply Nat2Z.inj in E1. congruence.
Qed.

Lemma deliver_same sent links : Forall2 same links (HostSystem.deliver sent links).
Proof.
  assert (forall links', Forall2 same links links' -> Forall2 same links (HostSystem.deliver sent links')) as Hd.
  { induction sent as [|[a r] sent IH]; intros links' Hs; [done|]. apply IH. apply Forall2_alter_r; [done|].
    intros x y _ _ Hxy. unfold Link.push. destruct (ln_closed y) eqn:Ey; [done|]. unfold same in *. simpl. by rewrite <- Ey. }
  apply Hd. by apply Forall_Forall2_diag, Forall_true.
Qed.

Lemma inv_handled m s : (Z.of_nat (length (s_links s)) < 2 ^ 64)%Z ->
  inv (s_world s) (s_links s) (m :: s_mailbox s) ->
  let s' := HostSystem.handled m s in
  inv (s_world s') (s_links s') (s_mailbox s').
Proof.
  intros Hb Hinv. pose proof (handle_effect m (s_world s) (inv_wf _ _ _ Hinv)) as He.
  unfold HostSystem.handled. destruct (DataHost.handle m (s_world s)) as [r w'] eqn:Ew. cbn [snd] in He.
  destruct (connect_addr m) as [a|] eqn:Em.
  - destruct m; try done. injection Em as <-. injection Ew as <- <-. simpl.
    eapply inv_same; [|eapply inv_handle_connect; [exact Hb|exact Hinv|exact He]].
    apply Forall2_alter; [apply deliver_same|]. intros x y _ _ Hxy. unfold same in *. simpl. intuition congruence.
  - pose proof (inv_handle_other _ _ _ _ _ Em Hinv He) as Hi. simpl.
    assert (match m, r with MConnect addr, RId id => alter (Link.set_id id) (Z.to_nat addr) (HostSystem.deliver (hw_sent w') (s_links s))
            | _, _ => HostSystem.deliver (hw_sent w') (s_links s) end = HostSystem.deliver (hw_sent w') (s_links s)) as -> by by destruct m.
    eapply inv_same; [apply deliver_same|]. destruct Hi as [? ? ? ? ? ? ? ?]. by split.
Qed.

Definition sys_inv (s : HostSystem E) : Prop := inv (s_world s) (s_links s) (s_mailbox s).

(** A queue of the host itself is as good as the head of the mailbox. *)
Lemma inv_internal w w' links m mb : internal m -> h_instances (hw_host w') = h_instances (hw_host w) ->
  h_count (hw_host w') = h_count (hw_host w) -> Forall internal (hw_notified w' ++ hw_later w') ->
  inv w links mb -> inv w' links (m :: mb).
Proof.
  intros Hm Hi Hc Hq Hinv. apply (inv_insert w links [] [m] mb) in Hinv; [|by constructor; [apply internal_neutral|]].
  destruct Hinv as [Hwf _ Hc' Hn Hcl Hi' Hu Hl]. split; rewrite ?Hi, ?Hc; try done.
  intros i l Hil. specialize (Hl i l Hil). unfold link_ok in *. by rewrite Hi, Hc.
Qed.

(** A proxy went on: it sent responses that report what changed. *)
Lemma inv_proxy w links mb i l a rs new :
  links !! i = Some l -> a_sent a = a_sent (ln_proxy l) ++ new ->
  foldl (apply_response blake3) (proxy_view blake3 (ln_proxy l)) new = proxy_view blake3 a ->
  inv w links mb -> inv w (<[i := Link.set_proxy a rs l]> links) mb.
Proof.
  intros Hil Hs Hv [Hwf Hq Hc Hn Hcl Hi Hu Hl].
  assert (forall j lj, <[i := Link.set_proxy a rs l]> links !! j = Some lj ->
            j = i /\ lj = Link.set_proxy a rs l \/ links !! j = Some lj) as Hlook.
  { intros j lj [(-> & <- & _)|[_ Hj]]%list_lookup_insert_Some; [by left|by right]. }
  assert (forall j lj, <[i := Link.set_proxy a rs l]> links !! j = Some lj ->
            exists l', links !! j = Some l' /\ ln_id l' = ln_id lj) as Hid.
  { intros j lj [[-> ->]|Hj]%Hlook; eauto. }
  split; try done.
  - by rewrite length_insert.
  - intros x Hx. destruct (Hcl x Hx) as (k & lk & -> & Hk & Hkid). destruct (decide (i = k)) as [<-|Hne].
    + exists i, (Link.set_proxy a rs l). rewrite list_lookup_insert_eq by (by eapply lookup_lt_Some). by simplify_eq.
    + exists k, lk. by rewrite list_lookup_insert_ne.
  - intros j k lj lk id Hj Hk E1 E2. destruct (Hid _ _ Hj) as (? & ? & Ej), (Hid _ _ Hk) as (? & ? & Ek).
    eapply (Hu j k); [done|done|by rewrite Ej|by rewrite Ek].
  - intros j lj [[-> ->]|Hj]%Hlook; [|by apply Hl]. destruct (Hl i l Hil) as [Hr Hok].
    split; simpl; rewrite Hs; [rewrite length_app; lia|]. destruct (ln_id l) as [id|].
    + destruct Hok as [Hb Hok]. split; [done|]. intros Ho. destruct (Hok Ho) as [Hd (v & Hiv & Hf)]. split; [done|].
      exists v. split; [done|]. by rewrite drop_app_le, foldl_app, Hf.
    + destruct Hok as (Hin & Ho & Hrd & Hf). split_and!; [done|done|done|]. by rewrite foldl_app, Hf.
Qed.

(** The instance of a link read a response, or its stream ended. *)
Lemma inv_read w links mb i l l' id hs :
  links !! i = Some l -> ln_id l = Some id -> ln_closed l = false ->
  ln_proxy l' = ln_proxy l -> ln_id l' = Some id -> ln_read l' <= length (a_sent (ln_proxy l)) ->
  (forall m, m ∈ hs -> msg_id m = Some id /\ connect_addr m = None) ->
  (ln_closed l' = false -> MDisconnect id ∉ hs /\ forall v,
     foldl (apply_response blake3) (foldl (apply_msg id) v hs) (drop (ln_read l') (a_sent (ln_proxy l)))
       = foldl (apply_response blake3) v (drop (ln_read l) (a_sent (ln_proxy l)))) ->
  inv w links mb -> inv w (<[i := l']> links) (mb ++ hs).
Proof.
  intros Hil Hid Ho Hp Hid' Hr' Hhs Hview [Hwf Hq Hc Hn Hcl Hi Hu Hl].
  assert (connects (mb ++ hs) = connects mb) as Hcon.
  { rewrite connects_app, (connects_none hs), app_nil_r; [done|]. intros m Hm. by apply Hhs. }
  destruct (Hl i l Hil) as [Hr Hok]. rewrite Hid in Hok. destruct Hok as [Hb Hok]. destruct (Hok Ho) as [Hd (v & Hiv & Hf)].
  assert (forall j lj, <[i := l']> links !! j = Some lj -> j = i /\ lj = l' \/ j <> i /\ links !! j = Some lj) as Hlook.
  { intros j lj [(-> & <- & _)|[? Hj]]%list_lookup_insert_Some; [by left|by right]. }
  split; try done; rewrite ?Hcon; try done.
  - by rewrite length_insert.
  - intros x Hx. destruct (Hcl x Hx) as (k & lk & -> & Hk & Hkid). exists k, lk. split_and!; [done| |done].
    rewrite list_lookup_insert_ne; [done|]. intros <-. congruence.
  - intros m j [Hm|Hm]%elem_of_app Hj; [by apply (Hi m j)|]. destruct (Hhs m Hm) as [E1 _]. assert (j = id) as -> by congruence. lia.
  - intros j k lj lk z [[-> ->]|[_ Hj]]%Hlook [[-> ->]|[_ Hk]]%Hlook E1 E2; try done.
    + apply (Hu i k l lk z); congruence.
    + apply (Hu j i lj l z); congruence.
    + by apply (Hu j k lj lk z).
  - intros j lj [[-> ->]|[Hne Hj]]%Hlook.
    + split; rewrite Hp; [done|]. rewrite Hid'. split; [done|]. intros Hc'. destruct (Hview Hc') as [Hdh Hvw].
      split; [by rewrite elem_of_app; intros [|]|]. exists v. by rewrite foldl_app, Hvw.
    + destruct (Hl j lj Hj) as [Hrj Hokj]. split; [done|]. destruct (ln_id lj) as [idj|] eqn:Ej; [|by rewrite Hcon].
      assert (forall m, m ∈ hs -> msg_id m <> Some idj) as Hnot.
      { intros m Hm E1. destruct (Hhs m Hm) as [E2 _]. apply Hne, (Hu j i lj l id); congruence. }
      destruct Hokj as [Hbj Hokj]. split; [done|]. intros Hoj. destruct (Hokj Hoj) as [Hdj (vj & Hivj & Hfj)].
      split; [rewrite elem_of_app; intros [|Hin]; [done|by eapply disconnect_not_in]|].
      exists vj. by rewrite foldl_app, foldl_apply_neutral.
Qed.

(** A process connected. *)
Lemma inv_connect w links mb a :
  foldl (apply_response blake3) None (a_sent a) = proxy_view blake3 a ->
  inv w links mb -> inv w (links ++ [Link.connect a]) (mb ++ [MConnect (Z.of_nat (length links))]).
Proof.
  intros Hv [Hwf Hq Hc Hn Hcl Hi Hu Hl].
  assert (connects (mb ++ [MConnect (Z.of_nat (length links))]) = connects mb ++ [Z.of_nat (length links)]) as Hcon
    by apply connects_app.
  assert (forall j lj, (links ++ [Link.connect a]) !! j = Some lj ->
            links !! j = Some lj \/ j = length links /\ lj = Link.connect a) as Hlook.
  { intros j lj [Hj|[Hj E1]]%lookup_app_Some; [by left|right]. apply list_lookup_singleton_Some in E1 as [E1 <-]. split; [lia|done]. }
  split; try done; rewrite ?Hcon.
  - rewrite !length_app. simpl. lia.
  - apply NoDup_app. split_and!; [done| |apply NoDup_singleton]. intros x Hx Hx'. apply list_elem_of_singleton in Hx' as ->.
    destruct (Hcl _ Hx) as (k & lk & E1 & Hk & _). apply Nat2Z.inj in E1. apply lookup_lt_Some in Hk. lia.
  - intros x [Hx|Hx]%elem_of_app; [|apply list_elem_of_singleton in Hx as ->].
    + destruct (Hcl x Hx) as (k & lk & -> & Hk & Hkid). exists k, lk. by rewrite (lookup_app_l_Some _ _ _ _ Hk).
    + exists (length links), (Link.connect a). by rewrite list_lookup_middle.
  - intros m j [Hm|Hm]%elem_of_app Hj; [by apply (Hi m j)|by apply list_elem_of_singleton in Hm as ->].
  - intros j k lj lk z [Hj|[-> ->]]%Hlook [Hk|[-> ->]]%Hlook E1 E2; try done. by apply (Hu j k lj lk z).
  - intros j lj [Hj|[-> ->]]%Hlook.
    + destruct (Hl j lj Hj) as [Hrj Hokj]. split; [done|]. destruct (ln_id lj) as [idj|].
      * destruct Hokj as [Hbj Hokj]. split; [done|]. intros Hoj. destruct (Hokj Hoj) as [Hdj (vj & Hivj & Hfj)].
        split; [by rewrite elem_of_app, list_elem_of_singleton; intros [|]|]. exists vj. by rewrite foldl_app.
      * rewrite Hcon, elem_of_app. tauto.
    + split; simpl; [lia|]. rewrite Hcon, elem_of_app, list_elem_of_singleton. auto.
Qed.

Lemma inv_initial url label onboarded socket key e :
  sys_inv (HostSystem.initial (DataHost.new url label onboarded socket key) e).
Proof.
  split; simpl; try done; try (by constructor).
  - intros a Ha. by apply not_elem_of_nil in Ha.
  - intros m id Hm. by apply not_elem_of_nil in Hm.
Qed.

Lemma step_links s s' : step s s' -> length (s_links s) <= length (s_links s').
Proof.
  assert (forall m s, length (s_links (HostSystem.handled m s)) = length (s_links s)) as Hh.
  { intros m t. unfold HostSystem.handled. destruct (DataHost.handle _ _) as [r w]. simpl.
    rewrite (Forall2_length _ _ _ (deliver_same (hw_sent w) (s_links t))). destruct m; try done. destruct r; try done. apply length_alter. }
  destruct 1; simpl; rewrite ?length_insert, ?Hh, ?length_app; simpl; lia.
Qed.

Lemma inv_step s s' : (Z.of_nat (length (s_links s')) < 2 ^ 64)%Z ->
  step s s' -> sys_inv s -> sys_inv s'.
Proof.
  intros Hb Hs Hinv. pose proof (step_links _ _ Hs) as Hlen. unfold sys_inv in *.
  assert (Z.of_nat (length (s_links s)) < 2 ^ 64)%Z as Hb' by lia. clear Hlen Hb.
  destruct Hs as [s pid label timeout a|s m ms Hr Hm|s m ms Hr Hm|s ms1 m ms2 Hr Hm|s i l r rs st Hl Hrs Hst|names s i l f t Hl
    |s i l id r Hl Hid Ho Hr|s i l id Hl Hid Ho|s m Hm Hop|s e He]; cbn [s_world s_links s_mailbox] in *.
  - by apply inv_connect.
  - apply (inv_handled m (mkSystem (s_world s) (s_links s) ms)); [done|]. simpl. by rewrite <- Hm.
  - pose proof (inv_queues _ _ _ Hinv) as Hq. rewrite Hm in Hq. inversion Hq; subst.
    apply inv_handled; [done|]. by apply (inv_internal (s_world s)).
  - pose proof (inv_queues _ _ _ Hinv) as Hq. rewrite Hm in Hq. rewrite !Forall_app, Forall_cons in Hq.
    apply inv_handled; [done|]. apply (inv_internal (s_world s)); try done; [tauto|]. simpl. rewrite !Forall_app. tauto.
  - destruct (handle_view blake3 ip_to_string st r (ln_proxy l)) as (new & Hn & Hv). by eapply inv_proxy.
  - destruct (connection_view blake3 (ln_proxy l) f t) as [Hn Hv].
    apply (inv_proxy _ _ _ _ _ _ _ []); try done. by rewrite app_nil_r.
  - eapply (inv_read _ _ _ _ l _ id); try done; simpl.
    + apply lookup_lt_Some in Hr. lia.
    + intros m Hm. by destruct (handle_ids _ _ _ _ Hm) as (? & ? & _).
    + intros Hsh. split; [intros Hm; destruct (handle_ids _ _ _ _ Hm) as (_ & _ & Hd); by rewrite (Hd id) in Hsh|].
      intros v. by rewrite apply_handle, (drop_S _ _ _ Hr).
  - eapply (inv_read _ _ _ _ l _ id); try done; simpl.
    + by destruct (inv_link _ _ _ Hinv i l Hl).
    + intros m ->%list_elem_of_singleton. done.
  - rewrite <- (app_nil_r [m]). apply inv_insert; [by constructor; [apply external_neutral|]|]. by rewrite app_nil_r.
  - destruct Hinv as [? ? ? ? ? ? ? ?]. by split.
Qed.

Lemma reachable_inv s : reachable s -> (Z.of_nat (length (s_links s)) < 2 ^ 64)%Z -> sys_inv s.
Proof.
  induction 1 as [|s s' Hr IH Hs]; intros Hb; [apply inv_initial|]. eapply inv_step; [done|done|]. apply IH.
  pose proof (step_links _ _ Hs). lia.
Qed.

(** C6: in every state of a host with its proxies (fewer than [2 ^ 64] of
    them), however messages interleave, an instance that is connected is
    registered under its number, and once the messages about it were handled a
    query for it answers with the label of its proxy and the hashes of the
    policies that the proxy runs. *)
Theorem host_records_proxies (s : HostSystem E) (i : nat) (l : Link) (id : Z) :
  reachable s -> (Z.of_nat (length (s_links s)) < 2 ^ 64)%Z ->
  s_links s !! i = Some l -> ln_id l = Some id -> ln_closed l = false ->
  (exists inst, BTreeMap.get (h_instances (hw_host (s_world s))) id = Some inst /\ in_addr inst = Z.of_nat i) /\
  (Forall (fun m => msg_id m <> Some id) (s_mailbox s) -> ln_read l = length (a_sent (ln_proxy l)) ->
   let a := ln_proxy l in
   (DataHost.handle (MMetaData (OfID id)) (s_world s)).1 =
     RStatuses [mkHostPolicyStatus (a_label a) (blake3 (http_policy (a_http a))) (blake3 (tcp_policy (a_tcp a)))]).
Proof.
  intros Hr Hb Hil Hid Ho. destruct (inv_link _ _ _ (reachable_inv s Hr Hb) i l Hil) as [_ Hok].
  rewrite Hid in Hok. destruct Hok as [_ Hok]. destruct (Hok Ho) as [_ (v & Hv & Hf)].
  unfold inst_view in Hv. destruct (BTreeMap.get _ id) as [inst|] eqn:Ei; [|done]. injection Hv as Ha Hm.
  split; [by exists inst|]. intros Hmb Hrd a. simpl. unfold DataHost.meta_data, DataHost.get_instances. rewrite Ei.
  rewrite Hrd, drop_all in Hf. simpl in Hf.
  rewrite foldl_apply_neutral in Hf by (by rewrite Forall_forall in Hmb; intros m Hin; apply Hmb).
  rewrite Hf in Hm. destruct (in_meta inst) as [m|] eqn:Em; [|done]. injection Hm as E1 E2 E3.
  simpl. rewrite Em. simpl. unfold Instances.status. by rewrite E1, E2, E3.
Qed.
End invariant.

(** ** A host with one proxy *)
Definition test_blake3 (p : DPPolicy) : string := if Policy.is_deny_all p then "deny" else "other".

Section example.
#[local] Existing Instance test_uri.
#[local] Existing Instance test_lib.
Notation reachable := (@HostSystem.reachable true test_serde test_lib test_order test_uri nat test_outside test_blake3
                         (fun _ => True) (fun _ => True)).
Notation handled := (@HostSystem.handled test_serde test_lib test_order nat test_outside).

Definition test_actor : PolicyActor := PolicyActor.started test_blake3 7 (PolicyActor.create_policy [Str "p"] 5).
Definition test_started : HostSystem nat := HostSystem.initial (DataHost.new "cp" [Str "h"] true "socket" []) 0.
Definition test_connecting : HostSystem nat := mkSystem (s_world test_started) [Link.connect test_actor] [MConnect 0].
Definition test_connected : HostSystem nat :=
  handled (MConnect 0) (mkSystem (s_world test_connecting) (s_links test_connecting) []).
Definition test_link : Link := mkLink test_actor 1 (Some 0%Z) [] false.
Definition test_meta : ProxyMeta := mkProxyMeta 7 None [Str "p"] "deny" "deny".
Definition test_registering : HostSystem nat :=
  mkSystem (s_world test_connected) [test_link] [MRegisterProxy 0 test_meta].
Definition test_registered : HostSystem nat :=
  handled (MRegisterProxy 0 test_meta) (mkSystem (s_world test_registering) (s_links test_registering) []).

Lemma test_registered_reachable : reachable test_registered.
Proof.
  assert (reachable test_connecting) as H1.
  { eapply HostSystem.reachable_step; [by apply HostSystem.reachable_initial|].
    apply (HostSystem.step_connect _ _ _ test_started 7 [Str "p"] 5). }
  assert (reachable test_connected) as H2.
  { eapply HostSystem.reachable_step; [exact H1|]. by apply (HostSystem.step_mailbox _ _ _ test_connecting (MConnect 0) []). }
  assert (reachable test_registering) as H3.
  { eapply HostSystem.reachable_step; [exact H2|].
    apply (HostSystem.step_response _ _ _ test_connected 0 (mkLink test_actor 0 (Some 0%Z) [] false) 0
             (Connect 7 None [Str "p"] "deny" "deny")); by vm_compute. }
  eapply HostSystem.reachable_step; [exact H3|].
  by apply (HostSystem.step_mailbox _ _ _ test_registering (MRegisterProxy 0 test_meta) []).
Qed.
End example.

Lemma host_records_proxies_witness :
  (@DataHost.handle test_serde test_lib test_order nat test_outside (MMetaData (OfID 0)) (s_world test_registered)).1 =
    RStatuses [mkHostPolicyStatus [Str "p"] "deny" "deny"].
Proof.
  apply (@host_records_proxies true test_serde test_lib test_order test_uri nat test_outside test_blake3
    (fun _ => True) (fun _ => True) test_registered 0 test_link 0 test_registered_reachable); by vm_compute.
Defined.
