(* ===== verification/HostTheory.v ===== *)
(** * Theorems about the host daemon

    A proxy runs only policies that the control plane or the operator gave
    ([proxies_run_sanctioned_policies], over the system of [HostSystem]); a
    command is sent to the selected instances, once each, and tried twice at
    most ([command_reaches_selected]); onboarding registers the proxy and
    passes on what the control plane answers ([onboarding_delivers]); of
    the proxies of a request, those without a port of their own share one
    ([onboarding_ports]). *)

From Stdlib Require Import ZArith Lia String Ascii List.
From stdpp Require Import base tactics list strings sets.
From S2P Require Import Prelude.
From S2P Require Import Ordered.
From S2P Require Import Strings.
From S2P Require Import Labels.
From S2P Require Import Syntax.
From S2P Require Import Types.
From S2P Require Import Net.
From S2P Require Import Literals.
From S2P Require Import Expressions.
From S2P Require Import Interpret.
From S2P Require Import Lang.
From S2P Require Import Policies.
From S2P Require Import ControlLiterals.
From S2P Require Import ControlState.
From S2P Require Import Identity.
From S2P Require Import Proxy.
From S2P Require Import ProxyTheory.
From S2P Require Import Host.
From S2P Require Import HostSystem.

Local Open Scope string_scope.
Local Open Scope list_scope.

(** ** Where policies come from *)
Section sanctioned.
Context `{Profile} `{Serde} `{Lib} `{IterOrder} `{UriLib} {E : Type} `{HostOutside E}.
Variable blake3 : DPPolicy -> string.
Variable operator : HostMsg -> Prop.
Variable outside : E -> Prop.
(** The policies that the control plane or the operator give. *)
Variable Source : DPPolicies -> Prop.
Implicit Types (w : HostWorld E) (s : HostSystem E).

Definition req_ok (r : PolicyRequest) : Prop := match r with SetPolicy ps => Source ps | _ => True end.
Definition msg_ok (m : HostMsg) : Prop := match m with MPolicyCommand _ _ r => req_ok r | _ => True end.

(** What is asked of the world outside: calls lead to states that it may be
    found in, and its answers to queries are sources. *)
Record sound_outside : Prop := {
  send_json_sound method path v e r e' : outside e -> send_json method path v e = (r, e') ->
    outside e' /\ forall b ps ls, r = Some (true, Some b) -> body_policy b = Some (ps, ls) -> Source ps;
  spawn_sound c e r e' : outside e -> spawn c e = (r, e') -> outside e';
  child_wait_sound pid e r e' : outside e -> child_wait pid e = (r, e') -> outside e';
}.
Hypothesis Hout : sound_outside.

(** The policy of a protocol is the initial one or that of a source. *)
Definition policy_ok (p : Protocol) (initial x : DPPolicy) : Prop :=
  x = initial \/ exists ps, Source ps /\ Policies.policy ps p = Some x.
Definition proxy_ok (a : PolicyActor) : Prop :=
  policy_ok HTTP (Policy.deny_all HTTP) (http_policy (a_http a)) /\
  policy_ok TCP (Policy.deny_all TCP) (tcp_policy (a_tcp a)).

Record world_ok w : Prop := {
  wo_outside : outside (hw_outside w);
  wo_sent : Forall (fun kv => req_ok kv.2) (hw_sent w);
  wo_notified : Forall msg_ok (hw_notified w);
  wo_later : Forall msg_ok (hw_later w);
}.
Record sys_ok s : Prop := {
  so_world : world_ok (s_world s);
  so_mailbox : Forall msg_ok (s_mailbox s);
  so_links : Forall (fun l => Forall req_ok (ln_requests l) /\ proxy_ok (ln_proxy l)) (s_links s);
}.

Lemma world_ok_host w h : world_ok w -> world_ok (DataHost.with_host h w).
Proof. by intros [? ? ? ?]. Qed.

Lemma control_plane_ok url method path v w : world_ok w ->
  world_ok (DataHost.control_plane url method path v w).2 /\
  forall b ps ls, (DataHost.control_plane url method path v w).1 = Some b -> body_policy b = Some (ps, ls) -> Source ps.
Proof.
  intros [Ho Hs Hn Hl]. unfold DataHost.control_plane. destruct (url_host_str url); [|done].
  destruct method; [| | |done]; unfold DataHost.on_outside;
    destruct (send_json _ _ v (hw_outside w)) as [r e] eqn:Es;
    destruct (send_json_sound Hout _ _ _ _ _ _ Ho Es) as [He Hr];
    (split; [done|]; intros b ps ls; simpl; destruct r as [[[] [body|]]|]; intros E1; try done; injection E1 as <-; by apply Hr).
Qed.
Lemma control_plane_deserialize_ok {D} (dec : Body -> option D) url method path v w : world_ok w ->
  world_ok (DataHost.control_plane_deserialize dec url method path v w).2.
Proof.
  intros Hw. unfold DataHost.control_plane_deserialize.
  pose proof (control_plane_ok url method path v w Hw) as [Hc _]. by destruct (DataHost.control_plane _ _ _ _ _).
Qed.

Lemma disconnect_ok id w : world_ok w -> world_ok (DataHost.disconnect id w).2.
Proof.
  intros Hw. unfold DataHost.disconnect. destruct (BTreeMap.get _ id) as [i|]; [|done].
  destruct (in_meta i) as [meta|]; [|by apply world_ok_host]. destruct (BTreeSet.contains _ _); [|by apply world_ok_host].
  unfold DataHost.on_outside. destruct (child_wait _ _) as [ok e] eqn:Ec.
  destruct Hw as [Ho Hs Hn Hl]. pose proof (child_wait_sound Hout _ _ _ _ Ho Ec) as He.
  destruct (ok && _); [|done].
  match goal with |- context [DataHost.control_plane ?u ?m ?p ?v ?w] =>
    destruct (control_plane_ok u m p v w) as [Hc _]; [done|]; by destruct (DataHost.control_plane u m p v w) end.
Qed.

Lemma cp_onboard_proxy_ok id m w : world_ok w -> world_ok (DataHost.cp_onboard_proxy id m w).2.
Proof.
  intros Hw. unfold DataHost.cp_onboard_proxy. destruct (negb _); [done|].
  destruct (BTreeMap.get _ id) as [i|]; [|done]. destruct (in_meta i) as [meta|]; [|done].
  match goal with |- context [DataHost.control_plane_deserialize body_service_id ?u ?m ?p ?v w] =>
    pose proof (control_plane_deserialize_ok body_service_id u m p v w Hw) as Hw2;
    destruct (DataHost.control_plane_deserialize body_service_id u m p v w) as [r w2] end. cbn [snd] in Hw2.
  unfold DataHost.control_plane_deserialize.
  match goal with |- context [DataHost.control_plane ?u ?m ?p ?v w2] =>
    destruct (control_plane_ok u m p v w2 Hw2) as [Hw3 Hp];
    destruct (DataHost.control_plane u m p v w2) as [b w3] end. cbn [fst snd] in Hw3, Hp.
  destruct b as [b|]; [|done]. cbn [mbind option_bind]. destruct (body_policy b) as [[ps ls]|] eqn:Eb; [|done].
  destruct Hw3 as [Ho Hs Hn Hl]. split; simpl; try done. apply Forall_app. split; [done|].
  repeat constructor. by eapply Hp.
Qed.

Lemma handle_sanctioned m w : world_ok w -> msg_ok m -> world_ok (DataHost.handle m w).2.
Proof.
  intros Hw Hm. destruct m as [addr|id|id meta|id ip|id x|id x|l| | |x|d x|retry x req]; simpl; try by destruct Hw.
  - by apply disconnect_ok.
  - by apply cp_onboard_proxy_ok.
  - unfold DataHost.launch. case_match; [|done]. unfold DataHost.on_outside. destruct Hw as [Ho Hs Hn Hl].
    destruct (spawn _ _) as [r e] eqn:Es. pose proof (spawn_sound Hout _ _ _ _ Ho Es). by destruct r.
  - unfold DataHost.policy_command. destruct Hw as [Ho Hs Hn Hl]. destruct (DataHost.get_instances _ _) as [|kv l].
    + destruct retry; [|done]. split; simpl; try done. apply Forall_app. split; [done|]. by repeat constructor.
    + split; simpl; try done. apply Forall_app. split; [done|]. constructor; [done|].
      apply Forall_map, Forall_true. done.
Qed.

Lemma deliver_ok sent links : Forall (fun kv : Z * PolicyRequest => req_ok kv.2) sent ->
  Forall (fun l => Forall req_ok (ln_requests l) /\ proxy_ok (ln_proxy l)) links ->
  Forall (fun l => Forall req_ok (ln_requests l) /\ proxy_ok (ln_proxy l)) (HostSystem.deliver sent links).
Proof.
  intros Hs. revert links. induction Hs as [|[a r] sent Hr Hs IH]; intros links Hl; [done|]. apply IH.
  apply Forall_alter; [done|]. intros l _ [Hq Hp]. unfold Link.push. destruct (ln_closed l); [done|]. simpl.
  split; [|done]. apply Forall_app. by repeat constructor.
Qed.

Lemma handled_ok m s : sys_ok s -> msg_ok m -> sys_ok (HostSystem.handled m s).
Proof.
  intros [Hw Hm Hl] Hok. pose proof (handle_sanctioned m _ Hw Hok) as Hw'. unfold HostSystem.handled.
  destruct (DataHost.handle m (s_world s)) as [r w']. simpl in Hw'. destruct Hw' as [Ho Hs Hn Hla].
  pose proof (deliver_ok _ _ Hs Hl) as Hd. split; simpl; try done.
  destruct m; try done. destruct r; try done. by apply Forall_alter.
Qed.

(** What a proxy installs is from the request. *)
Lemma proxy_handle_ok started r a : req_ok r -> proxy_ok a -> proxy_ok (PolicyActor.handle blake3 ip_to_string started r a).
Proof.
  intros Hr [Hh Ht]. destruct r as [m|op|ps| |c|p| |[|]|secs]; simpl; try done.
  - unfold PolicyActor.handle_label_op. destruct (LabelOps.handle_label_op op (a_identity a)) as [n i].
    generalize (PolicyActor.with_identity a i) as b, (conj Hh Ht : proxy_ok (PolicyActor.with_identity a i)).
    induction n as [|n IH]; intros b Hb; [done|]. by apply IH.
  - destruct (Policies.policy ps TCP) as [t|] eqn:Et, (Policies.policy ps HTTP) as [h|] eqn:Eh;
      (split; simpl; [try done; right; by exists ps|try done; right; by exists ps]).
  - case_bool_decide; [done|]. by destruct started.
  - case_bool_decide; [done|]. by destruct started.
  - by destruct (HttpPolicy.port (a_http a)).
  - by destruct (TcpPolicy.port (a_tcp a)).
Qed.

Lemma connection_sanctioned `{NameService} a from to : proxy_ok a -> proxy_ok (PolicyActor.connection a from to).2.
Proof.
  by destruct (connection_state a from to) as [(c & n & ->)|[-> _]].
Qed.

Lemma with_queues_ok s n l : sys_ok s -> Forall msg_ok n -> Forall msg_ok l -> sys_ok (HostSystem.with_queues s n l).
Proof. intros [[? ? _ _] ? ?] ? ?. by repeat split. Qed.

Lemma link_update_ok s i l l' : sys_ok s -> s_links s !! i = Some l ->
  (Forall req_ok (ln_requests l) /\ proxy_ok (ln_proxy l) -> Forall req_ok (ln_requests l') /\ proxy_ok (ln_proxy l')) ->
  sys_ok (mkSystem (s_world s) (<[i := l']> (s_links s)) (s_mailbox s)).
Proof.
  intros [Hw Hm Hl] Hi Hl'. split; simpl; try done. apply Forall_insert; [done|]. apply Hl'.
  by apply (Forall_lookup_1 _ _ _ _ Hl Hi).
Qed.

Lemma mailbox_ok s ms : sys_ok s -> Forall msg_ok ms -> sys_ok (mkSystem (s_world s) (s_links s) (s_mailbox s ++ ms)).
Proof. intros [Hw Hm Hl] Hms. split; simpl; try done. by apply Forall_app. Qed.

Lemma instance_handle_ok id r : Forall msg_ok (ArmourDataInstance.handle blake3 id r).
Proof. destruct r as [| | | | | | |[]]; repeat constructor. Qed.

Hypothesis Hop : forall m, operator m -> msg_ok m.

Lemma step_ok s s' : HostSystem.step blake3 operator outside s s' -> sys_ok s -> sys_ok s'.
Proof.
  intros Hs Hok.
  destruct Hs as [s pid label timeout a|s m ms Hr Hm|s m ms Hr Hm|s ms1 m ms2 Hr Hm|s i l r rs st Hl Hrs Hst|names s i l f t Hl
    |s i l id r Hl Hid Ho Hr|s i l id Hl Hid Ho|s m Hm Ho|s e He].
  - destruct Hok as [Hw Hm Hl]. split; simpl; [done|apply Forall_app; split; [done|by repeat constructor]|].
    apply Forall_app. split; [done|]. repeat constructor; by left.
  - destruct Hok as [Hw Hms Hl]. rewrite Hm in Hms. apply Forall_cons in Hms as [Hmo Hms]. by apply handled_ok.
  - pose proof (wo_notified _ (so_world _ Hok)) as Hn. rewrite Hm in Hn. apply Forall_cons in Hn as [Hmo Hn].
    apply handled_ok; [|done]. apply with_queues_ok; [done|done|]. apply (so_world _ Hok).
  - pose proof (wo_later _ (so_world _ Hok)) as Hn. rewrite Hm, Forall_app, Forall_cons in Hn.
    apply handled_ok; [|tauto]. apply with_queues_ok; [done|apply (so_world _ Hok)|]. rewrite Forall_app. tauto.
  - apply (link_update_ok _ _ l); [done|done|]. rewrite Hrs, Forall_cons. intros [[Hro Hrso] Hp]. split; [done|].
    by apply proxy_handle_ok.
  - apply (link_update_ok _ _ l); [done|done|]. intros [Hro Hp]. split; [done|]. by apply connection_sanctioned.
  - pose proof (link_update_ok s i l (Link.read (is_shutdown r) l) Hok Hl (fun x => x)) as Hu.
    apply (mailbox_ok _ _ Hu), instance_handle_ok.
  - pose proof (link_update_ok s i l (Link.close l) Hok Hl (fun x => x)) as Hu.
    apply (mailbox_ok _ _ Hu). by repeat constructor.
  - apply (mailbox_ok _ _ Hok). constructor; [by apply Hop|done].
  - destruct Hok as [[? ? ? ?] ? ?]. by repeat split.
Qed.

Lemma reachable_ok s : HostSystem.reachable blake3 operator outside s -> sys_ok s.
Proof.
  induction 1 as [url label onboarded socket key e He|s s' Hr IH Hs]; [|by eapply step_ok].
  by repeat (split || constructor).
Qed.
End sanctioned.

(** C7: provided that the control plane answers queries with policies of
    [Source] only, and that clients and the command line send such only,
    every policy that a proxy of the host runs is the one it started with,
    which denies all, or the policy of the protocol in one of [Source],
    however messages and faults interleave. *)
Theorem proxies_run_sanctioned_policies `{Profile} `{Serde} `{Lib} `{IterOrder} `{UriLib} {E : Type} `{HostOutside E}
    (blake3 : DPPolicy -> string) (operator : HostMsg -> Prop) (outside : E -> Prop) (Source : DPPolicies -> Prop)
    (s : HostSystem E) (i : nat) (l : Link) :
  sound_outside outside Source ->
  (forall retry sel ps, operator (MPolicyCommand retry sel (SetPolicy ps)) -> Source ps) ->
  HostSystem.reachable blake3 operator outside s -> s_links s !! i = Some l ->
  policy_ok Source HTTP (Policy.deny_all HTTP) (http_policy (a_http (ln_proxy l))) /\
  policy_ok Source TCP (Policy.deny_all TCP) (tcp_policy (a_tcp (ln_proxy l))).
Proof.
  intros Hout Hop Hr Hl. assert (forall m, operator m -> msg_ok Source m) as Hop'.
  { intros m Hm. destruct m as [| | | | | | | | | | |retry sel []]; try done. by eapply Hop. }
  pose proof (so_links _ _ _ (reachable_ok blake3 operator outside Source Hout Hop' s Hr)) as Hls.
  by destruct (Forall_lookup_1 _ _ _ _ Hls Hl).
Qed.

(** ** Commands *)
Section commands.
Context `{Profile} `{Serde} `{Lib} `{IterOrder} {E : Type} `{HostOutside E}.
Implicit Types (w : HostWorld E) (m : BTreeMap Z HostInstance).

(** The instances that a selector means. *)
Definition picks (s : InstanceSelector) (id : Z) (i : HostInstance) : Prop :=
  match s with
  | All => True
  | OfLabel l => exists meta, in_meta i = Some meta /\ Label.matches_with l (pm_label meta) = true
  | OfID n => id = n
  end.

Lemma wf_NoDup_keys m : BTreeMap.wf m -> NoDup (map fst m).
Proof.
  intros Hm. unfold BTreeMap.wf, BTreeMap.keys in Hm. induction Hm as [|k ks _ IH Hk]; constructor; [|done].
  rewrite Forall_forall in Hk. intros Hin. specialize (Hk _ Hin). by apply (cmp_lt_irrefl k).
Qed.

Lemma selected_picks s id i : (forall n, s <> OfID n) -> DataHost.selected s (id, i) = true <-> picks s id i.
Proof.
  intros Hs. unfold DataHost.selected. cbn [snd]. destruct s as [|l|n]; [done| |by destruct (Hs n)]. simpl.
  destruct (in_meta i) as [meta|]; split; [by exists meta|by intros (? & [= <-] & ?)|done|by intros (? & ? & _)].
Qed.

Lemma get_instances_spec s m : BTreeMap.wf m ->
  NoDup (map fst (DataHost.get_instances s m)) /\
  forall id i, (id, i) ∈ DataHost.get_instances s m <-> BTreeMap.get m id = Some i /\ picks s id i.
Proof.
  intros Hm. pose proof (iter_order_perm m) as Hp.
  assert ((forall n, s <> OfID n) -> NoDup (map fst (List.filter (DataHost.selected s) (iter_order m))) /\
    forall id i, (id, i) ∈ List.filter (DataHost.selected s) (iter_order m) <-> BTreeMap.get m id = Some i /\ picks s id i) as Hf.
  { intros Hs. split.
    - assert (NoDup (map fst (iter_order m))) as Hn.
      { eapply NoDup_Permutation_proper; [by apply Permutation_map|]. by apply wf_NoDup_keys. }
      revert Hn. generalize (iter_order m). clear. intros l Hn. induction l as [|kv l IH]; simpl in *; [done|].
      apply NoDup_cons in Hn as [Hk Hn]. destruct (DataHost.selected s kv); [|by apply IH]. simpl.
      constructor; [|by apply IH]. intros Hin. apply Hk. apply list_elem_of_In, in_map_iff in Hin as (x & <- & Hx).
      apply filter_In in Hx as [Hx _]. apply list_elem_of_In, in_map_iff. by exists x.
    - intros id i. rewrite list_elem_of_In, filter_In, selected_picks by done. rewrite <- list_elem_of_In, Hp.
      by rewrite <- BTreeMap.get_elem. }
  unfold DataHost.get_instances. destruct s as [|l|n]; [by apply Hf|by apply Hf|].
  destruct (BTreeMap.get m n) as [x|] eqn:Ex; simpl.
  - split; [apply NoDup_singleton|]. intros id i. rewrite list_elem_of_singleton. split.
    + by intros [= -> ->].
    + intros [Hi ->]. congruence.
  - split; [constructor|]. intros id i. rewrite elem_of_nil. split; [done|]. intros [Hi ->]. congruence.
Qed.

(** C26: a command for proxies is sent to every instance that its selector
    means and to no other, once each; when there is none the sender is told,
    and a command that may be retried is tried exactly once more. *)
Theorem command_reaches_selected (retry : bool) (s : InstanceSelector) (req : PolicyRequest) (w : HostWorld E) :
  BTreeMap.wf (h_instances (hw_host w)) ->
  let '(reply, w') := DataHost.handle (MPolicyCommand retry s req) w in
  hw_host w' = hw_host w /\ hw_outside w' = hw_outside w /\ hw_notified w' = hw_notified w /\
  exists picked,
    NoDup (map fst picked) /\
    (forall id i, (id, i) ∈ picked <-> BTreeMap.get (h_instances (hw_host w)) id = Some i /\ picks s id i) /\
    hw_sent w' = hw_sent w ++ map (fun kv => (in_addr kv.2, req)) picked /\
    match picked with
    | [] => (exists e, reply = RError (Some e)) /\
            hw_later w' = hw_later w ++ (if retry then [MPolicyCommand false s req] else [])
    | _ => reply = RError None /\ hw_later w' = hw_later w
    end.
Proof.
  intros Hw. simpl. unfold DataHost.policy_command. destruct (get_instances_spec s _ Hw) as [Hn Hg].
  destruct (DataHost.get_instances s (h_instances (hw_host w))) as [|kv l] eqn:El.
  - destruct retry; simpl; (split_and!; [done|done|done|]); exists []; rewrite ?app_nil_r; split_and!; eauto.
  - simpl. split_and!; [done|done|done|]. by exists (kv :: l).
Qed.

(** ** Onboarding *)

(** An instance with another identity, when it is meant. *)
Lemma update_instances_get s d m id : BTreeMap.wf m ->
  BTreeMap.get (DataHost.update_instances s d m) id =
    match BTreeMap.get m id with
    | Some i => Some (if bool_decide (id ∈ map fst (DataHost.get_instances s m)) then Instances.set_tmp_dpid d i else i)
    | None => None
    end.
Proof.
  intros Hm. unfold DataHost.update_instances. destruct (get_instances_spec s m Hm) as [Hn _].
  revert Hn. generalize (DataHost.get_instances s m). intros l. revert m Hm.
  induction l as [|[k x] l IH]; intros m Hm Hn.
  { cbn [foldl map]. destruct (BTreeMap.get m id); [|done]. case_bool_decide as Hin; [by apply not_elem_of_nil in Hin|done]. }
  cbn [foldl map fst] in *. apply NoDup_cons in Hn as [Hk Hn]. rewrite IH; [|by apply update_wf|done].
  unfold Instances.update. destruct (decide (k = id)) as [->|Hne].
  - destruct (BTreeMap.get m id) as [i|] eqn:Ei; [|by rewrite Ei]. rewrite BTreeMap.get_insert_eq.
    assert (bool_decide (id ∈ map fst l) = false) as -> by (by apply bool_decide_eq_false_2).
    assert (bool_decide (id ∈ id :: map fst l) = true) as -> by (apply bool_decide_eq_true_2; left). done.
  - destruct (BTreeMap.get m k) as [i|] eqn:Ek; [rewrite BTreeMap.get_insert_ne by done|];
      (destruct (BTreeMap.get m id); [|done]; f_equal;
       rewrite (bool_decide_ext (id ∈ k :: map fst l) (id ∈ map fst l)); [done|rewrite elem_of_cons];
       split; [intros [?|?]; [congruence|done]|by right]).
Qed.

(** The body of a successful answer. *)
Definition answer (r : option (bool * option Body)) : option Body := match r with Some (true, body) => body | _ => None end.

(** The messages of the host to itself, handled in order. *)
Definition run_notified w : HostWorld E :=
  foldl (fun w msg => (DataHost.handle msg w).2)
    (mkHostWorld (hw_host w) (hw_outside w) (hw_sent w) [] (hw_later w) (hw_stopped w)) (hw_notified w).

Lemma control_plane_answer url host_str method path v w : method <> OtherMethod -> url_host_str url = Some host_str ->
  let full := "https://" ^^ host_str ^^ ":" ^^ i64_to_string (default 8088%Z (url_port url)) ^^ "/" ^^ path in
  DataHost.control_plane url method path v w =
    (answer (send_json method full v (hw_outside w)).1,
     mkHostWorld (hw_host w) (send_json method full v (hw_outside w)).2 (hw_sent w) (hw_notified w) (hw_later w) (hw_stopped w)).
Proof.
  intros Hm Hu full. unfold DataHost.control_plane. rewrite Hu. destruct method; [| | |done];
    unfold DataHost.on_outside; fold full; by destruct (send_json _ full v (hw_outside w)).
Qed.

Lemma policy_command_sent s req w :
  (DataHost.policy_command false s req w).2 =
    DataHost.send (map (fun kv => (in_addr kv.2, req)) (DataHost.get_instances s (h_instances (hw_host w)))) w.
Proof.
  unfold DataHost.policy_command. destruct (DataHost.get_instances _ _) as [|kv l]; [|done].
  unfold DataHost.send. simpl. rewrite app_nil_r. by destruct w.
Qed.

(** What onboarding makes the host tell itself. *)
Definition onboarding_messages (label : Label) (dpid : ID) (policy : DPPolicies) (labels : LabelMap) : list HostMsg :=
  [MPolicyCommand false (OfLabel label) (Label_ (AddUri labels));
   MPolicyCommand false (OfLabel label) (SetPolicy policy);
   MServiceGlobalID dpid (OfLabel label)].

Definition cp_url (h : HostState) (host_str path : string) : string :=
  "https://" ^^ host_str ^^ ":" ^^ i64_to_string (default 8088%Z (url_port (h_url h))) ^^ "/" ^^ path.
(** The request to register a proxy. *)
Definition registration (h : HostState) (meta : ProxyMeta) (ip_labels : BTreeMap IpAddr Labels) : CPValue :=
  CPService (mkOnboardService (pm_label meta) (h_label h) (Some (DataHost.onboard_dpid meta ip_labels)) "").

Lemma cp_onboard_proxy_world id inst meta ip_labels host_str w e1 e2 r1 r2 :
  let h := hw_host w in
  h_onboarded h = true -> hw_notified w = [] ->
  BTreeMap.get (h_instances h) id = Some inst -> in_meta inst = Some meta -> url_host_str (h_url h) = Some host_str ->
  send_json POST (cp_url h host_str "service/on-board") (registration h meta ip_labels) (hw_outside w) = (r1, e1) ->
  let service := default (pm_label meta) (answer r1 ≫= body_service_id) in
  send_json GET (cp_url h host_str "policy/query") (CPQuery service) e1 = (r2, e2) ->
  (DataHost.handle (MCPOnboardProxy id ip_labels) w).2 =
    mkHostWorld h e2 (hw_sent w)
      match answer r2 ≫= body_policy with
      | Some (policy, labels) =>
        onboarding_messages (pm_label meta) (ID.add_label (DataHost.onboard_dpid meta ip_labels) service) policy labels
      | None => []
      end (hw_later w) (hw_stopped w).
Proof.
  intros h Hon Hn Hi Hmeta Hurl Hs1 service Hs2. cbn [DataHost.handle]. unfold DataHost.cp_onboard_proxy. fold h.
  rewrite Hon, Hi, Hmeta. cbn [negb]. unfold DataHost.control_plane_deserialize.
  rewrite (control_plane_answer _ host_str POST) by done. fold (cp_url h host_str "service/on-board").
  fold (registration h meta ip_labels). rewrite Hs1.
  cbn [fst snd hw_outside hw_host hw_sent hw_notified hw_later hw_stopped]. fold service.
  rewrite (control_plane_answer _ host_str GET) by done. fold (cp_url h host_str "policy/query"). cbn [hw_outside].
  rewrite Hs2. cbn [fst snd hw_outside hw_host hw_sent hw_notified hw_later hw_stopped].
  destruct (answer r2 ≫= body_policy) as [[policy labels]|]; [|by rewrite Hn].
  unfold DataHost.notify. cbn [snd hw_outside hw_host hw_sent hw_notified hw_later hw_stopped]. by rewrite Hn.
Qed.

Lemma run_onboarding h e sent later stopped label dpid policy labels :
  let w := mkHostWorld h e sent (onboarding_messages label dpid policy labels) later stopped in
  let picked := DataHost.get_instances (OfLabel label) (h_instances h) in
  run_notified w =
    mkHostWorld (with_instances h (DataHost.update_instances (OfLabel label) dpid (h_instances h))) e
      (sent ++ map (fun kv => (in_addr kv.2, Label_ (AddUri labels))) picked
            ++ map (fun kv => (in_addr kv.2, SetPolicy policy)) picked) [] later stopped.
Proof.
  intros w picked. subst w. unfold run_notified, onboarding_messages.
  cbn [foldl hw_notified hw_host hw_outside hw_sent hw_later hw_stopped DataHost.handle]. rewrite !policy_command_sent.
  cbn [DataHost.send snd hw_notified hw_host hw_outside hw_sent hw_later hw_stopped]. unfold DataHost.with_host. simpl.
  by rewrite <- app_assoc.
Qed.

(** C25: to onboard a proxy the host registers it with the control plane, with
    the address and labels of its service, and asks for the policy of the
    label that it is given, or of its own label when it is given none.  When
    there is one, every instance with a label that the label of the proxy
    matches is sent the labels and then the policy, and gets the identity
    with the label of the control plane; other instances stay as they are.
    Without a policy nothing changes. *)
Theorem onboarding_delivers (id : Z) (inst : HostInstance) (meta : ProxyMeta) (ip_labels : BTreeMap IpAddr Labels)
    (host_str : string) (w : HostWorld E) (e1 e2 : E) (r1 r2 : option (bool * option Body)) :
  let h := hw_host w in
  BTreeMap.wf (h_instances h) -> h_onboarded h = true -> hw_notified w = [] ->
  BTreeMap.get (h_instances h) id = Some inst -> in_meta inst = Some meta ->
  url_host_str (h_url h) = Some host_str ->
  send_json POST (cp_url h host_str "service/on-board") (registration h meta ip_labels) (hw_outside w) = (r1, e1) ->
  let service := default (pm_label meta) (answer r1 ≫= body_service_id) in
  send_json GET (cp_url h host_str "policy/query") (CPQuery service) e1 = (r2, e2) ->
  let w1 := (DataHost.handle (MCPOnboardProxy id ip_labels) w).2 in
  let w2 := run_notified w1 in
  hw_outside w2 = e2 /\ hw_later w2 = hw_later w /\ hw_notified w2 = [] /\
  match answer r2 ≫= body_policy with
  | Some (policy, labels) =>
    exists picked,
      NoDup (map fst picked) /\
      (forall id' i, (id', i) ∈ picked <-> BTreeMap.get (h_instances h) id' = Some i /\ picks (OfLabel (pm_label meta)) id' i) /\
      hw_sent w2 = hw_sent w ++ map (fun kv => (in_addr kv.2, Label_ (AddUri labels))) picked
                             ++ map (fun kv => (in_addr kv.2, SetPolicy policy)) picked /\
      forall id', BTreeMap.get (h_instances (hw_host w2)) id' =
        match BTreeMap.get (h_instances h) id' with
        | Some i => Some (if bool_decide (id' ∈ map fst picked)
                          then Instances.set_tmp_dpid (ID.add_label (DataHost.onboard_dpid meta ip_labels) service) i else i)
        | None => None
        end
  | None => hw_sent w2 = hw_sent w /\ hw_host w2 = h
  end.
Proof.
  intros h Hwf Hon Hn Hi Hmeta Hurl Hs1 service Hs2 w1 w2. subst w1 w2.
  rewrite (cp_onboard_proxy_world id inst meta ip_labels host_str w e1 e2 r1 r2) by done. fold service h.
  destruct (answer r2 ≫= body_policy) as [[policy labels]|]; [|done]. rewrite run_onboarding.
  destruct (get_instances_spec (OfLabel (pm_label meta)) _ Hwf) as [Hnd Hg].
  split_and!; [done|done|done|]. exists (DataHost.get_instances (OfLabel (pm_label meta)) (h_instances h)).
  split_and!; [done|done|done|]. intros id'. simpl. by apply update_instances_get.
Qed.
End commands.

(** ** The ports of proxies *)
Section ports.
Context `{Profile}.

Lemma foldl_max_ge l : forall p, (p <= foldl Z.max p l /\ Forall (fun q => q <= foldl Z.max p l) l)%Z.
Proof.
  induction l as [|q l IH]; intros p; simpl; [by split; [lia|]|].
  destruct (IH (Z.max p q)) as [H1 H2]. split; [lia|]. constructor; [lia|done].
Qed.
Lemma foldl_max_le b l : forall p, (p <= b -> Forall (fun q => q <= b) l -> foldl Z.max p l <= b)%Z.
Proof. induction l as [|q l IH]; intros p Hp Hl; simpl; [done|]. inversion Hl; subst. apply IH; [lia|done]. Qed.

(** [u16] ports. *)
Definition ports_ok (i : HostApi.OnboardInformation) : Prop :=
  Forall (fun x => match HostApi.px_port x with Some p => (0 <= p <= u16_max)%Z | None => True end) (HostApi.oi_proxies i).

Lemma top_port_spec i : ports_ok i ->
  (0 <= HostApi.top_port i <= u16_max)%Z /\
  forall x p, x ∈ HostApi.oi_proxies i -> HostApi.px_port x = Some p -> (p <= HostApi.top_port i)%Z.
Proof.
  unfold ports_ok, HostApi.top_port. generalize (HostApi.oi_proxies i). intros xs Hok.
  assert (Forall (fun p => 0 <= p <= u16_max)%Z (omap HostApi.px_port xs)) as Hr.
  { induction Hok as [|x xs Hx _ IH]; [done|]. simpl. destruct (HostApi.px_port x); [by constructor|done]. }
  assert (forall x p, x ∈ xs -> HostApi.px_port x = Some p -> p ∈ omap HostApi.px_port xs) as Hin
    by (intros x p Hx Hp; apply list_elem_of_omap; eauto).
  destruct (omap HostApi.px_port xs) as [|q l] eqn:El.
  - split; [by vm_compute|]. intros x p Hx Hp. by apply (Hin x p) in Hx; [apply not_elem_of_nil in Hx|].
  - inversion Hr as [|? ? Hq Hl]; subst. destruct (foldl_max_ge l q) as [H1 H2].
    assert (foldl Z.max q l <= u16_max)%Z by (apply foldl_max_le; [lia|]; eapply Forall_impl; [exact Hl|]; simpl; lia).
    split; [lia|]. intros x p Hx Hp. pose proof (Hin x p Hx Hp) as Hpl. apply elem_of_cons in Hpl as [->|Hpl]; [done|].
    rewrite Forall_forall in H2. by apply H2.
Qed.

(** C32: of the proxies of a request, one with a port is started on it, and all
    those without are started on one and the same port, one above the largest
    port of the request, which is no port of another proxy; above the last
    port there is a panic, or port 0 in a build without overflow checks. *)
Theorem onboarding_ports (i : HostApi.OnboardInformation) (x : HostApi.Proxy) :
  ports_ok i -> x ∈ HostApi.oi_proxies i ->
  let top := HostApi.top_port i in
  let config := HostApi.config x top in
  match HostApi.px_port x with
  | Some p => exists c, config = Val c /\ HttpConfig.port c = p
  | None =>
    (top < u16_max -> (exists c, config = Val c /\ HttpConfig.port c = top + 1) /\
       Forall (fun y => HostApi.px_port y <> Some (top + 1)) (HostApi.oi_proxies i)) /\
    (top = u16_max -> if overflow_checks then config = Panic else exists c, config = Val c /\ HttpConfig.port c = 0)
  end%Z.
Proof.
  intros Hok Hx top config. destruct (top_port_spec i Hok) as [Htop Hmax]. fold top in Htop, Hmax.
  subst config. unfold HostApi.config, HostApi.port. destruct (HostApi.px_port x) as [p|].
  { simpl. destruct (HostApi.ingress x); by eexists. }
  unfold arith_u16. split; intros Ht.
  - assert ((0 <=? top + 1) && (top + 1 <=? u16_max) = true)%Z as -> by (rewrite andb_true_iff, !Z.leb_le; lia).
    split; [simpl; destruct (HostApi.ingress x); by eexists|].
    apply Forall_forall. intros y Hy Hp. specialize (Hmax y _ Hy Hp). lia.
  - assert ((0 <=? top + 1) && (top + 1 <=? u16_max) = false)%Z as -> by (rewrite andb_false_iff, !Z.leb_gt; lia).
    destruct overflow_checks; [done|]. rewrite Ht. simpl. destruct (HostApi.ingress x); by eexists.
Qed.
End ports.

(** ** Witnesses *)
#[local] Existing Instance test_lib.

Lemma test_sound_outside : @sound_outside nat test_outside (fun _ => True) (fun ps => ps = test_policies).
Proof.
  split; [|done|done]. intros method path v e r e' _ [= <- _]. split; [done|]. intros b ps ls [= <-].
  by destruct v; intros [= <- _].
Qed.

Lemma proxies_run_sanctioned_policies_witness :
  policy_ok (fun ps => ps = test_policies) HTTP (Policy.deny_all HTTP) (http_policy (a_http (ln_proxy test_link))).
Proof.
  apply (@proxies_run_sanctioned_policies true test_serde test_lib test_order test_uri nat test_outside test_blake3
    (fun m => forall retry sel ps, m = MPolicyCommand retry sel (SetPolicy ps) -> ps = test_policies) (fun _ => True)
    (fun ps => ps = test_policies) test_connecting 0 (Link.connect test_actor) test_sound_outside).
  - intros retry sel ps Hm. by eapply Hm.
  - eapply HostSystem.reachable_step; [by apply HostSystem.reachable_initial|].
    apply (HostSystem.step_connect _ _ _ test_started 7 [Str "p"] 5).
  - done.
Defined.

Definition test_world : HostWorld nat := s_world test_registered.

Lemma test_instances_wf : BTreeMap.wf (h_instances (hw_host test_world)).
Proof. repeat constructor. Qed.

Lemma command_reaches_selected_witness :
  exists picked : list (Z * HostInstance), (0%Z, mkInstance (Some test_meta) 0) ∈ picked /\
    hw_sent (@DataHost.handle test_serde test_lib test_order nat test_outside
               (MPolicyCommand true (OfLabel [Str "p"]) Shutdown) test_world).2 = map (fun kv => (in_addr kv.2, Shutdown)) picked.
Proof.
  pose proof (@command_reaches_selected test_serde test_lib test_order nat test_outside true (OfLabel [Str "p"]) Shutdown
    test_world test_instances_wf) as Hc.
  destruct (DataHost.handle _ _) as [reply w'] eqn:Ew in Hc |- *. destruct Hc as (_ & _ & _ & picked & _ & Hp & Hs & _).
  exists picked. split; [|exact Hs]. apply Hp. split; [by vm_compute|]. exists test_meta. split; [done|by vm_compute].
Defined.

Lemma onboarding_delivers_witness :
  exists picked : list (Z * HostInstance), (0%Z, mkInstance (Some test_meta) 0) ∈ picked /\
    hw_sent (run_notified (@DataHost.handle test_serde test_lib test_order nat test_outside
               (MCPOnboardProxy 0 [(V4 1, [[Str "x"]])]) test_world).2) =
      map (fun kv => (in_addr kv.2, Label_ (AddUri [("host", [[Str "x"]])]))) picked ++
      map (fun kv => (in_addr kv.2, SetPolicy test_policies)) picked.
Proof.
  destruct (@onboarding_delivers test_serde test_lib test_order nat test_outside 0 (mkInstance (Some test_meta) 0)
    test_meta [(V4 1, [[Str "x"]])] "cp" test_world 1 2 _ _ test_instances_wf eq_refl eq_refl eq_refl eq_refl eq_refl
    eq_refl eq_refl) as (_ & _ & _ & picked & _ & Hp & Hs & _).
  exists picked. split; [|exact Hs]. apply Hp. split; [by vm_compute|]. exists test_meta. split; [done|by vm_compute].
Defined.

Definition test_information : HostApi.OnboardInformation :=
  HostApi.mkOnboardInformation
    [HostApi.mkProxy [Str "a"] (Some 6001%Z) None false None; HostApi.of_label [Str "b"]; HostApi.of_label [Str "c"]] [].

Lemma onboarding_ports_witness : exists c, @HostApi.config false (HostApi.of_label [Str "b"]) 6001 = Val c /\ HttpConfig.port c = 6002%Z.
Proof.
  assert (ports_ok test_information) as Hok by (repeat constructor; by vm_compute).
  destruct (@onboarding_ports false test_information (HostApi.of_label [Str "b"]) Hok) as [Hc _].
  - right. left.
  - by apply Hc.
Defined.
