(* ===== verification/Tcp.v ===== *)
(** * TCP connections through a proxy
    (src/src/armour-proxy/src/tcp_proxy.rs, tcp_codec.rs)

    A connection is forwarded to its original destination when the policy
    allows it; then bytes are relayed both ways and counted, until a side
    ends or more messages arrive between two heartbeats than [MAX_SPEED].
    The counters are of the width of [usize].
    The theorems: only allowed connections are made, and the relay delivers
    what it was given, in order, and counts it, until the first message that
    ends it. *)

From Stdlib Require Import ZArith Lia String Ascii List.
From stdpp Require Import base tactics list strings sets.
From S2P Require Import Prelude.
From S2P Require Import Ordered.
From S2P Require Import Strings.
From S2P Require Import Labels.
From S2P Require Import Syntax.
From S2P Require Import Types.
From S2P Require Import Net.
From S2P Require Import Literals.
From S2P Require Import FnHeaders.
From S2P Require Import Expressions.
From S2P Require Import Interpret.
From S2P Require Import Meta.
From S2P Require Import Eval.
From S2P Require Import Externals.
From S2P Require Import DataPlane.
From S2P Require Import Lang.
From S2P Require Import Policies.
From S2P Require Import Identity.
From S2P Require Import Proxy.
From S2P Require Import ProxyTheory.

Local Open Scope string_scope.
Local Open Scope list_scope.

(** ** The codecs: what has arrived is one item *)
Module TcpCodec.
Definition decode (buf : bytes) : option bytes * bytes :=
  match buf with [] => (None, []) | _ => (Some buf, []) end.
End TcpCodec.

(** ** New connections *)

(** What becomes of a connection: it is relayed, with its statistics; both
    directions are shut down; or it is dropped without an answer. *)
Inductive Route := Relayed (server : SocketAddr) (c : option ConnectionStats) | ShutDown | Dropped.

(** The network of the policies, and the servers that were connected to, the
    last at the end. *)
Record TcpOutside (Net : Type) := mkTcpOutside { t_net : Net; t_connected : list SocketAddr }.
Arguments mkTcpOutside {Net} t_net t_connected.
Arguments t_net {Net} t.
Arguments t_connected {Net} t.

Module TcpDataServer.
Section server.
Context `{Profile} `{Lib} `{UriLib} {Net : Type}.
Variable regex_to_string : PolicyRegex -> string.
Variable network : Z -> string -> string -> list Value -> Net -> result Reader Error * Net.
(** [INTERFACE_IPS], and whether a server accepts a connection. *)
Variable interface_ip : IpAddr -> bool.
Variable reachable : SocketAddr -> Net -> bool * Net.
Notation Outside := (TcpOutside Net).

(** The answer of the policy; errors shut the connection down. *)
Definition on_policy (m : Comp Net TcpPolicyStatus) (socket : SocketAddr) : Comp Outside Route := fun o =>
  let '(r, net) := m (t_net o) in
  let o := mkTcpOutside net (t_connected o) in
  match r with
  | Val (TcpAllow connection) =>
    let '(ok, net) := reachable socket net in
    (Val (if (ok : bool) then Relayed socket connection else ShutDown),
     mkTcpOutside net (t_connected o ++ [socket]))
  | Val TcpBlock | Fail _ => (Val ShutDown, o)
  | Panic => (Panic, o)
  | OutOfFuel => (OutOfFuel, o)
  end.

(** [handle]: a connection from [peer_addr] whose original destination was
    [dst], on the port of the proxy. *)
Definition handle (fuel : nat) (port : Z) (a : PolicyActor) (dst peer_addr : option SocketAddr)
    : Comp Outside Route * PolicyActor :=
  match dst with
  | Some socket =>
    match peer_addr with
    | Some peer =>
      if (sock_port socket =? port)%Z && interface_ip (sock_ip socket) then (mret ShutDown, a)
      else
        let '(m, a) := get_tcp_policy regex_to_string network fuel a peer socket in
        (on_policy m socket, a)
    | None => (mret Dropped, a)
    end
  | None => (mret Dropped, a)
  end.
End server.
End TcpDataServer.

(** ** The relay *)

Record TcpData := mkTcpData {
  td_counter : Z;
  td_connection : option ConnectionStats;
  (** What was written to the client and to the server. *)
  td_client : bytes;
  td_server : bytes;
  td_open : bool;
}.

Definition MAX_SPEED : Z := 100000.

(** A read that failed is [None]; a side that cannot be written to ends the
    relay as if it had finished. *)
Inductive TcpEvent :=
| ClientRead (r : option bytes)
| ServerRead (r : option bytes)
| ClientFinished
| ServerFinished
| Heartbeat.

Module TcpData.
Section data.
Context `{Profile}.

Definition new (c : option ConnectionStats) : TcpData := mkTcpData 0 c [] [] true.
Definition stop (d : TcpData) : TcpData := mkTcpData (td_counter d) (td_connection d) (td_client d) (td_server d) false.

(** The numbers of bytes are machine words. *)
Definition add_sent (n : nat) (c : ConnectionStats) : Outcome ConnectionStats :=
  s ← arith_usize (sent c + Z.of_nat n); Val (mkStats s (received c) (stats_connection c)).
Definition add_received (n : nat) (c : ConnectionStats) : Outcome ConnectionStats :=
  r ← arith_usize (received c + Z.of_nat n); Val (mkStats (sent c) r (stats_connection c)).
Definition update (f : ConnectionStats -> Outcome ConnectionStats) (c : option ConnectionStats)
    : Outcome (option ConnectionStats) :=
  match c with Some c => Some <$> f c | None => Val None end.

(** The counter of messages does not get above [MAX_SPEED + 1]. *)
Definition client_read (r : option bytes) (d : TcpData) : Outcome TcpData :=
  if (MAX_SPEED <? td_counter d)%Z then Val (stop d)
  else
    match r with
    | Some b =>
      c ← update (add_sent (length b)) (td_connection d);
      Val (mkTcpData (td_counter d + 1) c (td_client d) (td_server d ++ b) (td_open d))
    | None => Val d
    end.
Definition server_read (r : option bytes) (d : TcpData) : Outcome TcpData :=
  if (MAX_SPEED <? td_counter d)%Z then Val (stop d)
  else
    match r with
    | Some b =>
      c ← update (add_received (length b)) (td_connection d);
      Val (mkTcpData (td_counter d + 1) c (td_client d ++ b) (td_server d) (td_open d))
    | None => Val d
    end.

(** The actor handles nothing after it stopped. *)
Definition step (d : TcpData) (e : TcpEvent) : Outcome TcpData :=
  if td_open d then
    match e with
    | ClientRead r => client_read r d
    | ServerRead r => server_read r d
    | ClientFinished | ServerFinished => Val (stop d)
    | Heartbeat => Val (mkTcpData 0 (td_connection d) (td_client d) (td_server d) (td_open d))
    end
  else Val d.
Fixpoint run (d : TcpData) (es : list TcpEvent) : Outcome TcpData :=
  match es with
  | [] => Val d
  | e :: es => d ← step d e; run d es
  end.
End data.

(** [stopped]: the statistics go to the policy. *)
Definition stopped `{Profile} `{Lib} {Net} (regex_to_string : PolicyRegex -> string)
    (network : Z -> string -> string -> list Value -> Net -> result Reader Error * Net)
    (fuel : nat) (a : PolicyActor) (d : TcpData) : Comp Net unit :=
  match td_connection d with
  | Some connection => end_connection regex_to_string network fuel a connection
  | None => mret tt
  end.
End TcpData.

(** ** Only allowed connections are made *)
Section enforced.
Context `{Profile} `{Lib} `{UriLib} {Net : Type}.
Variable regex_to_string : PolicyRegex -> string.
Variable network : Z -> string -> string -> list Value -> Net -> result Reader Error * Net.
Variable interface_ip : IpAddr -> bool.
Variable reachable : SocketAddr -> Net -> bool * Net.
Notation handle := (TcpDataServer.handle regex_to_string network interface_ip reachable).

(** The policy allows a connection, with these statistics: without a check, or
    because its function returned true for the identities of both ends. *)
Definition tcp_allowed (fuel : nat) (a : PolicyActor) (peer socket : SocketAddr) (net : Net)
    (c : option ConnectionStats) : Prop :=
  match connect (a_tcp a) with
  | Allow => c = None
  | Deny => False
  | Args n =>
    n = 1%Z /\ exists conn, (PolicyActor.connection a (PSocketAddr peer) (PSocketAddr socket)).1 = Val conn /\
    c = Some (mkStats 0 0 conn) /\
    exists m net', evaluate regex_to_string network Literal.dest_bool fuel (tcp_policy (a_tcp a)) ALLOW_TCP_CONNECTION
                     [LitExpr (Literal.connection conn)] IngressEgress.default net = (Val (true, m), net')
  end.

Lemma get_tcp_policy_spec fuel a peer socket net c net' :
  (get_tcp_policy regex_to_string network fuel a peer socket).1 net = (Val (TcpAllow c), net') ->
  tcp_allowed fuel a peer socket net c.
Proof.
  unfold get_tcp_policy, tcp_allowed. destruct (connect (a_tcp a)) as [| |n].
  - destruct (PolicyActor.next_connection a); by intros [=].
  - by intros [=].
  - destruct (Z.eqb_spec n 1) as [->|]; [|done].
    destruct (connection_cases a (PSocketAddr peer) (PSocketAddr socket)) as [(conn & a' & ->)|[-> _]]; [|done].
    cbn [fst]. rewrite lifted_val. unfold mbind, Comp_bind.
    destruct (evaluate _ _ _ _ _ _ _ _ net) as [[[[] m]| | |] net1] eqn:E; try done.
    intros [= <- <-]. split; [done|]. exists conn. split_and!; eauto.
Qed.

Lemma on_policy_cases (m : Comp Net TcpPolicyStatus) socket o :
  let r := TcpDataServer.on_policy reachable m socket o in
  (t_connected r.2 = t_connected o /\ forall s c, r.1 <> Val (Relayed s c)) \/
  exists c net, m (t_net o) = (Val (TcpAllow c), net) /\ t_connected r.2 = t_connected o ++ [socket] /\
    (r.1 = Val (Relayed socket c) \/ r.1 = Val ShutDown).
Proof.
  unfold TcpDataServer.on_policy. destruct (m (t_net o)) as [[[c|]| | |] net]; cbn [fst snd t_connected t_net]; try by left.
  destruct (reachable socket net) as [[] net2]; right; exists c, net; auto.
Qed.

(** C2: the TCP proxy enforces the policy: a connection to a server is made
    at most once, to the original destination, which is not the proxy, and
    only when the policy allows it; it is relayed with the statistics that
    the policy asked for. *)
Theorem tcp_proxy_enforces_policy (fuel : nat) (port : Z) (a : PolicyActor) (dst peer_addr : option SocketAddr)
    (o : TcpOutside Net) :
  let r := (handle fuel port a dst peer_addr).1 o in
  (t_connected r.2 = t_connected o /\ forall s c, r.1 <> Val (Relayed s c)) \/
  exists socket peer c,
    dst = Some socket /\ peer_addr = Some peer /\ ~ (sock_port socket = port /\ interface_ip (sock_ip socket) = true) /\
    tcp_allowed fuel a peer socket (t_net o) c /\
    t_connected r.2 = t_connected o ++ [socket] /\ (r.1 = Val (Relayed socket c) \/ r.1 = Val ShutDown).
Proof.
  intros r. subst r. unfold TcpDataServer.handle.
  destruct dst as [socket|]; [|by left]. destruct peer_addr as [peer|]; [|by left].
  destruct (_ && _) eqn:Eself; [by left|].
  pose proof (get_tcp_policy_spec fuel a peer socket (t_net o)) as Hg.
  destruct (get_tcp_policy _ _ _ _ _ _) as [m a']. cbn [fst] in *.
  destruct (on_policy_cases m socket o) as [Hno|(c & net & Hm & Hc & Hr)]; [by left|right].
  exists socket, peer, c. split_and!; [done|done| |by eapply Hg|done|done].
  intros [Hp Hi]. by rewrite Hp, Z.eqb_refl, Hi in Eself.
Qed.
End enforced.

(** ** The relay delivers what it was given *)

Definition client_chunk (e : TcpEvent) : option bytes := match e with ClientRead (Some b) => Some b | _ => None end.
Definition server_chunk (e : TcpEvent) : option bytes := match e with ServerRead (Some b) => Some b | _ => None end.
(** The bytes that were read from the client, and from the server. *)
Definition from_client (es : list TcpEvent) : bytes := concat (omap client_chunk es).
Definition from_server (es : list TcpEvent) : bytes := concat (omap server_chunk es).

(** The messages with bytes since the last heartbeat. *)
Definition recent (es : list TcpEvent) : Z :=
  foldl (fun n e => match e with
                    | ClientRead (Some _) | ServerRead (Some _) => (n + 1)%Z
                    | Heartbeat => 0%Z
                    | _ => n
                    end) 0%Z es.

(** What ends a relay. *)
Definition ends (es : list TcpEvent) (e : TcpEvent) : Prop :=
  match e with
  | ClientFinished | ServerFinished => True
  | ClientRead _ | ServerRead _ => (MAX_SPEED < recent es)%Z
  | Heartbeat => False
  end.

(** Nothing of this ends the relay. *)
Definition quiet (es : list TcpEvent) : Prop := forall pre e suf, es = pre ++ e :: suf -> ~ ends pre e.

Section relay.
Context `{Profile}.

(** The statistics after bytes were relayed both ways. *)
Definition counted (c : option ConnectionStats) (to_server to_client : bytes) : option ConnectionStats :=
  option_map (fun c => mkStats ((sent c + Z.of_nat (length to_server)) mod 2 ^ 64)
                         ((received c + Z.of_nat (length to_client)) mod 2 ^ 64) (stats_connection c)) c.

Definition in_range (c : option ConnectionStats) : Prop :=
  match c with Some c => (0 <= sent c < 2 ^ 64 /\ 0 <= received c < 2 ^ 64)%Z | None => True end.

Definition relayed (c : option ConnectionStats) (es : list TcpEvent) (d : TcpData) : Prop :=
  td_server d = from_client es /\ td_client d = from_server es /\
  td_connection d = counted c (from_client es) (from_server es).

(** With overflow checks, these bytes are too many to count. *)
Definition uncountable (c : option ConnectionStats) (es : list TcpEvent) : Prop :=
  overflow_checks = true /\ exists c0, c = Some c0 /\
  (2 ^ 64 <= sent c0 + Z.of_nat (length (from_client es)) \/
   2 ^ 64 <= received c0 + Z.of_nat (length (from_server es)))%Z.

Lemma omap_snoc {A B} (f : A -> option B) (l : list A) x :
  omap f (l ++ [x]) = omap f l ++ match f x with Some y => [y] | None => [] end.
Proof. rewrite omap_app. simpl. by destruct (f x). Qed.
Lemma from_client_snoc es e : from_client (es ++ [e]) = from_client es ++ default [] (client_chunk e).
Proof. unfold from_client. rewrite omap_snoc, concat_app. by destruct (client_chunk e); simpl; rewrite ?app_nil_r. Qed.
Lemma from_server_snoc es e : from_server (es ++ [e]) = from_server es ++ default [] (server_chunk e).
Proof. unfold from_server. rewrite omap_snoc, concat_app. by destruct (server_chunk e); simpl; rewrite ?app_nil_r. Qed.

Lemma quiet_nil : quiet [].
Proof. intros pre e suf He. by destruct pre. Qed.
Lemma quiet_snoc es e : quiet es -> ~ ends es e -> quiet (es ++ [e]).
Proof.
  intros Hq He pre e' suf Heq. destruct suf as [|x suf _] using rev_ind.
  - apply app_inj_tail in Heq as [-> ->]. done.
  - rewrite app_comm_cons, app_assoc in Heq. apply app_inj_tail in Heq as [-> _]. by eapply Hq.
Qed.

Lemma counted_sent c x y b : in_range c ->
  TcpData.update (TcpData.add_sent (length b)) (counted c x y) = Val (counted c (x ++ b) y) \/
  (TcpData.update (TcpData.add_sent (length b)) (counted c x y) = Panic /\ overflow_checks = true /\
   exists c0, c = Some c0 /\ (2 ^ 64 <= sent c0 + Z.of_nat (length (x ++ b)))%Z).
Proof.
  destruct c as [c|]; [|by left]. intros [Hs _]. unfold TcpData.add_sent. simpl.
  pose proof (Z.mod_le (sent c + Z.of_nat (length x)) (2 ^ 64) ltac:(lia) ltac:(lia)).
  pose proof (Z.mod_pos_bound (sent c + Z.of_nat (length x)) (2 ^ 64) ltac:(lia)).
  rewrite length_app, Nat2Z.inj_add, Z.add_assoc.
  destruct (arith_usize_cases ((sent c + Z.of_nat (length x)) mod 2 ^ 64 + Z.of_nat (length b)))
    as [->|(-> & Hp & Hl)]; [lia| |].
  - left. rewrite Zplus_mod_idemp_l. reflexivity.
  - right. split_and!; [done..|]. exists c. split; [done|lia].
Qed.
Lemma counted_received c x y b : in_range c ->
  TcpData.update (TcpData.add_received (length b)) (counted c x y) = Val (counted c x (y ++ b)) \/
  (TcpData.update (TcpData.add_received (length b)) (counted c x y) = Panic /\ overflow_checks = true /\
   exists c0, c = Some c0 /\ (2 ^ 64 <= received c0 + Z.of_nat (length (y ++ b)))%Z).
Proof.
  destruct c as [c|]; [|by left]. intros [_ Hs]. unfold TcpData.add_received. simpl.
  pose proof (Z.mod_le (received c + Z.of_nat (length y)) (2 ^ 64) ltac:(lia) ltac:(lia)).
  pose proof (Z.mod_pos_bound (received c + Z.of_nat (length y)) (2 ^ 64) ltac:(lia)).
  rewrite length_app, Nat2Z.inj_add, Z.add_assoc.
  destruct (arith_usize_cases ((received c + Z.of_nat (length y)) mod 2 ^ 64 + Z.of_nat (length b)))
    as [->|(-> & Hp & Hl)]; [lia| |].
  - left. rewrite Zplus_mod_idemp_l. reflexivity.
  - right. split_and!; [done..|]. exists c. split; [done|lia].
Qed.

(** An open relay has relayed all. *)
Definition running (c : option ConnectionStats) (es : list TcpEvent) (d : TcpData) : Prop :=
  td_open d = true /\ td_counter d = recent es /\ relayed c es d.

Lemma step_running c es d e : in_range c -> running c es d ->
  (exists d', TcpData.step d e = Val d' /\ running c (es ++ [e]) d' /\ ~ ends es e) \/
  (exists d', TcpData.step d e = Val d' /\ ends es e /\ td_open d' = false /\ relayed c es d') \/
  (TcpData.step d e = Panic /\ ~ ends es e /\ uncountable c (es ++ [e])).
Proof.
  intros Hr (Ho & Hn & Hs & Hc & Hst). unfold TcpData.step, uncountable. rewrite Ho.
  unfold running, relayed. rewrite from_client_snoc, from_server_snoc. unfold recent at 1. rewrite foldl_snoc.
  fold (recent es). destruct e as [[b|]|[b|]| | |]; simpl; rewrite ?app_nil_r.
  1,2: unfold TcpData.client_read; destruct (Z.ltb_spec MAX_SPEED (td_counter d));
    [right; left; eexists; split; [done|]; split_and!; first [done|simpl; lia]|].
  3,4: unfold TcpData.server_read; destruct (Z.ltb_spec MAX_SPEED (td_counter d));
    [right; left; eexists; split; [done|]; split_and!; first [done|simpl; lia]|].
  - rewrite Hst. destruct (counted_sent c (from_client es) (from_server es) b Hr) as [->|(-> & Hp & c0 & -> & Hl)]; [left|right; right].
    + eexists. split; [done|]. simpl. rewrite Hs, Hn. split_and!; [done..|lia].
    + split_and!; [done|lia|done|]. exists c0. split; [done|by left].
  - left. eexists. split; [done|]. split_and!; [done..|lia].
  - rewrite Hst. destruct (counted_received c (from_client es) (from_server es) b Hr) as [->|(-> & Hp & c0 & -> & Hl)]; [left|right; right].
    + eexists. split; [done|]. simpl. rewrite Hc, Hn. split_and!; [done..|lia].
    + split_and!; [done|lia|done|]. exists c0. split; [done|by right].
  - left. eexists. split; [done|]. split_and!; [done..|lia].
  - right. left. eexists. by split_and!.
  - right. left. eexists. by split_and!.
  - left. eexists. split; [done|]. split_and!; [done..|tauto].
Qed.

Lemma closed_stays d es : td_open d = false -> TcpData.run d es = Val d.
Proof. intros Hd. induction es as [|e es IH]; [done|]. cbn [TcpData.run]. unfold TcpData.step. by rewrite Hd. Qed.

Lemma run_running c es' : forall es d, in_range c -> running c es d -> quiet es ->
  (exists d', TcpData.run d es' = Val d' /\ running c (es ++ es') d' /\ quiet (es ++ es')) \/
  (exists d' pre e suf, TcpData.run d es' = Val d' /\ es' = pre ++ e :: suf /\ quiet (es ++ pre) /\ ends (es ++ pre) e /\
     td_open d' = false /\ relayed c (es ++ pre) d') \/
  (exists pre suf, TcpData.run d es' = Panic /\ es' = pre ++ suf /\ quiet (es ++ pre) /\ uncountable c (es ++ pre)).
Proof.
  induction es' as [|e es' IH]; intros es d Hr Hd Hq; [left; exists d; by rewrite app_nil_r|].
  cbn [TcpData.run].
  destruct (step_running c es d e Hr Hd) as [(d' & -> & Hd' & He)|[(d' & -> & He & Ho & Hrel)|(-> & He & Hu)]].
  - change (Val d' ≫= fun d => TcpData.run d es') with (TcpData.run d' es').
    specialize (IH (es ++ [e]) d' Hr Hd' (quiet_snoc _ _ Hq He)). rewrite <- app_assoc in IH.
    destruct IH as [Hrun|[(d2 & pre & e' & suf & Hrun & -> & Hrest)|(pre & suf & Hrun & -> & Hrest)]]; [by left|right..].
    + left. exists d2, (e :: pre), e', suf. by rewrite <- app_assoc in Hrest.
    + right. exists (e :: pre), suf. by rewrite <- app_assoc in Hrest.
  - right. left. exists d', [], e, es'. rewrite app_nil_r. split_and!; try done. by apply closed_stays.
  - right. right. exists [e], es'. split_and!; try done. by apply quiet_snoc.
Qed.

Lemma new_running c : in_range c -> running c [] (TcpData.new c).
Proof.
  intros Hr. split_and!; [done|done|]. split_and!; [done|done|]. destruct c as [[s r k]|]; [|done].
  simpl in *. unfold counted, from_client, from_server. simpl. do 2 f_equal; rewrite Z.add_0_r, Z.mod_small by lia; done.
Qed.
End relay.

(** C29: a relay writes to each side exactly the bytes of the other, in order,
    and its statistics count them (as 64-bit words): all of them as long as
    nothing ends the relay, and, when something does, those before the first
    event that does, after which it stops and delivers nothing.  What ends it
    is the end of a side and a message after more than [MAX_SPEED] messages
    since the last heartbeat, and nothing else; with overflow checks, it
    panics, and only when the bytes of one side are too many for a word. *)
Theorem relay_spec `{Profile} (c : option ConnectionStats) (es : list TcpEvent) :
  in_range c ->
  (exists d, TcpData.run (TcpData.new c) es = Val d /\ quiet es /\ td_open d = true /\ relayed c es d) \/
  (exists d pre e suf, TcpData.run (TcpData.new c) es = Val d /\
     es = pre ++ e :: suf /\ quiet pre /\ ends pre e /\ td_open d = false /\ relayed c pre d) \/
  (exists pre suf, TcpData.run (TcpData.new c) es = Panic /\ es = pre ++ suf /\ quiet pre /\ uncountable c pre).
Proof.
  intros Hr. destruct (run_running c es [] _ Hr (new_running c Hr) quiet_nil)
    as [(d & Hd & (Ho & _ & Hrel) & Hq)|[(d & pre & e & suf & Hend)|Hp]]; [left; by exists d| |by right; right].
  right. left. by exists d, pre, e, suf.
Qed.

(** The policy that is told of the end of a connection gets the numbers of
    bytes that were relayed each way. *)
Theorem disconnect_counts `{Profile} `{Lib} {Net : Type} (regex_to_string : PolicyRegex -> string)
    (network : Z -> string -> string -> list Value -> Net -> result Reader Error * Net)
    (fuel : nat) (a : PolicyActor) (conn : Connection) (es : list TcpEvent) (d : TcpData) (net : Net) :
  disconnect (a_tcp a) = Args 3 -> TcpData.run (TcpData.new (Some (mkStats 0 0 conn))) es = Val d ->
  let r := evaluate regex_to_string network dest_unit fuel (tcp_policy (a_tcp a)) ON_TCP_DISCONNECT
             [LitExpr (Literal.connection conn);
              LitExpr (Literal.int (wrap_i64 (Z.of_nat (length (td_server d)) mod 2 ^ 64)));
              LitExpr (Literal.int (wrap_i64 (Z.of_nat (length (td_client d)) mod 2 ^ 64)))] IngressEgress.default net in
  TcpData.stopped regex_to_string network fuel a d net =
  (match r.1 with Val _ | Fail _ => Val tt | Panic => Panic | OutOfFuel => OutOfFuel end, r.2).
Proof.
  intros Hd Hrun r. subst r.
  assert (td_connection d = Some (mkStats (Z.of_nat (length (td_server d)) mod 2 ^ 64)
            (Z.of_nat (length (td_client d)) mod 2 ^ 64) conn)) as Hc.
  { set (c := Some (mkStats 0 0 conn)) in *. assert (in_range c) as Hr by (subst c; simpl; lia).
    destruct (run_running c es [] _ Hr (new_running c Hr) quiet_nil)
      as [(d' & Hd' & (_ & _ & Hs & Hc & Hn) & _)|[(d' & pre & e & suf & Hd' & _ & _ & _ & _ & Hs & Hc & Hn)|(pre & suf & Hp & _)]];
      [| |congruence]; rewrite Hrun in Hd'; injection Hd' as <-; by rewrite Hn, Hs, Hc. }
  unfold TcpData.stopped, end_connection. rewrite Hc, Hd. cbn [Z.eqb Pos.eqb stats_connection sent received].
  by destruct (evaluate _ _ _ _ _ _ _ _ net) as [[] ?].
Qed.

(** ** A connection *)
Definition test_events : list TcpEvent :=
  [ClientRead (Some (as_bytes "ab")); ServerRead (Some (as_bytes "c")); Heartbeat; ClientRead (Some (as_bytes "d"));
   ServerFinished; ClientRead (Some (as_bytes "e"))].
Definition test_stats : option ConnectionStats := Some (mkStats 0 0 Connection.default).

Definition test_relay : Outcome TcpData := TcpData.run (H := true) (TcpData.new test_stats) test_events.

Lemma relay_spec_witness :
  exists d pre e suf, test_relay = Val d /\ td_server d = as_bytes "abd" /\ test_events = pre ++ e :: suf /\ ends pre e.
Proof.
  assert (exists d, test_relay = Val d /\ td_server d = as_bytes "abd" /\ td_open d = false) as (d & Hd & Hs & Ho)
    by (eexists; split; [vm_compute; reflexivity|by vm_compute]).
  destruct (relay_spec (H := true) test_stats test_events) as
    [(d' & Hd' & _ & Ho' & _)|[(d' & pre & e & suf & Hd' & He & _ & Hend & _)|(pre & suf & Hp & _)]];
    [by vm_compute|fold test_relay in *; congruence| |fold test_relay in *; congruence].
  exists d, pre, e, suf. by split_and!.
Defined.

Definition test_tcp_policies : DPPolicies :=
  [(TCP, mkPolicy (mkProgram [(ON_TCP_DISCONNECT, Closure "c" (Closure "i" (Closure "j" (LitExpr Literal.unit))))]
                     Externals.default []) [(ALLOW_TCP_CONNECTION, Allow); (ON_TCP_DISCONNECT, Args 3)])].
Definition test_tcp_actor : PolicyActor :=
  @PolicyActor.handle test_uri (fun _ => "") (fun _ => "") true (SetPolicy test_tcp_policies)
    (PolicyActor.create_policy [Str "p"] 5).

Definition test_end : TcpData := match test_relay with Val d => d | _ => TcpData.new None end.
Lemma disconnect_counts_witness :
  @TcpData.stopped true test_lib nat (fun _ => "") test_network 9 test_tcp_actor test_end 0 = (Val tt, 0).
Proof.
  rewrite (@disconnect_counts true test_lib nat (fun _ => "") test_network 9 test_tcp_actor
    Connection.default test_events test_end 0 eq_refl ltac:(vm_compute; reflexivity)). by vm_compute.
Defined.
