(* ===== verification/Liveness.v ===== *)
(** * The proxies always answer

    Whatever messages the policy actor has handled, if the policies that were
    installed come from accepted declarations, then every request to the HTTP
    proxy, every TCP connection and the end of it is answered, between any
    messages to the actor: evaluation does not diverge, and what makes a
    handler panic is listed. *)

From Stdlib Require Import ZArith Lia String Ascii List.
From stdpp Require Import base tactics list strings sets.
From S2P Require Import Prelude.
From S2P Require Import Ordered.
From S2P Require Import Strings.
From S2P Require Import Labels.
From S2P Require Import Types.
From S2P Require Import Net.
From S2P Require Import Literals.
From S2P Require Import Ast.
From S2P Require Import FnHeaders.
From S2P Require Import Expressions.
From S2P Require Import Interpret.
From S2P Require Import TypeCheck.
From S2P Require Import TypeCheckTheory.
From S2P Require Import Meta.
From S2P Require Import Eval.
From S2P Require Import EvalTheory.
From S2P Require Import Termination.
From S2P Require Import Externals.
From S2P Require Import DataPlane.
From S2P Require Import Lang.
From S2P Require Import Policies.
From S2P Require Import Identity.
From S2P Require Import Graphs.
From S2P Require Import LangTheory.
From S2P Require Import Linking.
From S2P Require Import PolicyTheory.
From S2P Require Import Proxy.
From S2P Require Import ProxyTheory.

Local Open Scope string_scope.
Local Open Scope list_scope.

(** ** Computations that settle *)

(** With enough fuel there is a result, and more fuel does not change it. *)
Definition settles {W A} (c : nat -> Comp W A) : Prop := mono c /\ forall w, converges c w.

Lemma settles_const {W A} (m : Comp W A) : (forall w, (m w).1 <> OutOfFuel) -> settles (fun _ => m).
Proof. intros Hm. split; [apply mono_const|]. intros w. by apply converges_const. Qed.

Lemma settles_bind {W A B} (c : nat -> Comp W A) (f : nat -> A -> Comp W B) :
  settles c -> (forall a, settles (fun n => f n a)) -> settles (fun n => c n ≫= f n).
Proof.
  intros [Mc Cc] Hf. split; [apply mono_bind; [done|]; intros a; apply Hf|]. intros w.
  apply converges_bind; [done|intros a; apply Hf|done|]. intros. apply Hf.
Qed.

Lemma settles_enough {W A} (c : nat -> Comp W A) w :
  settles c -> exists n, forall k, n <= k -> c k w = c n w /\ (c k w).1 <> OutOfFuel.
Proof.
  intros [Mc Cc]. destruct (Cc w) as [n Hn]. exists n. intros k Hk.
  rewrite (Mc n k Hk w Hn). done.
Qed.

Section liveness.
Context `{Profile} `{Lib} `{Aead} `{UriLib} {Net : Type}.
Variable regex_to_string : PolicyRegex -> string.
Variable network : Z -> string -> string -> list Value -> Net -> result Reader Error * Net.

Lemma settles_eval p e :
  terminating p ->
  settles (fun n => @Eval.evaluate _ _ _ _ _ _ (Env.DP_Interp regex_to_string network) (code (pol_program p)) n e).
Proof.
  intros [rank Hr]. unfold Eval.evaluate. apply settles_bind; [split|].
  - apply (eval_mono (H2 := Env.DP_Interp regex_to_string network)).
  - intros w. exact (calls_below_converges (H3 := DP_InterpLaws regex_to_string network) _ rank Hr _ e
      (calls_below_top _ rank e) w).
  - intros a. apply settles_const. done.
Qed.

(** Reading the result of a computation does not depend on the fuel. *)
Lemma settles_map {W A B} (c : nat -> Comp W A) (start : Net -> W) (fin : Outcome A * W -> Outcome B * Net) :
  settles c -> (forall r, (fin r).1 = OutOfFuel <-> r.1 = OutOfFuel) -> settles (fun n net => fin (c n (start net))).
Proof.
  intros [Mc Cc] Hf. split.
  - intros n m Hnm net. simpl. rewrite Hf. intros Hr. by rewrite (Mc n m Hnm _ Hr).
  - intros net. destruct (Cc (start net)) as [n Hn]. exists n. by rewrite Hf.
Qed.

Lemma settles_evaluate {T} (dest : Literal FlatLiteral -> option T) p f args meta :
  terminating p -> settles (fun n => evaluate regex_to_string network dest n p f args meta).
Proof.
  intros Hp. refine (settles_map _ (fun net => mkWorld (externals (pol_program p)) meta net []) (fun r => let '(r, w) := r in (_, w_net w))
    (settles_eval p (Expr.call f args) Hp) _).
  intros [[e| | |] w]; simpl; try done. destruct e; try done. by destruct (dest _).
Qed.

Lemma decrypt_ends x : Crypt.decrypt_meta x <> OutOfFuel.
Proof.
  unfold Crypt.decrypt_meta, Crypt.decrypt, Crypt.generic_array.
  destruct (mapM _ _) as [[|b [|n [|]]]|]; simpl; try done. by destruct (Nat.eqb _ _).
Qed.
Lemma encrypt_ends m : Crypt.encrypt_meta m <> OutOfFuel.
Proof.
  unfold Crypt.encrypt_meta, Crypt.encrypt, Crypt.generic_array.
  destruct (m ≫= _); [|done]. destruct Crypt.nonce; [|done]. by destruct (Nat.eqb _ _).
Qed.

Lemma settles_lift {W A} (o : Outcome A) : o <> OutOfFuel -> settles (W := W) (fun _ => lift o).
Proof. intros Ho. by apply settles_const. Qed.

Lemma settles_eval_fn a f args x :
  terminating (http_policy (a_http a)) ->
  settles (fun n => eval_http_fn regex_to_string network n a f args x).
Proof.
  intros Ha. unfold eval_http_fn. apply settles_bind.
  { apply settles_lift. destruct x; [apply decrypt_ends|done]. }
  intros m. apply settles_bind; [by apply settles_evaluate|]. intros r.
  apply settles_bind; [apply settles_lift, encrypt_ends|]. intros e. by apply settles_const.
Qed.

Lemma settles_answer {A} (c : nat -> Comp Net A) (k : nat -> A -> Comp (Outside Net Uri) Reply) :
  settles c -> (forall a, settles (fun n => k n a)) -> settles (fun n => HttpProxy.on_answer (c n) (k n)).
Proof.
  intros [Mc Cc] Hk. unfold HttpProxy.on_answer. split.
  - intros n m Hnm o. specialize (Mc n m Hnm (o_net o)). destruct (c n (o_net o)) as [[a|e| |] net] eqn:E;
      simpl; intros Ho; try done; rewrite Mc by done; try done. by apply Hk.
  - intros o. destruct (Cc (o_net o)) as [n Hn]. destruct (c n (o_net o)) as [[a|e| |] net] eqn:E; [| | |done].
    + destruct (proj2 (Hk a) (mkOutside net (o_forwarded o))) as [m Hm]. exists (n + m).
      rewrite (Mc n (n + m) ltac:(lia)), E by by rewrite E.
      by rewrite (proj1 (Hk a) m (n + m) ltac:(lia) _ Hm).
    + exists n. by rewrite E.
    + exists n. by rewrite E.
Qed.

Lemma settles_arguments count e payload : settles (fun _ => HttpProxy.arguments (Net := Net) count e payload).
Proof. apply settles_const. intros o. unfold HttpProxy.arguments. by repeat case_match. Qed.

Section request.
Variable build_uri : string -> string -> option string -> option Uri.
Variable socket_to_string : SocketAddr -> string.
Variable own_ip : IpAddr -> bool.
Variable local_host_names : list string.
Variable to_ascii_lowercase : string -> string.
Variable request_from : HeaderMap -> HeaderMap.
Variable server : Uri -> HeaderMap -> bytes -> Net -> option WebResponse * Net.

Ltac ends := apply settles_const; done.

Lemma settles_response a st c res :
  terminating (http_policy (a_http a)) ->
  settles (fun n => HttpProxy.response regex_to_string network n a st c res).
Proof.
  intros Ha. unfold HttpProxy.response. destruct res as [res|]; [|ends].
  destruct (st_response st) as [| |n]; [destruct (r_payload res); ends|ends|].
  destruct (r_payload res); [|ends]. apply settles_bind; [apply settles_arguments|]. intros args.
  apply settles_answer; [by apply settles_eval_fn|]. intros [ok m]. destruct ok; simpl; ends.
Qed.

Lemma settles_forward a st c u req meta payload :
  terminating (http_policy (a_http a)) ->
  settles (fun n => HttpProxy.forward regex_to_string network socket_to_string request_from server n a st c u req meta payload).
Proof.
  intros Ha. unfold HttpProxy.forward. split.
  - intros n m Hnm o. cbv zeta. destruct (server _ _ _ _) as [res net]. by apply settles_response.
  - intros o. unfold converges. cbv zeta. destruct (server _ _ _ _) as [res net].
    by apply (settles_response a st c res Ha).
Qed.

Lemma settles_request a a_req a_res req config :
  terminating (http_policy (a_http a_req)) -> terminating (http_policy (a_http a_res)) ->
  settles (fun n => HttpProxy.request regex_to_string network build_uri socket_to_string own_ip local_host_names
                      to_ascii_lowercase request_from server n a a_req a_res req config).
Proof.
  intros Hq Hs. unfold HttpProxy.request. destruct (HttpProxy.forward_uri _ _ _ _ _ req config) as [u|]; [|ends].
  apply settles_bind.
  { apply settles_lift.
    by destruct (get_http_policy_cases a (PeerID.of_socket (w_peer req)) (PeerID.of_uri u)) as [[c ->]|[-> _]]. }
  intros [st c]. destruct (st_request st) as [| |n]; [|ends|].
  - destruct (w_payload req); [|ends]. by apply settles_forward.
  - destruct (w_payload req); [|ends]. apply settles_bind; [apply settles_arguments|]. intros args.
    apply settles_answer; [by apply settles_eval_fn|]. intros [ok m]. destruct ok; simpl; [by apply settles_forward|ends].
Qed.
End request.

Lemma settles_tcp a src dst :
  terminating (tcp_policy (a_tcp a)) -> settles (fun n => (get_tcp_policy regex_to_string network n a src dst).1).
Proof.
  unfold get_tcp_policy. intros Ha. destruct (connect (a_tcp a)) as [| |n].
  - destruct (PolicyActor.next_connection a); by apply settles_const.
  - by apply settles_const.
  - destruct (n =? 1)%Z; [|by apply settles_const].
    destruct (connection_cases a (PSocketAddr src) (PSocketAddr dst)) as [(c & a' & ->)|[-> _]]; simpl;
      (apply settles_bind; [by apply settles_lift|]); intros c';
      (apply settles_bind; [by apply settles_evaluate|]); intros r; by apply settles_const.
Qed.

Lemma settles_end a msg :
  terminating (tcp_policy (a_tcp a)) -> settles (fun n => end_connection regex_to_string network n a msg).
Proof.
  intros Ha. unfold end_connection. destruct (disconnect (a_tcp a)) as [| |k]; [by apply settles_const..|].
  destruct (k =? 3)%Z; [|by apply settles_const].
  refine (settles_map _ (fun net => net) (fun r => let '(r, net) := r in
    match r with Panic => (Panic, net) | OutOfFuel => (OutOfFuel, net) | _ => (Val tt, net) end)
    (settles_evaluate dest_unit _ _ _ _ Ha) _).
  by intros [[] ?].
Qed.

(** ** What makes a handler panic *)

(** A policy function: a metadata header whose nonce does not have its length,
    the evaluation itself, or a clock that gives no nonce. *)
Definition eval_panics (fuel : nat) (a : PolicyActor) (f : HttpFn) (args : list DPExpr) (x : option string) (net : Net)
    : Prop :=
  let ingress := match x with Some x => Crypt.decrypt_meta x | None => Val None end in
  ingress = Panic \/
  exists m, ingress = Val m /\
    let r := evaluate regex_to_string network Literal.dest_bool fuel (http_policy (a_http a)) (http_function f) args
               (IngressEgress.new m (a_label a)) net in
    r.1 = Panic \/ exists b m', r.1 = Val (b, m') /\ Crypt.encrypt_meta m' = Panic.

(** A function that is installed with this number of arguments: also when it
    is not one that the proxy passes. *)
Definition fn_panics (fuel : nat) (a : PolicyActor) (f : HttpFn) (n : Z) (message : DPExpr) (payload : bytes)
    (x : option string) (net : Net) : Prop :=
  ~ (0 <= n <= 2)%Z \/
  exists args, (forall o : Outside Net Uri, HttpProxy.arguments n message payload o = (Val args, o)) /\
    eval_panics fuel a f args x net.

(** A request: the counter of connections, or a function for the request or
    the answer. *)
Definition request_panics (fuel : nat) (a a_req a_res : PolicyActor) (req : WebRequest) (net : Net) : Prop :=
  counter_panics a \/
  (exists n c payload, st_request (http_status (a_http a)) = Args n /\ w_payload req = Some payload /\
     fn_panics fuel a_req Request n (HttpProxy.request_expr req c) payload (get_x_armour (w_headers req)) net) \/
  (exists n c res payload net', st_response (http_status (a_http a)) = Args n /\ r_payload res = Some payload /\
     fn_panics fuel a_res Response n (HttpProxy.response_expr res (HttpProxy.response_builder res) c) payload
       (get_x_armour (r_headers res)) net').

(** A connection, and its end. *)
Definition tcp_panics (fuel : nat) (a : PolicyActor) (src dst : SocketAddr) (net : Net) : Prop :=
  counter_panics a \/
  exists n, connect (a_tcp a) = Args n /\
    (n <> 1%Z \/ exists c, (PolicyActor.connection a (PSocketAddr src) (PSocketAddr dst)).1 = Val c /\
      (evaluate regex_to_string network Literal.dest_bool fuel (tcp_policy (a_tcp a)) ALLOW_TCP_CONNECTION
         [LitExpr (Literal.connection c)] IngressEgress.default net).1 = Panic).
Definition end_panics (fuel : nat) (a : PolicyActor) (msg : ConnectionStats) (net : Net) : Prop :=
  exists n, disconnect (a_tcp a) = Args n /\
    (n <> 3%Z \/
     (evaluate regex_to_string network dest_unit fuel (tcp_policy (a_tcp a)) ON_TCP_DISCONNECT
        [LitExpr (Literal.connection (stats_connection msg)); LitExpr (Literal.int (wrap_i64 (sent msg)));
         LitExpr (Literal.int (wrap_i64 (received msg)))] IngressEgress.default net).1 = Panic).

Lemma eval_fn_panics fuel a f args x net :
  (eval_http_fn regex_to_string network fuel a f args x net).1 = Panic -> eval_panics fuel a f args x net.
Proof.
  unfold eval_http_fn, eval_panics, lift, mbind, Comp_bind. cbv zeta.
  destruct (match x with Some x => _ | None => _ end) as [m| | |]; simpl; try done; [|by left].
  intros Hp. right. exists m. split; [done|]. revert Hp.
  destruct (evaluate _ _ _ _ _ _ _ _ net) as [[[b m']| | |] net']; simpl; try done; [|by left].
  destruct (Crypt.encrypt_meta m') eqn:E; try done. intros _. right. by exists b, m'.
Qed.

Lemma on_answer_result {A} (m : Comp Net A) (k : A -> Comp (Outside Net Uri) Reply) o r :
  (HttpProxy.on_answer m k o).1 = r -> r <> OutOfFuel ->
  r = Val Internal \/ (r = Panic /\ (m (o_net o)).1 = Panic) \/
  exists a net, m (o_net o) = (Val a, net) /\ (k a (mkOutside net (o_forwarded o))).1 = r.
Proof.
  unfold HttpProxy.on_answer. destruct (m (o_net o)) as [[a|e| |] net]; simpl; intros <- Hn; try done; eauto 6.
Qed.

Lemma arguments_panic n message payload :
  (exists args, forall o : Outside Net Uri, HttpProxy.arguments n message payload o = (Val args, o)) \/
  ((forall o : Outside Net Uri, HttpProxy.arguments n message payload o = (Panic, o)) /\ ~ (0 <= n <= 2)%Z).
Proof.
  unfold HttpProxy.arguments.
  destruct (Z.eqb_spec n 0); [left; by eexists|]. destruct (Z.eqb_spec n 1); [left; by eexists|].
  destruct (Z.eqb_spec n 2); [left; by eexists|]. right. split; [done|lia].
Qed.

(** An answer, or a panic for these reasons. *)
Definition answers {A} (r : Outcome A) (why : Prop) : Prop := (exists a, r = Val a) \/ (r = Panic /\ why).

(** A policy function and what follows it. *)
Lemma fn_answers fuel a f n message payload x (k : bool * option string -> Comp (Outside Net Uri) Reply) o (why : Prop) r :
  r = ((args ← HttpProxy.arguments n message payload;
        HttpProxy.on_answer (eval_http_fn regex_to_string network fuel a f args x) k) o).1 ->
  r <> OutOfFuel ->
  (fn_panics fuel a f n message payload x (o_net o) -> why) ->
  (forall v net, (k v (mkOutside net (o_forwarded o))).1 <> OutOfFuel ->
     answers (k v (mkOutside net (o_forwarded o))).1 why) ->
  answers r why.
Proof.
  intros -> Hn Hw Hk. unfold mbind, Comp_bind in *.
  destruct (arguments_panic n message payload) as [[args Ha]|[Ha Hout]]; rewrite Ha in *.
  - destruct (on_answer_result _ _ _ _ eq_refl Hn) as [->|[[-> Hp]|(v & net & Hv & Hr)]].
    + left. by eexists.
    + right. split; [done|]. apply Hw. right. exists args. split; [done|by apply eval_fn_panics].
    + rewrite <- Hr in *. by apply Hk.
  - right. split; [done|]. apply Hw. by left.
Qed.

Section request_panics.
Variable build_uri : string -> string -> option string -> option Uri.
Variable socket_to_string : SocketAddr -> string.
Variable own_ip : IpAddr -> bool.
Variable local_host_names : list string.
Variable to_ascii_lowercase : string -> string.
Variable request_from : HeaderMap -> HeaderMap.
Variable server : Uri -> HeaderMap -> bytes -> Net -> option WebResponse * Net.

Lemma forward_answers fuel a a_req a_res c u req meta payload o net0 :
  let r := (HttpProxy.forward regex_to_string network socket_to_string request_from server fuel a_res
              (http_status (a_http a)) c u req meta payload o).1 in
  r <> OutOfFuel -> answers r (request_panics fuel a a_req a_res req net0).
Proof.
  unfold HttpProxy.forward, HttpProxy.response. cbv zeta. destruct (server _ _ _ _) as [[res|] net]; [|left; by eexists].
  destruct (st_response (http_status (a_http a))) as [| |n] eqn:Est;
    [destruct (r_payload res); left; by eexists|left; by eexists|].
  destruct (r_payload res) as [body|] eqn:Eb; [|left; by eexists].
  intros Hn. eapply fn_answers; [done|exact Hn| |].
  - intros Hp. right. right. by exists n, c, res, body, net.
  - intros [[] m] net' _; left; by eexists.
Qed.

Lemma request_answers fuel a a_req a_res req config o :
  let r := (HttpProxy.request regex_to_string network build_uri socket_to_string own_ip local_host_names
              to_ascii_lowercase request_from server fuel a a_req a_res req config o).1 in
  r <> OutOfFuel -> answers r (request_panics fuel a a_req a_res req (o_net o)).
Proof.
  unfold HttpProxy.request. cbv zeta.
  destruct (HttpProxy.forward_uri _ _ _ _ _ req config) as [u|]; [|left; by eexists].
  destruct (get_http_policy_cases a (PeerID.of_socket (w_peer req)) (PeerID.of_uri u)) as [[c ->]|[-> Hp]];
    [rewrite lifted_val|rewrite lifted_panic; by right; split; [|left]].
  destruct (st_request (http_status (a_http a))) as [| |n] eqn:Est; [|left; by eexists|].
  - destruct (w_payload req) as [payload|]; [|left; by eexists]. apply forward_answers.
  - destruct (w_payload req) as [payload|] eqn:Ep; [|left; by eexists].
    intros Hn. eapply fn_answers; [done|exact Hn| |].
    + intros Hp. right. left. by exists n, c, payload.
    + intros [[] m] net' Hn'; [by apply forward_answers|left; by eexists].
Qed.
End request_panics.

(** An error of the policy shuts the connection down. *)
Lemma tcp_answers fuel a src dst net :
  let r := ((get_tcp_policy regex_to_string network fuel a src dst).1 net).1 in
  r <> OutOfFuel -> (exists e, r = Fail e) \/ answers r (tcp_panics fuel a src dst net).
Proof.
  unfold get_tcp_policy, tcp_panics. cbv zeta. destruct (connect (a_tcp a)) as [| |n] eqn:Ec.
  - intros _. right. destruct (next_connection_cases a) as [[k ->]|[-> Hp]]; [left; by eexists|by right; split; [|left]].
  - intros _. right. left. by eexists.
  - destruct (Z.eqb_spec n 1) as [->|Hne]; [|intros _; right; right; split; [done|right; exists n; by split; [|left]]].
    destruct (connection_cases a (PSocketAddr src) (PSocketAddr dst)) as [(c & a' & Hc)|[Hc Hp]]; rewrite Hc; cbn [fst].
    + rewrite lifted_val. unfold mbind, Comp_bind.
      destruct (evaluate _ _ _ _ _ _ _ _ net) as [[[b m]|e| |] net'] eqn:E; cbn [fst]; intros Hn; try done.
      * right. left. by eexists.
      * left. by eexists.
      * right. right. split; [done|]. right. exists 1%Z. split; [done|]. right. exists c. by rewrite E.
    + intros _. right. right. split; [done|by left].
Qed.

Lemma end_answers fuel a msg net :
  let r := (end_connection regex_to_string network fuel a msg net).1 in
  r <> OutOfFuel -> answers r (end_panics fuel a msg net).
Proof.
  unfold end_connection, end_panics. cbv zeta. destruct (disconnect (a_tcp a)) as [| |n] eqn:Ed; [left; by eexists..|].
  destruct (Z.eqb_spec n 3) as [->|Hne]; [|intros _; right; split; [done|exists n; by split; [|left]]].
  destruct (evaluate _ _ _ _ _ _ _ _ net) as [[] net'] eqn:E; simpl; intros Hn; try done; [left; by eexists..|].
  right. split; [done|]. exists 3%Z. split; [done|]. by right.
Qed.
End liveness.

(** ** Runs with accepted policies *)

Section runs.
Context `{Profile} `{Lib} `{RegexNew} `{HashOrder} `{PetgraphLaws} `{UriLib}.
Variable blake3 : DPPolicy -> string.
Variable ip_to_string : IpAddr -> string.

(** Policies made from declarations whose names are not those of builtins or
    services. *)
Definition accepted (msg : PolicyRequest) : Prop :=
  match msg with
  | SetPolicy ps => exists ds : list (Decl FlatLiteral), Policies.from_buf ds = Val ps /\
                      Forall (fun f => user_name (FT := FlatTyp) f = true) (declared ds)
  | _ => True
  end.

Lemma trivial_terminating (f : list string -> FnPolicies) p : terminating (Policy.trivial f p).
Proof. by exists (fun _ => 0). Qed.

Lemma run_terminating label timeout a :
  actor_run blake3 ip_to_string accepted (PolicyActor.create_policy label timeout) a ->
  terminating (http_policy (a_http a)) /\ terminating (tcp_policy (a_tcp a)).
Proof.
  induction 1 as [|a started msg _ [IHh IHt] Hm|names a from to _ [IHh IHt]|a a' _ IH Hn].
  - split; apply trivial_terminating.
  - destruct msg as [t|op|ps| |c|p| |[]|t]; simpl in *; try done.
    + unfold PolicyActor.handle_label_op. destruct (LabelOps.handle_label_op op _) as [n i].
      destruct (write_n_policies n (PolicyActor.with_identity a i) RequestFailed) as [-> ->]. done.
    + destruct Hm as (ds & Hds & Hn).
      destruct (Policies.policy ps TCP) as [pt|] eqn:Et, (Policies.policy ps HTTP) as [ph|] eqn:Eh; simpl;
        split; try done; by eapply from_buf_terminating.
    + case_bool_decide; [done|]. by destruct started.
    + case_bool_decide; [done|]. by destruct started.
    + by destruct (HttpPolicy.port _).
    + by destruct (TcpPolicy.port _).
  - by destruct (connection_state a from to) as [(c & n & ->)|[-> _]].
  - destruct (next_connection_cases a) as [[n Hc]|[Hc _]]; rewrite Hc in Hn; by simplify_eq.
Qed.
End runs.

(** ** Properties *)

(** C3: the proxies always answer: after any messages to the actor, as long
    as the policies that were installed come from accepted declarations none
    of which is named like a builtin or a service, a request gets a reply,
    whatever the actor handles in between, and a TCP connection is decided or
    the policy fails, and so is its end: evaluation ends.  The exceptions are
    panics, and these have one of the causes that are listed: a function with
    a number of arguments that the handler does not pass, a metadata header
    without a nonce, a clock that gives none, a panic of the policy itself
    and, with overflow checks, the counter of connections. *)
Theorem proxies_always_answer `{Profile} `{Lib} `{RegexNew} `{HashOrder} `{PetgraphLaws} `{UriLib} `{Aead} {Net : Type}
    regex_to_string network build_uri socket_to_string own_ip names lower request_from server blake3 ip_to_string
    (label : Label) (timeout : Z) (a a_req a_res : PolicyActor) (req : WebRequest) (config : HttpConfig)
    (src dst : SocketAddr) (msg : ConnectionStats) (net : Net) (o : Outside Net Uri) :
  Forall (actor_run blake3 ip_to_string accepted (PolicyActor.create_policy label timeout)) [a; a_req; a_res] ->
  exists fuel, forall k, fuel <= k ->
    answers (HttpProxy.request regex_to_string network build_uri socket_to_string own_ip names lower request_from server
               k a a_req a_res req config o).1
      (request_panics regex_to_string network k a a_req a_res req (o_net o)) /\
    (let r := ((get_tcp_policy regex_to_string network k a src dst).1 net).1 in
     (exists e, r = Fail e) \/ answers r (tcp_panics regex_to_string network k a src dst net)) /\
    answers (end_connection regex_to_string network k a msg net).1 (end_panics regex_to_string network k a msg net).
Proof.
  rewrite !Forall_cons. intros (Ha & Hq & Hs & _).
  destruct (run_terminating _ _ _ _ _ Ha) as [_ Hat].
  destruct (run_terminating _ _ _ _ _ Hq) as [Hqh _], (run_terminating _ _ _ _ _ Hs) as [Hsh _].
  destruct (settles_enough _ o (settles_request regex_to_string network build_uri socket_to_string own_ip names lower
    request_from server a a_req a_res req config Hqh Hsh)) as [n1 H1'].
  destruct (settles_enough _ net (settles_tcp regex_to_string network a src dst Hat)) as [n2 H2'].
  destruct (settles_enough _ net (settles_end regex_to_string network a msg Hat)) as [n3 H3'].
  exists (n1 + n2 + n3). intros k Hk.
  split_and!; [apply request_answers, H1'|apply tcp_answers, H2'|apply end_answers, H3']; lia.
Qed.

(** A policy whose function for requests gets the request, and looks at it:
    the request is answered by the server. *)
Definition request_decls : list (Decl FlatLiteral) := [bool_fn ALLOW_REST_REQUEST [("r", "HttpRequest")]].
Definition request_policies : Policies FlatTyp FlatLiteral :=
  Eval vm_compute in match test_policies request_decls with Val ps => ps | _ => [] end.

Lemma proxies_always_answer_witness :
  let a := run_actor [SetPolicy request_policies] in
  st_request (http_status (a_http a)) = Args 1 /\
  (test_proxy 20 a test_request (mkOutside 0 [])).1 = Val (Deliver 200 [] []) /\
  exists fuel, forall k, fuel <= k ->
    answers (test_proxy k a test_request (mkOutside 0 [])).1
      (@request_panics false test_lib test_aead test_uri nat (fun _ => "") test_network k a a a test_request 0).
Proof.
  intros a. split; [by vm_compute|]. split; [by vm_compute|].
  assert (Hrun : @actor_run test_uri false (fun _ => "") (fun _ => "")
    (@accepted test_lib test_regex_new test_hash_order test_petgraph) test_start a).
  { apply run_actor_ok. constructor; [|constructor]. exists request_decls.
    split; [vm_compute; reflexivity|repeat constructor]. }
  destruct (@proxies_always_answer false test_lib test_regex_new test_hash_order test_petgraph test_petgraph_laws
    test_uri test_aead nat (fun _ => "") test_network (fun _ host _ => Some (host, Some 80%Z)) (fun _ => "")
    (fun _ => false) [] (fun s => s) first_headers test_server (fun _ => "") (fun _ => "") [Str "proxy"] 5 a a a
    test_request (Port 8080) (mkSocketAddr (V4 1) 1) (mkSocketAddr (V4 2) 2)
    (mkStats 0 0 Connection.default) 0 (mkOutside 0 [])) as [n Hn]; [repeat (constructor; [exact Hrun|]); constructor|].
  exists n. intros k Hk. exact (proj1 (Hn k Hk)).
Defined.
