(* ===== verification/RestApi.v ===== *)
(** * The server of the control plane (src/src/armour-control/src/rest_api.rs)

    The handlers of the requests to the control plane, as computations over
    the database, the network of an evaluation, and the policies that were
    sent to hosts.  A handler answers with a response, or fails with an
    internal error that carries a message.  Requests are handled one after the
    other; [Handler] puts the routes of main.rs together. *)

From Stdlib Require Import ZArith Lia String Ascii List.
From stdpp Require Import base tactics list strings sets.
From S2P Require Import Prelude.
From S2P Require Import Ordered.
From S2P Require Import Strings.
From S2P Require Import Labels.
From S2P Require Import Syntax.
From S2P Require Import Types.
From S2P Require Import Net.
From S2P Require Import Literals.
From S2P Require Import FnHeaders.
From S2P Require Import Expressions.
From S2P Require Import Interpret.
From S2P Require Import Meta.
From S2P Require Import Eval.
From S2P Require Import Externals.
From S2P Require Import Lang.
From S2P Require Import Policies.
From S2P Require Import ControlLiterals.
From S2P Require Import Specialize.
From S2P Require Import ControlState.
From S2P Require Import ControlInterpret.

Local Open Scope string_scope.
Local Open Scope list_scope.

(** ** Responses *)

Section responses.
Context `{Serde}.

Inductive Json :=
| JService (service_id : Label)
| JPolicy (r : PolicyUpdateRequest)
| JGlobal (r : CPPolicyUpdateRequest)
| JOnboarding (r : OnboardingUpdateRequest)
| JSpecialization (policy : DPPolicies).

(** The statuses that the handlers answer with: 200 with a text, without a
    body, with JSON; 404 and 500 with a message. *)
Inductive Response :=
| OkBody (s : string)
| OkFinish
| OkJson (j : Json)
| NotFound (e : Error)
| InternalError (e : Error).

(** A request to update a policy, sent to a host. *)
Record Push := mkPush { push_url : string; push_label : Label; push_policy : DPPolicies }.

(** The requests that only the control plane answers. *)
Record SpecializationRequest := mkSpecialization {
  sr_service : Label; sr_proxy : Label; sr_host : Label; sr_policy : GlobalPolicies; sr_cpid : ID }.
End responses.

Definition eol : string := String (ascii_of_nat 10) "".

(** [url::Url] is ordered by its text. *)
#[export] Instance Url_ord `{Serde} : Ord Url := fun a b => cmp (url_to_string a) (url_to_string b).

(** Every document of a cursor that could be read, converted. *)
Fixpoint read_all {W A} (of_bson : Bson -> option A) (docs : list (option Bson)) : Comp W (list A) :=
  match docs with
  | [] => mret []
  | None :: docs' => read_all of_bson docs'
  | Some d :: docs' => a ← converted (of_bson d); l ← read_all of_bson docs'; mret (a :: l)
  end.

(** Delete the documents of a label and insert another one. *)
Definition replace_policy `{Mongo} (label : Label) (document : Bson) : Comp Db unit :=
  _ ← Col.delete_many POLICIES_COL [("label", Bson.of_label label)] "error removing old policies";
  Col.insert_one POLICIES_COL document "error inserting new policy".

(** The result of a computation as a value. *)
Definition caught {W A} (m : Comp W A) : Comp W (result A Error) := fun w =>
  match m w with
  | (Val a, w) => (Val (Ok a), w)
  | (Fail e, w) => (Val (Err e), w)
  | (Panic, w) => (Panic, w)
  | (OutOfFuel, w) => (OutOfFuel, w)
  end.

(** ** Hosts *)
Module host.
Section host.
Context `{Serde} `{Mongo}.

Definition on_board (request : OnboardHostRequest) : Comp Db Response :=
  let label := oh_label request in
  there ← Col.present HOSTS_COL [("label", Bson.of_label label)];
  if (there : bool) then
    mret (InternalError (mkError "host label {} already present" [Label.to_string label]))
  else
    match OnboardHostRequest.to_bson request with
    | BDocument _ as document =>
      _ ← Col.insert_one HOSTS_COL document "error inserting in MongoDB";
      mret (OkBody "success")
    | _ => mret (InternalError (error_new "error extracting document"))
    end.

Definition drop (request : OnboardHostRequest) : Comp Db Response :=
  match OnboardHostRequest.to_bson request with
  | BDocument document =>
    _ ← Col.delete_one HOSTS_COL document "error removing host from MongoDB";
    _ ← Col.delete_many SERVICES_COL [("label", Bson.of_label (oh_label request))] "error removing services from MongoDB";
    mret (OkBody "success")
  | _ => mret (InternalError (error_new "error extracting document"))
  end.

Definition list : Comp Db Response :=
  docs ← Col.find HOSTS_COL [] "error listing hosts";
  hs ← read_all OnboardHostRequest.of_bson docs;
  mret (OkBody (join "" (map (fun h =>
    Label.to_string (oh_label h) ^^ " (" ^^ url_to_string (oh_host h) ^^ ")" ^^ eol) hs))).
End host.
End host.

(** ** The world of the handlers *)

Record RestWorld (Push Net DB : Type) := mkRest { rs_cp : CPWorld Net DB; rs_pushed : list Push }.
Arguments mkRest {Push Net DB} rs_cp rs_pushed.
Arguments rs_cp {Push Net DB} r.
Arguments rs_pushed {Push Net DB} r.

Section rest.
Context `{Profile} `{Lib} `{Petgraph} `{Serde} `{Mongo} {Net : Type}.
Variable regex_to_string : PolicyRegex -> string.
Variable network : Z -> string -> string -> list Value -> Net -> result Reader Error * Net.
(** The fuel of evaluations and specialisations. *)
Variable fuel : nat.
Notation World := (CPWorld Net Db).
Notation Rest := (RestWorld Push Net Db).

Definition on_cp {A} (m : Comp World A) : Comp Rest A := fun w =>
  let '(r, cp) := m (rs_cp w) in (r, mkRest cp (rs_pushed w)).
Definition on_rest_db {A} (m : Comp Db A) : Comp Rest A := on_cp (on_db m).

(** [client.post(url).send_json(&req)]; the answer is only logged. *)
Definition send_json (url : string) (label : Label) (policy : DPPolicies) : Comp Rest unit := fun w =>
  (Val tt, mkRest (rs_cp w) (rs_pushed w ++ [mkPush url label policy])).

(** [OnboardingPolicy::default], compiled. *)
Definition default_onboarding_policy : GlobalPolicy :=
  mkPolicy
    (mkProgram
      [(ONBOARDING_SERVICES,
        Closure "od" (Expr.call "OnboardingResult::ErrStr"
          [LitExpr (Literal.str "Onboarding disabled by default, update the onboarding policy first.")]))]
      Externals.default
      [(ONBOARDING_SERVICES, ONBOARDING_SIG)]) [].

(** ** Services *)

Definition service_pattern : Label := [Str "Service"; RecAny ""].
Definition service_id_pattern : Label := [Str "ServiceID"; RecAny ""].

Definition get_onboarding_policy : Comp Db GlobalPolicy :=
  o ← Col.find_one POLICIES_COL [("label", Bson.of_label onboarding_policy_label)];
  match o with
  | Some doc =>
    request ← converted (CPPolicyUpdateRequest.of_bson doc);
    r ← lift (OnboardingUpdateRequest.unpack request);
    mret (ou_policy r)
  | None => mret default_onboarding_policy
  end.

Definition onboarding_data (request : OnboardServiceRequest) : OnboardingData :=
  mkOnboardingData (os_host request) (os_service request) (mkCredentials (os_credentials request))
    (match os_tmp_dpid request with Some x => port x | None => None end)
    (match os_tmp_dpid request with Some x => labels x | None => [] end)
    (match os_tmp_dpid request with Some x => ips x | None => [] end).

(** The requests to update the ingress and the egress policy of the service,
    or why it is refused. *)
Definition helper_on_board (request : OnboardServiceRequest)
    : Comp Rest (result (Label * PolicyUpdateRequest * PolicyUpdateRequest) Error) :=
  ob_policy ← on_rest_db get_onboarding_policy;
  r ← caught (on_cp (evaluate_onboarding regex_to_string network fuel ob_policy
                       (LitExpr (FlatLit (LOnboardingData (onboarding_data request))))));
  match r with
  | Ok (ObOk id (ingress, egress)) =>
    match ID.find_label id service_id_pattern with
    | Some service_id =>
      mret (Ok (service_id, mkPolicyUpdate service_id (pol ingress) [], mkPolicyUpdate service_id (pol egress) []))
    | None => fail (error_new "Extracting service_id from id labels")
    end
  | Ok (ObErr e _ _) => mret (Err (error_new e))
  | Err e => mret (Err e)
  end.

Definition save_policy (request : PolicyUpdateRequest) : Comp Db Response :=
  d ← converted (PolicyUpdateRequest.to_bson request);
  match d with
  | BDocument _ as document => _ ← replace_policy (pu_label request) document; mret OkFinish
  | _ => mret (InternalError (error_new "error inserting policy"))
  end.

Definition service_on_board (request : OnboardServiceRequest) : Comp Rest Response :=
  r ← helper_on_board request;
  match r with
  | Ok (service_id, ingress_req, egress_req) =>
    let merged_request := mkPolicyUpdate service_id
      (Policies.merge (pu_policy ingress_req) (pu_policy egress_req))
      (BTreeMap.collect (pu_labels ingress_req ++ pu_labels egress_req)) in
    _ ← on_rest_db (save_policy merged_request);
    mret (OkJson (JService service_id))
  | Err s => mret (InternalError s)
  end.

Definition service_drop (request : OnboardServiceRequest) : Comp Db Response :=
  match os_tmp_dpid request with
  | Some dpid =>
    match ID.find_label dpid service_id_pattern with
    | Some service =>
      _ ← Col.delete_one SERVICES_COL [("service", BString (Label.to_string service))] "error inserting in MongoDB";
      mret (OkBody "success")
    | None => mret (InternalError (error_new "error no global id provided"))
    end
  | None => mret (InternalError (error_new "error no global id provided"))
  end.

Definition service_list : Comp Db Response :=
  docs ← Col.find SERVICES_COL [] "error listing services";
  ss ← read_all OnboardServiceRequest.of_bson docs;
  mret (OkBody (join "" (map (fun s =>
    Label.to_string (os_service s) ^^ " (" ^^ Label.to_string (os_host s) ^^ ")" ^^ eol) ss))).

(** ** Policies *)

(** The labels that have a policy. *)
Definition services : Comp Db (BTreeSet Label) :=
  docs ← Col.find POLICIES_COL [] "error finding services";
  rs ← read_all PolicyUpdateRequest.of_bson docs;
  mret (BTreeSet.extend [] (map pu_label rs)).

Definition services_full : Comp Db (list POnboardServiceRequest) :=
  docs ← Col.find SERVICES_COL [] "error finding services";
  read_all POnboardServiceRequest.of_bson docs.

(** [Label::from_str(pattern).unwrap().match_with(l).unwrap().get_label(x).unwrap()] *)
Definition bound_label (pattern : Label) (x : string) (l : Label) : Outcome Label :=
  m ← unwrap (Label.match_with pattern l); unwrap (Match.get_label m x).

Fixpoint hosts_of (docs : list (option Bson)) (hosts : BTreeSet Url) : Comp Db (BTreeSet Url) :=
  match docs with
  | [] => mret hosts
  | None :: docs' => hosts_of docs' hosts
  | Some doc :: docs' =>
    request ← converted (OnboardServiceRequest.of_bson doc);
    host ← lift (bound_label [Str "Host"; RecAny "host"] "host" (os_host request));
    o ← Col.find_one HOSTS_COL [("label", Bson.of_label host)];
    match o with
    | Some doc =>
      h ← converted (OnboardHostRequest.of_bson doc);
      hosts_of docs' (BTreeSet.insert (oh_host h) hosts)
    | None => hosts_of docs' hosts
    end
  end.
Definition hosts (label : Label) : Comp Db (BTreeSet Url) :=
  docs ← Col.find SERVICES_COL [("service", Bson.of_label label)] "error notifying hosts";
  hosts_of docs [].

Fixpoint push_all (hosts : list Url) (local_label : Label) (policy : DPPolicies) : Comp Rest unit :=
  match hosts with
  | [] => mret tt
  | host :: hosts' =>
    _ ← match url_host_str host with
        | Some host_str =>
          send_json ("https://" ^^ host_str ^^ ":" ^^ i64_to_string (default 8090%Z (url_port host)) ^^ "/policy/update")
            local_label policy
        | None => mret tt
        end;
    push_all hosts' local_label policy
  end.

Definition update_hosts (label local_label : Label) (policy : DPPolicies) : Comp Rest unit :=
  hs ← on_rest_db (hosts label); push_all hs local_label policy.

(** What the list of policies says of one; a decision on ingress is repeated. *)
Definition describe (p : DPPolicies) : string :=
  if Policies.is_allow_all p then "(allow all)"
  else if Policies.is_deny_all p then "(deny all)"
  else
    (if Policies.is_allow_egress p then "(allow egress)" else "") ^^
    (if Policies.is_allow_ingress p then "(allow ingress)" else "") ^^
    (if Policies.is_deny_ingress p then "(deny ingress)" else "") ^^
    (if Policies.is_deny_ingress p then "(deny ingress)" else "").

Definition policy_list : Comp Db Response :=
  docs ← Col.find POLICIES_COL [] "error listing policies";
  ps ← read_all PolicyUpdateRequest.of_bson docs;
  mret (OkBody (join "" (map (fun p => Label.to_string (pu_label p) ^^ describe (pu_policy p) ^^ eol) ps))).

Definition helper_update (local_label : Label) (request : PolicyUpdateRequest) : Comp Rest Response :=
  d ← converted (PolicyUpdateRequest.to_bson request);
  match d with
  | BDocument _ as document =>
    _ ← on_rest_db (replace_policy (pu_label request) document);
    _ ← update_hosts (pu_label request) local_label (pu_policy request);
    mret OkFinish
  | _ => mret (InternalError (error_new "error inserting policy"))
  end.

Definition get_local_service_label (label : Label) : Comp Db Label :=
  o ← Col.find_one_on_err SERVICES_COL [("service", Bson.of_label label)] "error finding services";
  match o with
  | Some doc =>
    service ← converted (POnboardServiceRequest.of_bson doc);
    match ID.find_label (ps_service_id service) service_pattern with
    | Some local_label =>
      lift (bound_label [Str "Service"; RecAny "service"] "service" local_label)
    | None =>
      fail (mkError "get_local_service_label failed for {}: no local id specified" [Label.to_string label])
    end
  | None => fail (mkError "get_local_service_label failed for {}: no related service in DB" [Label.to_string label])
  end.

Definition egress_functions : list string := [ALLOW_REST_REQUEST; ALLOW_TCP_CONNECTION].
Definition ingress_functions : list string := [ALLOW_REST_RESPONSE; ON_TCP_DISCONNECT].

(** Compile a global policy for each function and merge the results. *)
Fixpoint compile_all (f_egress : bool) (functions : list string) (global_policy : GlobalPolicies) (service_id : ID)
    (local_pol : option DPPolicies) : Comp Rest (option DPPolicies) :=
  match functions with
  | [] => mret local_pol
  | function :: functions' =>
    tmp ← on_cp (cp_compile regex_to_string network fuel f_egress global_policy function service_id);
    compile_all f_egress functions' global_policy service_id
      (Some (match local_pol with None => tmp | Some pol => Policies.merge pol tmp end))
  end.

(** The policy of a selected service is compiled, saved and sent. *)
Definition update_service (global_policy : GlobalPolicies) (labels : LabelMap) (service : POnboardServiceRequest)
    : Comp Rest (option Response) :=
  local_label ← on_rest_db (get_local_service_label (ps_service service));
  local_pol ← compile_all true egress_functions global_policy (ps_service_id service) None;
  local_pol ← compile_all false ingress_functions global_policy (ps_service_id service) local_pol;
  match local_pol with
  | None => mret (Some (InternalError (error_new "error updating policy of selected services")))
  | Some local_pol =>
    _ ← helper_update local_label (mkPolicyUpdate (ps_service service) local_pol labels);
    mret None
  end.

Fixpoint update_services (global_policy : GlobalPolicies) (labels : LabelMap) (services : list POnboardServiceRequest)
    : Comp Rest Response :=
  match services with
  | [] => mret OkFinish
  | service :: services' =>
    r ← update_service global_policy labels service;
    match r with Some r => mret r | None => update_services global_policy labels services' end
  end.

Definition update_global (request : CPPolicyUpdateRequest) : Comp Rest Response :=
  let request := mkCPPolicyUpdate global_policy_label (cu_policy request) (cu_labels request) (cu_selector request) in
  d ← converted (CPPolicyUpdateRequest.to_bson request);
  match d with
  | BDocument _ as document =>
    _ ← on_rest_db (replace_policy (cu_label request) document);
    let selector := default service_id_pattern (cu_selector request) in
    all ← on_rest_db services_full;
    update_services (cu_policy request) (cu_labels request)
      (filter (fun service => ID.has_label (ps_service_id service) selector = true) all)
  | _ => mret (InternalError (error_new "error inserting policy"))
  end.

Definition update_onboarding (request : OnboardingUpdateRequest) : Comp Db Response :=
  let request := OnboardingUpdateRequest.pack request in
  let request := mkCPPolicyUpdate onboarding_policy_label (cu_policy request) (cu_labels request) (cu_selector request) in
  d ← converted (CPPolicyUpdateRequest.to_bson request);
  match d with
  | BDocument _ as document => _ ← replace_policy (cu_label request) document; mret OkFinish
  | _ => mret (InternalError (error_new "error inserting policy"))
  end.

Definition update (request : PolicyUpdateRequest) : Comp Rest Response :=
  local_label ← on_rest_db (get_local_service_label (pu_label request));
  helper_update local_label request.

Definition no_policy (label : Label) : Response := NotFound (mkError "no policy for {}" [Label.to_string label]).

Definition query (label : Label) : Comp Db Response :=
  o ← Col.find_one POLICIES_COL [("label", BString (Label.to_string label))];
  match o with
  | Some doc => current ← converted (PolicyUpdateRequest.of_bson doc); mret (OkJson (JPolicy current))
  | None => mret (no_policy label)
  end.

Definition query_global (label : Label) : Comp Db Response :=
  o ← Col.find_one POLICIES_COL [("label", BString (Label.to_string label))];
  match o with
  | Some doc => current ← converted (CPPolicyUpdateRequest.of_bson doc); mret (OkJson (JGlobal current))
  | None => mret (no_policy label)
  end.

Definition query_onboarding : Comp Db Response :=
  p ← get_onboarding_policy;
  mret (OkJson (JOnboarding (mkOnboardingUpdate onboarding_policy_label p []))).

Definition policy_drop (label : Label) : Comp Rest Response :=
  n ← on_rest_db (Col.delete_one POLICIES_COL [("label", BString (Label.to_string label))] "failed to drop policy");
  local_label ← on_rest_db (get_local_service_label label);
  _ ← update_hosts label local_label Policies.deny_all;
  mret (OkBody ("dropped " ^^ i64_to_string n)).

Fixpoint deny_services (services : list Label) : Comp Rest unit :=
  match services with
  | [] => mret tt
  | label :: services' =>
    local_label ← on_rest_db (get_local_service_label label);
    _ ← update_hosts label local_label Policies.deny_all;
    deny_services services'
  end.

Definition drop_all : Comp Rest Response :=
  ss ← on_rest_db services;
  dropped ← on_rest_db (Col.drop POLICIES_COL);
  _ ← if (dropped : bool) then deny_services ss else mret tt;
  mret (OkBody "dropped all policies").

Definition specialize (request : SpecializationRequest) : Comp Rest Response :=
  let global_label := Label.prefix (Label.concat (sr_host request) (sr_proxy request)) "ServiceID" in
  let global_id := ID.add_label (sr_cpid request) global_label in
  pol ← compile_all true egress_functions (sr_policy request) global_id (Some Policies.new);
  pol ← compile_all false ingress_functions (sr_policy request) global_id pol;
  mret (OkJson (JSpecialization (default Policies.new pol))).

(** ** The routes (main.rs) *)

Inductive Handler :=
| HostList | HostOnBoard (r : OnboardHostRequest) | HostDrop (r : OnboardHostRequest)
| ServiceList | ServiceOnBoard (r : OnboardServiceRequest) | ServiceDrop (r : OnboardServiceRequest)
| PolicyList | PolicyUpdate (r : PolicyUpdateRequest) | PolicyUpdateOnboarding (r : OnboardingUpdateRequest)
| PolicyUpdateGlobal (r : CPPolicyUpdateRequest) | PolicyQuery (label : Label) | PolicyQueryOnboarding
| PolicyQueryGlobal (label : Label) | PolicyDrop (label : Label) | PolicyDropAll
| PolicySpecialize (r : SpecializationRequest).

Definition handle (h : Handler) : Comp Rest Response :=
  match h with
  | HostList => on_rest_db host.list
  | HostOnBoard r => on_rest_db (host.on_board r)
  | HostDrop r => on_rest_db (host.drop r)
  | ServiceList => on_rest_db service_list
  | ServiceOnBoard r => service_on_board r
  | ServiceDrop r => on_rest_db (service_drop r)
  | PolicyList => on_rest_db policy_list
  | PolicyUpdate r => update r
  | PolicyUpdateOnboarding r => on_rest_db (update_onboarding r)
  | PolicyUpdateGlobal r => update_global r
  | PolicyQuery l => on_rest_db (query l)
  | PolicyQueryOnboarding => on_rest_db query_onboarding
  | PolicyQueryGlobal l => on_rest_db (query_global l)
  | PolicyDrop l => policy_drop l
  | PolicyDropAll => drop_all
  | PolicySpecialize r => specialize r
  end.
End rest.
