(* ===== verification/ControlEffects.v ===== *)
(** * Invariants of the control plane under evaluation

    A logic of computations: [triple I P m Q] says that from a state with [P],
    [m] ends in a state with [Q] when it returns, and with the invariant [I]
    when it does not.  Evaluation and specialisation [keep] every invariant
    that the calls they make keep. *)

From Stdlib Require Import ZArith Lia String Ascii List.
From stdpp Require Import base tactics list strings sets.
From S2P Require Import Prelude.
From S2P Require Import Ordered.
From S2P Require Import Strings.
From S2P Require Import Labels.
From S2P Require Import Syntax.
From S2P Require Import Types.
From S2P Require Import Net.
From S2P Require Import Literals.
From S2P Require Import FnHeaders.
From S2P Require Import Expressions.
From S2P Require Import Interpret.
From S2P Require Import Meta.
From S2P Require Import Eval.
From S2P Require Import Externals.
From S2P Require Import Lang.
From S2P Require Import Policies.
From S2P Require Import ControlLiterals.
From S2P Require Import Specialize.
From S2P Require Import ControlState.
From S2P Require Import ControlInterpret.

Local Open Scope string_scope.
Local Open Scope list_scope.

(** ** Rules *)
Section rules.
Context {W : Type} (I : W -> Prop).

Definition triple {A} (P : W -> Prop) (m : Comp W A) (Q : A -> W -> Prop) : Prop :=
  forall w, P w -> match m w with (Val a, w') => Q a w' | (_, w') => I w' end.
Definition keeps {A} (m : Comp W A) : Prop := triple I m (fun _ => I).

Lemma triple_bind {A B} P (m : Comp W A) Q (f : A -> Comp W B) Q' :
  triple P m Q -> (forall a, triple (Q a) (f a) Q') -> triple P (m ≫= f) Q'.
Proof.
  intros Hm Hf w Hw. unfold mbind, Comp_bind. specialize (Hm w Hw).
  destruct (m w) as [[a| | |] w1]; try done. by apply Hf.
Qed.
Lemma triple_ret {A} (P : W -> Prop) (a : A) (Q : A -> W -> Prop) : (forall w, P w -> Q a w) -> triple P (mret a) Q.
Proof. intros HQ w Hw. by apply HQ. Qed.
Lemma triple_fail {A} (P : W -> Prop) e (Q : A -> W -> Prop) : (forall w, P w -> I w) -> triple P (fail e) Q.
Proof. intros HQ w Hw. by apply HQ. Qed.
Lemma triple_lift {A} (P : W -> Prop) (o : Outcome A) Q :
  (forall w, P w -> I w) -> (forall a w, o = Val a -> P w -> Q a w) -> triple P (lift o) Q.
Proof. intros HI HQ w Hw. unfold lift. destruct o; simpl; auto. Qed.
Lemma triple_conseq {A} (P P' : W -> Prop) (m : Comp W A) Q Q' :
  triple P' m Q' -> (forall w, P w -> P' w) -> (forall a w, Q' a w -> Q a w) -> triple P m Q.
Proof. intros Hm HP HQ w Hw. specialize (Hm w (HP w Hw)). destruct (m w) as [[]]; auto. Qed.
Lemma triple_keeps {A} (P : W -> Prop) (m : Comp W A) : keeps m -> (forall w, P w -> I w) -> triple P m (fun _ => I).
Proof. intros Hm HP. by eapply triple_conseq. Qed.

Lemma keeps_bind {A B} (m : Comp W A) (f : A -> Comp W B) : keeps m -> (forall a, keeps (f a)) -> keeps (m ≫= f).
Proof. intros Hm Hf. by eapply triple_bind. Qed.
Lemma keeps_ret {A} (a : A) : keeps (mret a).
Proof. by apply triple_ret. Qed.
Lemma keeps_fail {A} e : keeps (fail e : Comp W A).
Proof. by apply triple_fail. Qed.
Lemma keeps_lift {A} (o : Outcome A) : keeps (lift o).
Proof. by apply triple_lift. Qed.
Lemma keeps_panic {A} : keeps (panic : Comp W A).
Proof. by intros w. Qed.
Lemma keeps_out_of_fuel {A} : keeps (out_of_fuel : Comp W A).
Proof. by intros w. Qed.
Lemma keeps_state {A} (m : Comp W A) w : keeps m -> I w -> I (m w).2.
Proof. intros Hm Hw. specialize (Hm w Hw). by destruct (m w) as [[]]. Qed.
Lemma state_keeps {A} (m : Comp W A) : (forall w, I w -> I (m w).2) -> keeps m.
Proof. intros Hm w Hw. specialize (Hm w Hw). by destruct (m w) as [[]]. Qed.
End rules.

Create HintDb keeps.
#[export] Hint Resolve keeps_ret keeps_fail keeps_lift keeps_panic keeps_out_of_fuel : keeps.

(** Follow a computation through its steps and cases. *)
Ltac keep_step :=
  match goal with
  | |- keeps _ (_ ≫= _) => apply keeps_bind; [|intros ?]
  | |- keeps _ (match ?x with _ => _ end) => destruct x
  | |- keeps _ (let '_ := ?x in _) => destruct x
  end.
Ltac keep := repeat first [ solve [eauto 2 with keeps] | progress cbv beta zeta | keep_step ].

(** ** Evaluation *)
Section eval.
Context {FT FL W : Type} `{TFlatTyp FT} `{TFlatLiteral FT FL} `{TBuiltin FT} `{Interp FL W}.
Variable I : W -> Prop.
Variable internal : BTreeMap string (Expr FL).
Hypothesis builtin_keeps : forall f args, keeps I (run_builtin f args).
Hypothesis meta_keeps : forall c, keeps I (run_meta c).
Hypothesis external_keeps : forall c, keeps I (run_external c).
Hypothesis spawn_keeps : forall c, keeps I (spawn_external c).

Section ev.
Variable ev : Expr FL -> Comp W (Expr FL).
Hypothesis Hev : forall e, keeps I (ev e).

Lemma eval_list_keeps es : keeps I (Eval.eval_list ev es).
Proof. induction es; simpl; keep. Qed.
Lemma iter_loop_keeps vs body lits acc res : keeps I (Eval.iter_loop ev vs body lits acc res).
Proof. revert acc res. induction lits as [|l lits IH]; intros acc res; simpl; keep. Qed.
Lemma match_loop_keeps ms : keeps I (Eval.match_loop ev ms).
Proof. induction ms as [|[e p] ms IH]; simpl; keep. Qed.
Lemma iter_result_keeps op lits acc res : keeps I (Eval.iter_result op lits acc res).
Proof. unfold Eval.iter_result, Eval.ok, Eval.err. keep. Qed.
Lemma call_service_keeps f args b : keeps I (Eval.call_service f args b).
Proof. unfold Eval.call_service, Eval.ok. keep. Qed.
Hint Resolve eval_list_keeps iter_loop_keeps match_loop_keeps iter_result_keeps call_service_keeps : keeps.

Lemma eval_with_keeps e : keeps I (Eval.eval_with internal ev e).
Proof.
  destruct e; cbn [Eval.eval_with];
    unfold Eval.some_or, Eval.ok, Eval.err, Eval.alternative_or_unit, Eval.value_only; keep.
Qed.
End ev.

Lemma eval_keeps n e : keeps I (Eval.eval internal n e).
Proof. revert e. induction n as [|n IH]; intros e; [apply keeps_out_of_fuel|]. by apply eval_with_keeps. Qed.
Lemma evaluate_keeps n e : keeps I (Eval.evaluate internal n e).
Proof. apply keeps_bind; [apply eval_keeps|]. intros r. apply keeps_ret. Qed.
End eval.

(** ** Partial evaluation and specialisation *)
Section peval.
Context {W : Type} `{Profile} `{Interp CPFlatLiteral W} `{Petgraph}.
Variable I : W -> Prop.
Hypothesis builtin_keeps : forall f args, keeps I (run_builtin f args).

Section pe.
Variable internal : Code CPFlatLiteral.
Variable pe : bool -> CPExpr -> Comp W (bool * CPExpr).
Hypothesis Hpe : forall so e, keeps I (pe so e).

Lemma peval_list_keeps so es : keeps I (PEval.peval_list pe so es).
Proof. induction es; simpl; keep. Qed.
Lemma peval_opt_keeps so o : keeps I (PEval.peval_opt pe so o).
Proof. unfold PEval.peval_opt. keep. Qed.
Lemma peval_iter_loop_keeps so vs body lits acc res : keeps I (PEval.iter_loop pe so vs body lits acc res).
Proof. revert acc res. induction lits as [|l lits IH]; intros acc res; simpl; unfold PEval.apply; keep. Qed.
Lemma peval_match_loop_keeps so ms flag : keeps I (PEval.match_loop pe so ms flag).
Proof. revert flag. induction ms as [|[e p] ms IH]; intros flag; simpl; unfold PEval.err; keep. Qed.
Lemma peval_iter_final_keeps op lits rest : keeps I (PEval.iter_final op lits rest).
Proof. unfold PEval.iter_final. keep. Qed.
Hint Resolve peval_list_keeps peval_opt_keeps peval_iter_loop_keeps peval_match_loop_keeps
  peval_iter_final_keeps : keeps.
Lemma peval_iter_result_keeps op vs e2 lits acc res : keeps I (PEval.iter_result op vs e2 lits acc res).
Proof. unfold PEval.iter_result. keep. Qed.
Hint Resolve peval_iter_result_keeps : keeps.

Lemma peval_with_keeps so e : keeps I (PEval.peval_with internal pe so e).
Proof.
  destruct e; cbn [PEval.peval_with];
    unfold PEval.peval_infix, PEval.peval_block, PEval.peval_let, PEval.peval_iter, PEval.peval_if,
      PEval.peval_if_some, PEval.peval_if_match, PEval.peval_call, PEval.value_only, PEval.apply, PEval.err; keep.
Qed.
End pe.

Lemma peval_keeps internal n so e : keeps I (PEval.peval internal n so e).
Proof.
  revert so e. induction n as [|n IH]; intros so e; [apply keeps_out_of_fuel|]. by apply peval_with_keeps.
Qed.
Hint Resolve peval_keeps : keeps.

Lemma compile_function_keeps fuel f_egress pol function to fexpr :
  keeps I (Compile.compile_function fuel f_egress pol function to fexpr).
Proof. unfold Compile.compile_function, PEval.pevaluate. keep. Qed.
Lemma compile_protocols_keeps fuel f_egress pols function to new :
  keeps I (Compile.compile_protocols fuel f_egress pols function to new).
Proof.
  revert new. induction pols as [|[proto pol] pols IH]; intros new; simpl; [keep|].
  destruct (BTreeMap.get _ _); [|apply IH]. apply keeps_bind; [apply compile_function_keeps|auto].
Qed.
Lemma compile_keeps fuel f_egress gp function to :
  keeps I (Compile.compile_egress_ingress fuel f_egress gp function to).
Proof. apply keeps_bind; [apply compile_protocols_keeps|intros ?; apply keeps_lift]. Qed.
End peval.

(** ** The builtins of the control plane *)
Section control.
Context `{Profile} `{Lib} `{Petgraph} `{Serde} `{Mongo} {Net : Type}.
Variable regex_to_string : PolicyRegex -> string.
Variable network : Z -> string -> string -> list Value -> Net -> result Reader Error * Net.
Notation World := (CPWorld Net Db).
(** An invariant of the database that the onboarding of an identity keeps. *)
Variable I : Db -> Prop.
Definition cp_inv (w : World) : Prop := I (cw_db w).

Lemma on_db_triple {A} P (m : Comp Db A) Q :
  triple I P m Q -> triple cp_inv (fun w => P (cw_db w)) (on_db (Net := Net) m) (fun a w => Q a (cw_db w)).
Proof.
  intros Hm w Hw. unfold on_db. specialize (Hm _ Hw). by destruct (m (cw_db w)) as [[] ?].
Qed.
Lemma on_db_keeps {A} (m : Comp Db A) : keeps I m -> keeps cp_inv (on_db m).
Proof. apply on_db_triple. Qed.

Hypothesis find_one_keeps : forall col f, keeps I (Col.find_one col f).
Hypothesis onboard_keeps : forall i, keeps I (helper_onboard i).

Lemma get_global_pol_keeps : keeps I get_global_pol.
Proof. unfold get_global_pol, converted. keep. Qed.
Lemma helper_onboarded_keeps obd : keeps I (helper_onboarded obd).
Proof. unfold helper_onboarded, converted. keep. Qed.
Hint Resolve on_db_keeps get_global_pol_keeps helper_onboarded_keeps : keeps.

Lemma some_lit_keeps (m : Comp World CPLiteral) : keeps cp_inv m -> keeps cp_inv (some_lit m).
Proof. intros Hm. unfold some_lit. keep. Qed.
Hint Resolve some_lit_keeps : keeps.

Lemma seval_call1_keeps self f : keeps cp_inv (seval_call1 self f).
Proof. unfold seval_call1. keep; eauto 6 with keeps. Qed.

Section call.
Variable builtin : string -> list CPExpr -> Comp World CPExpr.
Hypothesis Hb : forall f args, keeps cp_inv (builtin f args).
Lemma helper_compile_keeps fuel f_egress function i : keeps cp_inv (helper_compile regex_to_string network builtin fuel f_egress function i).
Proof.
  unfold helper_compile. apply keeps_bind; [apply on_db_keeps, get_global_pol_keeps|]. intros g.
  apply keeps_bind; [by apply (compile_keeps (H0 := interp_of regex_to_string network builtin))|]. intros p. apply keeps_ret.
Qed.
Lemma eval_call_with_keeps fuel f args : keeps cp_inv (eval_call_with regex_to_string network builtin fuel f args).
Proof.
  unfold eval_call_with, seval_call2, helper_compile_egress, helper_compile_ingress.
  pose proof helper_compile_keeps. pose proof seval_call1_keeps. keep; eauto 6 with keeps.
Qed.
End call.

Lemma eval_call_keeps fuel f args : keeps cp_inv (eval_call regex_to_string network fuel f args).
Proof.
  revert f args. induction fuel as [|n IH]; intros f args; apply eval_call_with_keeps; [|exact IH].
  intros. apply keeps_out_of_fuel.
Qed.

(** What does not touch the database. *)
Lemma same_db_keeps {A} (m : Comp World A) : (forall w, cw_db (m w).2 = cw_db w) -> keeps cp_inv m.
Proof. intros Hm. apply state_keeps. intros w Hw. unfold cp_inv. by rewrite Hm. Qed.

Lemma cp_evaluate_keeps internal fuel n e :
  keeps cp_inv (Eval.evaluate (H2 := CP_Interp regex_to_string network fuel) internal n e).
Proof.
  apply evaluate_keeps.
  - apply eval_call_keeps.
  - intros c. apply same_db_keeps. intros w. simpl. unfold meta_send. by destruct (IngressEgress.handle _ _).
  - intros c. apply same_db_keeps. intros w. simpl. unfold external_send. by destruct (CPExternals.call _ _ _ _ _).
  - intros c. by apply same_db_keeps.
Qed.

Lemma evaluate_onboarding_keeps fuel p data : keeps cp_inv (evaluate_onboarding regex_to_string network fuel p data).
Proof.
  unfold evaluate_onboarding. apply keeps_bind.
  - intros w Hw. unfold in_env. set (w0 := mkCPWorld _ _ _ _ _).
    pose proof (cp_evaluate_keeps (code (pol_program p)) fuel fuel (Expr.call ONBOARDING_SERVICES [data]) w0 Hw) as Hk.
    by destruct (Eval.evaluate _ _ _ w0) as [[] ?].
  - intros r. keep.
Qed.

Lemma cp_compile_keeps fuel f_egress gp function i :
  keeps cp_inv (cp_compile regex_to_string network fuel f_egress gp function i).
Proof. apply (compile_keeps (H0 := CP_Interp regex_to_string network fuel)). apply eval_call_keeps. Qed.
End control.
