(* ===== verification/RestTheory.v ===== *)
(** * What the server of the control plane does to the database

    The database behaves as [ControlState.MongoModel] says.  Every handler
    keeps the collections in order: documents are requests, no label has two
    hosts or two policies.  As a consequence no policy ever reaches a host:
    services are stored without the field that the search for hosts reads.
    The theorems on single requests: a saved policy is found again, services
    are refused as long as there is no onboarding policy, a service can be
    onboarded again and again. *)

From Stdlib Require Import ZArith Lia String Ascii List.
From stdpp Require Import base tactics list strings sets.
From S2P Require Import Prelude.
From S2P Require Import Ordered.
From S2P Require Import Strings.
From S2P Require Import Labels.
From S2P Require Import Syntax.
From S2P Require Import Types.
From S2P Require Import Net.
From S2P Require Import Literals.
From S2P Require Import FnHeaders.
From S2P Require Import Expressions.
From S2P Require Import Interpret.
From S2P Require Import Meta.
From S2P Require Import Eval.
From S2P Require Import Externals.
From S2P Require Import Lang.
From S2P Require Import Policies.
From S2P Require Import ControlLiterals.
From S2P Require Import Specialize.
From S2P Require Import ControlState.
From S2P Require Import StateTheory.
From S2P Require Import ControlInterpret.
From S2P Require Import Nom.
From S2P Require Import Lexer.
From S2P Require Import Parser.
From S2P Require Import ParserTheory.
From S2P Require Import Unparse.
From S2P Require Import Operators.
From S2P Require Import TypeCheck.
From S2P Require Import TypeCheckTheory.
From S2P Require Import Graphs.
From S2P Require Import DataPlane.
From S2P Require Import Linking.
From S2P Require Import Source.
From S2P Require Import RestApi.
From S2P Require Import ControlEffects.
From S2P Require Import Pure.

Local Open Scope string_scope.
Local Open Scope list_scope.

(** ** What is stored *)
Section stored.
Context `{Serde}.

Definition stored_policy (d : Bson) : Prop :=
  (exists r, PolicyUpdateRequest.to_bson r = Some d) \/
  (exists r, CPPolicyUpdateRequest.to_bson r = Some d /\
     (cu_label r = global_policy_label \/ cu_label r = onboarding_policy_label)).
Definition stored (col : string) (d : Bson) : Prop :=
  (col = HOSTS_COL -> exists r, d = OnboardHostRequest.to_bson r) /\
  (col = SERVICES_COL -> exists r, d = POnboardServiceRequest.to_bson r) /\
  (col = POLICIES_COL -> stored_policy d).

(** Labels are unique among hosts and among policies. *)
Definition coll_ok (col : string) (docs : list Bson) : Prop :=
  Forall (stored col) docs /\
  (col = HOSTS_COL \/ col = POLICIES_COL -> NoDup (map (Bson.field "label") docs)).

Lemma stored_label col d : stored col d -> col = HOSTS_COL \/ col = POLICIES_COL ->
  exists l, Bson.field "label" d = Some (Bson.of_label l).
Proof.
  intros (Hh & _ & Hp) [->| ->].
  - destruct (Hh eq_refl) as [r ->]. by eexists.
  - destruct (Hp eq_refl) as [[r Hr]|(r & Hr & _)].
    + unfold PolicyUpdateRequest.to_bson in Hr. case_match; simplify_eq. by eexists.
    + unfold CPPolicyUpdateRequest.to_bson in Hr. case_match; simplify_eq. by eexists.
Qed.

Lemma coll_ok_perm col docs docs' : docs' ≡ₚ docs -> coll_ok col docs -> coll_ok col docs'.
Proof. intros Hp [Hs Hn]. split; [by rewrite Hp|]. intros Hc. rewrite Hp. auto. Qed.
Lemma coll_ok_remove col docs ds docs' : docs ≡ₚ ds ++ docs' -> coll_ok col docs -> coll_ok col docs'.
Proof.
  intros Hp [Hs Hn]. rewrite Hp in Hs. apply Forall_app in Hs as [_ Hs]. split; [done|].
  intros Hc. specialize (Hn Hc). rewrite Hp, map_app in Hn. by apply NoDup_app in Hn as (_ & _ & Hn).
Qed.
Lemma coll_ok_insert col d docs : stored col d ->
  (col = HOSTS_COL \/ col = POLICIES_COL -> Forall (fun d' => Bson.field "label" d' <> Bson.field "label" d) docs) ->
  coll_ok col docs -> coll_ok col (d :: docs).
Proof.
  intros Hd Hl [Hs Hn]. split; [by constructor|]. intros Hc. specialize (Hl Hc). simpl. constructor; [|auto].
  intros (d' & Heq & Hin%list_elem_of_In)%list_elem_of_In%in_map_iff.
  rewrite Forall_forall in Hl. by apply (Hl _ Hin).
Qed.
End stored.

(** ** Operations keep the collections in order *)
Section keep.
Context `{Serde} `{MongoModel}.

Definition db_ok (db : Db) : Prop := forall col, coll_ok col (db_docs col db).
Notation matches f := (fun d => doc_matches f d = true).

Lemma db_ok_same db db' : (forall c, db_docs c db' ≡ₚ db_docs c db) -> db_ok db -> db_ok db'.
Proof. intros Hs Hok c. exact (coll_ok_perm _ _ _ (Hs c) (Hok c)). Qed.
Lemma db_ok_update col db db' : (forall c, c <> col -> db_docs c db' ≡ₚ db_docs c db) ->
  coll_ok col (db_docs col db') -> db_ok db -> db_ok db'.
Proof.
  intros Hs Hc Hok c. destruct (decide (c = col)) as [->|]; [done|]. by eapply coll_ok_perm; [apply Hs|].
Qed.

Lemma find_triple col f msg :
  triple db_ok db_ok (Col.find col f msg) (fun rs db => db_ok db /\ exists ds, ds ≡ₚ filter (matches f) (db_docs col db) /\
       Forall2 (fun r d => r = Some d \/ r = None) rs ds).
Proof.
  intros db Hok. unfold Col.find. destruct (db_find col f db) as [[ds|] db'] eqn:E;
    destruct (find_spec _ _ _ _ _ E) as [Hs Hds]; [|by eapply db_ok_same; eauto].
  split; [by eapply db_ok_same; eauto|]. destruct (Hds ds eq_refl) as (ds' & Hp & Hr). exists ds'.
  by rewrite (Hs col).
Qed.
Lemma find_one_triple col f :
  triple db_ok db_ok (Col.find_one col f)
    (fun o db => db_ok db /\ match o with Some d => d ∈ db_docs col db /\ doc_matches f d = true | None => True end).
Proof.
  intros db Hok. unfold Col.find_one. destruct (db_find_one col f db) as [[[d|]|] db'] eqn:E;
    destruct (find_one_spec _ _ _ _ _ E) as (Hs & Hd & _); (split; [by eapply db_ok_same; eauto|]); try done.
  destruct (Hd d eq_refl) as [Hin Hm]. by rewrite (Hs col).
Qed.
Lemma find_one_on_err_keeps col f msg : keeps db_ok (Col.find_one_on_err col f msg).
Proof.
  intros db Hok. unfold Col.find_one_on_err. destruct (db_find_one col f db) as [[o|] db'] eqn:E;
    destruct (find_one_spec _ _ _ _ _ E) as (Hs & _); by eapply db_ok_same; eauto.
Qed.
Lemma find_keeps col f msg : keeps db_ok (Col.find col f msg).
Proof. eapply triple_conseq; [apply find_triple|done|]. by intros ds db [? _]. Qed.
Lemma find_one_keeps col f : keeps db_ok (Col.find_one col f).
Proof. eapply triple_conseq; [apply find_one_triple|done|]. by intros ds db [? _]. Qed.

Lemma insert_triple col d msg : stored col d ->
  triple db_ok (fun db => db_ok db /\
      (col = HOSTS_COL \/ col = POLICIES_COL ->
       Forall (fun d' => Bson.field "label" d' <> Bson.field "label" d) (db_docs col db)))
    (Col.insert_one col d msg) (fun _ => db_ok).
Proof.
  intros Hd db [Hok Hl]. unfold Col.insert_one. destruct (db_insert_one col d db) as [ok db'] eqn:E.
  destruct (insert_spec _ _ _ _ _ E) as [Hs Hi].
  assert (db_ok db') as Hok'.
  { eapply db_ok_update; [exact Hs| |done]. destruct Hi as [Hi|[_ Hi]]; (eapply coll_ok_perm; [exact Hi|]); [|done].
    by apply coll_ok_insert. }
  by destruct ok.
Qed.

Lemma delete_one_keeps col f msg : keeps db_ok (Col.delete_one col f msg).
Proof.
  apply state_keeps. intros db Hok. unfold Col.delete_one. destruct (db_delete_one col f db) as [n db'] eqn:E.
  destruct (delete_one_spec _ _ _ _ _ E) as (Hs & ds & Hp & _).
  assert (db_ok db'); [|by destruct n]. eapply db_ok_update; [exact Hs| |done]. by eapply coll_ok_remove.
Qed.
Lemma delete_many_triple col f msg :
  triple db_ok db_ok (Col.delete_many col f msg)
    (fun _ db => db_ok db /\ Forall (fun d => doc_matches f d = false) (db_docs col db)).
Proof.
  intros db Hok. unfold Col.delete_many. destruct (db_delete_many col f db) as [ok db'] eqn:E.
  destruct (delete_many_spec _ _ _ _ _ E) as (Hs & (ds & Hp & _) & Hn).
  assert (db_ok db'); [|destruct ok; auto]. eapply db_ok_update; [exact Hs| |done]. by eapply coll_ok_remove.
Qed.
Lemma delete_many_keeps col f msg : keeps db_ok (Col.delete_many col f msg).
Proof. eapply triple_conseq; [apply delete_many_triple|done|]. by intros b db [? _]. Qed.
Lemma drop_keeps col : keeps db_ok (Col.drop col).
Proof.
  apply state_keeps. intros db Hok. unfold Col.drop. destruct (db_drop col db) as [ok db'] eqn:E.
  destruct (drop_spec _ _ _ _ E) as (Hs & (ds & Hp) & _). simpl.
  eapply db_ok_update; [exact Hs| |done]. by eapply coll_ok_remove.
Qed.

(** No document with a label that no filter finds. *)
Lemma unmatched_label col l docs d : col = HOSTS_COL \/ col = POLICIES_COL -> Forall (stored col) docs ->
  Forall (fun d => doc_matches [("label", Bson.of_label l)] d = false) docs ->
  Bson.field "label" d = Some (Bson.of_label l) ->
  Forall (fun d' => Bson.field "label" d' <> Bson.field "label" d) docs.
Proof.
  intros Hc Hs Hm Hd. rewrite Forall_forall in Hs, Hm |- *. intros d' Hd'.
  destruct (stored_label _ _ (Hs _ Hd') Hc) as [l' Hl']. specialize (Hm _ Hd').
  rewrite Hl', Hd. unfold Bson.of_label in *. rewrite (matches_string "label" _ _ _ eq_refl Hl') in Hm.
  apply String.eqb_neq in Hm. intros Heq. by simplify_eq.
Qed.

Lemma replace_policy_keeps l d : stored_policy d -> Bson.field "label" d = Some (Bson.of_label l) ->
  keeps db_ok (replace_policy l d).
Proof.
  intros Hd Hl. eapply triple_bind; [apply delete_many_triple|]. intros [].
  eapply triple_conseq; [apply (insert_triple POLICIES_COL d)| |].
  - by split.
  - intros db [Hok Hm]. split; [done|]. intros Hc. eapply unmatched_label; [done| |done|done]. apply Hok.
  - done.
Qed.
Lemma present_triple col f : triple db_ok db_ok (Col.present col f)
  (fun b db => db_ok db /\ (b = false -> Forall (fun d => doc_matches f d = false) (db_docs col db))).
Proof.
  eapply triple_bind; [apply find_triple|]. intros ds. apply triple_ret. intros db [Hok Hds]. split; [done|].
  destruct Hds as (ds' & Hp & Hr). destruct ds; [|done]. intros _. apply Forall2_nil_inv_l in Hr as ->.
  apply Permutation_nil_l in Hp. rewrite Forall_forall. intros d Hd.
  destruct (doc_matches f d) eqn:E; [|done]. exfalso.
  apply (not_elem_of_nil d). rewrite Hp. by apply list_elem_of_filter.
Qed.
Lemma present_keeps col f : keeps db_ok (Col.present col f).
Proof. eapply triple_conseq; [apply present_triple|done|]. by intros b db [? _]. Qed.
End keep.
#[export] Hint Resolve find_keeps find_one_keeps find_one_on_err_keeps delete_one_keeps delete_many_keeps drop_keeps present_keeps : keeps.

(** ** Handlers on the database *)
Section handlers.
Context `{Serde} `{MongoModel}.

Lemma converted_keeps {W A} (I : W -> Prop) (o : option A) : keeps I (converted o).
Proof. unfold converted. keep. Qed.
Hint Resolve converted_keeps : keeps.
Lemma read_all_keeps {W A} (I : W -> Prop) (f : Bson -> option A) docs : keeps I (read_all f docs).
Proof. induction docs as [|[d|] docs IH]; simpl; keep. Qed.
Hint Resolve read_all_keeps : keeps.

Lemma host_list_keeps : keeps db_ok host.list.
Proof. unfold host.list. keep. Qed.
Lemma host_on_board_keeps r : keeps db_ok (host.on_board r).
Proof.
  unfold host.on_board. eapply triple_bind; [apply present_triple|]. intros b. cbv beta. destruct b.
  { apply triple_ret. by intros db [? _]. }
  cbn [OnboardHostRequest.to_bson]. eapply (triple_bind _ _ _ (fun _ => db_ok)); [|intros a; by apply triple_ret].
  eapply triple_conseq; [apply (insert_triple HOSTS_COL)| |done].
  - split_and!; [by eexists|done..].
  - intros db [Hok Hm]. split; [done|]. intros Hc. eapply unmatched_label; [done|apply Hok|by apply Hm|done].
Qed.
Lemma host_drop_keeps r : keeps db_ok (host.drop r).
Proof.
  unfold host.drop. keep.
Qed.
Lemma service_list_keeps : keeps db_ok service_list.
Proof. unfold service_list. keep. Qed.
Lemma service_drop_keeps r : keeps db_ok (service_drop r).
Proof. unfold service_drop. keep. Qed.
Lemma get_onboarding_policy_keeps : keeps db_ok get_onboarding_policy.
Proof. unfold get_onboarding_policy. keep. Qed.
Lemma query_keeps l : keeps db_ok (query l).
Proof. unfold query. keep. Qed.
Lemma query_global_keeps l : keeps db_ok (query_global l).
Proof. unfold query_global. keep. Qed.
Lemma policy_list_keeps : keeps db_ok policy_list.
Proof. unfold policy_list. keep. Qed.
Lemma services_keeps : keeps db_ok services.
Proof. unfold services. keep. Qed.
Lemma services_full_keeps : keeps db_ok services_full.
Proof. unfold services_full. keep. Qed.
Lemma get_local_service_label_keeps l : keeps db_ok (get_local_service_label l).
Proof. unfold get_local_service_label. keep. Qed.

Lemma converted_bind_keeps {W A B} (I : W -> Prop) (o : option A) (k : A -> Comp W B) :
  (forall a, o = Some a -> keeps I (k a)) -> keeps I (a ← converted o; k a).
Proof. intros Hk w Hw. destruct o as [a|]; [|done]. by apply (Hk a). Qed.
Lemma policy_document r d : PolicyUpdateRequest.to_bson r = Some d ->
  exists fs, d = BDocument fs /\ stored_policy d /\ Bson.field "label" d = Some (Bson.of_label (pu_label r)).
Proof.
  intros Hr. assert (stored_policy d) as Hs by (left; eauto). unfold PolicyUpdateRequest.to_bson in Hr.
  case_match; simplify_eq. eauto.
Qed.
Lemma cp_policy_document r d : CPPolicyUpdateRequest.to_bson r = Some d ->
  cu_label r = global_policy_label \/ cu_label r = onboarding_policy_label ->
  exists fs, d = BDocument fs /\ stored_policy d /\ Bson.field "label" d = Some (Bson.of_label (cu_label r)).
Proof.
  intros Hr Hl. assert (stored_policy d) as Hs by (right; eauto). unfold CPPolicyUpdateRequest.to_bson in Hr.
  case_match; simplify_eq. eauto.
Qed.

Lemma save_policy_keeps r : keeps db_ok (save_policy r).
Proof.
  apply converted_bind_keeps. intros d (fs & -> & Hs & Hl)%policy_document.
  apply keeps_bind; [by apply replace_policy_keeps|]. intros ?. apply keeps_ret.
Qed.
Lemma update_onboarding_keeps r : keeps db_ok (update_onboarding r).
Proof.
  apply converted_bind_keeps. intros d Hd. destruct (cp_policy_document _ _ Hd (or_intror eq_refl)) as (fs & -> & Hs & Hl).
  apply keeps_bind; [by apply replace_policy_keeps|]. intros ?. apply keeps_ret.
Qed.

(** ** Onboarding of an identity *)
Lemma helper_onboard_keeps i : keeps db_ok (helper_onboard i).
Proof.
  unfold helper_onboard, find_label_or, label_of.
  apply keeps_bind; [keep|]. intros host. apply keeps_bind; [keep|]. intros service_id.
  apply keeps_bind; [auto with keeps|]. intros []; [apply keeps_ret|].
  apply keeps_bind; [|intros ?; apply keeps_ret].
  eapply triple_conseq; [apply (insert_triple SERVICES_COL)| |done].
  - split_and!; [done| |done]. intros _. by eexists.
  - intros db Hok. split; [done|]. by intros [|].
Qed.

(** ** Hosts of a service *)

(** A stored service lacks the credentials. *)
Lemma stored_service_unreadable d : stored SERVICES_COL d -> OnboardServiceRequest.of_bson d = None.
Proof.
  intros (_ & Hs & _). destruct (Hs eq_refl) as [r ->]. unfold OnboardServiceRequest.of_bson.
  destruct (Bson.get "service" Bson.to_label _); [|done]. destruct (Bson.get "host" Bson.to_label _); [|done].
  by destruct (Bson.option_field _ "tmp_dpid" _).
Qed.

Lemma hosts_triple l : triple db_ok db_ok (hosts l) (fun hs db => db_ok db /\ hs = []).
Proof.
  unfold hosts. eapply triple_bind; [apply find_triple|]. intros rs db (Hok & ds & Hp & Hr).
  assert (Forall (stored SERVICES_COL) ds) as Hds.
  { apply Forall_forall. intros d Hd. rewrite Hp, list_elem_of_filter in Hd.
    destruct (Hok SERVICES_COL) as [Hs _]. rewrite Forall_forall in Hs. by apply Hs, Hd. }
  clear Hp. induction Hr as [|r d rs ds Hr _ IH]; [done|]. apply Forall_cons in Hds as [Hd Hds].
  destruct Hr as [->| ->]; simpl; [by rewrite stored_service_unreadable|by apply IH].
Qed.
End handlers.

(** ** All handlers *)
Section server.
Context `{Profile} `{Lib} `{Petgraph} `{Serde} `{MongoModel} {Net : Type}.
Variable regex_to_string : PolicyRegex -> string.
Variable network : Z -> string -> string -> list Value -> Net -> result Reader Error * Net.
Variable fuel : nat.
Notation World := (CPWorld Net Db).
Notation Rest := (RestWorld Push Net Db).
Notation handle := (handle regex_to_string network fuel).

(** The collections are in order, and nothing was sent to a host. *)
Definition rest_ok (w : Rest) : Prop := db_ok (cw_db (rs_cp w)) /\ rs_pushed w = [].

Lemma on_cp_keeps {A} (m : Comp World A) : keeps (cp_inv db_ok) m -> keeps rest_ok (on_cp m).
Proof.
  intros Hm w [Hok Hp]. unfold on_cp. specialize (Hm _ Hok). by destruct (m (rs_cp w)) as [[] ?].
Qed.
Lemma on_rest_db_triple {A} (m : Comp Db A) Q : triple db_ok db_ok m Q ->
  triple rest_ok rest_ok (on_rest_db m) (fun a w => Q a (cw_db (rs_cp w)) /\ rs_pushed w = []).
Proof.
  intros Hm w [Hok Hp]. unfold on_rest_db, on_cp, on_db. specialize (Hm _ Hok).
  by destruct (m (cw_db (rs_cp w))) as [[] ?].
Qed.
Lemma on_rest_db_keeps {A} (m : Comp Db A) : keeps db_ok m -> keeps rest_ok (on_rest_db m).
Proof. intros Hm. exact (on_rest_db_triple m (fun _ => db_ok) Hm). Qed.
Hint Resolve on_rest_db_keeps on_cp_keeps converted_keeps : keeps.

Lemma update_hosts_keeps label local_label policy : keeps rest_ok (update_hosts (Net := Net) label local_label policy).
Proof.
  unfold update_hosts. eapply triple_bind; [apply on_rest_db_triple, hosts_triple|]. intros hs w [[Hok ->] Hp]. by split.
Qed.
Hint Resolve update_hosts_keeps get_local_service_label_keeps : keeps.

Lemma compile_all_keeps f_egress fs gp i o : keeps rest_ok (compile_all regex_to_string network fuel f_egress fs gp i o).
Proof.
  revert o. induction fs as [|f fs IH]; intros o; simpl; [apply keeps_ret|].
  apply keeps_bind; [|intros ?; apply IH]. apply on_cp_keeps, cp_compile_keeps; [apply find_one_keeps|apply helper_onboard_keeps].
Qed.
Hint Resolve compile_all_keeps : keeps.

Lemma helper_update_keeps l r : keeps rest_ok (helper_update (Net := Net) l r).
Proof.
  apply converted_bind_keeps. intros d (fs & -> & Hs & Hl)%policy_document.
  apply keeps_bind; [by apply on_rest_db_keeps, replace_policy_keeps|]. intros _. keep.
Qed.
Hint Resolve helper_update_keeps : keeps.

Lemma update_services_keeps gp ls ss : keeps rest_ok (update_services regex_to_string network fuel gp ls ss).
Proof. induction ss as [|s ss IH]; simpl; [apply keeps_ret|]. unfold update_service. keep; eauto 6 with keeps. Qed.
Lemma update_global_keeps r : keeps rest_ok (update_global regex_to_string network fuel r).
Proof.
  apply converted_bind_keeps. intros d Hd. destruct (cp_policy_document _ _ Hd (or_introl eq_refl)) as (fs & -> & Hs & Hl).
  apply keeps_bind; [by apply on_rest_db_keeps, replace_policy_keeps|]. intros _.
  apply keeps_bind; [apply on_rest_db_keeps, services_full_keeps|]. intros all. apply update_services_keeps.
Qed.
Lemma helper_on_board_keeps r : keeps rest_ok (helper_on_board regex_to_string network fuel r).
Proof.
  unfold helper_on_board. apply keeps_bind; [apply on_rest_db_keeps, get_onboarding_policy_keeps|]. intros p.
  apply keeps_bind; [|intros [[]|]; keep].
  intros w Hw. unfold caught. assert (keeps rest_ok (on_cp (evaluate_onboarding regex_to_string network fuel p
    (LitExpr (FlatLit (LOnboardingData (onboarding_data r))))))) as Hk.
  { apply on_cp_keeps, evaluate_onboarding_keeps; [apply find_one_keeps|apply helper_onboard_keeps]. }
  specialize (Hk w Hw). by destruct (on_cp _ w) as [[] ?].
Qed.
Lemma service_on_board_keeps r : keeps rest_ok (service_on_board regex_to_string network fuel r).
Proof.
  unfold service_on_board. apply keeps_bind; [apply helper_on_board_keeps|]. intros [[[]]|]; [|apply keeps_ret].
  apply keeps_bind; [apply on_rest_db_keeps, save_policy_keeps|]. intros ?. apply keeps_ret.
Qed.
Lemma deny_services_keeps ss : keeps rest_ok (deny_services (Net := Net) ss).
Proof. induction ss; simpl; keep; eauto 6 with keeps. Qed.
Hint Resolve deny_services_keeps services_keeps : keeps.

Lemma handle_keeps h : keeps rest_ok (handle h).
Proof.
  destruct h; cbn [RestApi.handle]; try (apply on_rest_db_keeps).
  - apply host_list_keeps.
  - apply host_on_board_keeps.
  - apply host_drop_keeps.
  - apply service_list_keeps.
  - apply service_on_board_keeps.
  - apply service_drop_keeps.
  - apply policy_list_keeps.
  - unfold update. keep; eauto 6 with keeps.
  - apply update_onboarding_keeps.
  - apply update_global_keeps.
  - apply query_keeps.
  - unfold query_onboarding. apply keeps_bind; [apply get_onboarding_policy_keeps|intros ?; apply keeps_ret].
  - apply query_global_keeps.
  - unfold policy_drop. keep; eauto 6 with keeps.
  - unfold drop_all. keep; eauto 6 with keeps.
  - unfold specialize. keep; eauto 6 with keeps.
Qed.

(** The server starts with an empty database and handles requests. *)
Inductive served : Rest -> Prop :=
| served_start w : (forall col, db_docs col (cw_db (rs_cp w)) = []) -> rs_pushed w = [] -> served w
| served_request h w : served w -> served (handle h w).2.

Lemma served_ok w : served w -> rest_ok w.
Proof.
  induction 1 as [w Hd Hp|h w _ IH]; [|by apply keeps_state; [apply handle_keeps|]].
  split; [|done]. intros col. rewrite Hd. split; [constructor|]. intros _. constructor.
Qed.

(** C15: after any requests the documents of hosts, services and policies are
    written requests, and no label has two hosts or two policies. *)
Theorem collections_in_order (w : Rest) :
  served w ->
  let docs col := db_docs col (cw_db (rs_cp w)) in
  Forall (fun d => exists r, d = OnboardHostRequest.to_bson r) (docs HOSTS_COL) /\
  Forall (fun d => exists r, d = POnboardServiceRequest.to_bson r) (docs SERVICES_COL) /\
  Forall stored_policy (docs POLICIES_COL) /\
  NoDup (map (Bson.field "label") (docs HOSTS_COL)) /\
  NoDup (map (Bson.field "label") (docs POLICIES_COL)).
Proof.
  intros [Hok _]%served_ok docs. unfold docs.
  destruct (Hok HOSTS_COL) as [Hh Nh], (Hok SERVICES_COL) as [Hs _], (Hok POLICIES_COL) as [Hp Np].
  split_and!; [| | |by apply Nh; left|by apply Np; right].
  - eapply Forall_impl; [exact Hh|]. intros d (Hd & _). by apply Hd.
  - eapply Forall_impl; [exact Hs|]. intros d (_ & Hd & _). by apply Hd.
  - eapply Forall_impl; [exact Hp|]. intros d (_ & _ & Hd). by apply Hd.
Qed.

(** C21: whatever the requests, no policy is ever sent to a host: the search
    for the hosts of a service reads the stored services as requests with
    credentials, which are not stored. *)
Theorem no_policy_reaches_a_host (w : Rest) :
  served w -> rs_pushed w = [] /\ forall h, rs_pushed (handle h w).2 = [].
Proof.
  intros Hw. split; [apply (served_ok _ Hw)|]. intros h. apply (served_ok _ (served_request h w Hw)).
Qed.
End server.

(** ** Single requests *)
Section requests.
Context `{SerdeLaws} `{MongoModel}.

(** The policy of a label, after it was replaced. *)
Lemma replace_policy_triple l d : stored_policy d -> Bson.field "label" d = Some (Bson.of_label l) ->
  triple db_ok db_ok (replace_policy l d) (fun _ db => db_ok db /\ d ∈ db_docs POLICIES_COL db).
Proof.
  intros Hd Hl db Hok. pose proof (replace_policy_keeps l d Hd Hl db Hok) as Hk.
  unfold replace_policy, mbind, Comp_bind, Col.delete_many, Col.insert_one in *.
  destruct (db_delete_many _ _ _) as [[] db1]; [|done].
  destruct (db_insert_one _ _ _) as [ok db2] eqn:E. destruct (insert_spec _ _ _ _ _ E) as [_ Hi].
  destruct ok; [|done]. split; [done|]. destruct Hi as [Hi|[? _]]; [|done]. rewrite Hi. by left.
Qed.

Lemma find_one_unique l d db db' o : db_ok db -> d ∈ db_docs POLICIES_COL db ->
  Bson.field "label" d = Some (Bson.of_label l) ->
  Col.find_one POLICIES_COL [("label", Bson.of_label l)] db = (Val o, db') ->
  o = Some d \/ o = None /\ (db_find_one POLICIES_COL [("label", Bson.of_label l)] db).1 = None.
Proof.
  intros Hok Hd Hl. unfold Col.find_one, Bson.of_label in *. destruct (db_find_one _ _ db) as [[[d'|]|] db1] eqn:E; [| |intros; simplify_eq; auto].
  2: { destruct (find_one_spec _ _ _ _ _ E) as (_ & _ & Hn). specialize (Hn eq_refl). rewrite Forall_forall in Hn.
       specialize (Hn d Hd). by rewrite (matches_string "label" _ _ _ eq_refl Hl), String.eqb_refl in Hn. }
  destruct (find_one_spec _ _ _ _ _ E) as (_ & Hf & _). destruct (Hf d' eq_refl) as [Hd' Hm].
  intros Ho. simplify_eq. left. f_equal. destruct (Hok POLICIES_COL) as [Hs Hn].
  rewrite Forall_forall in Hs. destruct (stored_label _ _ (Hs _ Hd') (or_intror eq_refl)) as [l' Hl'].
  unfold Bson.of_label in Hl'. rewrite (matches_string "label" _ _ _ eq_refl Hl') in Hm. apply String.eqb_eq in Hm.
  specialize (Hn (or_intror eq_refl)).
  apply list_elem_of_lookup in Hd as [i Hi]. apply list_elem_of_lookup in Hd' as [j Hj].
  assert (i = j) as ->; [|by simplify_eq].
  eapply (NoDup_lookup _ i j); [exact Hn|by rewrite list_lookup_fmap, Hi|].
  rewrite list_lookup_fmap, Hj. simpl. by rewrite Hl, Hl', Hm.
Qed.

Lemma save_policy_stores (r : PolicyUpdateRequest) (w w1 : Db) (resp : Response) :
  db_ok w -> save_policy r w = (Val resp, w1) ->
  resp = OkFinish /\ db_ok w1 /\ exists d, PolicyUpdateRequest.to_bson r = Some d /\ d ∈ db_docs POLICIES_COL w1.
Proof.
  intros Hok Hs. unfold save_policy in Hs. destruct (PolicyUpdateRequest.to_bson r) as [d|] eqn:E; [|done].
  destruct (policy_document _ _ E) as (fs & -> & Hd & Hl).
  apply bind_val_inv in Hs as (d' & w0 & Hs & Hs'). injection Hs as <- <-.
  apply bind_val_inv in Hs' as (u & w3 & Hs & Hs'). injection Hs' as <- <-. split; [done|].
  pose proof (replace_policy_triple _ _ Hd Hl w Hok) as Ht. rewrite Hs in Ht. destruct Ht as [Hok1 Hin]. eauto.
Qed.

Lemma stored_policy_answer (r : PolicyUpdateRequest) d (w1 w2 : Db) (out : Outcome Response) :
  db_ok w1 -> valid_policy_request r -> PolicyUpdateRequest.to_bson r = Some d -> d ∈ db_docs POLICIES_COL w1 ->
  query (pu_label r) w1 = (out, w2) ->
  out = Val (OkJson (JPolicy r)) \/
  out = Val (no_policy (pu_label r)) /\ (db_find_one POLICIES_COL [("label", Bson.of_label (pu_label r))] w1).1 = None.
Proof.
  intros Hok1 Hr E Hin Hq. destruct (policy_document _ _ E) as (fs & -> & Hd & Hl).
  unfold query in Hq. change (BString (Label.to_string (pu_label r))) with (Bson.of_label (pu_label r)) in Hq.
  unfold mbind, Comp_bind in Hq. destruct (Col.find_one _ _ w1) as [o w4] eqn:Ef.
  assert (exists o', o = Val o') as [o' ->].
  { unfold Col.find_one in Ef. destruct (db_find_one _ _ _) as [[[]|] ?]; simplify_eq; eauto. }
  destruct (find_one_unique _ _ _ _ _ Hok1 Hin Hl Ef) as [->|[-> Hn]].
  - rewrite (policy_request_roundtrip _ _ Hr E) in Hq. injection Hq as <- <-. by left.
  - injection Hq as <- <-. by right.
Qed.


Lemma find_label_or_val i pattern msg p l (w : Db) :
  Label.from_str pattern = Ok p -> ID.find_label i p = Some l -> find_label_or i pattern msg w = (Val l, w).
Proof. intros Hp Hl. unfold find_label_or, label_of. rewrite Hp. unfold mbind, Comp_bind. simpl. by rewrite Hl. Qed.

(** No stored service has a label as its identity. *)
Lemma service_id_never_present l : triple db_ok db_ok (Col.present SERVICES_COL [("service_id", Bson.of_label l)])
  (fun b db => db_ok db /\ b = false).
Proof.
  unfold Col.present. eapply triple_bind; [apply find_triple|]. intros ds. apply triple_ret. intros db [Hok Hds].
  split; [done|]. destruct Hds as (ds' & Hp & Hr'). destruct Hr' as [|o d ds ds' _ _]; [done|]. exfalso.
  assert (d ∈ d :: ds') as Hd by left. rewrite Hp, list_elem_of_filter in Hd. destruct Hd as [Hm Hd].
  destruct (Hok SERVICES_COL) as [Hs _]. rewrite Forall_forall in Hs. destruct (Hs _ Hd) as (_ & Hr & _).
  destruct (Hr eq_refl) as [r ->]. unfold Bson.of_label in Hm.
  erewrite (matches_document "service_id" _ _ (POnboardServiceRequest.to_bson r) eq_refl) in Hm; [done|reflexivity].
Qed.

(** A service that is onboarded is added to the services, even when it is
    there already: the test for its presence compares its label with an
    identity, which it never equals. *)
Theorem onboarding_always_adds (i : ID) (host service_id : Label) (w w' : Db) (l : CPLiteral) :
  db_ok w ->
  ID.find_label i [Str "Host"; RecAny ""] = Some host ->
  ID.find_label i [Str "ServiceID"; RecAny ""] = Some service_id ->
  helper_onboard i w = (Val l, w') ->
  l = Literal.bool true /\
  db_docs SERVICES_COL w' ≡ₚ POnboardServiceRequest.to_bson (mkPOnboardService service_id i host) :: db_docs SERVICES_COL w.
Proof.
  intros Hok Hh Hs Ho. unfold helper_onboard in Ho.
  assert (Label.from_str "Host::**" = Ok [Str "Host"; RecAny ""]) as E1 by (by vm_compute).
  assert (Label.from_str "ServiceID::**" = Ok [Str "ServiceID"; RecAny ""]) as E2 by (by vm_compute).
  rewrite (bind_val _ _ _ _ _ (find_label_or_val _ _ _ _ _ w E1 Hh)) in Ho.
  rewrite (bind_val _ _ _ _ _ (find_label_or_val _ _ _ _ _ w E2 Hs)) in Ho.
  apply bind_val_inv in Ho as (b & w1 & Hb & Ho).
  pose proof (service_id_never_present service_id w Hok) as Hp. rewrite Hb in Hp. destruct Hp as [_ ->].
  assert (db_docs SERVICES_COL w1 ≡ₚ db_docs SERVICES_COL w) as Hsame.
  { unfold Col.present, Col.find, mbind, Comp_bind in Hb. destruct (db_find _ _ w) as [[ds|] w2] eqn:E; [|done].
    injection Hb as _ <-. apply (find_spec _ _ _ _ _ E). }
  apply bind_val_inv in Ho as (u & w2 & Hi & Ho). injection Ho as <- <-. split; [done|].
  unfold Col.insert_one in Hi. destruct (db_insert_one _ _ _) as [ok w3] eqn:E.
  destruct (insert_spec _ _ _ _ _ E) as [_ Hd]. destruct ok; [|done]. injection Hi as _ <-.
  destruct Hd as [Hd|[? _]]; [|done]. by rewrite Hd, Hsame.
Qed.
End requests.

(** ** Onboarding *)
Section onboarding.
Context `{Profile} `{Lib} `{Petgraph} `{Serde} `{MongoModel} {Net : Type}.
Variable regex_to_string : PolicyRegex -> string.
Variable network : Z -> string -> string -> list Value -> Net -> result Reader Error * Net.

Definition onboarding_disabled : string :=
  "Onboarding disabled by default, update the onboarding policy first.".

Lemma default_policy_refuses n data (w : CPWorld Net Db) :
  evaluate_onboarding regex_to_string network (4 + n) default_onboarding_policy
    (LitExpr (FlatLit (LOnboardingData data))) w = (Val (ObErr onboarding_disabled None None), w).
Proof. destruct w. reflexivity. Qed.

Lemma find_one_no_match col f (db : Db) :
  Forall (fun d => doc_matches f d = false) (db_docs col db) ->
  exists db', Col.find_one col f db = (Val None, db') /\ forall c, db_docs c db' ≡ₚ db_docs c db.
Proof.
  intros Hn. unfold Col.find_one. destruct (db_find_one col f db) as [[[d|]|] db'] eqn:E;
    destruct (find_one_spec _ _ _ _ _ E) as (Hs & Hd & _); [|by eauto..].
  destruct (Hd d eq_refl) as [Hin Hm]. rewrite Forall_forall in Hn. by rewrite Hn in Hm.
Qed.

(** As long as no onboarding policy is stored every service is refused,
    and the collections stay as they are. *)
Theorem onboarding_disabled_by_default (n : nat) (request : OnboardServiceRequest) (w : RestWorld Push Net Db) :
  Forall (fun d => doc_matches [("label", Bson.of_label onboarding_policy_label)] d = false)
    (db_docs POLICIES_COL (cw_db (rs_cp w))) ->
  exists w', service_on_board regex_to_string network (4 + n) request w =
               (Val (InternalError (error_new onboarding_disabled)), w') /\
    rs_pushed w' = rs_pushed w /\ forall col, db_docs col (cw_db (rs_cp w')) ≡ₚ db_docs col (cw_db (rs_cp w)).
Proof.
  intros Hn. destruct (find_one_no_match _ _ _ Hn) as (db' & Hf & Hs).
  set (w1 := mkRest (mkCPWorld (cw_externals (rs_cp w)) (cw_meta (rs_cp w)) (cw_net (rs_cp w))
                       (cw_spawned (rs_cp w)) db') (rs_pushed w)).
  exists w1. split; [|done].
  assert (on_rest_db get_onboarding_policy w = (Val default_onboarding_policy, w1)) as Hp.
  { unfold on_rest_db, on_cp, on_db, get_onboarding_policy. by rewrite (bind_val _ _ _ _ _ Hf). }
  assert (helper_on_board regex_to_string network (4 + n) request w = (Val (Err (error_new onboarding_disabled)), w1)) as Hh.
  { unfold helper_on_board. rewrite (bind_val _ _ _ _ _ Hp).
    erewrite (bind_val _ _ _ (Ok (ObErr onboarding_disabled None None)) w1); [done|].
    unfold caught, on_cp. by rewrite default_policy_refuses. }
  unfold service_on_board. by rewrite (bind_val _ _ _ _ _ Hh).
Qed.

(** An onboarding policy that was installed is the one that services are
    onboarded with, unless the database fails when it is read; then the
    default policy is. *)
Theorem installed_onboarding_policy_is_used `{!SerdeLaws} (r : OnboardingUpdateRequest) (w w1 w2 : Db)
    (resp : Response) (out : Outcome GlobalPolicy) :
  db_ok w -> valid_map (ou_labels r) ->
  update_onboarding r w = (Val resp, w1) -> get_onboarding_policy w1 = (out, w2) ->
  resp = OkFinish /\
  (out = Val (ou_policy r) \/
   out = Val default_onboarding_policy /\
   (db_find_one POLICIES_COL [("label", Bson.of_label onboarding_policy_label)] w1).1 = None).
Proof.
  intros Hok Hm Hu Hg. unfold update_onboarding in Hu.
  set (request := mkCPPolicyUpdate onboarding_policy_label _ _ _) in Hu.
  destruct (CPPolicyUpdateRequest.to_bson request) as [d|] eqn:E; [|done].
  destruct (cp_policy_document _ _ E (or_intror eq_refl)) as (fs & -> & Hd & Hl).
  apply bind_val_inv in Hu as (d' & w0 & Hu & Hu'). injection Hu as <- <-.
  apply bind_val_inv in Hu' as (u & w3 & Hu & Hu'). injection Hu' as <- <-. split; [done|].
  pose proof (replace_policy_triple _ _ Hd Hl w Hok) as Ht. rewrite Hu in Ht. destruct Ht as [Hok1 Hin].
  unfold get_onboarding_policy, mbind, Comp_bind in Hg.
  change (cu_label request) with onboarding_policy_label in Hl.
  destruct (Col.find_one _ _ w3) as [o w4] eqn:Ef.
  assert (exists o', o = Val o') as [o' ->].
  { unfold Col.find_one in Ef. destruct (db_find_one _ _ _) as [[[]|] ?]; simplify_eq; eauto. }
  assert (valid_cp_request request) as Hv.
  { split_and!; [split; [done|by repeat constructor]|by repeat constructor|done|done]. }
  destruct (find_one_unique _ _ _ _ _ Hok1 Hin Hl Ef) as [->|[-> Hn]].
  - rewrite (cp_request_roundtrip _ _ Hv E) in Hg. injection Hg as <- <-. by left.
  - injection Hg as <- <-. by right.
Qed.
End onboarding.

(** ** Concrete requests *)

(** The text of [OnboardingPolicy::default] compiles to the default policy. *)
Example default_policy_compiles :
  (pre ← @from_buf CPFlatTyp CPFlatLiteral _ _ _ test_lib test_regex_new test_hash_order test_petgraph test_lexlib test_columns
           (join newline
             [""; "            fn onboarding_policy(od: OnboardingData) -> OnboardingResult {";
              "                OnboardingResult::ErrStr(" ^^ quote onboarding_disabled ^^ ")";
              "            }"; "        "]);
   onboard_inner_from (H1 := test_petgraph) pre) = Val default_onboarding_policy.
Proof. vm_compute. reflexivity. Qed.

Example patterns_parse :
  Label.from_str "ServiceID::**" = Ok service_id_pattern /\ Label.from_str "Service::**" = Ok service_pattern /\
  Label.from_str "Host::<<host>>" = Ok [Str "Host"; RecAny "host"] /\
  Label.from_str "Service::<<service>>" = Ok [Str "Service"; RecAny "service"] /\
  Label.from_str "onboarding_policy" = Ok onboarding_policy_label /\
  Label.from_str "global_policy" = Ok global_policy_label.
Proof. by vm_compute. Qed.

Notation test_handle := (@RestApi.handle false test_lib test_petgraph test_serde test_mongo nat (fun _ => "") test_network 9).
Notation test_served := (@served false test_lib test_petgraph test_serde test_mongo test_mongo_model nat (fun _ => "") test_network 9).

Definition test_db : @Db test_mongo := fun _ => [].
Definition test_rest : RestWorld (@Push) nat (@Db test_mongo) :=
  mkRest (mkCPWorld Externals.default IngressEgress.default 0 [] test_db) [].
Definition test_host : @OnboardHostRequest test_serde :=
  @mkOnboardHost test_serde "https://host:8090" [Str "host"] "secret".
Definition test_hosted : RestWorld (@Push) nat (@Db test_mongo) :=
  (test_handle (HostOnBoard test_host) test_rest).2.

Lemma test_hosted_served : test_served test_hosted.
Proof. apply (served_request _ _ _ (HostOnBoard test_host) test_rest). by apply served_start. Qed.

Lemma collections_in_order_witness :
  db_docs HOSTS_COL (cw_db (rs_cp test_hosted)) = [OnboardHostRequest.to_bson test_host] /\
  NoDup (map (Bson.field "label") (db_docs HOSTS_COL (cw_db (rs_cp test_hosted)))).
Proof.
  split; [by vm_compute|].
  exact (proj1 (proj2 (proj2 (proj2 (collections_in_order _ _ _ test_hosted test_hosted_served))))).
Defined.

Lemma no_policy_reaches_a_host_witness : rs_pushed test_hosted = [].
Proof. exact (proj1 (no_policy_reaches_a_host _ _ _ test_hosted test_hosted_served)). Defined.

Lemma test_db_ok : db_ok test_db.
Proof. intros col. split; [constructor|]. intros _. constructor. Qed.

Definition test_deny : DPPolicy := mkPolicy (mkProgram [] Externals.default []) [("allow_rest_request", Deny)].
Definition test_update : PolicyUpdateRequest := mkPolicyUpdate [Str "ServiceID"; Str "a"] [(HTTP, test_deny)] [].


Definition test_identity_labels : ID :=
  mkID [] [] None [[Str "Host"; Str "h"]; [Str "ServiceID"; Str "h"; Str "s"]].

Lemma onboarding_always_adds_witness :
  let db := (helper_onboard test_identity_labels test_db).2 in
  length (db_docs SERVICES_COL (helper_onboard test_identity_labels db).2) = 2.
Proof.
  intros db.
  destruct (onboarding_always_adds test_identity_labels [Str "Host"; Str "h"] [Str "ServiceID"; Str "h"; Str "s"]
    db (helper_onboard test_identity_labels db).2 (Literal.bool true)) as [_ Hd].
  - apply (helper_onboard_keeps test_identity_labels test_db test_db_ok).
  - reflexivity.
  - reflexivity.
  - reflexivity.
  - by rewrite Hd.
Defined.

Definition test_service_request : OnboardServiceRequest := mkOnboardService [Str "s"] [Str "h"] None "secret".

Lemma onboarding_disabled_by_default_witness :
  (test_handle (ServiceOnBoard test_service_request) test_hosted).1 =
  Val (InternalError (error_new onboarding_disabled)).
Proof.
  destruct (@onboarding_disabled_by_default false test_lib test_petgraph test_serde test_mongo test_mongo_model nat (fun _ => "") test_network 5
    test_service_request test_hosted) as (w' & Hw & _).
  - vm_compute. constructor.
  - exact (f_equal fst Hw).
Defined.

Definition test_onboarding : OnboardingUpdateRequest :=
  mkOnboardingUpdate [] (mkPolicy (mkProgram [] Externals.default []) [("onboarding", Allow)]) [].

Lemma installed_onboarding_policy_is_used_witness :
  (get_onboarding_policy (update_onboarding test_onboarding test_db).2).1 = Val (ou_policy test_onboarding).
Proof.
  destruct (installed_onboarding_policy_is_used test_onboarding test_db (update_onboarding test_onboarding test_db).2
    (update_onboarding test_onboarding test_db).2 OkFinish
    (get_onboarding_policy (update_onboarding test_onboarding test_db).2).1) as [_ [Hq|[_ Hq]]].
  - apply test_db_ok.
  - by repeat constructor.
  - reflexivity.
  - reflexivity.
  - exact Hq.
  - discriminate Hq.
Defined.
