(* ===== verification/HostControl.v ===== *)
(** * The host daemon with the control plane

    The control plane of [RestApi] as the world outside of the host of
    [Host.DataHost]: requests are routed to its handlers (main.rs), and
    answers are decoded as the daemon decodes them.  The policy that the
    control plane stores under the label it gives a service is the one that
    the proxies of the service install ([stored_policy_reaches_proxies]). *)

From Stdlib Require Import ZArith Lia String Ascii List.
From stdpp Require Import base tactics list strings sets.
From S2P Require Import Prelude.
From S2P Require Import Ordered.
From S2P Require Import Strings.
From S2P Require Import Labels.
From S2P Require Import Syntax.
From S2P Require Import Types.
From S2P Require Import Net.
From S2P Require Import Literals.
From S2P Require Import FnHeaders.
From S2P Require Import Expressions.
From S2P Require Import Interpret.
From S2P Require Import Meta.
From S2P Require Import Eval.
From S2P Require Import Externals.
From S2P Require Import DataPlane.
From S2P Require Import Lang.
From S2P Require Import Graphs.
From S2P Require Import Policies.
From S2P Require Import ControlLiterals.
From S2P Require Import Pure.
From S2P Require Import ControlState.
From S2P Require Import StateTheory.
From S2P Require Import ControlInterpret.
From S2P Require Import Identity.
From S2P Require Import Proxy.
From S2P Require Import ProxyTheory.
From S2P Require Import Host.
From S2P Require Import HostSystem.
From S2P Require Import HostTheory.
From S2P Require Import RestApi.
From S2P Require Import ControlEffects.
From S2P Require Import RestTheory.

Local Open Scope string_scope.
Local Open Scope list_scope.

Section control.
Context `{Profile} `{Lib} `{Petgraph} `{SerdeLaws} `{MongoModel} `{IterOrder} {Net : Type}.
Variable regex_to_string : PolicyRegex -> string.
Variable network : Z -> string -> string -> list Value -> Net -> result Reader Error * Net.
Variable fuel : nat.
(** The processes of the host. *)
Notation Rest := (RestWorld Push Net Db).
Variable start_process : ProxyCommand -> Rest -> option Z * Rest.
Variable wait_process : Z -> Rest -> bool * Rest.
(** The address of the control plane. *)
Variable base : string.
Notation handle := (RestApi.handle regex_to_string network fuel).

Definition is_success (r : Response) : bool := match r with OkBody _ | OkFinish | OkJson _ => true | _ => false end.

(** A request at a path is handled; there is no answer when the handler does
    not come to its end, and an error is an answer without success. *)
Definition serve (h : Handler) (rw : Rest) : option (bool * option Response) * Rest :=
  let '(out, rw) := handle h rw in
  (match out with
   | Val a => Some (is_success a, Some a)
   | Fail e => Some (false, Some (InternalError e))
   | Panic | OutOfFuel => None
   end, rw).

Definition route (method : HttpMethod) (path : string) (v : CPValue) : option Handler :=
  match method, v with
  | POST, CPService r => if path =? base ^^ "service/on-board" then Some (ServiceOnBoard r) else None
  | DELETE, CPService r => if path =? base ^^ "service/drop" then Some (ServiceDrop r) else None
  | GET, CPQuery l => if path =? base ^^ "policy/query" then Some (PolicyQuery l) else None
  | _, _ => None
  end.

#[export] Instance control_outside : HostOutside Rest := {
  exe_dir := None;
  spawn := start_process;
  child_wait := wait_process;
  Body := Response;
  send_json method path v rw :=
    match route method path v with Some h => serve h rw | None => (Some (false, None), rw) end;
  body_service_id r := match r with OkJson (JService l) => Some l | _ => None end;
  body_policy r := match r with OkJson (JPolicy r) => Some (pu_policy r, pu_labels r) | _ => None end;
}.

Notation docs rw := (db_docs POLICIES_COL (cw_db (rs_cp rw))).

(** A request whose document is stored. *)
Definition is_stored (r : PolicyUpdateRequest) (rw : Rest) : Prop :=
  exists d, PolicyUpdateRequest.to_bson r = Some d /\ d ∈ docs rw.

(** A service that is accepted has a policy under the label it is given: that
    of its onboarding, ingress and egress merged. *)
Lemma accepted_service_stored request service rw rw' : rest_ok rw ->
  handle (ServiceOnBoard request) rw = (Val (OkJson (JService service)), rw') ->
  exists ingress egress rw1,
    helper_on_board regex_to_string network fuel request rw = (Val (Ok (service, ingress, egress)), rw1) /\
    is_stored (mkPolicyUpdate service (Policies.merge (pu_policy ingress) (pu_policy egress))
                 (BTreeMap.collect (pu_labels ingress ++ pu_labels egress))) rw'.
Proof.
  intros Hok Hs. cbn [RestApi.handle] in Hs. unfold service_on_board in Hs.
  apply bind_val_inv in Hs as (x & rw1 & Hh & Hs). destruct x as [[[id ingress] egress]|e]; [|done].
  pose proof (keeps_state _ _ rw (helper_on_board_keeps regex_to_string network fuel request) Hok) as [Hok1 _].
  rewrite Hh in Hok1. apply bind_val_inv in Hs as (u & rw2 & Hsave & Hs). injection Hs as -> ->.
  exists ingress, egress, rw1. split; [done|].
  unfold on_rest_db, on_cp, on_db in Hsave. destruct (save_policy _ _) as [out db] eqn:Es. injection Hsave as -> <-.
  destruct (save_policy_stores _ _ _ _ Hok1 Es) as (_ & _ & Hd). exact Hd.
Qed.

Lemma cp_url_base h host_str path : cp_url h host_str "" = base -> cp_url h host_str path = base ^^ path.
Proof. intros <-. unfold cp_url. by rewrite !append_assoc. Qed.

Lemma serve_keeps hd rw : rest_ok rw -> rest_ok (serve hd rw).2.
Proof.
  intros Hok. pose proof (keeps_state _ _ rw (handle_keeps regex_to_string network fuel hd) Hok) as Hk.
  unfold serve. by destruct (handle hd rw) as [out rw'].
Qed.

Lemma serve_query r rw : rest_ok rw -> valid_policy_request r -> is_stored r rw ->
  answer (serve (PolicyQuery (pu_label r)) rw).1 ≫= body_policy = Some (pu_policy r, pu_labels r) \/
  (db_find_one POLICIES_COL [("label", Bson.of_label (pu_label r))] (cw_db (rs_cp rw))).1 = None /\
  answer (serve (PolicyQuery (pu_label r)) rw).1 ≫= body_policy = None.
Proof.
  intros [Hok _] Hr (d & Hd & Hin). unfold serve. cbn [RestApi.handle]. unfold on_rest_db, on_cp, on_db.
  destruct (query (pu_label r) (cw_db (rs_cp rw))) as [out db] eqn:Eq.
  destruct (stored_policy_answer r d _ _ _ Hok Hr Hd Hin Eq) as [->|[-> Hf]]; [by left|by right].
Qed.

End control.

(** ** A proxy whose policy is stored under its own label *)
#[local] Existing Instance test_lib.

Definition test_stored : PolicyUpdateRequest := mkPolicyUpdate [Str "p"] [(HTTP, test_deny)] [].
Definition test_control : RestWorld (@Push) nat (@Db test_mongo) :=
  mkRest (mkCPWorld Externals.default IngressEgress.default 0 [] (save_policy test_stored test_db).2) [].
Definition test_base : string := "https://cp:8088/".
Definition test_control_outside : HostOutside (RestWorld (@Push) nat (@Db test_mongo)) :=
  @control_outside false test_lib test_petgraph test_serde test_mongo nat (fun _ => "") test_network 9
    (fun _ rw => (None, rw)) (fun _ rw => (true, rw)) test_base.
Definition test_control_world : HostWorld (RestWorld (@Push) nat (@Db test_mongo)) :=
  mkHostWorld (hw_host test_world) test_control [] [] [] false.

Lemma test_control_ok : rest_ok test_control.
Proof.
  split; [|done]. apply (save_policy_stores test_stored test_db (save_policy test_stored test_db).2 OkFinish test_db_ok).
  by vm_compute.
Qed.

