(* ===== verification/Yaml.v ===== *)
(** * Data in files (src/src/armour-serde/src/lib.rs)

    What a deserializer finds, and the deserializers for data that can be
    written in several ways: as one text or a list of texts, as a text or a
    structure, as a list or a map.  Those that serde derives for structures
    are instances of [FromContent] that are parameters. *)

From Stdlib Require Import ZArith Lia String Ascii List.
From stdpp Require Import base tactics list strings.
From S2P Require Import Prelude.
From S2P Require Import Ordered.

Local Open Scope string_scope.
Local Open Scope list_scope.

Inductive Content :=
| CUnit
| CBool (b : bool)
| CU64 (n : Z)
| CI64 (n : Z)
| CStr (s : string)
| CSeq (l : list Content)
| CMap (m : list (Content * Content)).

(** [Deserialize] and [FromStr]; an error of type is what was expected. *)
Class FromContent (T : Type) := from_content : Content -> result T string.
Class FromStr (T : Type) := parse_str : string -> result T string.

#[export] Instance string_from_content : FromContent string := fun c =>
  match c with CStr s => Ok s | _ => Err "a string" end.
#[export] Instance string_from_str : FromStr string := Ok.

(** The entries of a map, in the order they are read. *)
Definition map_from_content {V} (value : Content -> result V string) (m : list (Content * Content))
    : result (BTreeMap string V) string :=
  match collect_results (fun kv : Content * Content =>
          match from_content kv.1 with
          | Ok k => match value kv.2 with Ok v => Ok (k, v) | Err e => Err e end
          | Err e => Err e
          end) m with
  | Ok l => Ok (BTreeMap.collect l)
  | Err e => Err e
  end.

(** Data that is written as a text. *)
Module from_str.
Definition deserialize {T} `{FromStr T} (c : Content) : result T string :=
  match c with CStr value => parse_str value | _ => Err "from string" end.
End from_str.

Module string_or_list.
Definition deserialize {T} `{FromContent T} `{FromStr T} (c : Content) : result (list T) string :=
  match c with
  | CStr value => match parse_str value with Ok x => Ok [x] | Err e => Err e end
  | CSeq seq => collect_results from_content seq
  | _ => Err "from string"
  end.

Record StringList := mkStringList { strings : list string }.
Definition string_list (c : Content) : result StringList string :=
  match deserialize c with Ok l => Ok (mkStringList l) | Err e => Err e end.
Definition is_empty (l : StringList) : bool := match strings l with [] => true | _ => false end.
Definition serialize (l : StringList) : Content :=
  match strings l with
  | [s] => CStr s
  | l => CSeq (map CStr l)
  end.

Lemma collect_strings (l : list string) : collect_results from_content (map CStr l) = Ok l.
Proof. induction l as [|s l IH]; [done|]. simpl. by rewrite IH. Qed.

(** A list of texts is read back, also when it is written as its only text. *)
Lemma string_list_roundtrip (l : StringList) : string_list (serialize l) = Ok l.
Proof.
  destruct l as [l]. unfold string_list, serialize. cbn [strings].
  assert (deserialize (CSeq (map CStr l)) = Ok l) as Hl by apply collect_strings.
  destruct l as [|s [|s' l]]; [done|done|]. by rewrite Hl.
Qed.
End string_or_list.

Module string_or_struct.
Definition deserialize {T} `{FromStr T} (from_map : list (Content * Content) -> result T string) (c : Content)
    : result T string :=
  match c with
  | CStr value => parse_str value
  | CMap map => from_map map
  | _ => Err "string or map"
  end.
End string_or_struct.

Module array_dict.
Inductive ArrayDict := Array (l : list string) | Dict (m : BTreeMap string string).
Definition default : ArrayDict := Array [].
(** Untagged: the first that fits. *)
Definition deserialize (c : Content) : result ArrayDict string :=
  match c with
  | CSeq l =>
    match collect_results from_content l with Ok l => Ok (Array l) | Err _ => Err "no variant" end
  | CMap m => match map_from_content from_content m with Ok m => Ok (Dict m) | Err _ => Err "no variant" end
  | _ => Err "no variant"
  end.
Definition serialize (d : ArrayDict) : Content :=
  match d with
  | Array l => CSeq (map CStr l)
  | Dict m => CMap (map (fun kv => (CStr kv.1, CStr kv.2)) m)
  end.

Lemma collect_entries (m : list (string * string)) :
  map_from_content from_content (map (fun kv => (CStr kv.1, CStr kv.2)) m) = Ok (BTreeMap.collect m).
Proof.
  unfold map_from_content.
  assert (collect_results (fun kv : Content * Content => match from_content kv.1 with
            | Ok k => match from_content kv.2 with Ok v => Ok (k, v) | Err e => Err e end
            | Err e => Err e end) (map (fun kv : string * string => (CStr kv.1, CStr kv.2)) m) = Ok m) as ->; [|done].
  induction m as [|[k v] m IH]; [done|]. simpl. by rewrite IH.
Qed.

Lemma array_dict_roundtrip (d : ArrayDict) : (forall m, d = Dict m -> BTreeMap.wf m) -> deserialize (serialize d) = Ok d.
Proof.
  intros Hd. destruct d as [l|m]; unfold deserialize, serialize.
  - by rewrite string_or_list.collect_strings.
  - rewrite collect_entries, BTreeMap.collect_id; [done|by apply Hd].
Qed.
End array_dict.
