(* ===== verification/Capabilities.v ===== *)
(** * Linux capabilities (src/src/armour-compose/src/capabilities.rs)

    The capabilities that a container gets or loses are read from and written
    to the application file as lists of names, or as the word ALL.  Names are
    read in any case; [to_uppercase] is known on ASCII text and a parameter on
    other text.

    The theorem: what is written is read back. *)

From Stdlib Require Import ZArith Lia String Ascii List Sorting.Sorted.
From stdpp Require Import base tactics list strings sets.
From S2P Require Import Prelude.
From S2P Require Import Ordered.
From S2P Require Import Strings.
From S2P Require Import Yaml.

Local Open Scope string_scope.
Local Open Scope list_scope.

Inductive Capability :=
| CHOWN | DAC_OVERRIDE | DAC_READ_SEARCH | FOWNER | FSETID | KILL | SETGID | SETUID | SETPCAP
| LINUX_IMMUTABLE | NET_BIND_SERVICE | NET_BROADCAST | NET_ADMIN | NET_RAW | IPC_LOCK | IPC_OWNER
| SYS_MODULE | SYS_RAWIO | SYS_CHROOT | SYS_PTRACE | SYS_PACCT | SYS_ADMIN | SYS_BOOT | SYS_NICE
| SYS_RESOURCE | SYS_TIME | SYS_TTY_CONFIG | MKNOD | LEASE | AUDIT_WRITE | AUDIT_CONTROL
| SETFCAP | MAC_OVERRIDE | MAC_ADMIN | SYSLOG | WAKE_ALARM | BLOCK_SUSPEND | AUDIT_READ.

Module Capability.

(** The discriminants, which the derived order compares. *)
Definition discriminant (c : Capability) : Z :=
  match c with
  | CHOWN => 0 | DAC_OVERRIDE => 1 | DAC_READ_SEARCH => 2 | FOWNER => 3 | FSETID => 4 | KILL => 5 | SETGID => 6
  | SETUID => 7 | SETPCAP => 8 | LINUX_IMMUTABLE => 9 | NET_BIND_SERVICE => 10 | NET_BROADCAST => 11
  | NET_ADMIN => 12 | NET_RAW => 13 | IPC_LOCK => 14 | IPC_OWNER => 15 | SYS_MODULE => 16 | SYS_RAWIO => 17
  | SYS_CHROOT => 18 | SYS_PTRACE => 19 | SYS_PACCT => 20 | SYS_ADMIN => 21 | SYS_BOOT => 22 | SYS_NICE => 23
  | SYS_RESOURCE => 24 | SYS_TIME => 25 | SYS_TTY_CONFIG => 26 | MKNOD => 27 | LEASE => 28 | AUDIT_WRITE => 29
  | AUDIT_CONTROL => 30 | SETFCAP => 31 | MAC_OVERRIDE => 32 | MAC_ADMIN => 33 | SYSLOG => 34 | WAKE_ALARM => 35
  | BLOCK_SUSPEND => 36 | AUDIT_READ => 37
  end%Z.

(** The derived [Serialize]: the name of the variant. *)
Definition name (c : Capability) : string :=
  match c with
  | CHOWN => "CHOWN" | DAC_OVERRIDE => "DAC_OVERRIDE" | DAC_READ_SEARCH => "DAC_READ_SEARCH"
  | FOWNER => "FOWNER" | FSETID => "FSETID" | KILL => "KILL" | SETGID => "SETGID" | SETUID => "SETUID"
  | SETPCAP => "SETPCAP" | LINUX_IMMUTABLE => "LINUX_IMMUTABLE" | NET_BIND_SERVICE => "NET_BIND_SERVICE"
  | NET_BROADCAST => "NET_BROADCAST" | NET_ADMIN => "NET_ADMIN" | NET_RAW => "NET_RAW" | IPC_LOCK => "IPC_LOCK"
  | IPC_OWNER => "IPC_OWNER" | SYS_MODULE => "SYS_MODULE" | SYS_RAWIO => "SYS_RAWIO"
  | SYS_CHROOT => "SYS_CHROOT" | SYS_PTRACE => "SYS_PTRACE" | SYS_PACCT => "SYS_PACCT"
  | SYS_ADMIN => "SYS_ADMIN" | SYS_BOOT => "SYS_BOOT" | SYS_NICE => "SYS_NICE" | SYS_RESOURCE => "SYS_RESOURCE"
  | SYS_TIME => "SYS_TIME" | SYS_TTY_CONFIG => "SYS_TTY_CONFIG" | MKNOD => "MKNOD" | LEASE => "LEASE"
  | AUDIT_WRITE => "AUDIT_WRITE" | AUDIT_CONTROL => "AUDIT_CONTROL" | SETFCAP => "SETFCAP"
  | MAC_OVERRIDE => "MAC_OVERRIDE" | MAC_ADMIN => "MAC_ADMIN" | SYSLOG => "SYSLOG" | WAKE_ALARM => "WAKE_ALARM"
  | BLOCK_SUSPEND => "BLOCK_SUSPEND" | AUDIT_READ => "AUDIT_READ"
  end.

(** The names that [from_str] knows. *)
Definition names : list (string * Capability) :=
  [("AUDIT_CONTROL", AUDIT_CONTROL); ("AUDIT_READ", AUDIT_READ); ("AUDIT_WRITE", AUDIT_WRITE);
   ("BLOCK_SUSPEND", BLOCK_SUSPEND); ("CHOWN", CHOWN); ("DAC_OVERRIDE", DAC_OVERRIDE);
   ("DAC_READ_SEARCH", DAC_READ_SEARCH); ("FOWNER", FOWNER); ("FSETID", FSETID); ("IPC_LOCK", IPC_LOCK);
   ("IPC_OWNER", IPC_OWNER); ("KILL", KILL); ("LEASE", LEASE); ("LINUX_IMMUTABLE", LINUX_IMMUTABLE);
   ("MAC_ADMIN", MAC_ADMIN); ("MAC_OVERRIDE", MAC_OVERRIDE); ("MKNOD", MKNOD); ("NET_ADMIN", NET_ADMIN);
   ("NET_BIND_SERVICE", NET_BIND_SERVICE); ("NET_BROADCAST", NET_BROADCAST); ("NET_RAW", NET_RAW);
   ("SETFCAP", SETFCAP); ("SETGID", SETGID); ("SETPCAP", SETPCAP); ("SETUID", SETUID);
   ("SYS_ADMIN", SYS_ADMIN); ("SYS_BOOT", SYS_BOOT); ("SYS_CHROOT", SYS_CHROOT);
   ("SYS_MODULE", SYS_MODULE); ("SYS_NICE", SYS_NICE); ("SYS_PACCT", SYS_PACCT);
   ("SYS_PTRACE", SYS_PTRACE); ("SYS_RAWIO", SYS_RAWIO); ("SYS_RESOURCE", SYS_RESOURCE);
   ("SYS_TIME", SYS_TIME); ("SYS_TTY_CONFIG", SYS_TTY_CONFIG); ("SYSLOG", SYSLOG);
   ("WAKE_ALARM", WAKE_ALARM)].

Section from_str.
Variable unicode_uppercase : string -> string.

(** [str::to_uppercase] *)
Definition is_ascii (s : string) : bool := forallb (fun c => N.ltb (N_of_ascii c) 128) (list_ascii_of_string s).
Definition upper (c : ascii) : ascii :=
  if N.leb 97 (N_of_ascii c) && N.leb (N_of_ascii c) 122 then ascii_of_N (N_of_ascii c - 32) else c.
Definition to_uppercase (s : string) : string :=
  if is_ascii s then string_of_list_ascii (map upper (list_ascii_of_string s)) else unicode_uppercase s.

Definition from_str (s : string) : result Capability string :=
  match find (fun p => to_uppercase s =? p.1) names with
  | Some (_, c) => Ok c
  | None => Err s
  end.
End from_str.
End Capability.

#[export] Instance capability_ord : Ord Capability :=
  fun a b => Z.compare (Capability.discriminant a) (Capability.discriminant b).
#[export] Instance capability_ord_laws : OrdLaws Capability.
Proof.
  split; unfold cmp, capability_ord.
  - intros x y. rewrite Z.compare_eq_iff. split; [|by intros ->]. destruct x, y; simpl; by intros.
  - intros x y. apply Z.compare_antisym.
  - intros x y z. rewrite !Z.compare_lt_iff. lia.
Qed.

(** ** Sets of capabilities *)

Module CapSet.
Definition CapSet := BTreeSet Capability.
Definition empty_caps : CapSet := [].
Definition all_caps : CapSet := BTreeSet.extend [] (map snd Capability.names).
Definition is_empty (s : CapSet) : bool := match s with [] => true | _ => false end.

Section deserialize.
Variable unicode_uppercase : string -> string.

(** The loop of [visit_seq]: the set and what was not read of the list. *)
Fixpoint visit_seq (s : CapSet) (l : list Content) : result (CapSet * list Content) string :=
  match l with
  | [] => Ok (s, [])
  | CStr value :: l =>
    match Capability.from_str unicode_uppercase value with
    | Ok cap => visit_seq (BTreeSet.insert cap s) l
    | Err _ =>
      if Capability.to_uppercase unicode_uppercase value =? "ALL" then Ok (all_caps, l) else Err "not a capability"
    end
  | _ :: _ => Err "a string"
  end.

(** [Deserialize]; a list that is not read to its end is an error of the
    deserializer. *)
Definition deserialize (c : Content) : result CapSet string :=
  match c with
  | CUnit => Ok empty_caps
  | CSeq l =>
    match visit_seq [] l with
    | Ok (s, []) => Ok s
    | Ok (_, _ :: _) => Err "invalid length"
    | Err e => Err e
    end
  | _ => Err "capability list"
  end.
End deserialize.

Definition serialize (s : CapSet) : Content :=
  CSeq (map CStr (if Nat.eqb (length s) (length all_caps) then ["ALL"] else map Capability.name s)).
End CapSet.

Record Capabilities := mkCapabilities { cap_add : CapSet.CapSet; cap_drop : CapSet.CapSet }.

Module Capabilities.
(** The fields that are written: those that are not empty. *)
Definition serialize (c : Capabilities) : list (string * Content) :=
  (if CapSet.is_empty (cap_add c) then [] else [("cap_add", CapSet.serialize (cap_add c))]) ++
  (if CapSet.is_empty (cap_drop c) then [] else [("cap_drop", CapSet.serialize (cap_drop c))]).

(** A field that is missing is the empty set. *)
Definition field (u : string -> string) (name : string) (m : list (string * Content)) : result CapSet.CapSet string :=
  match find (fun p => p.1 =? name) m with
  | Some (_, c) => CapSet.deserialize u c
  | None => Ok []
  end.
Definition deserialize (u : string -> string) (m : list (string * Content)) : result Capabilities string :=
  match field u "cap_add" m, field u "cap_drop" m with
  | Ok a, Ok d => Ok (mkCapabilities a d)
  | Err e, _ | _, Err e => Err e
  end.
End Capabilities.

(** ** Reading what was written *)
Section roundtrip.
Variable unicode_uppercase : string -> string.

Lemma name_parses c : Capability.from_str unicode_uppercase (Capability.name c) = Ok c.
Proof. by destruct c. Qed.

Lemma all_caps_elem c : c ∈ CapSet.all_caps.
Proof. apply BTreeSet.elem_extend. left. destruct c; vm_compute; repeat constructor. Qed.

Lemma all_caps_wf : BTreeSet.wf CapSet.all_caps.
Proof. apply BTreeSet.wf_extend. constructor. Qed.

Lemma set_wf_NoDup (s : CapSet.CapSet) : BTreeSet.wf s -> NoDup s.
Proof.
  induction 1 as [|c s _ IH Hlt]; constructor; [|done]. intros Hc. rewrite Forall_forall in Hlt.
  by apply (cmp_lt_irrefl c), Hlt.
Qed.

(** There is one set with all capabilities. *)
Lemma full_set (s : CapSet.CapSet) : BTreeSet.wf s -> length s = length CapSet.all_caps -> s = CapSet.all_caps.
Proof.
  intros Hs Hlen. apply BTreeSet.set_ext; [done|apply all_caps_wf|]. intros c. split; [intros _; apply all_caps_elem|].
  assert (s ≡ₚ CapSet.all_caps) as ->; [|done]. apply submseteq_length_Permutation; [|by rewrite Hlen].
  apply NoDup_submseteq; [by apply set_wf_NoDup|]. intros x _. apply all_caps_elem.
Qed.

Lemma visit_seq_names (l s : list Capability) :
  CapSet.visit_seq unicode_uppercase s (map CStr (map Capability.name l)) = Ok (BTreeSet.extend s l, []).
Proof. revert s. induction l as [|c l IH]; intros s; simpl; [done|]. by rewrite name_parses, IH. Qed.

Lemma capset_roundtrip (s : CapSet.CapSet) : BTreeSet.wf s ->
  CapSet.deserialize unicode_uppercase (CapSet.serialize s) = Ok s.
Proof.
  intros Hs. unfold CapSet.deserialize, CapSet.serialize. destruct (Nat.eqb_spec (length s) (length CapSet.all_caps)) as [Hl|_].
  - by rewrite (full_set s Hs Hl).
  - rewrite visit_seq_names. f_equal. apply BTreeSet.set_ext; [apply BTreeSet.wf_extend; constructor|done|].
    intros c. rewrite BTreeSet.elem_extend. set_solver.
Qed.

(** The capabilities of a service that were written to the application
    file are read back: what is left out as empty, every proper set by its
    names and the full set by the word ALL. *)
Theorem capabilities_roundtrip (c : Capabilities) : BTreeSet.wf (cap_add c) -> BTreeSet.wf (cap_drop c) ->
  Capabilities.deserialize unicode_uppercase (Capabilities.serialize c) = Ok c.
Proof.
  destruct c as [a d]. simpl. intros Ha Hd. unfold Capabilities.deserialize, Capabilities.serialize, Capabilities.field.
  destruct a as [|x a]; destruct d as [|y d]; cbn [CapSet.is_empty cap_add cap_drop app find fst String.eqb Ascii.eqb eqb];
    rewrite ?capset_roundtrip by done; done.
Qed.
End roundtrip.

Lemma capabilities_roundtrip_witness :
  Capabilities.deserialize (fun s => s) (Capabilities.serialize (mkCapabilities [CHOWN; NET_RAW] CapSet.all_caps)) =
    Ok (mkCapabilities [CHOWN; NET_RAW] CapSet.all_caps) /\
  Capabilities.serialize (mkCapabilities [CHOWN; NET_RAW] CapSet.all_caps) =
    [("cap_add", CSeq [CStr "CHOWN"; CStr "NET_RAW"]); ("cap_drop", CSeq [CStr "ALL"])].
Proof.
  split; [|reflexivity]. apply (capabilities_roundtrip (fun s => s) (mkCapabilities [CHOWN; NET_RAW] CapSet.all_caps)).
  - repeat constructor.
  - apply all_caps_wf.
Defined.

(** Names are read in any case; ALL ends the list. *)
Example capset_reads :
  CapSet.deserialize (fun s => s) (CSeq [CStr "net_raw"; CStr "Chown"; CStr "chown"]) = Ok [CHOWN; NET_RAW] /\
  CapSet.deserialize (fun s => s) (CSeq [CStr "chown"; CStr "all"]) = Ok CapSet.all_caps /\
  CapSet.deserialize (fun s => s) (CSeq [CStr "all"; CStr "chown"]) = Err "invalid length" /\
  CapSet.deserialize (fun s => s) (CSeq [CStr "chown"; CStr "CAP_KILL"]) = Err "not a capability" /\
  CapSet.deserialize (fun s => s) CUnit = Ok [].
Proof. by vm_compute. Qed.
