(* ===== verification/Compose.v ===== *)
(** * Applications in containers (src/src/armour-compose/src)

    An application is a file of services, networks and proxies.
    [Compose.convert_for_armour] gives every service a network of its own,
    lets services find each other by name, and pairs services with the
    proxies that control them.  Subnets are those of the ipnet crate, and a
    value of YAML that is only carried along is a parameter.

    The theorems: services share no network and no address; which service is
    onboarded with which proxy. *)

From Stdlib Require Import ZArith Lia String Ascii List Sorting.Sorted.
From stdpp Require Import base tactics list strings sets.
From S2P Require Import Prelude.
From S2P Require Import Ordered.
From S2P Require Import Strings.
From S2P Require Import Yaml.
From S2P Require Import Labels.
From S2P Require Import Net.
From S2P Require Import Literals.
From S2P Require Import Host.
From S2P Require Import Capabilities.

Local Open Scope string_scope.
Local Open Scope list_scope.

(** ** Data *)

Notation ArrayDict := array_dict.ArrayDict.

(** The subnets with 24 bits from 172.18.0.0 to 172.31.255.0, in order, and
    the addresses of the hosts of one. *)
Class IpNet := {
  Subnet : Type;
  subnets : list Subnet;
  subnet_hosts : Subnet -> list Z;
}.

(** [str::to_lowercase], where only the words that a case below names matter:
    no other character than their letters has these in lower case. *)
Definition to_lower (s : string) : string :=
  String.string_of_list_ascii
    (map (fun c => if in_range 65 90 c then ascii_of_N (N_of_ascii c + 32) else c) (list_ascii_of_string s)).

Section data.
Context `{IpNet}.
(** [serde_yaml::Value] *)
Context {Value : Type}.
Notation Extras := (BTreeMap string Value).

(** *** external, volume.rs, config.rs *)
Inductive External := ExternalRaw (b : bool) | ExternalStruct (name : string).

Record VolumeConfig := mkVolumeConfig {
  vc_name : option string;
  vc_driver : option string;
  vc_driver_opts : BTreeMap string string;
  vc_external : External;
  vc_labels : ArrayDict;
  vc_extras : Extras;
}.
Record VolumeRecord := mkVolumeRecord {
  vr_typ : string;
  vr_source : string;
  vr_target : string;
  vr_read_only : bool;
  vr_consistency : string;
  vr_bind : string;
  vr_volume : bool;
  vr_tmpfs : Z;
  vr_extras : Extras;
}.
Inductive Volume := VolumeRaw (s : string) | VolumeStruct (r : VolumeRecord).

Record ConfigConfig := mkConfigConfig {
  cc_name : option string;
  cc_file : option string;
  cc_external : External;
  cc_labels : ArrayDict;
  cc_extras : Extras;
}.
Record ConfigRecord := mkConfigRecord {
  cr_source : string;
  cr_target : option string;
  cr_uid : option string;
  cr_gid : option string;
  cr_mode : option Z;
  cr_extras : Extras;
}.
Inductive Config := ConfigRaw (s : string) | ConfigStruct (r : ConfigRecord).

(** *** network.rs *)
Inductive Driver := Bridge | Overlay | HostDriver.

Record Ipam := mkIpam { im_driver : string; im_config : list Subnet; im_extras : Extras }.
Record Network := mkNetwork {
  nw_name : string;
  nw_driver : option Driver;
  nw_driver_opts : BTreeMap string string;
  nw_ipam : option Ipam;
  nw_external : bool;
  nw_internal : bool;
  nw_attachable : bool;
  nw_labels : ArrayDict;
  nw_extras : Extras;
}.
Record NetworkRecord := mkNetworkRecord {
  nr_aliases : list string;
  nr_ipv4_address : option Z;
  nr_ipv6_address : option Z;
  nr_extras : Extras;
}.
Inductive Networks := NetArray (l : list string) | NetDict (m : BTreeMap string NetworkRecord).

(** *** service.rs *)
Record Build := mkBuild {
  bd_context : string;
  bd_dockerfile : option string;
  bd_args : ArrayDict;
  bd_cache_from : list string;
  bd_labels : ArrayDict;
  bd_shm_size : option string;
  bd_target : option string;
  bd_extras : Extras;
}.
Record Armour := mkArmour { ar_labels : Labels; ar_proxies : Labels }.
Record PortRecord := mkPortRecord {
  pr_target : Z;
  pr_published : Z;
  pr_protocol : string;
  pr_mode : string;
  pr_extras : Extras;
}.
Inductive Port := PortRaw (s : string) | PortStruct (r : PortRecord).
Inductive Order := StartFirst | StopFirst.
(** [service::Config] *)
Record UpdateConfig := mkUpdateConfig {
  uc_parallelism : option Z;
  uc_delay : option string;
  uc_failure_action : option string;
  uc_monitor : option string;
  uc_max_failure_ratio : option Z;
  uc_order : option Order;
  uc_extras : Extras;
}.
Record Resource := mkResource { rs_cpus : option string; rs_memory : option string; rs_extras : Extras }.
Record Resources := mkResources { rs_limits : Resource; rs_reservations : Resource; rss_extras : Extras }.
Record Deployment := mkDeployment {
  dp_mode : option string;
  dp_endpoint_mode : option string;
  dp_replicas : option Z;
  dp_labels : ArrayDict;
  dp_rollback_config : UpdateConfig;
  dp_update_config : UpdateConfig;
  dp_resources : Resources;
  dp_restart_policy : option Value;
  dp_placement : option Value;
  dp_extras : Extras;
}.

Record Service := mkService {
  sv_build : Build;
  sv_armour : Armour;
  sv_cgroup_parent : option string;
  sv_container_name : option string;
  sv_domainname : option string;
  sv_hostname : option string;
  sv_image : option string;
  sv_ipc : option string;
  sv_isolation : option string;
  sv_mac_address : option string;
  sv_network_mode : option string;
  sv_pid : option string;
  sv_restart : option string;
  sv_shm_size : option string;
  sv_stop_grace_period : option string;
  sv_stop_signal : option string;
  sv_user : option string;
  sv_userns_mode : option string;
  sv_working_dir : option string;
  sv_depends_on : list string;
  sv_devices : list string;
  sv_expose : list string;
  sv_external_links : list string;
  sv_security_opt : list string;
  sv_configs : list Config;
  sv_ports : list Port;
  sv_secrets : list Config;
  sv_volumes : list Volume;
  sv_init : bool;
  sv_privileged : bool;
  sv_read_only : bool;
  sv_stdin_open : bool;
  sv_tty : bool;
  sv_capabilities : Capabilities;
  sv_command : string_or_list.StringList;
  sv_dns_search : string_or_list.StringList;
  sv_entrypoint : string_or_list.StringList;
  sv_env_file : string_or_list.StringList;
  sv_tmpfs : string_or_list.StringList;
  sv_dns : list IpAddr;
  sv_environment : ArrayDict;
  sv_extra_hosts : ArrayDict;
  sv_labels : ArrayDict;
  sv_sysctls : ArrayDict;
  sv_deploy : Deployment;
  sv_networks : Networks;
  sv_extras : Extras;
}.

(** *** lib.rs *)
Record Compose := mkCompose {
  co_version : string;
  co_services : BTreeMap string Service;
  co_networks : BTreeMap string Network;
  co_volumes : BTreeMap string (option VolumeConfig);
  co_configs : BTreeMap string (option ConfigConfig);
  co_secrets : BTreeMap string (option ConfigConfig);
  co_proxies : list HostApi.Proxy;
  co_extras : Extras;
}.
End data.

Record ServiceInfo := mkServiceInfo { si_labels : Labels; si_proxies : Labels; si_address : option Z }.
Record OnboardInfo := mkOnboardInfo { ob_proxies : list HostApi.Proxy; ob_services : BTreeMap string ServiceInfo }.

Arguments VolumeConfig Value : clear implicits.
Arguments VolumeRecord Value : clear implicits.
Arguments ConfigConfig Value : clear implicits.
Arguments ConfigRecord Value : clear implicits.
Arguments Ipam {_} Value.
Arguments Network {_} Value.
Arguments NetworkRecord Value : clear implicits.
Arguments Build Value : clear implicits.
Arguments PortRecord Value : clear implicits.
Arguments UpdateConfig Value : clear implicits.
Arguments Resource Value : clear implicits.
Arguments Resources Value : clear implicits.
Arguments Deployment Value : clear implicits.
Arguments Service Value : clear implicits.
Arguments Compose {_} Value.
Arguments Volume Value : clear implicits.
Arguments Config Value : clear implicits.
Arguments Networks Value : clear implicits.
Arguments Port Value : clear implicits.

(** ** Operations *)
Module Driver.
Definition from_str (s : string) : option Driver :=
  let s := to_lower s in
  if s =? "bridge" then Some Bridge
  else if s =? "overlay" then Some Overlay
  else if s =? "host" then Some HostDriver
  else None.
End Driver.

Module Order.
Definition from_str (s : string) : option Order :=
  let s := to_lower s in
  if s =? "start-first" then Some StartFirst
  else if s =? "stop-first" then Some StopFirst
  else None.
End Order.

Module Build.
Definition from_str {Value} (s : string) : Build Value :=
  mkBuild s None (array_dict.default) [] (array_dict.default) None None [].
End Build.

Module Service.
Section service.
Context `{IpNet} {Value : Type}.

(** A service with other values of the fields that the conversion changes. *)
Definition update (armour : Armour) (container_name : option string) (extra_hosts : ArrayDict) (networks : Networks Value)
    (s : Service Value) : Service Value :=
  mkService (sv_build s) armour (sv_cgroup_parent s) container_name (sv_domainname s) (sv_hostname s) (sv_image s)
    (sv_ipc s) (sv_isolation s) (sv_mac_address s) (sv_network_mode s) (sv_pid s) (sv_restart s)
    (sv_shm_size s) (sv_stop_grace_period s) (sv_stop_signal s) (sv_user s) (sv_userns_mode s)
    (sv_working_dir s) (sv_depends_on s) (sv_devices s) (sv_expose s) (sv_external_links s)
    (sv_security_opt s) (sv_configs s) (sv_ports s) (sv_secrets s) (sv_volumes s) (sv_init s)
    (sv_privileged s) (sv_read_only s) (sv_stdin_open s) (sv_tty s) (sv_capabilities s) (sv_command s)
    (sv_dns_search s) (sv_entrypoint s) (sv_env_file s) (sv_tmpfs s) (sv_dns s) (sv_environment s)
    extra_hosts (sv_labels s) (sv_sysctls s) (sv_deploy s) networks (sv_extras s).

Definition armour_bridge_network (name : string) : string := "arm-" ^^ name.

(** A new network of a service on the next subnet, how the service uses it,
    and the address of the service. *)
Definition network (name : string) (nets : list Subnet) : Network Value * Networks Value * option Z * list Subnet :=
  let armour_bridge_network := armour_bridge_network name in
  let network ipam :=
    mkNetwork "" (Some Bridge) (BTreeMap.insert "com.docker.network.bridge.name" armour_bridge_network [])
      ipam false true false (array_dict.default) [] in
  match nets with
  | subnet :: nets =>
    let ipv4_addr := subnet_hosts subnet !! 1 in
    let dict := BTreeMap.insert armour_bridge_network (mkNetworkRecord [] ipv4_addr None []) [] in
    (network (Some (mkIpam "" [subnet] [])), NetDict dict, ipv4_addr, nets)
  | [] => (network None, NetArray [armour_bridge_network], None, [])
  end.

Definition convert_for_armour (name : string) (nets : list Subnet) (s : Service Value)
    : ServiceInfo * Network Value * option Z * Service Value * list Subnet :=
  let info := mkServiceInfo (ar_labels (sv_armour s)) (ar_proxies (sv_armour s)) None in
  let '(network, networks, ipv4_addr, nets) := network name nets in
  (info, network, ipv4_addr, update (mkArmour [] []) (sv_container_name s) (sv_extra_hosts s) networks s, nets).
End service.
End Service.

Module Compose.
Section compose.
Context `{IpNet} {Value : Type}.
Notation Service := (Service Value).
Notation Network := (Network Value).
Notation Compose := (Compose Value).

(** What the loop over the services makes. *)
Record Converted := mkConverted {
  cv_services : list (string * Service);
  cv_infos : list (string * ServiceInfo);
  cv_networks : list (string * Network);
  cv_hosts : list (string * Z);
}.

Fixpoint convert_services (nets : list Subnet) (l : list (string * Service)) : result Converted string :=
  match l with
  | [] => Ok (mkConverted [] [] [] [])
  | (name, service) :: l =>
    if Nat.ltb 12 (String.length name) then Err ("service name too long, max 12 chars: " ^^ name)
    else if match sv_container_name service with Some c => negb (c =? name) | None => false end
    then Err ("container name != service name: " ^^ default "" (sv_container_name service) ^^ " != " ^^ name)
    else
      let service :=
        Service.update (sv_armour service) (Some name) (sv_extra_hosts service) (sv_networks service) service in
      let '(info, network, ipv4_addr, service, nets) := Service.convert_for_armour name nets service in
      match convert_services nets l with
      | Ok c =>
        Ok (mkConverted ((name, service) :: cv_services c) ((name, info) :: cv_infos c)
              ((Service.armour_bridge_network name, network) :: cv_networks c)
              (match sv_hostname service, ipv4_addr with
               | Some h, Some ip => [(h, ip)]
               | _, _ => []
               end ++ cv_hosts c))
      | Err e => Err e
      end
  end.

Definition ipv4_to_string (ip : Z) : string := join "." (map i64_to_string (IpAddr.octets_v4 ip)).

(** The names of the other services, for [/etc/hosts]. *)
Definition with_extra_hosts (extra_hosts : BTreeMap string Z) (s : Service) : Service :=
  let extra := omap (fun kv : string * Z =>
    if bool_decide (Some kv.1 = sv_hostname s) then None else Some (kv.1 ^^ ":" ^^ ipv4_to_string kv.2)) extra_hosts in
  Service.update (sv_armour s) (sv_container_name s) (array_dict.Array extra) (sv_networks s) s.

Fixpoint set_ingress_all (hosts : BTreeMap string Z) (l : list HostApi.Proxy) : result (list HostApi.Proxy) string :=
  match l with
  | [] => Ok []
  | x :: l =>
    match HostApi.set_ingress x hosts with
    | Ok x => match set_ingress_all hosts l with Ok l => Ok (x :: l) | Err e => Err e end
    | Err e => Err e
    end
  end.

(** Without proxies there is one for each service. *)
Definition default_proxies (names : list string) : list HostApi.Proxy :=
  omap (fun name => match Label.from_str name with Ok label => Some (HostApi.of_label label) | Err _ => None end) names.

(** The services that name a proxy; the first also gets those that name none. *)
Definition attached (label : Label) (kv : string * ServiceInfo) : bool :=
  existsb (fun l => Label.eqb l label) (si_proxies kv.2).
Definition unattached (kv : string * ServiceInfo) : bool := match si_proxies kv.2 with [] => true | _ => false end.
Definition pair_services (services : BTreeMap string ServiceInfo) (k : nat) (proxy : HostApi.Proxy) : OnboardInfo :=
  let paired := List.filter (attached (HostApi.px_label proxy)) services in
  mkOnboardInfo [proxy]
    (BTreeMap.collect (if Nat.eqb k 0 then paired ++ List.filter unattached services else paired)).

Definition convert_for_armour (c : Compose) : result (Compose * list OnboardInfo) string :=
  match convert_services subnets (co_services c) with
  | Err e => Err e
  | Ok cv =>
    let services := BTreeMap.collect (cv_infos cv) in
    let networks := BTreeMap.collect (cv_networks cv) in
    let extra_hosts := BTreeMap.collect (cv_hosts cv) in
    let with_hosts :=
      match extra_hosts with
      | [] => cv_services cv
      | _ => map (fun kv => (kv.1, with_extra_hosts extra_hosts kv.2)) (cv_services cv)
      end in
    match set_ingress_all extra_hosts (co_proxies c) with
    | Err e => Err e
    | Ok proxies =>
      let proxies := match proxies with [] => default_proxies (map fst with_hosts) | _ => proxies end in
      Ok (mkCompose (co_version c) with_hosts networks (co_volumes c) (co_configs c) (co_secrets c) [] (co_extras c),
          imap (pair_services services) proxies)
    end
  end.
End compose.
End Compose.

(** [From<&OnboardInfo> for OnboardInformation] *)
Definition onboard_information (info : OnboardInfo) : HostApi.OnboardInformation :=
  HostApi.mkOnboardInformation (ob_proxies info)
    (omap (fun kv => option_map (fun ip => (ip, si_labels kv.2)) (si_address kv.2)) (ob_services info)).

(** ** What the conversion makes *)

(** A part of a map. *)
Section filter.
Context {V : Type}.
Implicit Types (m : BTreeMap string V) (f : string * V -> bool).

Lemma map_wf_filter f m : BTreeMap.wf m -> BTreeMap.wf (List.filter f m).
Proof.
  induction m as [|[k v] m IH]; intros Hm; [done|]. apply BTreeMap.wf_cons in Hm as [Hlt Hm]. simpl.
  destruct (f (k, v)); [|auto]. apply BTreeMap.wf_cons. split; [|auto].
  rewrite Forall_forall in *. intros k' Hk'. apply Hlt. apply list_elem_of_fmap in Hk' as ([k1 v1] & -> & Hin).
  apply list_elem_of_In, filter_In in Hin as [Hin _]. apply list_elem_of_fmap. exists (k1, v1). by rewrite list_elem_of_In.
Qed.

Lemma map_get_filter f m k : BTreeMap.wf m ->
  BTreeMap.get (List.filter f m) k = v ← BTreeMap.get m k; if f (k, v) then Some v else None.
Proof.
  intros Hm. apply option_eq. intros v. rewrite BTreeMap.get_elem by by apply map_wf_filter.
  rewrite list_elem_of_In, filter_In, <- list_elem_of_In, <- BTreeMap.get_elem by done.
  destruct (BTreeMap.get m k) as [w|]; simpl; [|naive_solver]. split.
  - intros [[= ->] Hf]. by rewrite Hf.
  - destruct (f (k, w)) eqn:Ef; [|done]. by intros [= <-].
Qed.
End filter.

Section spec.
Context `{IpNet} {Value : Type}.
Notation Service := (Service Value).
Notation Network := (Network Value).
Notation Compose := (Compose Value).
Implicit Types (l : list (string * Service)) (nets : list Subnet).

Definition info_of (s : Service) : ServiceInfo := mkServiceInfo (ar_labels (sv_armour s)) (ar_proxies (sv_armour s)) None.
(** The names of the networks of a service, and its addresses there. *)
Definition networks_used (s : Service) : list string :=
  match sv_networks s with NetArray l => l | NetDict m => map fst m end.
Definition addresses (s : Service) : list Z :=
  match sv_networks s with NetArray _ => [] | NetDict m => omap (fun kv => nr_ipv4_address kv.2) m end.

Definition bridge_ok (nw : Network) : Prop := nw_driver nw = Some Bridge /\ nw_internal nw = true.

(** A service after the loop: nothing else of it is changed. *)
Definition converted (kv kv' : string * Service) : Prop :=
  kv'.1 = kv.1 /\ networks_used kv'.2 = [Service.armour_bridge_network kv.1] /\
  kv'.2 = Service.update (mkArmour [] []) (Some kv.1) (sv_extra_hosts kv'.2) (sv_networks kv'.2) kv.2.

Lemma convert_services_spec l : forall nets cv, Compose.convert_services nets l = Ok cv ->
  Forall2 converted l (Compose.cv_services cv) /\
  Compose.cv_infos cv = map (fun kv => (kv.1, info_of kv.2)) l /\
  map fst (Compose.cv_networks cv) = map (fun kv => Service.armour_bridge_network kv.1) l /\
  Forall (fun kv => bridge_ok kv.2) (Compose.cv_networks cv) /\
  concat (map (fun kv => addresses kv.2) (Compose.cv_services cv)) `sublist_of` omap (fun s => subnet_hosts s !! 1) nets.
Proof.
  induction l as [|[name s] l IH]; intros nets cv Hc; simpl in Hc.
  { injection Hc as <-. split_and!; try done; try constructor. apply sublist_nil_l. }
  destruct (Nat.ltb _ _); [done|].
  destruct (match sv_container_name s with Some c => negb (c =? name) | None => false end); [done|].
  unfold Service.convert_for_armour, Service.network in Hc.
  destruct nets as [|n nets]; simpl in Hc.
  - destruct (Compose.convert_services [] l) as [c|] eqn:Er; [|done]. injection Hc as <-. simpl.
    destruct (IH _ _ Er) as (H1 & H2 & H3 & H4 & H5).
    split_and!; [by constructor|by rewrite H2|by rewrite H3|by constructor|done].
  - destruct (Compose.convert_services nets l) as [c|] eqn:Er; [|done]. injection Hc as <-. simpl.
    destruct (IH _ _ Er) as (H1 & H2 & H3 & H4 & H5).
    split_and!; [by constructor|by rewrite H2|by rewrite H3|by constructor|].
    unfold addresses at 1. simpl. destruct (subnet_hosts n !! 1); simpl; [by apply sublist_skip|done].
Qed.

Lemma with_extra_hosts_converted hosts kv kv' : converted kv kv' ->
  converted kv (kv'.1, Compose.with_extra_hosts hosts kv'.2).
Proof. intros (Hn & Hu & Hs). split_and!; [done|done|]. simpl. by rewrite Hs. Qed.

(** The parts of a successful conversion. *)
Lemma convert_for_armour_spec (c c' : Compose) infos : Compose.convert_for_armour c = Ok (c', infos) ->
  exists cv proxies,
    Compose.convert_services subnets (co_services c) = Ok cv /\
    Compose.set_ingress_all (BTreeMap.collect (Compose.cv_hosts cv)) (co_proxies c) = Ok proxies /\
    Forall2 converted (co_services c) (co_services c') /\
    map (fun kv => addresses kv.2) (co_services c') = map (fun kv => addresses kv.2) (Compose.cv_services cv) /\
    co_networks c' = BTreeMap.collect (Compose.cv_networks cv) /\ co_proxies c' = [] /\
    infos = imap (Compose.pair_services (BTreeMap.collect (Compose.cv_infos cv)))
              (match proxies with [] => Compose.default_proxies (map fst (co_services c)) | _ => proxies end).
Proof.
  unfold Compose.convert_for_armour. intros Hc. destruct (Compose.convert_services _ _) as [cv|] eqn:Ecv; [|done].
  destruct (Compose.set_ingress_all _ _) as [proxies|] eqn:Ep; [|done].
  destruct (convert_services_spec _ _ _ Ecv) as (Hs & _).
  set (hosts := BTreeMap.collect (Compose.cv_hosts cv)) in *.
  set (out := match hosts with [] => Compose.cv_services cv | _ => _ end) in Hc.
  assert (Forall2 converted (co_services c) out /\
          map (fun kv => addresses kv.2) out = map (fun kv => addresses kv.2) (Compose.cv_services cv)) as [Hout Haddr].
  { unfold out. destruct hosts as [|h hosts'] eqn:Eh; [done|]. split.
    - apply Forall2_fmap_r. eapply Forall2_impl; [exact Hs|]. intros kv kv' Hkv. by apply with_extra_hosts_converted.
    - by rewrite map_map. }
  assert (map fst out = map fst (co_services c)) as Hnames.
  { clear -Hout. induction Hout as [|? ? ? ? [Hn _] _ IH]; [done|]. simpl. by rewrite Hn, IH. }
  injection Hc as <- <-. exists cv, proxies. rewrite Hnames. by split_and!.
Qed.

Lemma bridge_inj a b : Service.armour_bridge_network a = Service.armour_bridge_network b -> a = b.
Proof. unfold Service.armour_bridge_network. simpl. by intros [=]. Qed.

Lemma keys_NoDup {V} (m : BTreeMap string V) : BTreeMap.wf m -> NoDup (map fst m).
Proof.
  unfold BTreeMap.wf, BTreeMap.keys. induction 1 as [|k l _ IH Hlt]; constructor; [|done]. intros Hk.
  rewrite Forall_forall in Hlt. by apply (cmp_lt_irrefl k), Hlt.
Qed.

Lemma get_keys {K V} `{OrdLaws K} (m : BTreeMap K V) k : is_Some (BTreeMap.get m k) -> k ∈ map fst m.
Proof. intros [v Hv%BTreeMap.get_Some_elem]. apply list_elem_of_fmap. by exists (k, v). Qed.

Lemma keys_get {V} (m : BTreeMap string V) k : BTreeMap.wf m -> k ∈ map fst m -> is_Some (BTreeMap.get m k).
Proof. intros Hm ([? v] & -> & Hv)%list_elem_of_fmap. exists v. by apply BTreeMap.get_elem. Qed.

Lemma NoDup_bridges {V} (m : BTreeMap string V) : BTreeMap.wf m ->
  NoDup (map (fun kv => Service.armour_bridge_network kv.1) m).
Proof.
  intros Hm%keys_NoDup. rewrite <- (map_map fst Service.armour_bridge_network).
  apply NoDup_fmap_2; [|done]. intros a b. apply bridge_inj.
Qed.

Lemma keys_foldl_insert {V} (l : list (string * V)) m k :
  k ∈ BTreeMap.keys (foldl (fun m kv => BTreeMap.insert kv.1 kv.2 m) m l) <-> k ∈ map fst l \/ k ∈ BTreeMap.keys m.
Proof.
  revert m. induction l as [|[k0 v0] l IH]; intros m; simpl; [set_solver|]. rewrite IH, BTreeMap.keys_insert. set_solver.
Qed.

Lemma Forall_collect {V} (P : V -> Prop) (l : list (string * V)) :
  Forall (fun kv => P kv.2) l -> Forall (fun kv => P kv.2) (BTreeMap.collect l).
Proof.
  unfold BTreeMap.collect. assert (Forall (fun kv : string * V => P kv.2) []) as Hm by constructor. revert Hm.
  generalize (@nil (string * V)). induction l as [|[k0 v0] l IH]; intros m Hm Hl; simpl; [done|].
  apply Forall_cons in Hl as [H0 Hl]. apply IH; [|done]. clear -H0 Hm.
  induction m as [|[k1 v1] m IH]; simpl; [by constructor|]. apply Forall_cons in Hm as [H1 Hm].
  destruct (cmp k0 k1); [by constructor|by repeat constructor|]. constructor; auto.
Qed.

Lemma converted_lists (l l' : list (string * Service)) : Forall2 converted l l' ->
  map fst l' = map fst l /\
  map (fun kv => networks_used kv.2) l' = map (fun kv => [Service.armour_bridge_network kv.1]) l.
Proof. induction 1 as [|? ? ? ? (Hn & Hu & _) _ [IH1 IH2]]; [done|]. simpl. by rewrite Hn, Hu, IH1, IH2. Qed.

(** C17: after the conversion every service has exactly one network, an
    internal bridge that no other service uses, and no two services have the
    same address; the networks of the application are these bridges and no
    others; only the container name, extra hosts, networks and the section for
    this program are changed of a service. *)
Theorem services_isolated (c c' : Compose) (infos : list OnboardInfo) :
  BTreeMap.wf (co_services c) -> NoDup (omap (fun s => subnet_hosts s !! 1) subnets) ->
  Compose.convert_for_armour c = Ok (c', infos) ->
  Forall2 converted (co_services c) (co_services c') /\
  NoDup (concat (map (fun kv => networks_used kv.2) (co_services c'))) /\
  NoDup (concat (map (fun kv => addresses kv.2) (co_services c'))) /\
  (forall name, is_Some (BTreeMap.get (co_networks c') name) <->
     exists kv, kv ∈ co_services c /\ name = Service.armour_bridge_network kv.1) /\
  Forall (fun kv => bridge_ok kv.2) (co_networks c').
Proof.
  intros Hwf Hnets Hc. destruct (convert_for_armour_spec _ _ _ Hc) as (cv & ps & Ecv & _ & Hs & Ha & Hn & _ & _).
  destruct (convert_services_spec _ _ _ Ecv) as (_ & _ & Hk & Hb & Hsub). split_and!.
  - done.
  - destruct (converted_lists _ _ Hs) as [_ ->]. rewrite <- (map_map (fun kv => Service.armour_bridge_network kv.1) (fun n => [n])).
    rewrite <- flat_map_concat_map. apply NoDup_bridges in Hwf. revert Hwf. generalize (map (fun kv => Service.armour_bridge_network kv.1) (co_services c)).
    intros names. assert (flat_map (fun n : string => [n]) names = names) as ->; [|done].
    induction names as [|n names IH]; [done|]. simpl. by rewrite IH.
  - rewrite Ha. by eapply sublist_NoDup.
  - intros name. rewrite Hn. split.
    + intros Hg%get_keys. apply keys_foldl_insert in Hg as [Hg|Hg]; [|by apply elem_of_nil in Hg].
      rewrite Hk in Hg. apply list_elem_of_fmap in Hg as (kv & -> & Hkv). by exists kv.
    + intros (kv & Hkv & ->). apply keys_get; [apply BTreeMap.wf_collect|]. apply keys_foldl_insert. left. rewrite Hk.
      apply list_elem_of_fmap. by exists kv.
  - rewrite Hn. by apply Forall_collect.
Qed.

(** ** Which service is onboarded with which proxy *)

Lemma set_ingress_label hosts x x' : HostApi.set_ingress x hosts = Ok x' -> HostApi.px_label x' = HostApi.px_label x.
Proof. unfold HostApi.set_ingress. intros Hx. repeat case_match; by simplify_eq. Qed.

Lemma set_ingress_all_labels hosts (l l' : list HostApi.Proxy) : Compose.set_ingress_all hosts l = Ok l' ->
  map HostApi.px_label l' = map HostApi.px_label l.
Proof.
  revert l'. induction l as [|x l IH]; intros l' Hl; simpl in Hl; [by simplify_eq|].
  destruct (HostApi.set_ingress x hosts) as [x'|] eqn:Ex; [|done].
  destruct (Compose.set_ingress_all hosts l) as [l1|] eqn:El; [|done]. simplify_eq. simpl.
  by rewrite (set_ingress_label _ _ _ Ex), (IH _ eq_refl).
Qed.

Lemma wf_infos (m : BTreeMap string Service) : BTreeMap.wf m -> BTreeMap.wf (map (fun kv => (kv.1, info_of kv.2)) m).
Proof. unfold BTreeMap.wf, BTreeMap.keys. by rewrite map_map. Qed.

Lemma get_infos (m : BTreeMap string Service) name :
  BTreeMap.get (map (fun kv => (kv.1, info_of kv.2)) m) name = info_of <$> BTreeMap.get m name.
Proof. induction m as [|[k s] m IH]; [done|]. simpl. by destruct (cmp name k). Qed.

(** What a proxy is onboarded with. *)
Lemma get_pair_services (services : BTreeMap string ServiceInfo) k proxy name : BTreeMap.wf services ->
  BTreeMap.get (ob_services (Compose.pair_services services k proxy)) name =
  si ← BTreeMap.get services name;
  if Compose.attached (HostApi.px_label proxy) (name, si) || (Nat.eqb k 0 && Compose.unattached (name, si)) then Some si else None.
Proof.
  intros Hs. unfold Compose.pair_services. cbn [ob_services]. destruct (Nat.eqb k 0); cbn [andb].
  - rewrite BTreeMap.get_collect_app by (by apply map_wf_filter). rewrite !map_get_filter by done.
    destruct (BTreeMap.get services name) as [si|]; [|done]. simpl.
    destruct (Compose.attached _ _), (Compose.unattached _); done.
  - rewrite BTreeMap.collect_id by (by apply map_wf_filter). rewrite map_get_filter by done.
    destruct (BTreeMap.get services name) as [si|]; [|done]. simpl. by rewrite orb_false_r.
Qed.

(** A service names the label of a proxy. *)
Definition names_proxy (label : Label) (s : Service) : Prop :=
  exists p, p ∈ ar_proxies (sv_armour s) /\ Label.eqb p label = true.

Lemma attached_spec label name s : Compose.attached label (name, info_of s) = true <-> names_proxy label s.
Proof.
  unfold Compose.attached, names_proxy. rewrite existsb_exists. cbn [snd info_of si_proxies].
  by setoid_rewrite list_elem_of_In.
Qed.

Lemma unattached_spec name s : Compose.unattached (name, info_of s) = true <-> ar_proxies (sv_armour s) = [].
Proof. unfold Compose.unattached. cbn [snd info_of si_proxies]. by destruct (ar_proxies (sv_armour s)). Qed.

Lemma services_onboarded (c c' : Compose) (infos : list OnboardInfo) :
  BTreeMap.wf (co_services c) -> Compose.convert_for_armour c = Ok (c', infos) ->
  exists proxies : list HostApi.Proxy,
    map ob_proxies infos = map (fun p => [p]) proxies /\
    (co_proxies c <> [] -> map HostApi.px_label proxies = map HostApi.px_label (co_proxies c)) /\
    (co_proxies c = [] -> proxies = Compose.default_proxies (map fst (co_services c))) /\
    forall k info proxy name si, infos !! k = Some info -> proxies !! k = Some proxy ->
      BTreeMap.get (ob_services info) name = Some si <->
      exists s, BTreeMap.get (co_services c) name = Some s /\ si = info_of s /\
        (names_proxy (HostApi.px_label proxy) s \/ (k = 0 /\ ar_proxies (sv_armour s) = [])).
Proof.
  intros Hwf Hc. destruct (convert_for_armour_spec _ _ _ Hc) as (cv & ps & Ecv & Hps & _ & _ & _ & _ & Hinfos).
  destruct (convert_services_spec _ _ _ Ecv) as (_ & Hi & _). apply set_ingress_all_labels in Hps.
  rewrite Hi, BTreeMap.collect_id in Hinfos by by apply wf_infos.
  set (proxies := match ps with [] => _ | _ => ps end) in Hinfos. exists proxies. split_and!.
  - rewrite Hinfos. etransitivity; [apply fmap_imap|]. apply imap_const.
  - intros Hne. unfold proxies. destruct ps; [|done]. by destruct (co_proxies c).
  - intros He. rewrite He in Hps. unfold proxies. by destruct ps.
  - intros k info proxy name si Hk Hp. rewrite Hinfos, list_lookup_imap, Hp in Hk. simpl in Hk. injection Hk as <-.
    rewrite get_pair_services by by apply wf_infos. rewrite get_infos.
    destruct (BTreeMap.get (co_services c) name) as [s|]; simpl; [|naive_solver].
    transitivity (si = info_of s /\ (names_proxy (HostApi.px_label proxy) s \/ (k = 0 /\ ar_proxies (sv_armour s) = [])));
      [|naive_solver].
    rewrite <- attached_spec with (name := name), <- unattached_spec with (name := name).
    destruct (Compose.attached _ _), (Nat.eqb_spec k 0), (Compose.unattached _); simpl; naive_solver.
Qed.

(** C18: there is one onboarding for each proxy of the application, in their
    order, or for a proxy of each service when the application has none. With
    a proxy come exactly the services that name its label, and with the first
    also those that name no proxy; each with its labels and still without an
    address. *)
Theorem services_paired (c c' : Compose) (infos : list OnboardInfo) :
  BTreeMap.wf (co_services c) -> Compose.convert_for_armour c = Ok (c', infos) ->
  exists proxies : list HostApi.Proxy,
    map ob_proxies infos = map (fun p => [p]) proxies /\
    (co_proxies c <> [] -> map HostApi.px_label proxies = map HostApi.px_label (co_proxies c)) /\
    (co_proxies c = [] -> proxies = Compose.default_proxies (map fst (co_services c))) /\
    forall k info proxy name si, infos !! k = Some info -> proxies !! k = Some proxy ->
      BTreeMap.get (ob_services info) name = Some si <->
      exists s, BTreeMap.get (co_services c) name = Some s /\ si = info_of s /\
        (names_proxy (HostApi.px_label proxy) s \/ (k = 0 /\ ar_proxies (sv_armour s) = [])).
Proof. apply services_onboarded. Qed.
End spec.

(** ** An application *)
#[local] Instance test_ipnet : IpNet := {
  Subnet := Z;
  subnets := [2886860800; 2886861056; 2886861312]%Z;
  subnet_hosts n := map (fun i => n + i)%Z [1; 2; 3; 4]%Z;
}.

Definition test_service (proxies : Labels) (hostname : option string) : Service Empty_set :=
  let no_strings := string_or_list.mkStringList [] in
  let update := mkUpdateConfig None None None None None None [] in
  let resource := mkResource None None [] in
  mkService (Build.from_str "") (mkArmour [[Str "blue"]] proxies) None None None hostname None None None None None None None
    None None None None None None [] [] [] [] [] [] [] [] [] false false false false false (mkCapabilities [] []) no_strings no_strings no_strings no_strings
    no_strings [] array_dict.default array_dict.default array_dict.default array_dict.default
    (mkDeployment None None None array_dict.default update update (mkResources resource resource []) None None [])
    (NetArray []) [].

Definition test_proxy (name : string) : HostApi.Proxy := HostApi.of_label [Str name].

Definition test_compose : Compose Empty_set :=
  mkCompose "3" [("db", test_service [] (Some "db")); ("front", test_service [[Str "p2"]] None);
                 ("web", test_service [[Str "p1"]] (Some "web"))]
    [] [] [] [] [test_proxy "p1"; test_proxy "p2"] [].

Definition test_converted : Compose Empty_set * list OnboardInfo :=
  match Compose.convert_for_armour test_compose with Ok r => r | Err _ => (test_compose, []) end.

Lemma test_compose_wf : BTreeMap.wf (co_services test_compose).
Proof. repeat constructor. Qed.

Lemma services_isolated_witness :
  Compose.convert_for_armour test_compose = Ok test_converted /\
  map (fun kv => addresses kv.2) (co_services test_converted.1) = [[2886860802]; [2886861058]; [2886861314]]%Z /\
  NoDup (concat (map (fun kv => addresses kv.2) (co_services test_converted.1))) /\
  (exists kv, kv ∈ co_services test_compose /\ "arm-db" = Service.armour_bridge_network kv.1).
Proof.
  split; [vm_compute; reflexivity|]. split; [vm_compute; reflexivity|].
  destruct (services_isolated test_compose test_converted.1 test_converted.2) as (_ & _ & Ha & Hn & _).
  - apply test_compose_wf.
  - apply (bool_decide_unpack _). vm_compute. exact I.
  - vm_compute. reflexivity.
  - split; [exact Ha|]. apply Hn. vm_compute. by eexists.
Defined.

Lemma services_paired_witness :
  map (fun i => map fst (ob_services i)) test_converted.2 = [["db"; "web"]; ["front"]] /\
  exists s, BTreeMap.get (co_services test_compose) "db" = Some s /\
    (names_proxy [Str "p1"] s \/ (0 = 0 /\ ar_proxies (sv_armour s) = [])).
Proof.
  split; [vm_compute; reflexivity|].
  destruct (services_paired test_compose test_converted.1 test_converted.2) as (ps & Hp & _ & _ & Hs).
  - apply test_compose_wf.
  - vm_compute. reflexivity.
  - destruct ps as [|p ps]; [done|]. assert (p = test_proxy "p1") as ->.
    { vm_compute in Hp. by injection Hp. }
    destruct (Hs 0 (mkOnboardInfo [test_proxy "p1"] (ob_services (default (mkOnboardInfo [] []) (head test_converted.2))))
                (test_proxy "p1") "db" (mkServiceInfo [[Str "blue"]] [] None)) as [Hi _]; [vm_compute; reflexivity|done|].
    destruct Hi as (s & Hg & _ & Hd); [vm_compute; reflexivity|]. by exists s.
Defined.
