(* ===== verification/ComposeSerde.v ===== *)
(** * Reading applications (src/src/armour-compose/src)

    The deserializers that are written by hand, for data that docker-compose
    allows in several forms.  Those that serde derives for the structures are
    parameters. *)

From Stdlib Require Import ZArith Lia String Ascii List.
From stdpp Require Import base tactics list strings.
From S2P Require Import Prelude.
From S2P Require Import Ordered.
From S2P Require Import Strings.
From S2P Require Import Yaml.
From S2P Require Import Compose.

Local Open Scope string_scope.
Local Open Scope list_scope.

#[export] Instance driver_from_str : FromStr Driver := fun s =>
  match Driver.from_str s with Some d => Ok d | None => Err "failed to parse driver" end.
#[export] Instance driver_from_content : FromContent Driver := from_str.deserialize.
#[export] Instance order_from_str : FromStr Order := fun s =>
  match Order.from_str s with Some d => Ok d | None => Err "failed to parse rollback order" end.
#[export] Instance order_from_content : FromContent Order := from_str.deserialize.

Section serde.
Context {Value : Type}.
Definition Entries : Type := list (Content * Content).
Context (build_from_map : Entries -> result (Build Value) string).
Context (port_record : Entries -> result (PortRecord Value) string).
Context (volume_record : Entries -> result (VolumeRecord Value) string).
Context (config_record : Entries -> result (ConfigRecord Value) string).
Context (network_record : Content -> result (NetworkRecord Value) string).
Context (external_record : Content -> result string string).

Definition struct_or {A B C} (f : A -> B) (r : result A C) : result B C :=
  match r with Ok a => Ok (f a) | Err e => Err e end.

#[export] Instance build_from_str : FromStr (Build Value) := fun s => Ok (Build.from_str s).
Definition build_from_content : Content -> result (Build Value) string := string_or_struct.deserialize build_from_map.

(** A number is the text of the number. *)
Definition port_from_content (c : Content) : result (Port Value) string :=
  match c with
  | CU64 value => Ok (PortRaw (i64_to_string value))
  | CStr value => Ok (PortRaw value)
  | CMap map => struct_or PortStruct (port_record map)
  | _ => Err "string or map"
  end.

Definition volume_from_content (c : Content) : result (Volume Value) string :=
  match c with
  | CStr value => Ok (VolumeRaw value)
  | CMap map => struct_or VolumeStruct (volume_record map)
  | _ => Err "string or map"
  end.

Definition config_from_content (c : Content) : result (Config Value) string :=
  match c with
  | CStr value => Ok (ConfigRaw value)
  | CMap map => struct_or ConfigStruct (config_record map)
  | _ => Err "string or map"
  end.

Definition external_from_content (c : Content) : result External string :=
  match c with
  | CBool b => Ok (ExternalRaw b)
  | c => match external_record c with Ok name => Ok (ExternalStruct name) | Err _ => Err "no variant" end
  end.

(** Networks by name; a name without a record has the default one. *)
Definition network_record_default : NetworkRecord Value := mkNetworkRecord [] None None [].
Definition optional_record (c : Content) : result (NetworkRecord Value) string :=
  match c with CUnit => Ok network_record_default | c => network_record c end.
Definition networks_from_content (c : Content) : result (Networks Value) string :=
  match c with
  | CSeq seq => struct_or (@NetArray Value) (collect_results from_content seq)
  | CMap map => struct_or (@NetDict Value) (map_from_content optional_record map)
  | _ => Err "string list or map"
  end.
End serde.

Example driver_any_case : @from_content Driver _ (CStr "Overlay") = Ok Overlay.
Proof. reflexivity. Qed.

Example port_number : @port_from_content Empty_set (fun _ => Err "") (CU64 8080) = Ok (PortRaw "8080").
Proof. by vm_compute. Qed.

Example networks_without_records :
  @networks_from_content Empty_set (fun _ => Err "") (CMap [(CStr "b", CUnit); (CStr "a", CUnit)]) =
  Ok (NetDict [("a", network_record_default); ("b", network_record_default)]).
Proof. by vm_compute. Qed.
