(* ===== verification/Docker.v ===== *)
(** * The docker API (src/src/docker-api/src)

    A client of the docker engine: what it sends for each operation, and how
    answers and errors are read.  The connection to the engine, the JSON
    library and times are parameters; effects are on a state [W]. *)

From Stdlib Require Import ZArith Lia String Ascii List.
From stdpp Require Import base tactics list strings sets.
From S2P Require Import Prelude.
From S2P Require Import Ordered.
From S2P Require Import Strings.
From S2P Require Import Labels.
From S2P Require Import Net.
From S2P Require Import Literals.
From S2P Require Import Host.

Local Open Scope string_scope.
Local Open Scope list_scope.

(** A hash map: its bindings, each key once, in the order of iteration. *)
Definition HashMap (K V : Type) : Type := list (K * V).

(** ** What the engine answers (rep.rs) *)
Module rep.
Section rep.
(** [chrono::DateTime<Utc>] *)
Variable DateTime : Type.

Definition PortDescription : Type := HashMap string (option (list (HashMap string string))).

Record SearchResult := mkSearchResult {
  sr_description : string;
  sr_is_official : bool;
  sr_is_automated : bool;
  sr_name : string;
  sr_star_count : Z;
}.
Record Image := mkImage {
  img_created : DateTime;
  img_id : string;
  img_parent_id : string;
  img_labels : option (HashMap string string);
  img_repo_tags : option (list string);
  img_repo_digests : option (list string);
  img_virtual_size : Z;
}.
Record Mount := mkMount { mt_source : string; mt_destination : string; mt_mode : string; mt_rw : bool }.
Record State := mkState {
  st_error : string;
  st_exit_code : Z;
  st_finished_at : DateTime;
  st_oom_killed : bool;
  st_paused : bool;
  st_pid : Z;
  st_restarting : bool;
  st_running : bool;
  st_started_at : DateTime;
}.
Record NetworkEntry := mkNetworkEntry {
  ne_network_id : string;
  ne_endpoint_id : string;
  ne_gateway : string;
  ne_ip_address : string;
  ne_ip_prefix_len : Z;
  ne_ipv6_gateway : string;
  ne_global_ipv6_address : string;
  ne_global_ipv6_prefix_len : Z;
  ne_mac_address : string;
}.
Record NetworkSettings := mkNetworkSettings {
  ns_bridge : string;
  ns_gateway : string;
  ns_ip_address : string;
  ns_ip_prefix_len : Z;
  ns_mac_address : string;
  ns_ports : option PortDescription;
  ns_networks : HashMap string NetworkEntry;
}.
Record HostConfig := mkHostConfig {
  hc_cgroup_parent : option string;
  hc_container_id_file : string;
  hc_cpu_shares : option Z;
  hc_cpuset_cpus : option string;
  hc_memory : option Z;
  hc_memory_swap : option Z;
  hc_network_mode : string;
  hc_pid_mode : option string;
  hc_port_bindings : option (HashMap string (list (HashMap string string)));
  hc_privileged : bool;
  hc_publish_all_ports : bool;
  hc_readonly_rootfs : option bool;
}.
Record Config := mkConfig {
  cf_attach_stderr : bool;
  cf_attach_stdin : bool;
  cf_attach_stdout : bool;
  cf_cmd : option (list string);
  cf_domainname : string;
  cf_entrypoint : option (list string);
  cf_env : option (list string);
  cf_exposed_ports : option (HashMap string (HashMap string string));
  cf_hostname : string;
  cf_image : string;
  cf_labels : option (HashMap string string);
  cf_on_build : option (list string);
  cf_open_stdin : bool;
  cf_stdin_once : bool;
  cf_tty : bool;
  cf_user : string;
  cf_working_dir : string;
}.
Record ImageDetails := mkImageDetails {
  imd_architecture : string;
  imd_author : string;
  imd_comment : string;
  imd_config : Config;
  imd_created : DateTime;
  imd_docker_version : string;
  imd_id : string;
  imd_os : string;
  imd_parent : string;
  imd_size : Z;
  imd_virtual_size : Z;
}.
Record ContainerDetails := mkContainerDetails {
  cd_app_armor_profile : string;
  cd_args : list string;
  cd_config : Config;
  cd_created : DateTime;
  cd_driver : string;
  cd_host_config : HostConfig;
  cd_hostname_path : string;
  cd_hosts_path : string;
  cd_log_path : string;
  cd_id : string;
  cd_image : string;
  cd_mount_label : string;
  cd_name : string;
  cd_network_settings : NetworkSettings;
  cd_path : string;
  cd_process_label : string;
  cd_resolv_conf_path : string;
  cd_restart_count : Z;
  cd_state : State;
  cd_mounts : list Mount;
}.
Record Port := mkPort {
  pt_ip : option string;
  pt_private_port : Z;
  pt_public_port : option Z;
  pt_typ : string;
}.
Record Container := mkContainer {
  ct_created : DateTime;
  ct_command : string;
  ct_id : string;
  ct_image : string;
  ct_image_id : string;
  ct_labels : HashMap string string;
  ct_names : list string;
  ct_ports : list Port;
  ct_state : string;
  ct_status : string;
  ct_size_rw : option Z;
  ct_size_root_fs : option Z;
}.
Record Network := mkNetwork {
  nt_rx_dropped : Z;
  nt_rx_bytes : Z;
  nt_rx_errors : Z;
  nt_tx_packets : Z;
  nt_tx_dropped : Z;
  nt_rx_packets : Z;
  nt_tx_errors : Z;
  nt_tx_bytes : Z;
}.
Record IPAM := mkIPAM {
  ipam_driver : string;
  ipam_config : list (HashMap string string);
  ipam_options : option (HashMap string string);
}.
Record NetworkContainerDetails := mkNetworkContainerDetails {
  ncd_endpoint_id : string;
  ncd_mac_address : string;
  ncd_ipv4_address : string;
  ncd_ipv6_address : string;
}.
Record NetworkDetails := mkNetworkDetails {
  nd_name : string;
  nd_id : string;
  nd_scope : string;
  nd_driver : string;
  nd_enable_ipv6 : bool;
  nd_ipam : IPAM;
  nd_internal : bool;
  nd_attachable : bool;
  nd_containers : HashMap string NetworkContainerDetails;
  nd_options : option (HashMap string string);
  nd_labels : option (HashMap string string);
}.
Record Version := mkVersion {
  ver_version : string;
  ver_api_version : string;
  ver_git_commit : string;
  ver_go_version : string;
  ver_os : string;
  ver_arch : string;
  ver_kernel_version : string;
  ver_build_time : DateTime;
}.
Record Info := mkInfo {
  inf_containers : Z;
  inf_images : Z;
  inf_driver : string;
  inf_docker_root_dir : string;
  inf_driver_status : list (list string);
  inf_id : string;
  inf_kernel_version : string;
  inf_mem_total : Z;
  inf_memory_limit : bool;
  inf_n_cpu : Z;
  inf_n_events_listener : Z;
  inf_n_goroutines : Z;
  inf_name : string;
  inf_operating_system : string;
  inf_swap_limit : bool;
  inf_system_time : option string;
}.
Record Volume := mkVolume {
  vo_created_at : DateTime;
  vo_driver : string;
  vo_labels : option (HashMap string string);
  vo_name : string;
  vo_mountpoint : string;
  vo_options : option (HashMap string string);
  vo_scope : string;
}.
Record Volumes := mkVolumes { vs_volumes : option (list Volume); vs_warnings : option (list string) }.
End rep.
Arguments mkState {DateTime}.
Arguments st_running {DateTime}.
Arguments mkContainerDetails {DateTime}.
Arguments cd_state {DateTime}.
Arguments cd_network_settings {DateTime}.
End rep.

(** The environment of a configuration; a variable without a value panics. *)
Module Config.
Definition env (c : rep.Config) : Outcome (HashMap string string) :=
  let insert k v m := (k, v) :: List.filter (fun kv : string * string => negb (kv.1 =? k)) m in
  match rep.cf_env c with
  | None => Val []
  | Some vars =>
    foldl (fun m e =>
      m ← m;
      match split "=" e with
      | k :: v :: _ => Val (insert k v m)
      | _ => Panic
      end) (Val []) vars
  end.
End Config.

(** ** The client (lib.rs) *)

Class FromJson (T : Type) := from_json : string -> result T string.

Class DockerEngine (W : Type) := {
  DateTime : Type;
  (** The status and the parts of the body of an answer; reading one may fail. *)
  docker_request : HttpMethod -> string -> W -> result (Z * list (option string)) string * W;
  (** The message of an error, when the body is one. *)
  json_message : string -> option string;
  form_urlencoded : list (string * string) -> string;
}.

Module Docker.
Section docker.
Context {W : Type} `{DockerEngine W}.

Definition error {A} (s : string) : Outcome A := Fail (error_new s).

(** [Error::from] and its [Display]. *)
Definition error_from (path body : string) : string :=
  "docker API error (" ^^ default path (json_message body) ^^ ")".

Definition is_success (status : Z) : bool := (200 <=? status)%Z && (status <? 300)%Z.

Definition process_body (path : string) (res : Z * list (option string)) : Outcome string :=
  match mapM id res.2 with
  | None => error "body"
  | Some chunks =>
    let body := String.concat "" chunks in
    if is_success res.1 then Val body else error (error_from path body)
  end.

Definition request (method : HttpMethod) (path : string) : Comp W string := fun w =>
  let '(r, w) := docker_request method path w in
  (match r with Ok res => process_body path res | Err e => error e end, w).

Definition get {T} `{FromJson T} (path : string) : Comp W T :=
  body ← request GET path;
  lift (match from_json body with Ok v => Val v | Err e => error e end).
Definition post (path : string) : Comp W string := request POST path.
Definition delete (path : string) : Comp W string := request DELETE path.
Definition unit_of (r : Comp W string) : Comp W unit := _ ← r; mret tt.

(** System *)
Definition info `{FromJson rep.Info} : Comp W rep.Info := get "/info".
Definition version `{FromJson (rep.Version DateTime)} : Comp W (rep.Version DateTime) := get "/version".

(** Containers *)
Definition containers `{FromJson (list (rep.Container DateTime))} : Comp W (list (rep.Container DateTime)) :=
  get "/containers/json?all=1".
Definition inspect_container `{FromJson (rep.ContainerDetails DateTime)} (id : string)
    : Comp W (rep.ContainerDetails DateTime) := get ("/containers/" ^^ id ^^ "/json").
Definition start_container (id : string) : Comp W unit := unit_of (post ("/containers/" ^^ id ^^ "/start")).
Definition stop_container (id : string) : Comp W unit := unit_of (post ("/containers/" ^^ id ^^ "/stop")).
Definition remove_container (id : string) : Comp W unit := unit_of (delete ("/containers/" ^^ id)).
Definition pause_container (id : string) : Comp W unit := unit_of (post ("/containers/" ^^ id ^^ "/pause")).
Definition unpause_container (id : string) : Comp W unit := unit_of (post ("/containers/" ^^ id ^^ "/unpause")).

(** Images *)
Definition images `{FromJson (list (rep.Image DateTime))} : Comp W (list (rep.Image DateTime)) :=
  get "/images/json?all=1".
Definition inspect_image `{FromJson (rep.ImageDetails DateTime)} (name : string)
    : Comp W (rep.ImageDetails DateTime) := get ("/images/" ^^ name ^^ "/json").
Definition search_filters (official : option bool) (stars : Z) : string :=
  let stars := quote "stars" ^^ ":[" ^^ quote (i64_to_string stars) ^^ "]}" in
  match official with
  | Some b => "{" ^^ quote "is-official" ^^ ":[" ^^ quote (if b then "true" else "false") ^^ "]," ^^ stars
  | None => "{" ^^ stars
  end.
Definition search_images `{FromJson (list rep.SearchResult)} (term : string) (official : option bool) (stars : Z)
    : Comp W (list rep.SearchResult) :=
  get ("/images/search?" ^^ form_urlencoded [("term", term); ("filters", search_filters official stars)]).

(** Networks and volumes *)
Definition networks `{FromJson (list rep.NetworkDetails)} : Comp W (list rep.NetworkDetails) := get "/networks".
Definition inspect_network `{FromJson rep.NetworkDetails} (id : string) : Comp W rep.NetworkDetails :=
  get ("/networks/" ^^ id).
Definition volumes `{FromJson (rep.Volumes DateTime)} : Comp W (rep.Volumes DateTime) := get "/volumes".
Definition inspect_volume `{FromJson (rep.Volume DateTime)} (name : string) : Comp W (rep.Volume DateTime) :=
  get ("/volumes/" ^^ name).
End docker.
End Docker.
