(* ===== verification/Launch.v ===== *)
(** * The launcher (src/src/armour-launch/src)

    The program that starts and stops an application: it converts the
    application, runs docker-compose, finds the addresses of the containers,
    onboards each proxy with the host daemon, and writes scripts that redirect
    the traffic of services to their proxies.

    Docker is [Docker]; docker-compose, the connection to the host, files and
    the YAML library are [LaunchOutside]. *)

From Stdlib Require Import ZArith Lia String Ascii List.
From stdpp Require Import base tactics list strings sets.
From S2P Require Import Prelude.
From S2P Require Import Ordered.
From S2P Require Import Strings.
From S2P Require Import Labels.
From S2P Require Import Net.
From S2P Require Import Literals.
From S2P Require Import Host.
From S2P Require Import Compose.
From S2P Require Import Docker.

Local Open Scope string_scope.
Local Open Scope list_scope.

(** What a command printed: nothing for text that is not UTF-8. *)
Record CommandOutput := mkOutput { out_success : bool; out_stdout : option string; out_stderr : option string }.

(** [url::Url]: its host and port, when it has them, and its text. *)
Record HostUrl := mkHostUrl { hu_host : option string; hu_port : option Z; hu_text : string }.

Class LaunchOutside (W : Type) `{IpNet} (Value : Type) := {
  command : string -> list string -> W -> result CommandOutput string * W;
  (** The client with its certificates. *)
  make_client : W -> result unit string * W;
  (** A request to the host: the status and the body, when it can be read and
      is UTF-8. *)
  host_request : HttpMethod -> string -> RestRequest -> W -> result (Z * option string) string * W;
  read_yaml : string -> W -> result (Compose Value) string * W;
  to_yaml : Compose Value -> result string string;
  write_file : string -> string -> W -> result unit string * W;
  Handle : Type;
  create_file : string -> W -> result Handle string * W;
  set_mode : Handle -> Z -> W -> result unit string * W;
  write_all : Handle -> string -> W -> result unit string * W;
  (** [Debug] *)
  debug_info : OnboardInfo -> string;
}.

(** [Ipv4Addr::from_str] *)
Definition ipv4_from_str (s : string) : option Z :=
  '(ip, rest) ← IpAddr.read_ipv4 s; if rest =? "" then Some ip else None.

Section launch.
Context {W Value : Type} `{IterOrder} `{DockerEngine W} `{!FromJson (rep.ContainerDetails DateTime)}.
Context `{LaunchOutside W Value}.
Context `{Profile}.
Notation error := Docker.error.

(** The operator [?] on the result of an effect. *)
Definition run {A} (f : W -> result A string * W) : Comp W A := fun w =>
  let '(r, w) := f w in (match r with Ok a => Val a | Err e => error e end, w).

(** ** docker-compose *)

Definition docker_compose (args : list string) : Comp W unit :=
  child ← run (command "docker-compose" args);
  if out_success child then lift (match out_stdout child with Some _ => Val tt | None => error "utf-8" end)
  else lift (match out_stderr child with Some e => error e | None => error "utf-8" end).
Definition docker_up (out_file : string) : Comp W unit := docker_compose ["--file"; out_file; "up"; "--no-start"].
Definition docker_down (out_file : string) : Comp W unit := docker_compose ["--file"; out_file; "down"].

(** ** The host daemon *)

Definition service_url (host : string) (host_url : HostUrl) (path : string) : string :=
  "https://" ^^ host ^^ ":" ^^ i64_to_string (default 8090%Z (hu_port host_url)) ^^ "/service/" ^^ path.

Definition message (body : option string) : option string :=
  m ← body; if m =? "" then None else Some m.

Definition drop_services (host_url : HostUrl) (proxies : list HostApi.Proxy) : Comp W unit :=
  match proxies with
  | [] => mret tt
  | _ =>
    match hu_host host_url with
    | None => lift (error ("bad host URL: " ^^ hu_text host_url))
    | Some host_str => fun w =>
      let '(r, w) := host_request DELETE (service_url host_str host_url "drop") (ServiceDrop proxies) w in
      (match r with
       | Err err => error (hu_text host_url ^^ ": drop services failed: " ^^ err)
       | Ok (status, body) =>
         if Docker.is_success status then Val tt else error (default "drop services failed" (message body))
       end, w)
    end
  end.

(** Errors of docker are printed only. *)
Definition attempt {A} (m : Comp W A) : Comp W (option A) := fun w =>
  match m w with
  | (Val a, w) => (Val (Some a), w)
  | (Fail _, w) => (Val None, w)
  | (Panic, w) => (Panic, w)
  | (OutOfFuel, w) => (OutOfFuel, w)
  end.

Fixpoint unpause_names (names : list string) : Comp W unit :=
  match names with
  | [] => mret tt
  | name :: names => _ ← attempt (Docker.unpause_container name); unpause_names names
  end.
Definition unpause_all (information : OnboardInfo) : Comp W unit := unpause_names (map fst (ob_services information)).

Definition onboard_services (host_url : HostUrl) (info : OnboardInfo) (out_file : string) : Comp W unit :=
  match hu_host host_url with
  | None => lift (error ("onboarding failed, bad host URL: " ^^ hu_text host_url))
  | Some host_str => fun w =>
    let onboard_info := onboard_information info in
    let failed e :=
      _ ← docker_down out_file; _ ← drop_services host_url (ob_proxies info); lift (error e) in
    let '(r, w) := host_request POST (service_url host_str host_url "on-board") (ServiceOnBoard onboard_info) w in
    match r with
    | Ok (status, body) =>
      if Docker.is_success status then unpause_all info w
      else failed (default ("onboarding failed for " ^^ debug_info info) (message body)) w
    | Err e => failed ("onboarding failed: " ^^ e) w
    end
  end.

(** ** The containers *)

Fixpoint all_running (names : list string) : Comp W bool :=
  match names with
  | [] => mret true
  | name :: names =>
    container ← attempt (Docker.inspect_container name);
    if match container with Some c => negb (rep.st_running (rep.cd_state c)) | None => true end
    then mret false else all_running names
  end.
Definition already_running (information : OnboardInfo) : Comp W bool := all_running (map fst (ob_services information)).

Definition get_ip_address (container : rep.ContainerDetails DateTime) : option Z :=
  '(_, network) ← head (iter_order (rep.ns_networks (rep.cd_network_settings container)));
  ipv4_from_str (rep.ne_ip_address network).

Definition with_address (info : ServiceInfo) (address : option Z) : ServiceInfo :=
  mkServiceInfo (si_labels info) (si_proxies info) address.

(** Starts and pauses a container to find its address. *)
Definition container_address (name : string) (info : ServiceInfo) : Comp W ServiceInfo :=
  started ← attempt (Docker.start_container name);
  match started with
  | None => mret info
  | Some _ =>
    paused ← attempt (Docker.pause_container name);
    match paused with
    | None => mret info
    | Some _ =>
      container ← attempt (Docker.inspect_container name);
      mret (match container with Some c => with_address info (get_ip_address c) | None => info end)
    end
  end.
Fixpoint set_addresses (services : list (string * ServiceInfo)) : Comp W (list (string * ServiceInfo)) :=
  match services with
  | [] => mret []
  | (name, info) :: services =>
    info ← container_address name info;
    services ← set_addresses services;
    mret ((name, info) :: services)
  end.
Definition set_ip_addresses (information : OnboardInfo) : Comp W OnboardInfo :=
  services ← set_addresses (ob_services information);
  mret (mkOnboardInfo (ob_proxies information) services).

(** ** Rules *)

Definition newline : string := String "010" "".
Definition prerouting_rule (delete : bool) (network_name : string) (port : Z) : string :=
  "iptables -t nat -" ^^ (if delete then "D" else "I") ^^ " PREROUTING -i " ^^ network_name ^^
  " -p tcp -j DNAT --to-destination 127.0.0.1:" ^^ i64_to_string port ^^ newline ^^
  (if delete then "" else "sysctl -w net.ipv4.conf." ^^ network_name ^^ ".route_localnet=1" ^^ newline).
Definition etc_hosts_rule (delete : bool) (ip : Z) (hostname : string) : string :=
  if delete then "sed -i.bak '/" ^^ Compose.ipv4_to_string ip ^^ " " ^^ hostname ^^ "/d' /etc/hosts" ^^ newline
  else "echo '" ^^ Compose.ipv4_to_string ip ^^ " " ^^ hostname ^^ "' >> /etc/hosts" ^^ newline.

(** [Path::set_extension]: replaces what follows the last dot of the last
    part of a path, unless this part starts with its only dot. *)
Definition set_extension (file extension : string) : string :=
  let parts := split "/" file in
  let name := List.last parts "" in
  let dir := removelast parts in
  let pieces := split "." name in
  let stem := join "." (removelast pieces) in
  let stem := if (Nat.eqb (length pieces) 1) || (stem =? "") then name else stem in
  join "/" (dir ++ [stem ^^ "." ^^ extension]).

Definition create_exe (stem suffix : string) : Comp W Handle :=
  file ← run (create_file (set_extension (stem ^^ suffix) "sh"));
  _ ← run (set_mode file 484);
  mret file.

(** The port of each proxy. *)
Fixpoint ports (port : Z) (proxies : list HostApi.Proxy) (port_map : BTreeMap Label Z) : Outcome (BTreeMap Label Z) :=
  match proxies with
  | [] => Val port_map
  | proxy :: proxies =>
    proxy_port ← HostApi.port proxy port;
    ports port proxies (BTreeMap.insert (HostApi.px_label proxy) proxy_port port_map)
  end.

(** The proxy of a service: the first onboarded with the service. *)
Definition proxy_name (onboard_info0 : list OnboardInfo) (service_name : string) : Outcome Label :=
  match List.filter (fun x => match BTreeMap.get (ob_services x) service_name with Some _ => true | None => false end)
          onboard_info0 with
  | x :: _ => match ob_proxies x with p :: _ => Val (HostApi.px_label p) | [] => Panic end
  | [] => Panic
  end.
Definition proxy_port (port_map : BTreeMap Label Z) (onboard_info0 : list OnboardInfo) (service_name : string)
    : Outcome (option Z) :=
  if Nat.eqb (length port_map) 1 then Val (head (map snd port_map))
  else proxy_name ← proxy_name onboard_info0 service_name; Val (BTreeMap.get port_map proxy_name).

(** The three files. *)
Record RuleFiles := mkRuleFiles { up_file : Handle; down_file : Handle; hosts_file : Handle }.

Definition network_rules (files : RuleFiles) (service_name : string) (hostname : option string) (port : option Z)
    (network_name : string) (network : NetworkRecord Value) : Comp W unit :=
  _ ← match port with
      | Some port =>
        let s := "# " ^^ service_name ^^ newline in
        _ ← run (write_all (up_file files) s);
        _ ← run (write_all (down_file files) s);
        _ ← run (write_all (up_file files) (prerouting_rule false network_name port));
        run (write_all (down_file files) (prerouting_rule true network_name port))
      | None => mret tt
      end;
  match nr_ipv4_address network, hostname with
  | Some ip, Some hostname =>
    _ ← run (write_all (hosts_file files) (etc_hosts_rule false ip hostname));
    run (write_all (down_file files) (etc_hosts_rule true ip hostname))
  | _, _ => mret tt
  end.

Fixpoint networks_rules (files : RuleFiles) (port_map : BTreeMap Label Z) (onboard_info0 : list OnboardInfo)
    (service_name : string) (hostname : option string) (dict : list (string * NetworkRecord Value)) : Comp W unit :=
  match dict with
  | [] => mret tt
  | (network_name, network) :: dict =>
    port ← lift (proxy_port port_map onboard_info0 service_name);
    _ ← network_rules files service_name hostname port network_name network;
    networks_rules files port_map onboard_info0 service_name hostname dict
  end.

Fixpoint services_rules (files : RuleFiles) (port_map : BTreeMap Label Z) (onboard_info0 : list OnboardInfo)
    (services : list (string * Service Value)) : Comp W unit :=
  match services with
  | [] => mret tt
  | (service_name, service) :: services =>
    _ ← match sv_networks service, Label.from_str service_name with
        | NetDict dict, Ok _ => networks_rules files port_map onboard_info0 service_name (sv_hostname service) dict
        | _, _ => mret tt
        end;
    services_rules files port_map onboard_info0 services
  end.

Definition rules (compose : Compose Value) (onboard_info0 : list OnboardInfo)
    (onboard_info : HostApi.OnboardInformation) (stem : string) : Comp W unit :=
  up_file ← create_exe stem "_up";
  down_file ← create_exe stem "_down";
  hosts_file ← create_exe stem "_hosts";
  port_map ← lift (ports (HostApi.top_port onboard_info) (HostApi.oi_proxies onboard_info) []);
  services_rules (mkRuleFiles up_file down_file hosts_file) port_map onboard_info0 (co_services compose).

(** ** The program (main.rs) *)

(** [Compose::read_armour] *)
Definition compose_read_armour (p : string) : Comp W (Compose Value * list OnboardInfo) :=
  compose ← run (read_yaml p);
  lift (match Compose.convert_for_armour compose with Ok r => Val r | Err e => error e end).

Definition read_armour (in_file out_file : string) : Comp W (list OnboardInfo) :=
  '(compose, info) ← compose_read_armour in_file;
  text ← lift (match to_yaml compose with Ok s => Val s | Err e => error e end);
  _ ← run (write_file out_file text);
  mret info.

Fixpoint up_all (host_url : HostUrl) (out_file : string) (infos : list OnboardInfo) : Comp W unit :=
  match infos with
  | [] => mret tt
  | info :: infos =>
    running ← already_running info;
    if running : bool then lift (error "already running! run armour-lauch `down` first?")
    else
      _ ← docker_up out_file;
      info ← set_ip_addresses info;
      _ ← run make_client;
      _ ← onboard_services host_url info out_file;
      up_all host_url out_file infos
  end.

Fixpoint down_all (host_url : HostUrl) (infos : list OnboardInfo) : Comp W unit :=
  match infos with
  | [] => mret tt
  | info :: infos =>
    _ ← run make_client;
    _ ← drop_services host_url (ob_proxies info);
    down_all host_url infos
  end.

Inductive Subcommand := Up | Down | Rules (rules_file : option string).

Definition main (host_url : HostUrl) (in_file : string) (file : option string) (matches : Subcommand) : Comp W unit :=
  let out_file := default "docker-compose.yml" file in
  match matches with
  | Up =>
    infos ← read_armour in_file out_file;
    up_all host_url out_file infos
  | Down =>
    infos ← read_armour in_file out_file;
    _ ← docker_down out_file;
    down_all host_url infos
  | Rules rules_file =>
    '(compose, infos) ← compose_read_armour in_file;
    let rules_file := default "rules" rules_file in
    let info := mkOnboardInfo (concat (map ob_proxies infos)) [] in
    rules compose infos (onboard_information info) rules_file
  end.
End launch.

(** ** The names of the scripts *)

Lemma split_snoc_free c s t : free_of c t = true ->
  split (String c "") (s ^^ t) =
    removelast (split (String c "") s) ++ [List.last (split (String c "") s) "" ^^ t].
Proof.
  intros Ht. induction s as [|d s IH].
  - rewrite <- (append_nil_r t). simpl. rewrite split_app_free by done. unfold split. simpl. by rewrite append_nil_r.
  - destruct (split_go_nonempty (String c "") 0 s) as (q & l & Hs).
    change (split_go (String c "") 0 s) with (split (String c "") s) in Hs.
    destruct (ascii_dec d c) as [->|Hd].
    + change (String c s ^^ t) with (String c "" ^^ (s ^^ t)). change (String c s) with (String c "" ^^ s).
      rewrite !split_sep, IH, Hs. done.
    + change (String d s ^^ t) with (String d (s ^^ t)). rewrite !split_char_other by done. rewrite IH, Hs.
      destruct l as [|q' l]; done.
Qed.

Lemma join_snoc sep l x t : join sep (l ++ [x ^^ t]) = join sep (l ++ [x]) ^^ t.
Proof.
  induction l as [|y l IH]; [done|]. simpl. destruct (l ++ [x ^^ t]) eqn:E1; [by destruct l|].
  destruct (l ++ [x]) eqn:E2; [by destruct l|]. by rewrite IH, !append_assoc.
Qed.

(** The last part of a path. *)
Definition file_name (path : string) : string := List.last (split "/" path) "".

(** Without a dot in it, the extension is appended. *)
Lemma set_extension_plain stem suffix ext :
  free_of "." (file_name stem) = true -> free_of "." suffix = true -> free_of "/" suffix = true ->
  set_extension (stem ^^ suffix) ext = stem ^^ suffix ^^ "." ^^ ext.
Proof.
  intros Hn Hs Hp. unfold set_extension, file_name in *. rewrite split_snoc_free by done.
  rewrite last_last, removelast_last. set (name := List.last (split "/" stem) "") in *.
  assert (free_of "." (name ^^ suffix) = true) as Hf.
  { unfold free_of in *. by rewrite forall_chars_append, Hn, Hs. }
  assert (split "." (name ^^ suffix) = [name ^^ suffix]) as ->.
  { exact (split_join "." "" [name ^^ suffix] ltac:(done) ltac:(by repeat constructor)). }
  cbn [length Nat.eqb orb]. rewrite append_assoc, !join_snoc.
  unfold name. rewrite <- (app_removelast_last "" (l := split "/" stem)).
  - by rewrite join_split.
  - destruct (split_go_nonempty "/" 0 stem) as (q & l & Hq). unfold split. by rewrite Hq.
Qed.

(** A stem with a dot in its last part gives one name to all three files. *)
Example set_extension_dot :
  map (fun suffix => set_extension ("out/my.rules" ^^ suffix) "sh") ["_up"; "_down"; "_hosts"] =
    ["out/my.sh"; "out/my.sh"; "out/my.sh"] /\
  map (fun suffix => set_extension ("rules" ^^ suffix) "sh") ["_up"; "_down"; "_hosts"] =
    ["rules_up.sh"; "rules_down.sh"; "rules_hosts.sh"].
Proof. by vm_compute. Qed.

(** A service that names no proxy of the application panics, when there is
    more than one proxy. *)
Lemma proxy_port_panics port_map infos name :
  length port_map <> 1 -> Forall (fun i => BTreeMap.get (ob_services i) name = None) infos ->
  proxy_port port_map infos name = Panic.
Proof.
  intros Hl Hi. unfold proxy_port. destruct (Nat.eqb_spec (length port_map) 1); [done|]. unfold proxy_name.
  assert (List.filter (fun x => match BTreeMap.get (ob_services x) name with Some _ => true | None => false end) infos = [])
    as ->; [|done].
  induction Hi as [|i infos Hg _ IH]; [done|]. simpl. by rewrite Hg.
Qed.
