(* ===== verification/LaunchTheory.v ===== *)
(** * The launcher, proved

    Containers are unpaused only after the host accepted the onboarding of
    their service (they were started, and paused, before that); an application
    with a proxy that gets no service never comes up; what the scripts of
    [rules] hold, and where they redirect traffic to. *)

From Stdlib Require Import ZArith Lia String Ascii List.
From stdpp Require Import base tactics list strings sets.
From S2P Require Import Prelude.
From S2P Require Import Ordered.
From S2P Require Import Strings.
From S2P Require Import Labels.
From S2P Require Import Net.
From S2P Require Import Literals.
From S2P Require Import Proxy.
From S2P Require Import Host.
From S2P Require Import Compose.
From S2P Require Import Docker.
From S2P Require Import Launch.

Local Open Scope string_scope.
Local Open Scope list_scope.

(** ** Proxies without services *)

Section up.
Context {W Value : Type} `{IterOrder} `{DockerEngine W} `{!FromJson (rep.ContainerDetails DateTime)}.
Context `{LaunchOutside W Value} `{Profile}.

(** The labels of the proxies that are onboarded: those of the application, or
    one for each service. *)
Definition effective_labels (c : Compose Value) : list Label :=
  map HostApi.px_label
    (match co_proxies c with [] => Compose.default_proxies (map fst (co_services c)) | ps => ps end).

Lemma comp_bind_val {A B} (m : Comp W A) (f : A -> Comp W B) w b w' :
  (m ≫= f) w = (Val b, w') -> exists a w1, m w = (Val a, w1) /\ f a w1 = (Val b, w').
Proof. unfold mbind, Comp_bind. intros Hm. destruct (m w) as [[a|e| |] w1] eqn:Em; [|done..]. exists a, w1. done. Qed.

Lemma up_all_empty url out_file (infos : list OnboardInfo) k info w w' :
  infos !! k = Some info -> ob_services info = [] -> up_all url out_file infos w <> (Val tt, w').
Proof.
  revert k w. induction infos as [|i infos IH]; intros k w Hk Hi Hup; [done|]. cbn [up_all] in Hup.
  apply comp_bind_val in Hup as (running & w1 & Hr & Hup). destruct running; [done|].
  apply comp_bind_val in Hup as (? & w2 & _ & Hup). apply comp_bind_val in Hup as (? & w3 & _ & Hup).
  apply comp_bind_val in Hup as (? & w4 & _ & Hup). apply comp_bind_val in Hup as (? & w5 & _ & Hup).
  destruct k as [|k]; [|by apply (IH k w5)]. injection Hk as ->. unfold already_running in Hr. by rewrite Hi in Hr.
Qed.

(** C16: an application where a proxy other than the first gets no service (no
    service names its label, or there are no proxies and more than one
    service) never comes up: whatever docker, docker-compose and the host
    do, [up] ends with an error, since a proxy without services counts as
    already running. *)
Theorem up_needs_services (c : Compose Value) (url : HostUrl) (in_file : string) (file : option string)
    (k : nat) (label : Label) (w w1 : W) :
  BTreeMap.wf (co_services c) ->
  effective_labels c !! S k = Some label ->
  (forall name s, BTreeMap.get (co_services c) name = Some s -> ~ names_proxy label s) ->
  read_yaml in_file w = (Ok c, w1) ->
  forall w', main url in_file file Up w <> (Val tt, w').
Proof.
  intros Hwf Hk Hno Hread w' Hmain. unfold main, read_armour, compose_read_armour in Hmain.
  apply comp_bind_val in Hmain as (infos & w2 & Hra & Hup). apply comp_bind_val in Hra as ([c' infos'] & w3 & Hc & Hra).
  apply comp_bind_val in Hra as (? & w4 & _ & Hra). apply comp_bind_val in Hra as (? & w5 & _ & Hra).
  injection Hra as <- <-. apply comp_bind_val in Hc as (c1 & w6 & Hrun & Hc). unfold run in Hrun. rewrite Hread in Hrun.
  injection Hrun as <- <-. unfold lift in Hc. destruct (Compose.convert_for_armour c) as [r|] eqn:Ec; [|done].
  injection Hc as -> <-. destruct (services_onboarded _ _ _ Hwf Ec) as (proxies & Hps & Hl & Hd & Hs).
  assert (map HostApi.px_label proxies = effective_labels c) as Hlabels.
  { unfold effective_labels. destruct (co_proxies c) eqn:Ep; [by rewrite Hd|by apply Hl]. }
  rewrite <- Hlabels, list_lookup_fmap in Hk. destruct (proxies !! S k) as [proxy|] eqn:Hp; [|done]. injection Hk as <-.
  assert (exists info, infos' !! S k = Some info) as [info Hi].
  { apply lookup_lt_is_Some. rewrite <- (length_map ob_proxies), Hps, length_map. by apply lookup_lt_Some in Hp. }
  refine (up_all_empty _ _ _ (S k) info _ _ Hi _ Hup).
  destruct (ob_services info) as [|[name si] m] eqn:Em; [done|exfalso].
  destruct (Hs (S k) info proxy name si Hi Hp) as [Hget _]. rewrite Em in Hget. simpl in Hget. rewrite cmp_refl in Hget.
  destruct (Hget eq_refl) as (s & Hg & _ & [Hn|[? _]]); [|done]. by apply (Hno name s).
Qed.
End up.

(** ** What is done before containers run *)

(** What the launcher did outside, in order. *)
Inductive Event :=
| EDocker (method : HttpMethod) (path : string)
| ECommand (program : string) (args : list string)
| EHost (method : HttpMethod) (request : RestRequest) (accepted : bool).

(** An outside that keeps a record. *)
Section log.
Context {W Value : Type}.
Definition logging {A} (e : A -> Event) (f : W -> A * W) (w : W * list Event) : A * (W * list Event) :=
  let '(a, w') := f w.1 in (a, (w', w.2 ++ [e a])).
Definition silent {A} (f : W -> A * W) (w : W * list Event) : A * (W * list Event) :=
  let '(a, w') := f w.1 in (a, (w', w.2)).

Context `{DockerEngine W} `{LaunchOutside W Value}.
#[local] Instance logged_engine : DockerEngine (W * list Event) := {
  DateTime := DateTime;
  docker_request method path := logging (fun _ => EDocker method path) (docker_request method path);
  json_message := json_message;
  form_urlencoded := form_urlencoded;
}.
#[local] Instance logged_outside : LaunchOutside (W * list Event) Value := {
  command program args := logging (fun _ => ECommand program args) (command program args);
  make_client := silent make_client;
  host_request method url request :=
    logging (fun r => EHost method request (match r with Ok (status, _) => Docker.is_success status | Err _ => false end))
      (host_request method url request);
  read_yaml file := silent (read_yaml file);
  to_yaml := to_yaml;
  write_file file text := silent (write_file file text);
  Handle := Handle;
  create_file file := silent (create_file file);
  set_mode h mode := silent (set_mode h mode);
  write_all h text := silent (write_all h text);
  debug_info := debug_info;
}.
End log.

Definition unpause_path (name : string) : string := "/containers/" ^^ name ^^ "/unpause".

(** The same onboarding, except for the addresses. *)
Definition readdressed (info0 info : OnboardInfo) : Prop :=
  ob_proxies info = ob_proxies info0 /\
  Forall2 (fun a b : string * ServiceInfo =>
    b.1 = a.1 /\ si_labels b.2 = si_labels a.2 /\ si_proxies b.2 = si_proxies a.2)
    (ob_services info0) (ob_services info).

Definition unpause_event (name : string) : Event := EDocker POST (unpause_path name).

(** The last thing that was done, other than unpausing the services before
    this one, is that the host accepted an onboarding with the service: one of
    these onboardings, with addresses. *)
Definition onboarded (infos : list OnboardInfo) (name : string) (log : list Event) : Prop :=
  exists info0 info names names' pre, info0 ∈ infos /\ readdressed info0 info /\
    map fst (ob_services info) = names ++ name :: names' /\
    log = pre ++ EHost POST (ServiceOnBoard (onboard_information info)) true :: map unpause_event names.
(** Containers are unpaused only after that. *)
Definition guarded (infos : list OnboardInfo) (log : list Event) : Prop :=
  forall pre post name, log = pre ++ unpause_event name :: post -> onboarded infos name pre.

Lemma readdressed_names info0 info : readdressed info0 info -> map fst (ob_services info) = map fst (ob_services info0).
Proof. intros [_ Hs]. induction Hs as [|a b l l' (Hn & _) _ IH]; [done|]. simpl. by rewrite Hn, IH. Qed.

Section guarded.
Context {W Value : Type} `{IterOrder} `{DockerEngine W} `{!FromJson (rep.ContainerDetails DateTime)}.
Context `{LaunchOutside W Value} `{Profile}.
#[local] Existing Instance logged_engine.
#[local] Existing Instance logged_outside.
Notation World := (W * list Event)%type.
(** The onboardings of the application. *)
Variable infos : list OnboardInfo.
Notation guarded := (guarded infos).

Lemma guarded_nil : guarded [].
Proof. by intros [|??] ??. Qed.

Lemma guarded_app l l' : guarded l -> guarded l' -> guarded (l ++ l').
Proof.
  intros Hl Hl' pre post name Heq. destruct (app_eq_inv _ _ _ _ Heq) as [(k & -> & Hk)|(k & -> & Hk)].
  - destruct k as [|e k].
    + simpl in Hk. destruct (Hl' [] post name (eq_sym Hk)) as (? & ? & ? & ? & pre' & _ & _ & _ & He).
      by destruct pre'.
    + injection Hk as <- ->. by apply (Hl pre k).
  - destruct (Hl' _ _ _ Hk) as (info0 & info & names & names' & pre' & Hi & Hr & Hn & ->).
    exists info0, info, names, names', (l ++ pre'). by rewrite app_assoc.
Qed.

(** One event, which unpauses nothing. *)
Lemma guarded_event e : (forall name, e <> unpause_event name) -> guarded [e].
Proof. intros He [|e' pre] post name [= ? Hp]; [by destruct (He name)|by destruct pre]. Qed.

(** A computation that only adds to the record, what is guarded, and whose
    value has a property. *)
Definition careful {A} (m : Comp World A) (P : A -> Prop) : Prop :=
  forall w, exists l, (m w).2.2 = w.2 ++ l /\ guarded l /\ forall a, (m w).1 = Val a -> P a.
Definition whatever {A} (a : A) : Prop := True.

Lemma careful_keep {A} (m : Comp World A) (P : A -> Prop) :
  (forall w, (m w).2.2 = w.2 /\ forall a, (m w).1 = Val a -> P a) -> careful m P.
Proof. intros Hm w. exists []. destruct (Hm w) as [-> Ha]. rewrite app_nil_r. split_and!; [done|apply guarded_nil|done]. Qed.

Lemma careful_ret {A} (a : A) (P : A -> Prop) : P a -> careful (mret a) P.
Proof. intros Ha. apply careful_keep. intros w. split; [done|]. by intros ? [= <-]. Qed.
Lemma careful_skip {A} (a : A) : careful (mret a) whatever.
Proof. by apply careful_ret. Qed.
Lemma careful_lift {A} (o : Outcome A) : careful (lift o) whatever.
Proof. by apply careful_keep. Qed.

Lemma careful_bind {A B} (m : Comp World A) (f : A -> Comp World B) P Q :
  careful m P -> (forall a, P a -> careful (f a) Q) -> careful (m ≫= f) Q.
Proof.
  intros Hm Hf w. unfold mbind, Comp_bind. destruct (Hm w) as (l & Hl & Hg & Ha).
  destruct (m w) as [[a|e| |] w1]; simpl in *; try by (exists l).
  destruct (Hf a (Ha a eq_refl) w1) as (l' & Hl' & Hg' & Hb). exists (l ++ l').
  rewrite Hl', Hl, app_assoc. split_and!; [done|by apply guarded_app|done].
Qed.
Lemma careful_seq {A B} (m : Comp World A) (f : A -> Comp World B) Q :
  careful m whatever -> (forall a, careful (f a) Q) -> careful (m ≫= f) Q.
Proof. intros Hm Hf. by eapply careful_bind; [exact Hm|intros a _; apply Hf]. Qed.
Lemma careful_weaken {A} (m : Comp World A) (P Q : A -> Prop) :
  (forall a, P a -> Q a) -> careful m P -> careful m Q.
Proof. intros HPQ Hm w. destruct (Hm w) as (l & ? & ? & Ha). exists l. split_and!; auto. Qed.

Lemma careful_attempt {A} (m : Comp World A) : careful m whatever -> careful (attempt m) whatever.
Proof. intros Hm w. destruct (Hm w) as (l & Hl & Hg & _). exists l. unfold attempt. by destruct (m w) as [[a|e| |] w1]. Qed.

Lemma careful_silent {A} (f : W -> result A string * W) : careful (run (silent f)) whatever.
Proof. apply careful_keep. intros [w l]. unfold run, silent. simpl. by destruct (f w) as [[a|e] w']. Qed.

(** Any event but unpausing. *)
Lemma careful_logging {A B} (e : A -> Event) (f : W -> A * W) (g : A -> Outcome B) :
  (forall a name, e a <> unpause_event name) ->
  careful (fun w => let '(r, w') := logging e f w in (g r, w')) whatever.
Proof.
  intros He [w l]. unfold logging. simpl in *. destruct (f w) as [a w']. exists [e a].
  split_and!; [done|by apply guarded_event|done].
Qed.

(** Paths that end in another letter, or another word, unpause nothing. *)
Lemma string_rev_app a b : rev (list_ascii_of_string (a ^^ b)) = rev (list_ascii_of_string b) ++ rev (list_ascii_of_string a).
Proof. rewrite <- rev_app_distr. f_equal. induction a as [|c a IH]; [done|]. simpl. by f_equal. Qed.

Definition ends_like (s t : string) : bool :=
  let a := rev (list_ascii_of_string s) in let b := rev (list_ascii_of_string t) in
  let n := Nat.min (length a) (length b) in bool_decide (take n a = take n b).

Lemma unpause_path_ends s t name : ends_like t "/unpause" = false -> s ^^ t <> unpause_path name.
Proof.
  unfold ends_like. intros Hb%bool_decide_eq_false Heq. apply Hb. clear Hb. unfold unpause_path in Heq.
  apply (f_equal (fun x => rev (list_ascii_of_string x))) in Heq. rewrite !string_rev_app in Heq.
  set (a := rev (list_ascii_of_string t)) in *. set (b := rev (list_ascii_of_string "/unpause")) in *.
  set (n := Nat.min (length a) (length b)). apply (f_equal (take n)) in Heq. rewrite <- app_assoc in Heq.
  rewrite !take_app_le in Heq by (unfold n; lia). done.
Qed.

#[local] Instance unpause_event_inj : Inj (=) (=) unpause_event.
Proof.
  intros a b Heq. assert (unpause_path a = unpause_path b) as Hp by (unfold unpause_event in Heq; congruence). clear Heq.
  unfold unpause_path in Hp. apply (f_equal (fun x => rev (list_ascii_of_string x))) in Hp.
  rewrite !string_rev_app in Hp. apply app_inv_tail, app_inv_head in Hp.
  apply (f_equal (@rev _)) in Hp. rewrite !rev_involutive in Hp.
  by rewrite <- (string_of_list_ascii_of_string a), Hp, string_of_list_ascii_of_string.
Qed.

Lemma careful_request method path : (forall name, path <> unpause_path name) ->
  careful (Docker.request method path) whatever.
Proof.
  intros Hp. apply (careful_logging (fun _ => EDocker method path) (docker_request method path)).
  intros _ name [= _ Hn]. by apply (Hp name).
Qed.

Lemma careful_post path : (forall name, path <> unpause_path name) ->
  careful (Docker.unit_of (Docker.post path)) whatever.
Proof. intros Hp. apply careful_seq; [by apply careful_request|]. intros _. apply careful_skip. Qed.

Lemma other_path name t name' : ends_like t "/unpause" = false -> "/containers/" ^^ name ^^ t <> unpause_path name'.
Proof. rewrite <- append_assoc. apply unpause_path_ends. Qed.

Lemma careful_inspect name : careful (Docker.inspect_container name) whatever.
Proof.
  apply careful_seq; [|intros body; apply careful_lift]. apply careful_request. intros name'.
  by apply other_path.
Qed.

(** The containers of these names are unpaused, in order; a panic ends it. *)
Lemma unpause_names_log names : forall w : World, exists names1 names2, names = names1 ++ names2 /\
  (unpause_names names w).2.2 = w.2 ++ map unpause_event names1.
Proof.
  induction names as [|name names IH]; intros [w l]; [exists [], []; simpl; by rewrite app_nil_r|].
  cbn [unpause_names]. unfold mbind, Comp_bind.
  assert ((attempt (Docker.unpause_container name) (w, l)).2.2 = l ++ [unpause_event name]) as Hl.
  { unfold attempt, Docker.unpause_container, Docker.unit_of, Docker.post, Docker.request. simpl.
    unfold mbind, Comp_bind, logging. simpl. destruct (docker_request POST _ w) as [[res|e] w']; simpl; [|done].
    by destruct (Docker.process_body _ res). }
  destruct (attempt _ _) as [[a|e| |] w1]; simpl in Hl; try by (exists [name], names).
  destruct (IH w1) as (names1 & names2 & -> & Hn). exists (name :: names1), names2. split; [done|].
  simpl. by rewrite Hn, Hl, <- app_assoc.
Qed.

Lemma guarded_accepted info0 info names1 names2 : info0 ∈ infos -> readdressed info0 info ->
  map fst (ob_services info) = names1 ++ names2 ->
  guarded (EHost POST (ServiceOnBoard (onboard_information info)) true :: map unpause_event names1).
Proof.
  intros Hi Hr Hn [|e pre] post name Heq; [done|]. injection Heq as <- Heq.
  apply map_eq_app in Heq as (n1 & n2 & -> & <- & Heq). apply map_eq_cons in Heq as (name' & n3 & -> & Hname & _).
  apply (inj unpause_event) in Hname as ->.
  exists info0, info, n1, (n3 ++ names2), []. split_and!; try done. by rewrite Hn, <- app_assoc.
Qed.

Lemma careful_compose args : careful (docker_compose args) whatever.
Proof.
  apply careful_seq.
  - by apply (careful_logging (fun _ => ECommand "docker-compose" args) (command "docker-compose" args)).
  - intros child. destruct (out_success child); [|destruct (out_stderr child)]; apply careful_lift.
Qed.

Lemma careful_drop url proxies : careful (drop_services url proxies) whatever.
Proof.
  unfold drop_services. destruct proxies; [apply careful_skip|]. destruct (hu_host url); [|apply careful_lift].
  by apply (careful_logging (fun r => EHost DELETE _ _) (host_request DELETE _ _)).
Qed.

Lemma careful_onboard url info0 info out_file : info0 ∈ infos -> readdressed info0 info ->
  careful (onboard_services url info out_file) whatever.
Proof.
  intros Hi Hr. unfold onboard_services. destruct (hu_host url) as [host|]; [|apply careful_lift]. intros [w l].
  cbn [host_request logged_outside]. unfold logging. simpl. destruct (host_request POST _ _ w) as [r w'].
  set (ok := match r with Ok _ => _ | Err _ => false end). set (event := EHost _ _ ok).
  assert (forall e, exists l2, ((_ ← docker_down out_file; _ ← drop_services url (ob_proxies info);
            lift (Docker.error (A := unit) e)) (w', l ++ [event])).2.2 = l ++ l2 /\ guarded l2) as Hfail.
  { intros e. assert (careful (_ ← docker_down out_file; _ ← drop_services url (ob_proxies info);
                               lift (Docker.error (A := unit) e)) whatever) as Hm.
    { apply careful_seq; [apply careful_compose|]. intros _. apply careful_seq; [apply careful_drop|].
      intros _. apply careful_lift. }
    destruct (Hm (w', l ++ [event])) as (l2 & Hl2 & Hg & _). exists (event :: l2). rewrite Hl2. simpl.
    rewrite <- app_assoc. split; [done|]. by apply (guarded_app [event]); [apply guarded_event|]. }
  destruct r as [[status body]|e].
  - destruct (Docker.is_success status) eqn:Es.
    + destruct (unpause_names_log (map fst (ob_services info)) (w', l ++ [event])) as (n1 & n2 & Hn & Hl).
      exists (event :: map unpause_event n1). unfold unpause_all. rewrite Hl. simpl. rewrite <- app_assoc.
      split_and!; [done| |done]. unfold event, ok. by eapply guarded_accepted.
    + edestruct Hfail as (l2 & Hl2 & Hg). exists l2. by split_and!; [exact Hl2| |].
  - edestruct Hfail as (l2 & Hl2 & Hg). exists l2. by split_and!; [exact Hl2| |].
Qed.

Lemma careful_container_address name info : careful (container_address name info)
  (fun info' => si_labels info' = si_labels info /\ si_proxies info' = si_proxies info).
Proof.
  apply careful_seq; [|intros [[]|]; [|by apply careful_ret]].
  { apply careful_attempt, careful_post. intros name'. by apply other_path. }
  apply careful_seq; [|intros [[]|]; [|by apply careful_ret]].
  { apply careful_attempt, careful_post. intros name'. by apply other_path. }
  apply careful_seq; [by apply careful_attempt, careful_inspect|]. intros [c|]; by apply careful_ret.
Qed.

Lemma careful_set_ip_addresses info : careful (set_ip_addresses info) (readdressed info).
Proof.
  unfold set_ip_addresses, readdressed. destruct info as [proxies services]. simpl.
  eapply careful_bind; [|intros services' Hs; apply careful_ret; split; [done|exact Hs]]. simpl.
  induction services as [|[name si] services IH]; [by apply careful_ret|]. cbn [set_addresses].
  eapply careful_bind; [apply careful_container_address|]. intros si' Hsi.
  eapply careful_bind; [exact IH|]. intros services' Hs. apply careful_ret. by constructor.
Qed.

Lemma careful_all_running names : careful (all_running names) whatever.
Proof.
  induction names as [|name names IH]; [apply careful_skip|].
  apply careful_seq; [by apply careful_attempt, careful_inspect|]. intros c. cbv beta.
  destruct (match c with Some _ => _ | None => _ end); [apply careful_skip|exact IH].
Qed.

Lemma careful_up_all url out_file (l : list OnboardInfo) : l ⊆ infos -> careful (up_all url out_file l) whatever.
Proof.
  induction l as [|info l IH]; intros Hl; [apply careful_skip|].
  apply careful_seq; [apply careful_all_running|]. intros [|]; [apply careful_lift|].
  apply careful_seq; [apply careful_compose|]. intros _. eapply careful_bind; [apply careful_set_ip_addresses|].
  intros info' Hr. apply careful_seq; [apply careful_silent|]. intros _.
  apply careful_seq; [eapply careful_onboard; [|exact Hr]; apply Hl; left|]. intros _. apply IH. set_solver.
Qed.

Lemma careful_down_all url (l : list OnboardInfo) : careful (down_all url l) whatever.
Proof.
  induction l as [|info l IH]; [apply careful_skip|]. apply careful_seq; [apply careful_silent|]. intros _.
  apply careful_seq; [apply careful_drop|]. intros _. exact IH.
Qed.

(** Rules only write files. *)
Lemma careful_network_rules files service_name hostname port network_name network :
  careful (network_rules files service_name hostname port network_name network) whatever.
Proof.
  unfold network_rules. apply careful_seq; [|intros _].
  - destruct port; [|apply careful_skip].
    do 3 (apply careful_seq; [apply careful_silent|intros _]). apply careful_silent.
  - destruct (nr_ipv4_address network), hostname; try apply careful_skip.
    apply careful_seq; [apply careful_silent|intros _]. apply careful_silent.
Qed.

Lemma careful_rules (c : Compose Value) l oi stem : careful (rules c l oi stem) whatever.
Proof.
  assert (forall suffix, careful (create_exe stem suffix) whatever) as Hexe.
  { intros suffix. apply careful_seq; [apply careful_silent|]. intros h.
    apply careful_seq; [apply careful_silent|]. intros _. apply careful_skip. }
  unfold rules. do 3 (apply careful_seq; [apply Hexe|intros ?]).
  apply careful_seq; [apply careful_lift|]. intros pm.
  induction (co_services c) as [|[name s] ss IH]; [apply careful_skip|]. cbn [services_rules].
  apply careful_seq; [|intros _; exact IH].
  destruct (sv_networks s) as [|dict], (Label.from_str name); try apply careful_skip.
  induction dict as [|[nn nw] dict IHd]; [apply careful_skip|]. cbn [networks_rules].
  apply careful_seq; [apply careful_lift|]. intros port.
  apply careful_seq; [apply careful_network_rules|]. intros _. exact IHd.
Qed.

(** What is onboarded comes from the application that was read. *)
Lemma careful_read_compose file : careful (compose_read_armour file) whatever.
Proof. apply careful_seq; [apply careful_silent|]. intros c. apply careful_lift. Qed.

Lemma careful_read in_file out_file : careful (read_armour in_file out_file) whatever.
Proof.
  apply careful_seq; [apply careful_read_compose|]. intros [c l]. apply careful_seq; [apply careful_lift|].
  intros text. apply careful_seq; [apply careful_silent|]. intros _. apply careful_skip.
Qed.

Lemma read_armour_log in_file out_file (w : World) : (read_armour in_file out_file w).2.2 = w.2.
Proof.
  destruct w as [w l]. unfold read_armour, compose_read_armour, run, lift, mbind, Comp_bind. simpl. unfold silent. simpl.
  destruct (read_yaml in_file w) as [[c|e] w1]; simpl; [|done]. destruct (Compose.convert_for_armour c) as [[c' l0]|e]; simpl; [|done].
  destruct (to_yaml c'); simpl; [|done]. by destruct (write_file _ _ w1) as [[[]|e] w2].
Qed.

Lemma read_armour_value in_file out_file (w w' : World) l : read_armour in_file out_file w = (Val l, w') ->
  exists c w1 c', read_yaml in_file w.1 = (Ok c, w1) /\ Compose.convert_for_armour c = Ok (c', l).
Proof.
  destruct w as [w log]. unfold read_armour, compose_read_armour, run, lift, mbind, Comp_bind. simpl. unfold silent. simpl.
  destruct (read_yaml in_file w) as [[c|e] w1] eqn:E; simpl; [|done].
  destruct (Compose.convert_for_armour c) as [[c' l0]|e] eqn:Ec; simpl; [|done].
  destruct (to_yaml c'); simpl; [|done]. destruct (write_file _ _ w1) as [[[]|e] w2]; simpl; [|done].
  intros [= -> _]. by exists c, w1, c'.
Qed.
End guarded.

Section onboarding.
Context {W Value : Type} `{IterOrder} `{DockerEngine W} `{!FromJson (rep.ContainerDetails DateTime)}.
Context `{LaunchOutside W Value} `{Profile}.
#[local] Existing Instance logged_engine.
#[local] Existing Instance logged_outside.

(** C8: whatever docker, docker-compose and the host answer, the launcher
    unpauses a container only when it brings up the application, and right
    after the host accepted one of the onboardings that the application is
    converted to (with the addresses of its containers), for a service of
    this onboarding, and after its services before this one. *)
Theorem containers_run_after_onboarding (host_url : HostUrl) (in_file : string) (file : option string)
    (matches : Subcommand) (w : W) (pre post : list Event) (name : string) :
  (main host_url in_file file matches (w, [])).2.2 = pre ++ EDocker POST (unpause_path name) :: post ->
  matches = Up /\ exists c w1 c' infos, read_yaml in_file w = (Ok c, w1) /\
    Compose.convert_for_armour c = Ok (c', infos) /\ onboarded infos name pre.
Proof.
  intros Hlog. assert (forall l, ~ onboarded [] name l) as Hno.
  { intros l (info0 & ? & ? & ? & ? & Hi & _). by apply elem_of_nil in Hi. }
  assert (forall m : Comp (W * list Event) unit, careful [] m whatever ->
            (m (w, [])).2.2 = pre ++ unpause_event name :: post -> False) as Hquiet.
  { intros m Hm Heq. destruct (Hm (w, [])) as (l & Hl & Hg & _). rewrite Hl in Heq. eapply Hno. by eapply Hg. }
  destruct matches as [| |rules_file]; [|exfalso; refine (Hquiet _ _ Hlog); cbn [main]..].
  - split; [done|]. cbn [main] in Hlog. pose proof (read_armour_log in_file (default "docker-compose.yml" file) (w, [])) as Hl.
    unfold mbind, Comp_bind in Hlog. destruct (read_armour _ _ (w, [])) as [[infos|e| |] w1] eqn:E;
      [|cbn [snd] in *; rewrite Hl in Hlog; by destruct pre..].
    destruct (read_armour_value _ _ _ _ _ E) as (c & w2 & c' & Hread & Hc). exists c, w2, c', infos. split_and!; [done..|].
    destruct (careful_up_all infos host_url (default "docker-compose.yml" file) infos (reflexivity _) w1) as (l & Hup & Hg & _).
    cbn [snd] in *. rewrite Hup, Hl in Hlog. by eapply Hg.
  - apply careful_seq; [apply careful_read|]. intros infos. apply careful_seq; [apply careful_compose|].
    intros _. apply careful_down_all.
  - apply careful_seq; [apply careful_read_compose|]. intros [c infos]. apply careful_rules.
Qed.
End onboarding.

(** ** What the scripts hold *)

(** A network of a service, and the port of its proxy. *)
Record Entry {Value : Type} := mkEntry {
  en_service : string;
  en_hostname : option string;
  en_network_name : string;
  en_network : NetworkRecord Value;
  en_port : option Z;
}.
Arguments Entry Value : clear implicits.

Section texts.
Context {Value : Type}.
Implicit Types en : Entry Value.

Definition redirect (delete : bool) en : string :=
  match en_port en with
  | Some port => "# " ^^ en_service en ^^ newline ^^ prerouting_rule delete (en_network_name en) port
  | None => ""
  end.
Definition host_line (delete : bool) en : string :=
  match nr_ipv4_address (en_network en), en_hostname en with
  | Some ip, Some hostname => etc_hosts_rule delete ip hostname
  | _, _ => ""
  end.
Definition text (f : Entry Value -> string) (l : list (Entry Value)) : string := String.concat "" (map f l).

Definition dict_entries (port_map : BTreeMap Label Z) (infos : list OnboardInfo) (name : string)
    (hostname : option string) (dict : list (string * NetworkRecord Value)) : list (Entry Value) :=
  map (fun kv => mkEntry Value name hostname kv.1 kv.2
                   (match proxy_port port_map infos name with Val p => p | _ => None end)) dict.
(** The networks of the services whose names are labels. *)
Definition service_entries (port_map : BTreeMap Label Z) (infos : list OnboardInfo) (kv : string * Service Value)
    : list (Entry Value) :=
  match sv_networks kv.2, Label.from_str kv.1 with
  | NetDict dict, Ok _ => dict_entries port_map infos kv.1 (sv_hostname kv.2) dict
  | _, _ => []
  end.
Definition entries (port_map : BTreeMap Label Z) (infos : list OnboardInfo) (services : list (string * Service Value))
    : list (Entry Value) := concat (map (service_entries port_map infos) services).

Lemma text_cons f en l : text f (en :: l) = f en ^^ text f l.
Proof. unfold text. cbn [map]. destruct (map f l); simpl; [by rewrite append_nil_r|done]. Qed.

Lemma text_app f l l' : text f (l ++ l') = text f l ^^ text f l'.
Proof. induction l as [|en l IH]; [done|]. cbn [app]. by rewrite !text_cons, IH, append_assoc. Qed.
End texts.

(** The text after [s] was written at an offset of it. *)
Definition overwrite (offset : nat) (s t : string) : string :=
  String.substring 0 offset t ^^ s ^^ drop_str (offset + String.length s) t.

(** Files by their paths, which name different files if they are different
    texts: what a file holds, and for each open handle its path and where it
    writes next.  Creating a file empties it. *)
Class Files (W : Type) {Value : Type} `{LaunchOutside W Value} := {
  content : W -> string -> string;
  opened : W -> Handle -> Prop;
  handle_path : Handle -> string;
  offset : W -> Handle -> nat;
  create_file_spec p w h w' : create_file p w = (Ok h, w') ->
    ~ opened w h /\ opened w' h /\ handle_path h = p /\ offset w' h = 0 /\ content w' p = "" /\
    (forall p', p' <> p -> content w' p' = content w p') /\
    forall h', opened w h' -> opened w' h' /\ offset w' h' = offset w h';
  set_mode_spec h mode w w' : set_mode h mode w = (Ok tt, w') ->
    (forall p, content w' p = content w p) /\
    forall h', opened w h' -> opened w' h' /\ offset w' h' = offset w h';
  write_all_spec h s w w' : write_all h s w = (Ok tt, w') -> opened w h ->
    offset w h <= String.length (content w (handle_path h)) ->
    content w' (handle_path h) = overwrite (offset w h) s (content w (handle_path h)) /\
    (forall p, p <> handle_path h -> content w' p = content w p) /\
    opened w' h /\ offset w' h = offset w h + String.length s /\
    forall h', h' <> h -> opened w h' -> opened w' h' /\ offset w' h' = offset w h';
}.

(** Writing at the end appends. *)
Lemma whole_substring t : String.substring 0 (String.length t) t = t.
Proof. induction t as [|c t IH]; [done|]. simpl. by rewrite IH. Qed.
Lemma overwrite_end s t : overwrite (String.length t) s t = t ^^ s.
Proof.
  unfold overwrite, drop_str. rewrite whole_substring. f_equal.
  replace (String.length t - (String.length t + String.length s)) with 0 by lia.
  assert (forall n t, String.substring n 0 t = "") as ->; [|apply append_nil_r].
  induction n as [|n IH]; intros [|c t']; try done. simpl. apply IH.
Qed.

Section rules.
Context {W Value : Type} `{Files W Value} `{Profile}.

Lemma run_val {A} (f : W -> result A string * W) w a w' : run f w = (Val a, w') -> f w = (Ok a, w').
Proof. unfold run. destruct (f w) as [[b|e] w1]; [|done]. congruence. Qed.

(** Open, and at the end of its file. *)
Definition at_end (w : W) (h : Handle) : Prop :=
  opened w h /\ offset w h = String.length (content w (handle_path h)).

Lemma write_at_end h s w w' : write_all h s w = (Ok tt, w') -> at_end w h ->
  content w' (handle_path h) = content w (handle_path h) ^^ s /\ at_end w' h /\
  forall h', handle_path h' <> handle_path h ->
    content w' (handle_path h') = content w (handle_path h') /\ (at_end w h' -> at_end w' h').
Proof.
  intros Hw [Ho He]. destruct (write_all_spec _ _ _ _ Hw Ho) as (Hc & Hother & Ho' & Hoff & Hh); [lia|].
  rewrite He, overwrite_end in Hc. split_and!; [done| |].
  - split; [done|]. by rewrite Hc, length_append, Hoff, He.
  - intros h' Hne. rewrite (Hother _ Hne). split; [done|]. intros [Ho2 He2].
    destruct (Hh h') as [Ho3 Hoff3]; [congruence|done|]. split; [done|]. by rewrite Hoff3, (Hother _ Hne).
Qed.

Variable files : RuleFiles.
(** Three different files. *)
Definition distinct : Prop :=
  NoDup [handle_path (up_file files); handle_path (down_file files); handle_path (hosts_file files)].
Definition all_open (w : W) : Prop :=
  at_end w (up_file files) /\ at_end w (down_file files) /\ at_end w (hosts_file files).
Definition texts (w : W) : string * string * string :=
  (content w (handle_path (up_file files)), content w (handle_path (down_file files)),
   content w (handle_path (hosts_file files))).

(** Going from [w] to [w'] wrote these texts. *)
Definition wrote (up down hosts : string) (w w' : W) : Prop :=
  all_open w -> all_open w' /\
  texts w' = ((texts w).1.1 ^^ up, (texts w).1.2 ^^ down, (texts w).2 ^^ hosts).

Lemma wrote_nothing w : wrote "" "" "" w w.
Proof. intros Ho. split; [done|]. unfold texts. cbn [fst snd]. by rewrite !append_nil_r. Qed.

Lemma wrote_trans u d h u' d' h' w w1 w2 : wrote u d h w w1 -> wrote u' d' h' w1 w2 ->
  wrote (u ^^ u') (d ^^ d') (h ^^ h') w w2.
Proof.
  intros H1' H2' Ho. destruct (H1' Ho) as [Ho1 Ht]. destruct (H2' Ho1) as [Ho2 Ht'].
  split; [done|]. rewrite Ht', Ht. cbn [fst snd]. by rewrite !append_assoc.
Qed.

Hypothesis Hdistinct : distinct.

Lemma wrote_up s w w' : run (write_all (up_file files) s) w = (Val tt, w') -> wrote s "" "" w w'.
Proof.
  intros Hw%run_val (Hu & Hd & Hh). destruct (write_at_end _ _ _ _ Hw Hu) as (Hs & Ho & Hother).
  apply NoDup_cons in Hdistinct as [Hn Hd'].
  destruct (Hother (down_file files)) as [Ed Hd2]; [set_solver|]. destruct (Hother (hosts_file files)) as [Eh Hh2]; [set_solver|].
  split; [by split_and!; auto|]. unfold texts. cbn [fst snd]. by rewrite Hs, Ed, Eh, !append_nil_r.
Qed.

Lemma wrote_down s w w' : run (write_all (down_file files) s) w = (Val tt, w') -> wrote "" s "" w w'.
Proof.
  intros Hw%run_val (Hu & Hd & Hh). destruct (write_at_end _ _ _ _ Hw Hd) as (Hs & Ho & Hother).
  apply NoDup_cons in Hdistinct as [Hn Hd']. apply NoDup_cons in Hd' as [Hn' _].
  destruct (Hother (up_file files)) as [Ed Hd2]; [set_solver|]. destruct (Hother (hosts_file files)) as [Eh Hh2]; [set_solver|].
  split; [by split_and!; auto|]. unfold texts. cbn [fst snd]. by rewrite Hs, Ed, Eh, !append_nil_r.
Qed.

Lemma wrote_hosts s w w' : run (write_all (hosts_file files) s) w = (Val tt, w') -> wrote "" "" s w w'.
Proof.
  intros Hw%run_val (Hu & Hd & Hh). destruct (write_at_end _ _ _ _ Hw Hh) as (Hs & Ho & Hother).
  apply NoDup_cons in Hdistinct as [Hn Hd']. apply NoDup_cons in Hd' as [Hn' _].
  destruct (Hother (up_file files)) as [Ed Hd2]; [set_solver|]. destruct (Hother (down_file files)) as [Eh Hh2]; [set_solver|].
  split; [by split_and!; auto|]. unfold texts. cbn [fst snd]. by rewrite Hs, Ed, Eh, !append_nil_r.
Qed.

Lemma network_rules_wrote en w w' :
  network_rules files (en_service en) (en_hostname en) (en_port en) (en_network_name en) (en_network en) w = (Val tt, w') ->
  wrote (redirect false en) (redirect true en ^^ host_line true en) (host_line false en) w w'.
Proof.
  intros Hr. apply comp_bind_val in Hr as ([] & w1 & Hp & Hh).
  assert (wrote (redirect false en) (redirect true en) "" w w1) as H1'.
  { unfold redirect. destruct (en_port en) as [port|]; [|injection Hp as <-; apply wrote_nothing].
    apply comp_bind_val in Hp as ([] & w2 & Hw1%wrote_up & Hp). apply comp_bind_val in Hp as ([] & w3 & Hw2%wrote_down & Hp).
    apply comp_bind_val in Hp as ([] & w4 & Hw3%wrote_up & Hw4%wrote_down).
    pose proof (wrote_trans _ _ _ _ _ _ _ _ _ (wrote_trans _ _ _ _ _ _ _ _ _ (wrote_trans _ _ _ _ _ _ _ _ _ Hw1 Hw2) Hw3) Hw4) as Hw.
    cbn [append] in Hw. rewrite !append_nil_r, !append_assoc in Hw. exact Hw. }
  assert (wrote "" (host_line true en) (host_line false en) w1 w') as H2'.
  { unfold host_line. destruct (nr_ipv4_address (en_network en)), (en_hostname en);
      try (injection Hh as <-; apply wrote_nothing).
    apply comp_bind_val in Hh as ([] & w2 & Hw1%wrote_hosts & Hw2%wrote_down).
    pose proof (wrote_trans _ _ _ _ _ _ _ _ _ Hw1 Hw2) as Hw. cbn [append] in Hw. rewrite !append_nil_r in Hw. exact Hw. }
  pose proof (wrote_trans _ _ _ _ _ _ _ _ _ H1' H2') as Hw. rewrite !append_nil_r in Hw. exact Hw.
Qed.

Definition down_lines (en : Entry Value) : string := redirect true en ^^ host_line true en.
Definition wrote_entries (l : list (Entry Value)) : W -> W -> Prop :=
  wrote (text (redirect false) l) (text down_lines l) (text (host_line false) l).

Lemma wrote_entries_app l l' w w1 w2 : wrote_entries l w w1 -> wrote_entries l' w1 w2 -> wrote_entries (l ++ l') w w2.
Proof. unfold wrote_entries. rewrite !text_app. apply wrote_trans. Qed.

Lemma services_rules_wrote port_map infos (services : list (string * Service Value)) w w' :
  services_rules files port_map infos services w = (Val tt, w') -> wrote_entries (entries port_map infos services) w w'.
Proof.
  unfold entries. revert w. induction services as [|[name s] services IH]; intros w Hr.
  { injection Hr as <-. apply wrote_nothing. }
  cbn [services_rules] in Hr. apply comp_bind_val in Hr as ([] & w1 & Hn & Hr). apply IH in Hr. cbn [map concat].
  refine (wrote_entries_app _ _ _ _ _ _ Hr). clear Hr IH. unfold service_entries. cbn [fst snd].
  destruct (sv_networks s) as [|dict], (Label.from_str name); try (injection Hn as <-; apply wrote_nothing).
  unfold dict_entries. revert w Hn. induction dict as [|[nn nw] dict IH]; intros w Hn.
  { injection Hn as <-. apply wrote_nothing. }
  cbn [networks_rules] in Hn. apply comp_bind_val in Hn as (port & w2 & Hp & Hn). unfold lift in Hp. injection Hp as Hp <-.
  apply comp_bind_val in Hn as ([] & w3 & Hnw & Hn). apply IH in Hn. cbn [map].
  refine (wrote_entries_app [_] _ _ _ _ _ Hn). rewrite Hp.
  unfold wrote_entries. rewrite !text_cons. unfold text. cbn [map String.concat]. rewrite !append_nil_r.
  by apply (network_rules_wrote (mkEntry Value name (sv_hostname s) nn nw port)).
Qed.
End rules.

Section scripts.
Context {W Value : Type} `{Files W Value} `{Profile}.

Lemma create_exe_spec stem suffix w h w' : create_exe stem suffix w = (Val h, w') ->
  handle_path h = set_extension (stem ^^ suffix) "sh" /\ at_end w' h /\ content w' (handle_path h) = "" /\
  forall h', handle_path h' <> handle_path h ->
    content w' (handle_path h') = content w (handle_path h') /\ (at_end w h' -> at_end w' h').
Proof.
  intros He. apply comp_bind_val in He as (h1 & w1 & Hc%run_val & He). apply comp_bind_val in He as ([] & w2 & Hm%run_val & He).
  injection He as -> <-. destruct (create_file_spec _ _ _ _ Hc) as (_ & Ho & Hp & Hoff & Hempty & Hother & Hk).
  destruct (set_mode_spec _ _ _ _ Hm) as [Hc2 Hk2]. destruct (Hk2 h Ho) as [Ho2 Hoff2].
  assert (content w2 (handle_path h) = "") as He by (by rewrite Hc2, Hp).
  split_and!; [done|by split; [|rewrite He, Hoff2, Hoff]|done|].
  intros h' Hne. assert (content w2 (handle_path h') = content w (handle_path h')) as Hsame.
  { rewrite Hc2. apply Hother. congruence. }
  split; [done|]. intros [Ho' Hoff']. destruct (Hk h' Ho') as [Ho3 Hoff3]. destruct (Hk2 h' Ho3) as [Ho4 Hoff4].
  split; [done|]. by rewrite Hoff4, Hoff3, Hsame.
Qed.

Lemma append_inj a b c : a ^^ b = a ^^ c -> b = c.
Proof. induction a as [|x a IH]; [done|]. simpl. intros Heq. apply IH. congruence. Qed.

(** C19: when [rules] ends well, for a stem without a dot in its last part,
    the three scripts hold, for each network of each service whose name is a
    label and whose networks are a dictionary, in order: the redirection to
    the port of the proxy of the service; its removal and the removal of the
    name from the hosts file; the addition of the name to the hosts file. *)
Theorem rules_scripts (c : Compose Value) (infos : list OnboardInfo) (oi : HostApi.OnboardInformation) (stem : string)
    (w w' : W) :
  free_of "." (file_name stem) = true -> rules c infos oi stem w = (Val tt, w') ->
  exists port_map, let l := entries port_map infos (co_services c) in
    ports (HostApi.top_port oi) (HostApi.oi_proxies oi) [] = Val port_map /\
    content w' (stem ^^ "_up.sh") = text (redirect false) l /\
    content w' (stem ^^ "_down.sh") = text (fun en => redirect true en ^^ host_line true en) l /\
    content w' (stem ^^ "_hosts.sh") = text (host_line false) l.
Proof.
  intros Hdot Hr. apply comp_bind_val in Hr as (hu & w1 & Hu%create_exe_spec & Hr).
  apply comp_bind_val in Hr as (hd & w2 & Hd%create_exe_spec & Hr). apply comp_bind_val in Hr as (hh & w3 & Hh%create_exe_spec & Hr).
  apply comp_bind_val in Hr as (pm & w4 & Hp & Hr). unfold lift in Hp. injection Hp as Hp <-.
  destruct Hu as (Pu & Hu1 & Hu2 & _), Hd as (Pd & Hd1 & Hd2 & Hd3), Hh as (Ph & Hh1 & Hh2 & Hh3).
  rewrite set_extension_plain in Pu, Pd, Ph by done. simpl in Pu, Pd, Ph.
  assert (handle_path hu <> handle_path hd) as Hud by (rewrite Pu, Pd; by intros ?%append_inj).
  assert (handle_path hu <> handle_path hh) as Huh by (rewrite Pu, Ph; by intros ?%append_inj).
  assert (handle_path hd <> handle_path hh) as Hdh by (rewrite Pd, Ph; by intros ?%append_inj).
  destruct (Hd3 hu Hud) as [Hu3 Hu4], (Hh3 hd Hdh) as [Hd4 Hd5], (Hh3 hu Huh) as [Hu5 Hu6].
  apply services_rules_wrote in Hr; [|repeat constructor; rewrite ?elem_of_cons, ?elem_of_nil; simpl; naive_solver].
  destruct Hr as [_ Ht]; [by split_and!; auto|]. unfold texts in Ht. cbn [up_file down_file hosts_file fst snd] in Ht.
  injection Ht as Hwu Hwd Hwh. exists pm. cbv zeta. rewrite <- Pu, <- Pd, <- Ph. split_and!; [done|..].
  - by rewrite Hwu, Hu5, Hu3, Hu2.
  - by rewrite Hwd, Hd4, Hd2.
  - by rewrite Hwh, Hh2.
Qed.
End scripts.

(** ** Where the scripts redirect traffic to *)
Section redirection.
Context {Value : Type} `{IpNet} `{Profile}.

Lemma ports_spec port ps acc pm : BTreeMap.wf acc -> NoDup (map HostApi.px_label ps) -> ports port ps acc = Val pm ->
  forall label, BTreeMap.get pm label =
    match List.find (fun p => bool_decide (HostApi.px_label p = label)) ps with
    | Some p => match HostApi.port p port with Val q => Some q | _ => None end
    | None => BTreeMap.get acc label
    end.
Proof.
  revert acc. induction ps as [|p ps IH]; intros acc Hacc Hnd Hp label; cbn [ports] in Hp; [by injection Hp as <-|].
  cbn [map] in Hnd. apply NoDup_cons in Hnd as [Hn Hnd].
  destruct (HostApi.port p port) as [q|e| |] eqn:Eq; [|done..]. simpl in Hp.
  rewrite (IH (BTreeMap.insert (HostApi.px_label p) q acc)) by (done || by apply BTreeMap.wf_insert). cbn [List.find].
  rewrite BTreeMap.get_insert by done.
  case_bool_decide as Hl; [|destruct (find _ ps); [done|]].
  - subst label. rewrite cmp_refl. destruct (find _ ps) as [p'|] eqn:Ef; [|by rewrite Eq].
    apply find_some in Ef as [Hin Hb]. apply bool_decide_eq_true in Hb. destruct Hn. rewrite <- Hb.
    apply list_elem_of_fmap. exists p'. by rewrite list_elem_of_In.
  - destruct (cmp label (HostApi.px_label p)) eqn:Ec; [|done..]. apply cmp_eq_iff in Ec. by rewrite Ec in Hl.
Qed.

Lemma filter_first {A} (f : A -> bool) (l : list A) k x : l !! k = Some x -> f x = true ->
  (forall j y, j < k -> l !! j = Some y -> f y = false) -> exists l', List.filter f l = x :: l'.
Proof.
  revert k. induction l as [|y l IH]; intros [|k] Hk Hf Hj; try done; simpl in *.
  - injection Hk as ->. rewrite Hf. by eexists.
  - rewrite (Hj 0 y) by (done || lia). apply (IH k); [done..|]. intros j z Hjk Hz. apply (Hj (S j) z); [lia|done].
Qed.

Lemma ports_val port ps acc pm p : ports port ps acc = Val pm -> p ∈ ps -> exists q, HostApi.port p port = Val q.
Proof.
  revert acc. induction ps as [|p' ps IH]; intros acc Hp Hin; [by apply elem_of_nil in Hin|]. cbn [ports] in Hp.
  destruct (HostApi.port p' port) as [q|e| |] eqn:Eq; [|done..]. apply elem_of_cons in Hin as [->|Hin]; [by exists q|].
  by eapply IH.
Qed.

Definition u16_ports (ps : list HostApi.Proxy) : Prop :=
  Forall (fun p => forall q, HostApi.px_port p = Some q -> (0 <= q <= u16_max)%Z) ps.
Lemma top_port_u16 oi : u16_ports (HostApi.oi_proxies oi) -> (0 <= HostApi.top_port oi <= u16_max)%Z.
Proof.
  unfold HostApi.top_port, u16_ports. intros Hps.
  assert (Forall (fun q => 0 <= q <= u16_max)%Z (omap HostApi.px_port (HostApi.oi_proxies oi))) as Hq.
  { induction Hps as [|p ps Hp _ IH]; [constructor|]. simpl. destruct (HostApi.px_port p); [by constructor; [apply Hp|]|done]. }
  destruct (omap _ _) as [|q qs]; [done|]. apply Forall_cons in Hq as [Hq Hqs]. revert q Hq.
  induction Hqs as [|q' qs Hq' _ IH]; intros q Hq; [done|]. simpl. apply IH. lia.
Qed.

Lemma ports_get port ps pm p : NoDup (map HostApi.px_label ps) -> ports port ps [] = Val pm -> p ∈ ps ->
  exists q, HostApi.port p port = Val q /\ BTreeMap.get pm (HostApi.px_label p) = Some q.
Proof.
  intros Hnd Hp Hin. destruct (ports_val _ _ _ _ _ Hp Hin) as [q Hq]. exists q. split; [done|].
  rewrite (ports_spec _ _ _ _ BTreeMap.wf_nil Hnd Hp). clear Hp pm. revert Hq.
  induction ps as [|p' ps IH]; [by apply elem_of_nil in Hin|]. cbn [map] in Hnd. apply NoDup_cons in Hnd as [Hn Hnd].
  intros Hq. cbn [List.find]. apply elem_of_cons in Hin as [->|Hin].
  - rewrite bool_decide_true by done. by rewrite Hq.
  - rewrite bool_decide_false; [by apply IH|]. intros Heq. destruct Hn. rewrite Heq. apply list_elem_of_fmap. by exists p.
Qed.

(** A map with one port comes from one proxy. *)
Lemma ports_single port ps pm p q : NoDup (map HostApi.px_label ps) -> ports port ps [] = Val pm -> p ∈ ps ->
  HostApi.port p port = Val q -> length pm = 1 -> head (map snd pm) = Some q.
Proof.
  intros Hnd Hp Hin Hq Hlen.
  assert (length (map HostApi.px_label ps) <= length (map fst pm)).
  { apply submseteq_length, NoDup_submseteq; [done|]. intros label (p' & -> & Hp')%list_elem_of_fmap.
    apply get_keys. destruct (ports_get _ _ _ _ Hnd Hp Hp') as (q' & _ & Hg). by exists q'. }
  rewrite !length_map in H1. destruct ps as [|p1 [|p2 ps]]; [by apply elem_of_nil in Hin| |simpl in H1; lia].
  apply list_elem_of_singleton in Hin as ->. simpl in Hp. rewrite Hq in Hp. simpl in Hp. by injection Hp as <-.
Qed.

(** The highest port of these. *)
Definition highest (z : Z) (ports : list Z) : Prop := z ∈ ports /\ Forall (fun y => y <= z)%Z ports.

Lemma foldl_max_highest z l : highest (foldl Z.max z l) (z :: l).
Proof.
  revert z. induction l as [|y l IH]; intros z; simpl; [split; [left|repeat constructor; lia]|].
  destruct (IH (Z.max z y)) as [Hin Hall]. apply Forall_cons in Hall as [Hmax Hall]. split.
  - apply elem_of_cons in Hin as [->|Hin]; [|by right; right]. destruct (Z.max_spec z y) as [[_ ->]|[_ ->]]; [right; left|left].
  - constructor; [lia|]. constructor; [lia|done].
Qed.
Lemma top_port_5999 oi : HostApi.top_port oi = 5999%Z <->
  highest 5999 (omap HostApi.px_port (HostApi.oi_proxies oi)) \/ omap HostApi.px_port (HostApi.oi_proxies oi) = [].
Proof.
  unfold HostApi.top_port. destruct (omap _ _) as [|z l]; [split; [by right|done]|].
  destruct (foldl_max_highest z l) as [Hin Hall]. split; [intros He; left; by rewrite He in *|].
  intros [[Hin' Hall']|]; [|done]. rewrite Forall_forall in Hall, Hall'.
  apply Z.le_antisymm; [by apply Hall'|by apply Hall].
Qed.

(** The service is onboarded with this proxy first. *)
Definition first_proxy (infos : list OnboardInfo) (name : string) (k : nat) (info : OnboardInfo) : Prop :=
  infos !! k = Some info /\ is_Some (BTreeMap.get (ob_services info) name) /\
  forall j info', j < k -> infos !! j = Some info' -> BTreeMap.get (ob_services info') name = None.

(** C20: [rules] redirects the traffic of a service to the port of the proxy
    that the service is first onboarded with: the one the application gives
    it, or else the one after the highest that it gives any proxy, and 6000
    when it gives none.  The host daemon is told to start this proxy alone,
    and does so at the same port exactly if the application gives the proxy a
    port, or the highest port that it gives any proxy is 5999, or it gives
    none. *)
Theorem redirection_port (c c' : Compose Value) (infos : list OnboardInfo) (port_map : BTreeMap Label Z)
    (k : nat) (info sent : OnboardInfo) (name : string) :
  let all := onboard_information (mkOnboardInfo (concat (map ob_proxies infos)) []) in
  BTreeMap.wf (co_services c) -> NoDup (map HostApi.px_label (HostApi.oi_proxies all)) ->
  u16_ports (HostApi.oi_proxies all) ->
  Compose.convert_for_armour c = Ok (c', infos) ->
  ports (HostApi.top_port all) (HostApi.oi_proxies all) [] = Val port_map ->
  first_proxy infos name k info -> ob_proxies sent = ob_proxies info ->
  exists p q config, proxy_port port_map infos name = Val (Some q) /\ ob_proxies info = [p] /\
    HostApi.port p (HostApi.top_port all) = Val q /\
    HostRest.on_board (onboard_information sent) =
      ([HostRest.launch_proxy p; HostRest.add_ip_labels (OfLabel (HostApi.px_label p)) (HostApi.oi_labels (onboard_information sent));
        HostRest.start_onboarding (OfLabel (HostApi.px_label p)) (HostApi.oi_labels (onboard_information sent));
        HostRest.start_proxy (OfLabel (HostApi.px_label p)) config], Val tt) /\
    (HttpConfig.port config = q <->
       is_Some (HostApi.px_port p) \/ highest 5999 (omap HostApi.px_port (HostApi.oi_proxies all)) \/
       omap HostApi.px_port (HostApi.oi_proxies all) = []).
Proof.
  intros all Hwf Hnd Hu16 Hc Hports (Hk & [si Hname] & Hfirst) Hsent.
  destruct (services_onboarded _ _ _ Hwf Hc) as (proxies & Hps & _ & _ & _).
  assert (HostApi.oi_proxies all = proxies) as Hall.
  { unfold all. simpl. rewrite Hps. clear. induction proxies as [|p ps IH]; [done|]. simpl. by rewrite IH. }
  assert (exists p, proxies !! k = Some p /\ ob_proxies info = [p]) as (p & Hp & Hip).
  { assert ((map ob_proxies infos) !! k = Some (ob_proxies info)) as Hl by (by rewrite list_lookup_fmap, Hk).
    rewrite Hps, list_lookup_fmap in Hl. destruct (proxies !! k) as [p|]; [|done]. injection Hl as Hl. by exists p. }
  assert (p ∈ HostApi.oi_proxies all) as Hin by (rewrite Hall; by eapply list_elem_of_lookup_2).
  destruct (ports_get _ _ _ _ Hnd Hports Hin) as (q & Hq & Hg).
  assert (proxy_port port_map infos name = Val (Some q)) as Hport.
  { unfold proxy_port. destruct (Nat.eqb_spec (length port_map) 1) as [Hl|_].
    - by rewrite (ports_single _ _ _ _ _ Hnd Hports Hin Hq Hl).
    - unfold proxy_name.
      destruct (filter_first (fun x => match BTreeMap.get (ob_services x) name with Some _ => true | None => false end)
                  infos k info Hk) as [l' ->]; [by rewrite Hname|intros j y Hj Hy; by rewrite (Hfirst j y)|].
      rewrite Hip. simpl. by rewrite Hg. }
  assert (exists config, HostApi.config p (HostApi.top_port (onboard_information sent)) = Val config /\
    HttpConfig.port config = default 6000%Z (HostApi.px_port p)) as (config & Hconfig & Hcp).
  { unfold HostApi.config, HostApi.top_port, HostApi.port. simpl. rewrite Hsent, Hip. simpl.
    destruct (HostApi.px_port p) as [z|]; simpl; (eexists; split; [done|]); by destruct (HostApi.ingress p). }
  exists p, q, config. rewrite <- top_port_5999. split_and!; [done|done|done| |].
  - unfold HostRest.on_board. change (HostApi.oi_proxies (onboard_information sent)) with (ob_proxies sent).
    rewrite Hsent, Hip. cbn [HostRest.on_board_proxies]. by rewrite Hconfig.
  - rewrite Hcp. unfold HostApi.port in Hq. destruct (HostApi.px_port p) as [z|]; [injection Hq as ->; naive_solver|].
    pose proof (top_port_u16 all Hu16). cbn [default]. unfold arith_u16, u16_max in *.
    destruct (_ && _) eqn:Eb; [|destruct overflow_checks; [done|]]; injection Hq as <-.
    + split; [intros Hr; right; lia|]. intros [[? [=]]|Hr]; lia.
    + assert (HostApi.top_port all = 65535)%Z as Ht by (apply andb_false_iff in Eb as [?|?]; lia). rewrite Ht. split; [|naive_solver].
      by vm_compute.
Qed.

End redirection.

(** ** Examples *)

(** Files are texts by path; a handle is a number in the table of its path and
    its offset.  Docker, docker-compose and the host accept everything. *)
Record TestDisk := mkDisk { disk_files : string -> string; disk_handles : list (string * nat) }.
Definition disk_offset (w : TestDisk) (i : nat) : nat := match disk_handles w !! i with Some (_, n) => n | None => 0 end.
Definition empty_disk : TestDisk := mkDisk (fun _ => "") [].
Definition set_file (p s : string) (d : string -> string) (q : string) : string := if q =? p then s else d q.
#[local] Existing Instance test_ipnet.
#[local] Instance test_engine : DockerEngine TestDisk := {
  DateTime := unit;
  docker_request _ _ w := (Ok (204%Z, [Some ""]), w);
  json_message _ := None;
  form_urlencoded _ := "";
}.
#[local] Instance test_details : FromJson (rep.ContainerDetails (DateTime (W := TestDisk))) := fun _ => Err "no details".
#[local] Instance test_launch (app : Compose Empty_set) : LaunchOutside TestDisk Empty_set := {
  command _ _ w := (Ok (mkOutput true (Some "") (Some "")), w);
  make_client w := (Ok tt, w);
  host_request _ _ _ w := (Ok (200%Z, None), w);
  read_yaml _ w := (Ok app, w);
  to_yaml _ := Ok "";
  write_file _ _ w := (Ok tt, w);
  Handle := string * nat;
  create_file p w := (Ok (p, length (disk_handles w)), mkDisk (set_file p "" (disk_files w)) (disk_handles w ++ [(p, 0)]));
  set_mode _ _ w := (Ok tt, w);
  write_all h s w :=
    (Ok tt, mkDisk (set_file h.1 (overwrite (disk_offset w h.2) s (disk_files w h.1)) (disk_files w))
              (alter (fun x => (x.1, x.2 + String.length s)) h.2 (disk_handles w)));
  debug_info _ := "";
}.

(** A handle is open when its number is in the table, for its path. *)
Definition disk_opened (w : TestDisk) (h : string * nat) : Prop := exists n, disk_handles w !! h.2 = Some (h.1, n).
#[local] Instance test_files app : @Files TestDisk Empty_set test_ipnet (test_launch app).
Proof.
  unshelve refine (@Build_Files TestDisk Empty_set test_ipnet (test_launch app) disk_files disk_opened fst
    (fun w (h : string * nat) => disk_offset w h.2) _ _ _); unfold disk_opened, disk_offset.
  - intros p w h w' [= <- <-]. simpl. split_and!; [| |done| |..].
    + intros [n Hn]. apply lookup_lt_Some in Hn. lia.
    + exists 0. by rewrite lookup_app_r, Nat.sub_diag by lia.
    + by rewrite lookup_app_r, Nat.sub_diag by lia.
    + unfold set_file. by rewrite String.eqb_refl.
    + intros p' Hp. unfold set_file. by apply String.eqb_neq in Hp as ->.
    + intros h' [n Hn]. rewrite lookup_app_l by by eapply lookup_lt_Some. rewrite Hn. split; [by exists n|done].
  - by intros h mode w w' [= <-].
  - intros h s w w' [= <-] [n Hn] _. simpl. split_and!; [| | | |].
    + unfold set_file. by rewrite String.eqb_refl.
    + intros p Hp. unfold set_file. by apply String.eqb_neq in Hp as ->.
    + exists (n + String.length s). by rewrite list_lookup_alter_eq, Hn.
    + by rewrite list_lookup_alter_eq, Hn.
    + intros h' Hne [m Hm]. rewrite list_lookup_alter_ne.
      * rewrite Hm. split; [by exists m|done].
      * intros Heq. rewrite <- Heq, Hn in Hm. injection Hm as Hp _. destruct Hne. destruct h, h'. simpl in *. congruence.
Defined.

(** The application src/src/armour-launch/armour-compose.yml: three proxies,
    and services that name none of them. *)
Definition armour_compose_yml : Compose Empty_set :=
  let service hostname := test_service [] hostname in
  mkCompose "3.0"
    [("srv-nginx", service (Some "srv-nginx")); ("srv-nginx2", service (Some "srv-nginx2")); ("srv-nginx3", service None)]
    [] [] [] []
    [HostApi.mkProxy [Str "hello"; Str "egress"] (Some 6000%Z) (Some 5%Z) true None;
     HostApi.mkProxy [Str "hello"; Str "ingress"] (Some 6001%Z) None false (Some "srv-nginx:80");
     HostApi.mkProxy [Str "no-service"] None None true None] [].

Definition test_url : HostUrl := mkHostUrl (Some "localhost") None "https://localhost:8090".

Section witnesses.
#[local] Existing Instance test_order.
#[local] Instance test_profile : Profile := true.

Lemma up_needs_services_witness :
  let outside := test_launch armour_compose_yml in
  result_ok (Compose.convert_for_armour armour_compose_yml) <> None /\
  forall w', @main _ _ _ _ _ _ outside _ test_url "armour-compose.yml" None Up empty_disk <> (Val tt, w').
Proof.
  split; [by vm_compute|]. intros w'.
  apply (@up_needs_services _ _ _ _ _ _ (test_launch armour_compose_yml) _ armour_compose_yml test_url "armour-compose.yml" None
           0 [Str "hello"; Str "ingress"] empty_disk empty_disk).
  - repeat constructor.
  - reflexivity.
  - intros name s Hg (p & Hp & _).
    assert (Forall (fun kv : string * Service Empty_set => ar_proxies (sv_armour kv.2) = []) (co_services armour_compose_yml)) as Hall
      by (repeat constructor).
    apply BTreeMap.get_Some_elem in Hg. rewrite Forall_forall in Hall. specialize (Hall _ Hg). simpl in Hall.
    rewrite Hall in Hp. by apply elem_of_nil in Hp.
  - reflexivity.
Defined.

(** [test_compose] comes up, and its containers run. *)
Definition test_log : list Event :=
  let outside := test_launch test_compose in
  (@main _ _ _ (@logged_engine _ _) test_details _ (@logged_outside _ _ _ outside) _
     test_url "armour-compose.yml" None Up (empty_disk, [])).2.2.

Lemma containers_run_after_onboarding_witness :
  nth_error test_log 9 = Some (EDocker POST (unpause_path "db")) /\
  exists infos, map (fun i => map fst (ob_services i)) infos = [["db"; "web"]; ["front"]] /\
    onboarded infos "db" (firstn 9 test_log).
Proof.
  split; [vm_compute; reflexivity|].
  destruct (@containers_run_after_onboarding _ _ _ _ test_details _ (test_launch test_compose) _ test_url "armour-compose.yml"
           None Up empty_disk (firstn 9 test_log) (skipn 10 test_log) "db") as (_ & c & w1 & c' & infos & Hr & Hc & Ho).
  { vm_compute. reflexivity. }
  exists infos. split; [|exact Ho]. injection Hr as <- <-. vm_compute in Hc. by injection Hc as <- <-.
Defined.

Definition test_onboarding (infos : list OnboardInfo) : HostApi.OnboardInformation :=
  onboard_information (mkOnboardInfo (concat (map ob_proxies infos)) []).
Notation run_test_rules := (@rules _ _ _ (test_launch test_compose) _ test_converted.1 test_converted.2
                              (test_onboarding test_converted.2) "out/rules").
Definition test_scripts : TestDisk := Eval vm_compute in (run_test_rules empty_disk).2.
Lemma test_scripts_written : run_test_rules empty_disk = (Val tt, test_scripts).
Proof. vm_compute. reflexivity. Qed.

Lemma rules_scripts_witness :
  run_test_rules empty_disk = (Val tt, test_scripts) /\
  exists port_map, content (Files := test_files test_compose) test_scripts ("out/rules" ^^ "_up.sh") =
    text (redirect false) (entries port_map test_converted.2 (co_services test_converted.1)).
Proof.
  split; [exact test_scripts_written|].
  destruct (@rules_scripts _ _ _ _ (test_files test_compose) _ test_converted.1 test_converted.2
    (test_onboarding test_converted.2) "out/rules" empty_disk test_scripts eq_refl test_scripts_written) as (pm & _ & Hu & _).
  exists pm. exact Hu.
Defined.

(** The second proxy has no port: traffic goes to 6001 and the proxy starts at 6000. *)
Definition portless_compose : Compose Empty_set :=
  mkCompose "3" (co_services test_compose) [] [] [] []
    [HostApi.mkProxy [Str "p1"] (Some 6000%Z) None false None; test_proxy "p2"] [].
Definition portless_converted : Compose Empty_set * list OnboardInfo :=
  match Compose.convert_for_armour portless_compose with Ok r => r | Err _ => (portless_compose, []) end.
Definition portless_ports : BTreeMap Label Z := [([Str "p1"], 6000%Z); ([Str "p2"], 6001%Z)].

Lemma redirection_port_witness :
  exists p q config, proxy_port portless_ports portless_converted.2 "front" = Val (Some q) /\
    HostApi.px_port p = None /\ HttpConfig.port config <> q.
Proof.
  destruct (redirection_port portless_compose portless_converted.1 portless_converted.2 portless_ports 1
              (nth 1 portless_converted.2 (mkOnboardInfo [] [])) (nth 1 portless_converted.2 (mkOnboardInfo [] [])) "front")
    as (p & q & config & Hq & Hp & _ & _ & Hiff).
  - repeat constructor.
  - apply (bool_decide_unpack _). vm_compute. exact I.
  - replace (HostApi.oi_proxies _) with (co_proxies portless_compose) by (vm_compute; reflexivity).
    apply Forall_cons. split; [intros ? [= <-]; unfold u16_max; lia|]. apply Forall_cons. split; [by intros ? ?|constructor].
  - vm_compute. reflexivity.
  - vm_compute. reflexivity.
  - split; [vm_compute; reflexivity|]. split; [vm_compute; by eexists|]. intros [|[|j]] info Hj Hi; [|lia..].
    vm_compute in Hi. by injection Hi as <-.
  - reflexivity.
  - exists p, q, config. assert (HostApi.px_port p = None) as Hnone.
    { vm_compute in Hp. by injection Hp as <-. }
    split; [exact Hq|]. split; [exact Hnone|]. intros Heq. apply Hiff in Heq as [[z Hz]|[[Hin _]|Ht]].
    + by rewrite Hnone in Hz.
    + vm_compute in Hin. apply elem_of_cons in Hin as [?|Hin]; [done|by apply elem_of_nil in Hin].
    + by vm_compute in Ht.
Defined.
End witnesses.
