(* ===== verification/Commands.v ===== *)
(** * The command line of the host (src/src/armour-host/src/commands.rs)

    Commands that an operator types, or that are read from scripts, and the
    messages that they send to the host actor.  The regular expression that
    splits a command into an instance, a command and an argument, and files,
    are parameters.  Scripts may run scripts: [fuel] bounds their depth.

    The theorem: what any commands can send, which is what the theorems of
    [HostTheory] ask of the operator. *)

From Stdlib Require Import ZArith Lia String Ascii List.
From stdpp Require Import base tactics list strings sets.
From S2P Require Import Prelude.
From S2P Require Import Ordered.
From S2P Require Import Strings.
From S2P Require Import Labels.
From S2P Require Import Types.
From S2P Require Import Net.
From S2P Require Import Literals.
From S2P Require Import Lang.
From S2P Require Import Policies.
From S2P Require Import Identity.
From S2P Require Import Proxy.
From S2P Require Import Host.
From S2P Require Import Compose.
From S2P Require Import Launch.

Local Open Scope string_scope.
Local Open Scope list_scope.

(** What the groups of the regular expression matched. *)
Record Captures := mkCaptures { cap_instance : option string; cap_command : option string; cap_arg : option string }.

Class CommandOutside := {
  (** [COMMAND.captures] *)
  command_captures : string -> option Captures;
  (** [DPPolicies::from_file] *)
  policies_from_file : string -> option DPPolicies;
  (** The lines of a file, each [None] when it cannot be read. *)
  file_lines : string -> option (list (option string));
}.

(** The messages sent so far. *)
Notation Sending := (Comp (list HostMsg)).

Section commands.
Context `{CommandOutside}.

Definition do_send (m : HostMsg) : Sending unit := fun sent => (Val tt, sent ++ [m]).
Definition policy_command (instance : InstanceSelector) (req : PolicyRequest) : Sending unit :=
  do_send (MPolicyCommand false instance req).

Definition trim (s : string) : string := trim_end (trim_start s).

Definition instance_selector (caps : Captures) : option InstanceSelector :=
  match cap_instance caps with
  | Some x =>
    let s := trim_end_char ":" (trim_end x) in
    match parse_usize s with
    | Some id => Some (OfID id)
    | None => match Label.from_str s with Ok label => Some (OfLabel label) | Err _ => None end
    end
  | None => Some All
  end.

Definition command_of (caps : Captures) : option InstanceSelector * option string * option string :=
  (instance_selector caps, cap_command caps, option_map (fun s => trim_char (ascii_of_nat 34) (trim s)) (cap_arg caps)).

(** [str::replace]: a space may be written after a backslash. *)
Definition pathbuf (s : string) : string := join " " (split "\ " s).

Definition set_policy (instance : InstanceSelector) (policies : DPPolicies) : Sending unit :=
  policy_command instance (SetPolicy policies).

Definition launch_command (instance : InstanceSelector) (log : LogLevel) : Sending unit :=
  match instance with
  | OfLabel label => do_send (MLaunch (mkLaunch true label log None))
  | OfID _ => mret tt
  | All => do_send (MLaunch (mkLaunch true [Str "proxy"] log None))
  end.

(** [start http] takes a port, or a port and the socket of a service. *)
Definition start_command (http : bool) (instance : InstanceSelector) (port_socket : string) : Sending unit :=
  match parse_unsigned u16_max port_socket with
  | Some port => policy_command instance (if http then StartHttp (Proxy.Port port) else StartTcp port)
  | None =>
    if http then
      match split " " port_socket with
      | [port; socket] =>
        match SocketAddrV4.from_str socket, parse_unsigned u16_max port with
        | Some socket, Some port => policy_command instance (StartHttp (Ingress port socket))
        | _, _ => mret tt
        end
      | _ => mret tt
      end
    else mret tt
  end.

Definition label_command (add : bool) (instance : InstanceSelector) (arg : string) : Sending unit :=
  match split " " arg with
  | [key; value] =>
    match Label.from_str value with
    | Ok label =>
      policy_command instance (Label_
        (match ipv4_from_str key with
         | Some ip => if add then AddIp [(ip, [label])] else RemoveIp ip (Some label)
         | None => if add then AddUri [(key, [label])] else RemoveUri key (Some label)
         end))
    | Err _ => mret tt
    end
  | _ => mret tt
  end.

(** Whether to end; [run_script] runs the commands of a file. *)
Definition host_command (run_script : string -> Sending unit) (caps : Captures) : Sending bool :=
  let '(instance, command, args) := command_of caps in
  match instance with
  | None => mret false
  | Some instance =>
    let all := match instance with All => true | _ => false end in
    let go (m : Sending unit) : Sending bool := _ ← m; mret false in
    match option_map to_lower command, args with
    | Some s, None =>
      if all && (s =? "help") then mret false
      else if all && (s =? "list") then go (do_send MList)
      else if all && (s =? "quit") then (_ ← do_send MQuit; mret true)
      else if s =? "launch" then go (launch_command instance LWarn)
      else if s =? "launch log" then go (launch_command instance LInfo)
      else if s =? "launch debug" then go (launch_command instance LDebug)
      else if s =? "shutdown" then go (policy_command instance Shutdown)
      else if s =? "status" then go (policy_command instance Status)
      else if s =? "stop" then
        go (_ ← policy_command instance (Stop HTTP); policy_command instance (Stop TCP))
      else if s =? "stop http" then go (policy_command instance (Stop HTTP))
      else if s =? "stop tcp" then go (policy_command instance (Stop TCP))
      else if s =? "allow all" then go (set_policy instance Policies.allow_all)
      else if s =? "deny all" then go (set_policy instance Policies.deny_all)
      else if s =? "labels rm" then go (policy_command instance (Label_ Clear))
      else mret false
    | Some s, Some arg =>
      if all && (s =? "run") then go (run_script arg)
      else if all && (s =? "wait") then mret false
      else if s =? "start tcp" then go (start_command false instance arg)
      else if s =? "start http" then go (start_command true instance arg)
      else if s =? "timeout" then
        go (match parse_unsigned 255 arg with Some secs => policy_command instance (Timeout secs) | None => mret tt end)
      else if s =? "policy" then
        go (match policies_from_file (pathbuf arg) with Some ps => set_policy instance ps | None => mret tt end)
      else if s =? "label add" then go (label_command true instance arg)
      else if s =? "label rm" then go (label_command false instance arg)
      else if s =? "labels rm" then
        go (policy_command instance (Label_
              (match ipv4_from_str arg with Some ip => RemoveIp ip None | None => RemoveUri arg None end)))
      else mret false
    | None, _ => mret false
    end
  end.

(** The lines of a script, until one ends the program or cannot be read. *)
Fixpoint run_lines (run_command : string -> Sending bool) (lines : list (option string)) : Sending unit :=
  match lines with
  | Some cmd :: lines =>
    let cmd := trim cmd in
    if (cmd =? "") || starts_with cmd "#" then run_lines run_command lines
    else done ← run_command cmd; if done : bool then mret tt else run_lines run_command lines
  | None :: _ | [] => mret tt
  end.

Definition run_script (run_command : string -> Sending bool) (script : string) : Sending unit :=
  match file_lines (pathbuf script) with
  | Some lines => run_lines run_command lines
  | None => mret tt
  end.

Fixpoint run_command (fuel : nat) (cmd : string) : Sending bool :=
  match fuel with
  | O => out_of_fuel
  | S fuel =>
    let cmd := trim cmd in
    if cmd =? "" then mret false
    else match command_captures cmd with
         | Some caps => host_command (run_script (run_command fuel)) caps
         | None => mret false
         end
  end.
End commands.

(** ** What commands send *)

Section sent.
Context `{CommandOutside}.

(** Policies that commands name. *)
Definition named_policy (ps : DPPolicies) : Prop :=
  ps = Policies.allow_all \/ ps = Policies.deny_all \/ exists file, policies_from_file file = Some ps.

Definition command_request (req : PolicyRequest) : Prop :=
  match req with
  | CPOnboard _ => False
  | SetPolicy ps => named_policy ps
  | StartHttp config => (HttpConfig.port config <= u16_max)%Z
  | StartTcp port => (port <= u16_max)%Z
  | Timeout secs => (secs <= 255)%Z
  | Label_ _ | Shutdown | Status | Stop _ => True
  end.

(** A message of a command. *)
Definition commanded (m : HostMsg) : Prop :=
  match m with
  | MList | MQuit => True
  | MLaunch l => la_force l = true /\ la_timeout l = None
  | MPolicyCommand retry _ req => retry = false /\ command_request req
  | _ => False
  end.

(** A computation that adds such messages. *)
Definition sends {A} (m : Sending A) : Prop :=
  forall sent, Forall commanded sent -> Forall commanded (m sent).2.

Lemma sends_ret {A} (a : A) : sends (mret a).
Proof. by intros sent Hs. Qed.

Lemma sends_bind {A B} (m : Sending A) (f : A -> Sending B) : sends m -> (forall a, sends (f a)) -> sends (m ≫= f).
Proof.
  intros Hm Hf sent Hs. unfold mbind, Comp_bind. specialize (Hm sent Hs).
  destruct (m sent) as [[a|e| |] sent']; [by apply Hf|done..].
Qed.

Lemma sends_if {A} (b : bool) (m1 m2 : Sending A) : sends m1 -> sends m2 -> sends (if b then m1 else m2).
Proof. by destruct b. Qed.

Lemma sends_do_send m : commanded m -> sends (do_send m).
Proof. intros Hm sent Hs. apply Forall_app. by repeat constructor. Qed.

Lemma sends_policy instance req : command_request req -> sends (policy_command instance req).
Proof. intros Hr. by apply sends_do_send. Qed.

Lemma parse_unsigned_max max s n : parse_unsigned max s = Some n -> (n <= max)%Z.
Proof.
  unfold parse_unsigned. intros Hp. apply bind_Some in Hp as (z & _ & Hz).
  destruct (z <=? max)%Z eqn:Eb; [|done]. injection Hz as <-. by apply Z.leb_le.
Qed.

Lemma sends_start http instance arg : sends (start_command http instance arg).
Proof.
  unfold start_command. destruct (parse_unsigned _ arg) as [p|] eqn:Ep.
  { apply sends_policy. apply parse_unsigned_max in Ep. by destruct http. }
  destruct http; [|apply sends_ret]. destruct (split " " arg) as [|p [|s [|? ?]]]; try apply sends_ret.
  destruct (SocketAddrV4.from_str s), (parse_unsigned u16_max p) as [q|] eqn:Eq; try apply sends_ret.
  apply sends_policy. by apply parse_unsigned_max in Eq.
Qed.

Lemma sends_label add instance arg : sends (label_command add instance arg).
Proof.
  unfold label_command. destruct (split " " arg) as [|k [|v [|? ?]]]; try apply sends_ret.
  destruct (Label.from_str v); [by apply sends_policy|apply sends_ret].
Qed.

Lemma sends_launch instance log : sends (launch_command instance log).
Proof. destruct instance; [by apply sends_do_send..|apply sends_ret]. Qed.

Lemma sends_set_policy instance ps : named_policy ps -> sends (set_policy instance ps).
Proof. intros Hp. by apply sends_policy. Qed.

Lemma sends_host_command run_script caps : (forall file, sends (run_script file)) -> sends (host_command run_script caps).
Proof.
  intros Hrun. unfold host_command. destruct (command_of caps) as [[[instance|] command] args]; [|apply sends_ret].
  assert (forall m : Sending unit, sends m -> sends (_ ← m; mret false)) as Hgo.
  { intros m Hm. apply sends_bind; [done|]. intros _. apply sends_ret. }
  destruct (option_map to_lower command) as [s|], args as [arg|]; [| |apply sends_ret..].
  - repeat apply sends_if; try apply sends_ret; apply Hgo; try apply Hrun; try apply sends_start; try apply sends_label.
    + destruct (parse_unsigned 255 arg) as [n|] eqn:En; [|apply sends_ret]. apply sends_policy.
      by apply parse_unsigned_max in En.
    + destruct (policies_from_file _) as [ps|] eqn:Ep; [|apply sends_ret]. apply sends_set_policy. right. right. by eexists.
    + by apply sends_policy.
  - repeat apply sends_if; try apply sends_ret; try (apply Hgo; try apply sends_launch; try (by apply sends_policy)).
    + by apply sends_do_send.
    + apply sends_bind; [by apply sends_do_send|]. intros _. apply sends_ret.
    + apply sends_bind; [by apply sends_policy|]. intros _. by apply sends_policy.
    + apply sends_set_policy. by left.
    + apply sends_set_policy. right. by left.
Qed.

(** Whatever is typed and whatever scripts hold, the messages that were sent,
    also by a command that has not ended yet, are those of commands: policies
    are the trivial ones or come from files, and numbers are in range. *)
Theorem commands_send_commanded (fuel : nat) (cmd : string) : Forall commanded (run_command fuel cmd []).2.
Proof.
  assert (forall fuel cmd, sends (run_command fuel cmd)) as Hall; [|by apply Hall]. clear fuel cmd.
  induction fuel as [|fuel IH]; intros cmd; cbn [run_command]; [by intros sent Hs|].
  destruct (trim cmd =? ""); [apply sends_ret|]. destruct (command_captures _) as [caps|]; [|apply sends_ret].
  apply sends_host_command. intros file. unfold run_script. destruct (file_lines _) as [lines|]; [|apply sends_ret].
  induction lines as [|[line|] lines IHl]; cbn [run_lines]; [apply sends_ret| |apply sends_ret].
  destruct (_ || _); [exact IHl|]. apply sends_bind; [apply IH|]. intros [|]; [apply sends_ret|exact IHl].
Qed.
End sent.

(** ** Examples *)

(** A command is a word; [run] and a name. *)
#[local] Instance test_commands : CommandOutside := {
  command_captures s :=
    match split " " s with
    | [c] => Some (mkCaptures None (Some c) None)
    | [c; a] => Some (mkCaptures None (Some c) (Some a))
    | _ => None
    end;
  policies_from_file _ := None;
  file_lines f :=
    if f =? "inner" then Some [Some "quit"]
    else if f =? "outer" then Some [Some "# a comment"; Some " run inner "; Some "shutdown"]
    else None;
}.

Example quit_ends_script : (run_command 2 "run inner" []).2 = [MQuit].
Proof. by vm_compute. Qed.

(** The script that runs a script that quits goes on. *)
Example nested_quit_continues : (run_command 3 "run outer" []).2 = [MQuit; MPolicyCommand false All Shutdown].
Proof. by vm_compute. Qed.
