(* ===== verification/Pretty.v ===== *)
(** * Printing (src/src/armour-lang/src/pretty.rs, literals.rs, parser.rs)

    Expressions, patterns, literals, types and declarations as documents, and
    the texts of literals.  A document says where lines may be broken; the
    [pretty] crate lays it out, which is the class [Renderer]. *)

From Stdlib Require Import ZArith Lia String Ascii List SpecFloat.
From stdpp Require Import base tactics list strings.
From S2P Require Import Prelude.
From S2P Require Import Ordered.
From S2P Require Import Strings.
From S2P Require Import Labels.
From S2P Require Import Syntax.
From S2P Require Import Types.
From S2P Require Import Net.
From S2P Require Import Literals.
From S2P Require Import FnHeaders.
From S2P Require Import Expressions.
From S2P Require Import Nom.
From S2P Require Import Interpret.
From S2P Require Import TypeCheck.
From S2P Require Import Lexer.
From S2P Require Import Ast.
From S2P Require Import Parser.
From S2P Require Import Lang.
From S2P Require Import Policies.
From S2P Require Import ControlLiterals.

Local Open Scope string_scope.
Local Open Scope list_scope.

(** ** Documents (the pretty crate) *)

Inductive Color := Green | Blue | Cyan | Magenta | Yellow.

Inductive Doc :=
| Nil
| Text (s : string)
(** A newline, or a space in a group that is laid out on one line. *)
| Line
| Append (d1 d2 : Doc)
(** The lines of [d] are indented by [n] more. *)
| Nest (n : nat) (d : Doc)
| Group (d : Doc)
| Annotate (c : Color) (d : Doc).

Module Doc.
Definition space : Doc := Text " ".
(** [RcDoc::intersperse] *)
Fixpoint intersperse (ds : list Doc) (sep : Doc) : Doc :=
  match ds with
  | [] => Nil
  | [d] => d
  | d :: ds => Append (Append d sep) (intersperse ds sep)
  end.

Fixpoint spaces (n : nat) : string := match n with O => "" | S n => String " " (spaces n) end.

(** The texts that a document may be laid out as: with the indentation of its
    lines, on one line or not. *)
Inductive layout : nat -> bool -> Doc -> string -> Prop :=
| layout_nil i flat : layout i flat Nil ""
| layout_text i flat s : layout i flat (Text s) s
| layout_space i : layout i true Line " "
| layout_line i : layout i false Line (String (ascii_of_nat 10) (spaces i))
| layout_append i flat d1 d2 s1 s2 :
    layout i flat d1 s1 -> layout i flat d2 s2 -> layout i flat (Append d1 d2) (s1 ^^ s2)
| layout_nest i flat n d s : layout (i + n) flat d s -> layout i flat (Nest n d) s
| layout_flat i flat d s : layout i true d s -> layout i flat (Group d) s
| layout_group i d s : layout i false d s -> layout i false (Group d) s
| layout_annotate i flat c d s : layout i flat d s -> layout i flat (Annotate c d) s.

(** Whether the document holds no line. *)
Fixpoint one_line (d : Doc) : bool :=
  match d with
  | Nil | Text _ => true
  | Line => false
  | Append d1 d2 => one_line d1 && one_line d2
  | Nest _ d | Group d | Annotate _ d => one_line d
  end.
(** Everything on one line. *)
Fixpoint flatten (d : Doc) : string :=
  match d with
  | Nil => ""
  | Text s => s
  | Line => " "
  | Append d1 d2 => flatten d1 ^^ flatten d2
  | Nest _ d | Group d | Annotate _ d => flatten d
  end.
End Doc.

(** [Doc::render] with a width. *)
Class Renderer := render : nat -> Doc -> string.
Class RendererLaws `{Renderer} := render_layout w d : Doc.layout 0 false d (render w d).

Notation "a +++ b" := (Append a b) (at level 61, left associativity) : pretty_scope.
#[local] Open Scope pretty_scope.

Definition bracket (d : Doc) : Doc := Text "(" +++ Nest 1 d +++ Text ")".

(** The separators of lists, with their parentheses. *)
Definition comma_separated (ds : list Doc) : Doc := Doc.intersperse ds (Text "," +++ Doc.space).

Inductive Class_ := Keyword | Control | Other.
Definition key (data : string) : Doc :=
  let class :=
    if data =? "as" then Keyword
    else if data =? "async" then Control
    else if data =? "else" then Control
    else if data =? "false" then Keyword
    else if data =? "fn" then Keyword
    else if data =? "if" then Control
    else if data =? "in" then Keyword
    else if data =? "let" then Keyword
    else if data =? "matches" then Control
    else if data =? "return" then Control
    else if data =? "true" then Keyword
    else Other in
  match class with
  | Keyword => Annotate Cyan (Text data)
  | Control => Annotate Magenta (Text data)
  | Other => Text data
  end.

(** ** Operators *)

Module Prefix.
Definition to_string (p : Prefix) : string := match p with Minus => "-" | Not => "!" end.
End Prefix.

Module Iter.
Definition to_string (i : Iter) : string :=
  match i with
  | All => "all" | Any_ => "any" | Filter => "filter" | FilterMap => "filter_map" | Map => "map"
  | ForEach => "foreach" | Fold => "fold"
  end.
End Iter.

Module Infix.
Definition to_string (op : Infix) : string :=
  match op with
  | Equal => "==" | NotEqual => "!=" | Plus => "+" | IMinus => "-" | Divide => "/" | Multiply => "*"
  | Remainder => "%" | GreaterThanEqual => ">=" | LessThanEqual => "<=" | GreaterThan => ">" | LessThan => "<"
  | And => "&&" | Or => "||" | Concat => "@" | ConcatStr => "++" | Module_ => "::" | In_ => "in" | Dot => "."
  end.

Definition precedence (op : Infix) : Precedence * Assoc :=
  match op with
  | Equal => (PEquals, RightAssoc)
  | NotEqual => (PEquals, RightAssoc)
  | Plus => (PSum, LeftAssoc)
  | IMinus => (PSum, LeftAssoc)
  | Divide => (PProduct, LeftAssoc)
  | Multiply => (PProduct, LeftAssoc)
  | Remainder => (PProduct, LeftAssoc)
  | GreaterThanEqual => (PLessGreater, RightAssoc)
  | LessThanEqual => (PLessGreater, RightAssoc)
  | GreaterThan => (PLessGreater, RightAssoc)
  | LessThan => (PLessGreater, RightAssoc)
  | And => (PAnd, RightAssoc)
  | Or => (POr, RightAssoc)
  | Concat => (PSum, RightAssoc)
  | ConcatStr => (PSum, RightAssoc)
  | Module_ => (PModule, RightAssoc)
  | In_ => (PIn, LeftAssoc)
  | Dot => (PDot, LeftAssoc)
  end.
End Infix.

#[export] Instance Assoc_eq_dec : EqDecision Assoc.
Proof. solve_decision. Defined.

(** ** Patterns *)

Module PatDoc.
Definition is_alt (p : Pat) : bool := match p with PatAlt _ => true | _ => false end.
Definition is_alt_or_seq (p : Pat) : bool := match p with PatAlt _ | PatSeq _ => true | _ => false end.

(** A pattern with a sign after it, given its document. *)
Definition postfix (p : Pat) (doc : Doc) (s : string) : Doc :=
  (if is_alt_or_seq p then bracket doc else doc) +++ Text s.

Fixpoint to_doc (p : Pat) : Doc :=
  match p with
  | PatAny => Text "."
  | PatLit s => Annotate Green (Text dquote +++ Text s +++ Text dquote)
  | PatClass s => Annotate Green (Text (":" ^^ s ^^ ":"))
  | PatAlt ps => Group (Doc.intersperse (map to_doc ps) (Doc.space +++ Text "|" +++ Doc.space))
  | PatSeq ps =>
    Group (Doc.intersperse (map (fun p => if is_alt p then bracket (to_doc p) else to_doc p) ps) Doc.space)
  | PatAs id AsStr => Text "[" +++ Text id +++ Text "]"
  | PatAs id AsI64 => Text "[" +++ Text id +++ Text " " +++ key "as" +++ Text " i64]"
  | PatAs id AsBase64 => Text "[" +++ Text id +++ Text " " +++ key "as" +++ Text " base64]"
  | PatOpt p => postfix p (to_doc p) "?"
  | PatStar p => postfix p (to_doc p) "*"
  | PatPlus p => postfix p (to_doc p) "+"
  | PatCaseInsensitive p => postfix p (to_doc p) "!"
  | PatIgnoreWhitespace p => postfix p (to_doc p) "%"
  end.
End PatDoc.

(** [Display for PolicyRegex] *)
Definition regex_to_string `{Renderer} (r : PolicyRegex) : string := render 80 (PatDoc.to_doc r).

Definition pattern_to_doc (p : Pattern) : Doc :=
  match p with RegexPattern r => PatDoc.to_doc r | LabelPattern l => Text (Label.to_string l) end.

(** ** Literals *)

(** The texts that the compiler derives ([Debug]), the decimal forms of
    floating point numbers, and the text of an address. *)
Class Texts := {
  debug_connection : Connection -> string;
  debug_http_request : HttpRequest -> string;
  debug_http_response : HttpResponse -> string;
  debug_id : ID -> string;
  debug_regex : PolicyRegex -> string;
  debug_credentials : Credentials -> string;
  debug_onboarding_data : OnboardingData -> string;
  debug_onboarding_result : OnboardingResult -> string;
  debug_primitive : Primitive -> string;
  debug_policy : LitPolicy -> string;
  (** [d.abs().log10() as usize], [d.trunc()], and the formats [{:e}],
      [{:.1}] and [{}]. *)
  log10_abs : spec_float -> Z;
  float_trunc : spec_float -> spec_float;
  float_exp : spec_float -> string;
  float_one : spec_float -> string;
  float_plain : spec_float -> string;
  ip_text : IpAddr -> string;
}.

(** [std::str::from_utf8(d).is_ok()]: the lead byte says how many bytes
    follow, and bounds the first of them. *)
Definition continues (lo hi : N) (c : ascii) : bool := let n := N_of_ascii c in ((lo <=? n) && (n <=? hi))%N.
Definition follows (c : ascii) : option (list (N * N)) :=
  let n := N_of_ascii c in
  let any := (128, 191)%N in
  (if n <? 128 then Some []
  else if n <? 194 then None
  else if n <? 224 then Some [any]
  else if n =? 224 then Some [(160, 191); any]
  else if n =? 237 then Some [(128, 159); any]
  else if n <? 240 then Some [any; any]
  else if n =? 240 then Some [(144, 191); any; any]
  else if n <? 244 then Some [any; any; any]
  else if n =? 244 then Some [(128, 143); any; any]
  else None)%N.
Fixpoint is_utf8_go (expected : list (N * N)) (s : string) : bool :=
  match s, expected with
  | "", [] => true
  | "", _ => false
  | String c s, (lo, hi) :: e => continues lo hi c && is_utf8_go e s
  | String c s, [] => match follows c with Some e => is_utf8_go e s | None => false end
  end.
Definition is_utf8 (d : bytes) : bool := is_utf8_go [] (of_bytes d).

(** [{:x?}] of bytes. *)
Definition hex_digit (n : N) : string :=
  String (ascii_of_N (if (n <? 10)%N then 48 + n else 87 + n)%N) "".
Definition hex_byte (c : ascii) : string :=
  let n := N_of_ascii c in
  if (n <? 16)%N then hex_digit n else hex_digit (n / 16) ^^ hex_digit (n mod 16).
Definition hex_bytes (d : bytes) : string := "[" ^^ join ", " (map hex_byte d) ^^ "]".

Definition bool_to_string (b : bool) : string := if b then "true" else "false".
(** [std::f64::EPSILON]: [2 ^ -52] *)
Definition float_epsilon : spec_float := S754_finite false 4503599627370496 (-104).

Module FlatLiteralText.
Section text.
Context `{Renderer} `{Texts}.

Definition float_to_string (d : spec_float) : string :=
  if (8 <? log10_abs d)%Z then float_exp d
  else if SFltb (SFabs (SFsub 53 1024 (float_trunc d) d)) float_epsilon then float_one d
  else float_plain d.

(** [Display for FlatLiteral] *)
Definition to_string (l : FlatLiteral) : string :=
  match l with
  | LBool b => bool_to_string b
  | LConnection c => debug_connection c
  | LData d => if is_utf8 d then "b" ^^ quote (of_bytes d) else hex_bytes d
  | LFloat d => float_to_string d
  | LHttpRequest r => debug_http_request r
  | LHttpResponse r => debug_http_response r
  | LID id => debug_id id
  | LInt i => i64_to_string i
  | LIpAddr ip => ip_text ip
  | LLabel label => "'" ^^ Label.to_string label ^^ "'"
  | LRegex r => debug_regex r
  | LStr s => quote s
  | LUnit => "()"
  end.
End text.
End FlatLiteralText.

(** The trait [TPrettyLit] of flat literals. *)
Class TPrettyLit (FL : Type) := { flat_to_doc : FL -> Doc; flat_display : FL -> string }.

Definition literal_doc (s : string) : Doc := Annotate Green (Text s).
Definition non_parse_literal (s : string) : Doc := Annotate Blue (Text s).

Section dp_lit.
Context `{Renderer} `{Texts}.

Definition dp_to_doc (l : FlatLiteral) : Doc :=
  let s := FlatLiteralText.to_string l in
  match l with
  | LBool b => key (bool_to_string b)
  | LData d => if is_utf8 d then literal_doc s else non_parse_literal s
  | LRegex r => Text "Regex(" +++ PatDoc.to_doc r +++ Text ")"
  | LUnit => Text "()"
  | LHttpRequest _ | LID _ | LConnection _ | LIpAddr _ => non_parse_literal s
  | _ => literal_doc s
  end.
#[export] Instance DPPrettyLit : TPrettyLit FlatLiteral :=
  { flat_to_doc := dp_to_doc; flat_display := FlatLiteralText.to_string }.

(** [Display for CPFlatLiteral] *)
Definition cp_to_string (l : CPFlatLiteral) : string :=
  match l with
  | LCredentials d => debug_credentials d
  | LDP dpfl => FlatLiteralText.to_string dpfl
  | LOnboardingData d => debug_onboarding_data d
  | LOnboardingResult r => debug_onboarding_result r
  | LPrimitive r => debug_primitive r
  | LPolicy p => debug_policy p
  end.
Definition cp_to_doc (l : CPFlatLiteral) : Doc :=
  let s := cp_to_string l in
  match l with
  | LDP (LBool b) => key (bool_to_string b)
  | LDP (LData d) => if is_utf8 d then literal_doc s else non_parse_literal s
  | LDP (LRegex r) => Text "Regex(" +++ PatDoc.to_doc r +++ Text ")"
  | LDP LUnit => Text "()"
  | LDP (LHttpRequest _) | LDP (LID _) | LDP (LConnection _) | LDP (LIpAddr _) => non_parse_literal s
  | _ => literal_doc s
  end.
#[export] Instance CPPrettyLit : TPrettyLit CPFlatLiteral :=
  { flat_to_doc := cp_to_doc; flat_display := cp_to_string }.
End dp_lit.

Module LiteralDoc.
Section literal.
Context {FL : Type} `{TPrettyLit FL}.

Fixpoint to_doc (l : Literal FL) : Doc :=
  match l with
  | FlatLit fl => flat_to_doc fl
  | LList lits => Text "[" +++ Group (Nest 1 (comma_separated (map to_doc lits))) +++ Text "]"
  | LTuple [] => Text "None"
  | LTuple [l] => Text "Some(" +++ to_doc l +++ Text ")"
  | LTuple lits => bracket (Group (comma_separated (map to_doc lits)))
  end.

(** [Display for Literal] *)
Fixpoint to_string (l : Literal FL) : string :=
  match l with
  | FlatLit fl => flat_display fl
  | LList lits => "[" ^^ join ", " (map to_string lits) ^^ "]"
  | LTuple lits =>
    let s := join ", " (map to_string lits) in
    match lits with [] => "None" | [_] => "Some(" ^^ s ^^ ")" | _ => "(" ^^ s ^^ ")" end
  end.
End literal.
End LiteralDoc.

(** ** Types *)

Module TypDoc.
Section typ.
Context {FT : Type} `{TFlatTyp FT}.

Definition internal (d : Doc) : Doc := Annotate Cyan d.
Fixpoint to_doc (t : Typ FT) : Doc :=
  match t with
  | ListT t => internal (Text "List") +++ Text "<" +++ to_doc t +++ Text ">"
  | Tuple [] => internal (Text "Option") +++ Text "<?>"
  | Tuple [t] => internal (Text "Option") +++ Text "<" +++ to_doc t +++ Text ">"
  | Tuple ts => bracket (Group (comma_separated (map to_doc ts)))
  | Flat _ => internal (Text (Typ.to_string t))
  end.
End typ.
End TypDoc.

(** ** Expressions *)

Module ExprDoc.
Section expr.
Context (FT : Type) {FL : Type} `{TFlatTyp FT} `{TBuiltin FT} `{TPrettyLit FL}.
Notation Expr := (Expr FL).

Definition vec_str_to_doc (l : list string) : Doc :=
  match l with
  | [s] => Text s
  | _ => bracket (Group (comma_separated (map Text l)))
  end.
Definition closure_var (e : Expr) : option string := match e with Closure v _ => Some v | _ => None end.
Fixpoint closure_vars (e : Expr) : list string :=
  match e with Closure v e => v :: closure_vars e | _ => [] end.
Fixpoint closure_body (e : Expr) : Expr := match e with Closure _ b => closure_body b | _ => e end.
Definition is_if (e : Expr) : bool :=
  match e with IfExpr _ _ _ | IfMatchExpr _ _ _ _ | IfSomeMatchExpr _ _ _ => true | _ => false end.
Definition method (name : string) : Doc := Annotate Yellow (Text name).
Definition precedence (e : Expr) : Precedence * Assoc :=
  match e with InfixExpr op _ _ => Infix.precedence op | _ => (PDot, LeftAssoc) end.

(** Whether an operand is put in parentheses on the side where operators of
    its level would group with the one around it. *)
Definition bracketed (own : Precedence * Assoc) (side : Assoc) (operand : Precedence * Assoc) : bool :=
  Nat.ltb operand.1 own.1 || bool_decide (operand = own) && bool_decide (own.2 = side).
Definition operand (own : Precedence * Assoc) (side : Assoc) (e : Expr) (d : Doc) : Doc :=
  if bracketed own side (precedence e) then bracket d else d.

(** The end of the three conditionals. *)
Definition with_else (doc : Doc) (alternative : option (bool * Doc)) : Doc :=
  match alternative with
  | Some (alt_is_if, alt) =>
    let doc := doc +++ Doc.space +++ key "else" +++ Text " " in
    if alt_is_if then Group (doc +++ alt)
    else Group (doc +++ Text "{" +++ Nest 2 (Line +++ alt) +++ Line +++ Text "}")
  | None => Group doc
  end.

Fixpoint map_docs {A} (f : A -> Outcome Doc) (l : list A) : Outcome (list Doc) :=
  match l with
  | [] => Val []
  | x :: l => d ← f x; ds ← map_docs f l; Val (d :: ds)
  end.

(** The documents of expressions, given those of their parts. *)
Definition let_doc (vs : list string) (e b : Doc) : Doc :=
  Group (key "let" +++ Nest 2 (Doc.space +++ vec_str_to_doc vs +++ Text " =") +++ Nest 4 (Doc.space +++ e)
         +++ Text ";" +++ Line +++ b).
Definition iter_doc (op : Iter) (vs : list string) (e b : Doc) : Doc :=
  Annotate Cyan (Text (Iter.to_string op))
  +++ Nest 2 (Doc.space +++ vec_str_to_doc vs +++ Doc.space +++ key "in")
  +++ Nest 4 (Doc.space +++ e) +++ Doc.space +++ Text "{" +++ Nest 2 (Line +++ b) +++ Line +++ Text "}".
Definition if_doc (cond consequence : Doc) : Doc :=
  key "if" +++ Doc.space +++ cond +++ Doc.space +++ Text "{" +++ Nest 2 (Line +++ consequence) +++ Line +++ Text "}".
Definition if_some_doc (v : string) (expr consequence : Doc) : Doc :=
  key "if" +++ Text " " +++ key "let" +++ Text " Some(" +++ Text v +++ Text ") =" +++ Doc.space
  +++ expr +++ Doc.space +++ Text "{" +++ Nest 2 (Line +++ consequence) +++ Line +++ Text "}".
Definition if_match_doc (matches : list Doc) (consequence : Doc) : Doc :=
  key "if" +++ Nest 2 (Doc.space +++ Doc.intersperse matches (Doc.space +++ Text "&&" +++ Doc.space))
  +++ Doc.space +++ Text "{" +++ Nest 2 (Line +++ consequence) +++ Line +++ Text "}".
Definition call_doc (function : string) (args : list Doc) (is_async : bool) : Outcome Doc :=
  let doc := if is_async then key "async" +++ Doc.space else Nil in
  match FnHeaders.method (FT := FT) function with
  | Some m =>
    match args with
    | [] => Panic
    | a :: args => Val (doc +++ a +++ Text "." +++ method m +++ bracket (Group (comma_separated args)))
    end
  | None =>
    let f :=
      if function =? "option::Some" then Text "Some"
      else match FnHeaders.split function with
           | Some (module, name) => Text module +++ Text "::" +++ method name
           | None => method function
           end in
    Val (doc +++ f +++ bracket (Group (comma_separated args)))
  end.

(** [unwrap] panics for a [Some] pattern that binds no variable, and for a
    method that is called on nothing.  With [body] it is the document of the
    closure's body, without the variables of the closures around it. *)
Fixpoint doc_of (body : bool) (e : Expr) : Outcome Doc :=
  let to_doc := doc_of false in
  let body_doc := doc_of true in
  let alt_doc (a : option Expr) : Outcome (option (bool * Doc)) :=
    match a with Some a => d ← to_doc a; Val (Some (is_if a, d)) | None => Val None end in
  match e with
  | Var id => Val (Text id)
  | BVar id _ => Val (Text id)
  | LitExpr lit => Val (LiteralDoc.to_doc lit)
  | Let vs e b => e ← to_doc e; b ← body_doc b; Val (let_doc vs e b)
  | Closure v e1 =>
    if body then doc_of true e1
    else e ← to_doc e1; Val (Group (Text "\" +++ Text v +++ Text "." +++ Nest 2 (Doc.space +++ e)))
  | ReturnExpr e => e ← to_doc e; Val (Group (key "return" +++ Doc.space +++ e))
  | PrefixExpr p e => e ← to_doc e; Val (Group (Text (Prefix.to_string p) +++ e))
  | InfixExpr op l r =>
    let own := Infix.precedence op in
    left ← to_doc l; right ← to_doc r;
    Val (Group (operand own RightAssoc l left +++ Doc.space +++ Text (Infix.to_string op) +++ Doc.space
                +++ operand own LeftAssoc r right))
  | IterExpr op vs e b acc_opt =>
    e ← to_doc e; b ← body_doc b;
    match acc_opt with
    | Some (_, acc) => acc ← to_doc acc; Val (Group (iter_doc op vs e b +++ Nest 4 (Doc.space +++ acc)))
    | None => Val (Group (iter_doc op vs e b))
    end
  | BlockExpr BBlock es => es ← map_docs to_doc es; Val (Doc.intersperse es (Text ";" +++ Line))
  | BlockExpr BList es =>
    es ← map_docs to_doc es; Val (Text "[" +++ Group (Nest 1 (comma_separated es)) +++ Text "]")
  | BlockExpr BTuple es => es ← map_docs to_doc es; Val (bracket (Group (comma_separated es)))
  | IfExpr cond consequence alternative =>
    cond ← to_doc cond; consequence ← to_doc consequence; alt ← alt_doc alternative;
    Val (with_else (if_doc cond consequence) alt)
  | IfSomeMatchExpr expr consequence alternative =>
    v ← unwrap (closure_var consequence);
    expr ← to_doc expr; consequence ← body_doc consequence; alt ← alt_doc alternative;
    Val (with_else (if_some_doc v expr consequence) alt)
  | IfMatchExpr _ matches consequence alternative =>
    ms ← map_docs (fun m => e ← to_doc m.1;
                            Val (e +++ Doc.space +++ key "matches" +++ Doc.space +++ pattern_to_doc m.2)) matches;
    consequence ← body_doc consequence; alt ← alt_doc alternative;
    Val (with_else (if_match_doc ms consequence) alt)
  | CallExpr function arguments is_async =>
    args ← map_docs to_doc arguments; call_doc function args is_async
  end.
Definition to_doc : Expr -> Outcome Doc := doc_of false.
Definition body_doc : Expr -> Outcome Doc := doc_of true.

Lemma doc_of_body e : body_doc e = to_doc (closure_body e).
Proof. unfold body_doc, to_doc. by induction e. Qed.

(** [to_pretty], and [Display for Expr] *)
Definition to_pretty `{Renderer} (width : nat) (e : Expr) : Outcome string := d ← to_doc e; Val (render width d).
Definition to_string `{Renderer} (e : Expr) : Outcome string := to_pretty 80 e.
End expr.
End ExprDoc.

(** ** Declarations *)

Module ProgramDoc.
Section program.
Context {FT FL : Type} `{TFlatTyp FT} `{TFlatLiteral FT FL} `{TBuiltin FT} `{TPrettyLit FL} `{Renderer}.

Definition decl_to_doc (p : Program FT FL) (name : string) (e : Expr FL) : Outcome Doc :=
  let args := ExprDoc.closure_vars e in
  let (tys, ty) := Signature.split (unwrap_or (Signature.any Typ.unit) (Program.typ p name)) in
  let tys := unwrap_or [] tys in
  let ret := if Typ.eqb ty Typ.unit then Nil
             else Doc.space +++ Text "->" +++ Nest 2 (Doc.space +++ TypDoc.to_doc ty) in
  body ← ExprDoc.to_doc FT (ExprDoc.closure_body e);
  Val (Group (key "fn" +++ Doc.space +++ ExprDoc.method name +++ Text "("
              +++ comma_separated (map (fun a => Text a.1 +++ (Text ": " +++ TypDoc.to_doc a.2)) (combine args tys))
              +++ Text ")" +++ ret +++ Doc.space +++ Text "{" +++ Nest 2 (Line +++ body) +++ Line +++ Text "}")).
Definition pretty (p : Program FT FL) (name : string) (e : Expr FL) (width : nat) : Outcome string :=
  d ← decl_to_doc p name e; Val (render width d).

(** [Display for Program] *)
Fixpoint show_decls (p : Program FT FL) (l : list (string * Expr FL)) : Outcome string :=
  match l with
  | [] => Val ""
  | (name, e) :: l => s ← pretty p name e 80; r ← show_decls p l; Val (s ^^ String (ascii_of_nat 10) r)
  end.
Definition to_string (p : Program FT FL) : Outcome string := show_decls p (code p).
End program.
End ProgramDoc.
