(* ===== verification/PrettyTheory.v ===== *)
(** * What is printed is read back

    Expressions of operators are printed on one line, with the parentheses
    that the parser needs and no others: the lexer and the parser give them
    back.  What is not read back is at the end: a prefix operator in a left
    operand, operators that types do not keep apart, quotes in strings,
    accumulators. *)

From Stdlib Require Import ZArith Lia String Ascii List SpecFloat.
From stdpp Require Import base tactics list strings.
From S2P Require Import Prelude.
From S2P Require Import Ordered.
From S2P Require Import Strings.
From S2P Require Import Labels.
From S2P Require Import Syntax.
From S2P Require Import Types.
From S2P Require Import Net.
From S2P Require Import Literals.
From S2P Require Import Nom.
From S2P Require Import Ast.
From S2P Require Import FnHeaders.
From S2P Require Import Expressions.
From S2P Require Import Interpret.
From S2P Require Import TypeCheck.
From S2P Require Import Lexer.
From S2P Require Import Parser.
From S2P Require Import Unparse.
From S2P Require Import Operators.
From S2P Require Import LexerTheory.
From S2P Require Import LexerText.
From S2P Require Import ControlLiterals.
From S2P Require Import Pretty.

Local Open Scope string_scope.
Local Open Scope list_scope.

(** ** Layout *)

Lemma layout_one_line i flat d s : Doc.layout i flat d s -> Doc.one_line d = true -> s = Doc.flatten d.
Proof.
  induction 1; simpl; intros Hd; try done; auto. apply andb_true_iff in Hd as [Hd1 Hd2]. by rewrite IHlayout1, IHlayout2.
Qed.
(** A document without lines has one text, whatever the width. *)
Lemma render_one_line `{RendererLaws} w d : Doc.one_line d = true -> render w d = Doc.flatten d.
Proof. intros Hd. by apply (layout_one_line 0 false); [apply render_layout|]. Qed.

(** In a group everything is one line, and every document has a layout. *)
Lemma layout_flatten d : forall i, Doc.layout i true d (Doc.flatten d).
Proof. induction d; intros i; simpl; constructor; auto. Qed.
Lemma layout_flat_unique i d s : Doc.layout i true d s -> s = Doc.flatten d.
Proof.
  remember true as flat. induction 1; simpl; try done; auto. by rewrite IHlayout1, IHlayout2.
Qed.

(** ** Expressions of operators *)

Section operators.
Context `{TBuiltin FlatTyp} `{RendererLaws} `{Texts}.
Notation DPExpr := (Expr FlatLiteral).
Notation at0 e := (mkLocExpr Loc.dummy e).

(** What the expression was compiled from. *)
Fixpoint source (e : DPExpr) : option (LocExpr FlatLiteral) :=
  match e with
  | Var v | BVar v _ => Some (at0 (PIdent v))
  | LitExpr l => Some (at0 (PLit l))
  | PrefixExpr p e => e ← source e; Some (at0 (PPrefix p e))
  | InfixExpr op l r => l ← source l; r ← source r; Some (at0 (PInfix op l r))
  | _ => None
  end.

(** An operand whose operator gives the type that is asked for; [!] stands
    for any type. *)
Definition fits (t : Typ FlatTyp) (e : DPExpr) : bool :=
  Typ.eqb t Typ.rreturn ||
  match e with
  | InfixExpr op _ _ =>
    match Typ.infix_typ op with
    | Val (_, _, r) => Typ.is_ok (Typ.type_check "infix" [(None, r)] [(None, t)])
    | _ => false
    end
  | _ => true
  end.

(** The tree that is printed. *)
Definition atom (e : DPExpr) : PE :=
  match e with Var v | BVar v _ => PIdent v | LitExpr l => PLit l | _ => PIdent "" end.
Definition in_parens (own : Precedence * Assoc) (side : Assoc) (e : DPExpr) (t : Tree) : Tree :=
  if ExprDoc.bracketed own side (ExprDoc.precedence e) then Paren t else t.
Fixpoint tree (e : DPExpr) : Tree :=
  match e with
  | PrefixExpr p e => Pre p (tree e)
  | InfixExpr op l r =>
    let own := Pretty.Infix.precedence op in
    Node op (in_parens own RightAssoc l (tree l)) (in_parens own LeftAssoc r (tree r))
  | _ => Leaf (atom e)
  end.

(** Its text begins with a digit. *)
Fixpoint digit_first (t : Tree) : bool :=
  match t with
  | Leaf (PLit (FlatLit (LInt i))) => (0 <=? i)%Z
  | Node _ l _ => digit_first l
  | _ => false
  end.

(** Variables and literals whose text is a token: integers, booleans, labels,
    and strings and data of ASCII characters without quotes and backslashes.
    Over them the binary operators, applied to what they can be applied to,
    and the prefix operators, but no left operand that ends in the operand of
    a prefix operator, and no minus before a digit. *)
Definition name_word (v : string) : bool := writable (TIdent v) && negb (v =? "None").
Definition plain_text (s : string) : bool := forall_chars (fun c => is_ascii c && negb (is_escaped c)) s.
Fixpoint plain (e : DPExpr) : bool :=
  match e with
  | Var v | BVar v _ => name_word v
  | LitExpr (FlatLit (LInt i)) => in_i64 i
  | LitExpr (FlatLit (LBool _)) => true
  | LitExpr (FlatLit (LStr s)) => plain_text s
  | LitExpr (FlatLit (LData d)) => plain_text (of_bytes d)
  | LitExpr (FlatLit (LLabel l)) => writable (LabelLiteral l)
  | PrefixExpr p e => plain e && match p with Minus => negb (digit_first (tree e)) | Not => true end
  | InfixExpr op l r =>
    match Typ.infix_typ op with
    | Val (t1, t2, _) => fits t1 l && fits t2 r && plain l && plain r
    | _ => false
    end && negb (open_end (in_parens (Pretty.Infix.precedence op) RightAssoc l (tree l)))
  | _ => false
  end.

(** Its tokens, and where spaces are; [gap] says whether one is at the end. *)
Fixpoint pieces (t : Tree) (gap : bool) : list (Token * bool) :=
  match t with
  | Leaf e => map (fun t => (t, gap)) (show e)
  | Node op l r => pieces l true ++ (infix_token op, true) :: pieces r gap
  | Pre p t => (prefix_token p, false) :: pieces t gap
  | Paren t => (LParen, false) :: pieces t false ++ [(RParen, gap)]
  end.
Lemma pieces_tokens t gap : map fst (pieces t gap) = inorder t.
Proof.
  revert gap. induction t as [e|op l IHl r IHr|p t IH|t IH]; intros gap; simpl.
  - by rewrite map_map, map_id.
  - by rewrite map_app, IHl; simpl; rewrite IHr.
  - by rewrite IH.
  - by rewrite map_app, IH.
Qed.

(** ** Parentheses *)

(** The operators around which none are put group by themselves. *)
Lemma unbracketed_left op op1 t1 t2 t l1 l2 :
  Typ.infix_typ op = Val (t1, t2, t) -> fits t1 (InfixExpr op1 l1 l2) = true -> op1 <> Dot ->
  ExprDoc.bracketed (Pretty.Infix.precedence op) RightAssoc (Pretty.Infix.precedence op1) = false -> groups_left op1 op = true.
Proof. intros Ht Hf. destruct op; try done; injection Ht as <- <- <-; by destruct op1. Qed.
Lemma unbracketed_right op op2 t1 t2 t l1 l2 :
  Typ.infix_typ op = Val (t1, t2, t) -> fits t2 (InfixExpr op2 l1 l2) = true -> op2 <> Dot ->
  ExprDoc.bracketed (Pretty.Infix.precedence op) LeftAssoc (Pretty.Infix.precedence op2) = false -> groups_left op op2 = false.
Proof. intros Ht Hf. destruct op; try done; injection Ht as <- <- <-; by destruct op2. Qed.

(** Whether every pair of parentheses is around the operand of a binary
    operator, and the operators in it and around it would group otherwise. *)
Definition asked_left (op : Infix) (t : Tree) : bool :=
  match t with Paren (Node op1 _ _) => negb (groups_left op1 op) | Paren _ => false | _ => true end.
Definition asked_right (op : Infix) (t : Tree) : bool :=
  match t with Paren (Node op2 _ _) => groups_left op op2 | Paren _ => false | _ => true end.
Definition is_paren (t : Tree) : bool := match t with Paren _ => true | _ => false end.
Fixpoint asked (t : Tree) : bool :=
  match t with
  | Leaf _ => true
  | Node op l r => asked_left op l && asked_right op r && asked l && asked r
  | Pre _ t => negb (is_paren t) && asked t
  | Paren t => asked t
  end.
Lemma bracketed_left op op1 : op <> Dot -> op1 <> Dot ->
  ExprDoc.bracketed (Pretty.Infix.precedence op) RightAssoc (Pretty.Infix.precedence op1) = true -> groups_left op1 op = false.
Proof. by destruct op, op1. Qed.
Lemma bracketed_right op op2 : op <> Dot -> op2 <> Dot ->
  ExprDoc.bracketed (Pretty.Infix.precedence op) LeftAssoc (Pretty.Infix.precedence op2) = true -> groups_left op op2 = true.
Proof. by destruct op, op2. Qed.
Lemma bracketed_infix op side (e : DPExpr) :
  ExprDoc.bracketed (Pretty.Infix.precedence op) side (ExprDoc.precedence e) = true ->
  Typ.infix_typ (FT := FlatTyp) op <> Panic -> op <> Dot -> exists op1 l r, e = InfixExpr op1 l r.
Proof. intros Hb Hnp Hop. destruct e; try (by do 3 eexists); exfalso; by destruct op, side. Qed.
Lemma tree_no_paren e : is_paren (tree e) = false.
Proof. by destruct e. Qed.

Lemma plain_prefix p e : plain (PrefixExpr p e) = true -> plain e = true /\ (p = Minus -> digit_first (tree e) = false).
Proof. simpl. intros [Hp Hm]%andb_true_iff. split; [done|]. intros ->. by apply negb_true_iff. Qed.
Lemma plain_infix op l r : plain (InfixExpr op l r) = true ->
  op <> Dot /\ plain l = true /\ plain r = true /\
  open_end (in_parens (Pretty.Infix.precedence op) RightAssoc l (tree l)) = false /\
  exists t1 t2 t, Typ.infix_typ (FT := FlatTyp) op = Val (t1, t2, t) /\ fits t1 l = true /\ fits t2 r = true.
Proof.
  simpl. intros [Hp Ho%negb_true_iff]%andb_true_iff. destruct (Typ.infix_typ op) as [[[t1 t2] t]| | |] eqn:Et; try done.
  bool_to_prop. split_and!; [by intros ->|done|done|done|]. by exists t1, t2, t.
Qed.

Lemma asked_operand op side e : asked (tree e) = true -> asked (in_parens (Pretty.Infix.precedence op) side e (tree e)) = true.
Proof. unfold in_parens. by destruct (ExprDoc.bracketed _ _ _). Qed.
Lemma tree_asked e : plain e = true -> asked (tree e) = true.
Proof.
  induction e using Expr_ind'; try done.
  - intros [He _]%plain_prefix. simpl. by rewrite tree_no_paren, IHe.
  - intros (Hop & Hl & Hr & _ & t1 & t2 & t & Ht & _)%plain_infix. simpl. rewrite !asked_operand, !andb_true_r by auto.
    assert (Typ.infix_typ (FT := FlatTyp) op <> Panic) as Hnp by (by rewrite Ht). unfold in_parens.
    rewrite andb_true_iff. split.
    + destruct (ExprDoc.bracketed _ _ _) eqn:Eb; [|by destruct e1].
      destruct (bracketed_infix _ _ _ Eb Hnp Hop) as (op1 & l1 & r1 & ->). apply plain_infix in Hl as [Hop1 _]. simpl.
      by rewrite bracketed_left.
    + destruct (ExprDoc.bracketed _ LeftAssoc _) eqn:Eb; [|by destruct e2].
      destruct (bracketed_infix _ _ _ Eb Hnp Hop) as (op2 & l2 & r2 & ->). apply plain_infix in Hr as [Hop2 _]. simpl.
      by apply bracketed_right.
Qed.

Lemma tree_grouped e : plain e = true -> grouped (tree e) = true.
Proof.
  induction e using Expr_ind'; try done; [by intros [He _]%plain_prefix; apply IHe|].
  intros (Hop & Hl & Hr & Ho & t1 & t2 & t & Ht & Hf1 & Hf2)%plain_infix.
  specialize (IHe1 Hl). specialize (IHe2 Hr). simpl. rewrite bool_decide_eq_false_2, Ho by done. simpl.
  rewrite !andb_true_iff. unfold in_parens. split_and!.
  - destruct (ExprDoc.bracketed _ _ _) eqn:Eb; [done|]. destruct e1; try done. simpl.
    eapply unbracketed_left; [done|done| |done]. by apply plain_infix in Hl as [].
  - destruct (ExprDoc.bracketed _ LeftAssoc _) eqn:Eb; [done|]. destruct e2; try done. simpl.
    apply negb_true_iff. eapply unbracketed_right; [done|done| |done]. by apply plain_infix in Hr as [].
  - by destruct (ExprDoc.bracketed _ _ _).
  - by destruct (ExprDoc.bracketed _ _ _).
Qed.

Lemma tree_value e : plain e = true -> source e = Some (value (tree e)).
Proof.
  induction e using Expr_ind'; try done; [intros [He _]%plain_prefix; simpl; by rewrite IHe|].
  intros (_ & Hl & Hr & _)%plain_infix. simpl. rewrite IHe1, IHe2 by done. simpl. unfold in_parens. by repeat destruct (ExprDoc.bracketed _ _ _).
Qed.

(** ** Texts *)

Definition atom_token (e : DPExpr) : Token :=
  match e with
  | Var v | BVar v _ => TIdent v
  | LitExpr (FlatLit (LInt i)) => IntLiteral i
  | LitExpr (FlatLit (LBool b)) => BoolLiteral b
  | LitExpr (FlatLit (LStr s)) => StringLiteral s
  | LitExpr (FlatLit (LData d)) => DataLiteral d
  | LitExpr (FlatLit (LLabel l)) => LabelLiteral l
  | _ => EOF
  end.
Definition is_operation (e : DPExpr) : bool := match e with PrefixExpr _ _ | InfixExpr _ _ _ => true | _ => false end.

Lemma escape_plain s : plain_text s = true -> escape s = s.
Proof.
  unfold plain_text. induction s as [|c s IH]; simpl; [done|]. intros [[_ ->%negb_true_iff]%andb_true_iff Hs]%andb_true_iff. by rewrite IH.
Qed.
Lemma plain_ascii s : plain_text s = true -> forall_chars is_ascii s = true.
Proof. apply forall_chars_impl. by intros c [-> _]%andb_true_iff. Qed.
Lemma ascii_utf8 s : forall_chars is_ascii s = true -> is_utf8_go [] s = true.
Proof.
  induction s as [|c s IH]; [done|]. simpl. intros [Hc Hs]%andb_true_iff. unfold follows. unfold is_ascii in Hc. rewrite Hc. auto.
Qed.

(** A leaf is one token. *)
Lemma atom_facts e : plain e = true -> is_operation e = false ->
  show (atom e) = [atom_token e] /\ writable (atom_token e) = true /\
  (forall r, ends_word r = true -> after (atom_token e) r = true) /\
  exists d, ExprDoc.to_doc FlatTyp e = Val d /\ Doc.one_line d = true /\ Doc.flatten d = token_text (atom_token e).
Proof.
  intros Hp Hi. destruct e as [v|v u|[l|l|l]| | | | | | | | | | |]; try done.
  1-2: apply andb_true_iff in Hp as [Hw _]; split_and!; [done..|]; by eexists.
  destruct l; try done; simpl in Hp.
  - split_and!; [done..|]. eexists. split; [reflexivity|]. by destruct b.
  - split_and!; [done|by apply plain_ascii|done|]. unfold ExprDoc.to_doc. simpl.
    assert (is_utf8 d = true) as Hu by (by apply ascii_utf8, plain_ascii). rewrite Hu. eexists. split; [reflexivity|].
    split; [done|]. simpl. unfold literal_text. by rewrite escape_plain.
  - split_and!; [done..|]. by eexists.
  - split_and!; [done|exact Hp|done|]. by eexists.
  - split_and!; [done|by apply plain_ascii|done|]. eexists. split; [reflexivity|]. split; [done|].
    simpl. unfold literal_text. by rewrite escape_plain.
Qed.
Lemma atom_printable `{Lib, RegexNew} e : plain e = true -> is_operation e = false -> printable (atom e) = true.
Proof.
  intros Hp Hi. destruct e as [v|v u|[l|l|l]| | | | | | | | | | |]; try done.
  1-2: by apply andb_true_iff in Hp as [_ Hn].
  by destruct l.
Qed.
Lemma tree_atom e : is_operation e = false -> tree e = Leaf (atom e).
Proof. by destruct e. Qed.

Lemma tree_leaves `{Lib, RegexNew} e : plain e = true -> leaves_ok (tree e) = true.
Proof.
  induction e using Expr_ind'; intros Hp; try (by apply atom_printable); [by apply plain_prefix in Hp as [He _]; apply IHe|].
  apply plain_infix in Hp as (_ & Hl & Hr & _). simpl.
  unfold in_parens. rewrite andb_true_iff. split.
  - destruct (ExprDoc.bracketed _ _ _); simpl; auto.
  - destruct (ExprDoc.bracketed _ LeftAssoc _); simpl; auto.
Qed.

(** How the printed tree begins: with no sign that a prefix operator would be
    read with. *)
Definition head_ok (d : bool) (s : string) : Prop :=
  exists c s', s = String c s' /\ (c <> "=" /\ c <> ">")%char /\ (d = false -> starts_decimal s = false).
Definition head_char (c : ascii) : bool :=
  negb (is_digit c) && forallb (fun d => negb (Ascii.eqb c d)) ["="; ">"; "."]%char.
Lemma head_char_ok d c s : head_char c = true -> head_ok d (String c s).
Proof.
  intros Hc. exists c, s. split; [done|]. unfold head_char in Hc. simpl in Hc.
  rewrite !andb_true_iff, !negb_true_iff, !Ascii.eqb_neq in Hc. destruct Hc as (Hd & He & Hg & Hp & _). split; [done|].
  intros _. unfold starts_decimal, starts_digit. rewrite Hd. simpl. destruct (decide (c = "."%char)); [done|].
  by destruct c as [[] [] [] [] [] [] [] []].
Qed.
Lemma alpha_head c : is_alpha c = true -> head_char c = true.
Proof. by destruct c as [[] [] [] [] [] [] [] []]. Qed.
Lemma digit_head c s : is_digit c = true -> head_ok true (String c s).
Proof. intros Hc. exists c, s. split_and!; [done|by intros ->|by intros ->|done]. Qed.
Lemma atom_head e s : plain e = true -> is_operation e = false ->
  head_ok (digit_first (tree e)) (token_text (atom_token e) ^^ s).
Proof.
  intros Hp Hi. destruct e as [v|v u|[l|l|l]| | | | | | | | | | |]; try done.
  1-2: apply andb_true_iff in Hp as [[[Ha _]%andb_true_iff _]%andb_true_iff _]; destruct v as [|c v]; [done|];
    by apply head_char_ok, alpha_head.
  destruct l; try done; simpl in Hp |- *; [by destruct b; apply head_char_ok|by apply head_char_ok| |by apply head_char_ok..].
  unfold i64_to_string. destruct (Z.ltb_spec i 0); [by apply head_char_ok|].
  assert (digits_of i <> "") as Hne by (by apply digits_ne). assert (forall_chars is_digit (digits_of i) = true) as Hd by (by apply digits_all).
  rewrite (proj2 (Z.leb_le 0 i)) by done. destruct (digits_of i) as [|c t]; [done|]. simpl in Hd.
  apply andb_true_iff in Hd as [Hd _]. by apply digit_head.
Qed.
Lemma tree_head e : plain e = true -> forall g ts, head_ok (digit_first (tree e)) (spaced (pieces (tree e) g ++ ts)).
Proof.
  assert (forall e, plain e = true -> is_operation e = false ->
    forall g ts, head_ok (digit_first (tree e)) (spaced (pieces (tree e) g ++ ts))) as Hatom.
  { intros a Ha Hi g ts. destruct (atom_facts a Ha Hi) as (Hs & _). pose proof (atom_head a (gap g ^^ spaced ts) Ha Hi) as Hh.
    rewrite (tree_atom a) in * by done. simpl in *. by rewrite Hs. }
  induction e using Expr_ind'; intros Hp g ts; try (by apply Hatom); [by destruct p; apply head_char_ok|].
  apply plain_infix in Hp as (_ & Hl & _ & _). simpl. rewrite <- app_assoc.
  unfold in_parens. destruct (ExprDoc.bracketed _ _ _); [by apply head_char_ok|by apply IHe1].
Qed.
Lemma after_prefix p d s : head_ok d s -> (p = Minus -> d = false) -> after (prefix_token p) s = true.
Proof.
  intros (c & s' & -> & [He Hg] & Hd) Hp. destruct p; cbn [prefix_token after].
  - rewrite Hd by auto. apply Ascii.eqb_neq in Hg. by rewrite Hg.
  - apply Ascii.eqb_neq in He. by rewrite He.
Qed.

(** With a space after it or not, the printed tree is a text of tokens. *)
Definition reads_before (t : Tree) : Prop := forall g ts,
  readable ts = true -> ends_word (gap g ^^ spaced ts) = true -> readable (pieces t g ++ ts) = true.
Lemma reads_before_paren t : reads_before t -> reads_before (Paren t).
Proof.
  intros Ht g ts Hts He. simpl. rewrite <- app_assoc. apply Ht; [|done]. simpl. by rewrite Hts.
Qed.
Lemma reads_before_parens own side e t : reads_before t -> reads_before (in_parens own side e t).
Proof. unfold in_parens. destruct (ExprDoc.bracketed _ _ _); [apply reads_before_paren|done]. Qed.
Lemma infix_token_facts op s : op <> Dot -> writable (infix_token op) = true /\
  after (infix_token op) (String " " s) = true /\ token_text (infix_token op) = Pretty.Infix.to_string op.
Proof. by destruct op. Qed.
Lemma reads_before_tree e : plain e = true -> reads_before (tree e).
Proof.
  assert (forall e, plain e = true -> is_operation e = false -> reads_before (tree e)) as Hatom.
  { intros a Ha Hi g ts Hts He. rewrite tree_atom by done. destruct (atom_facts a Ha Hi) as (Hs & Hw & Haf & _).
    simpl. rewrite Hs. simpl. by rewrite Hw, Hts, Haf. }
  induction e using Expr_ind'; intros Hp; try (by apply Hatom).
  { apply plain_prefix in Hp as [Hp Hm]. intros g ts Hts He. simpl. rewrite (IHe Hp g ts Hts He).
    rewrite (after_prefix p (digit_first (tree e))); [by destruct p|by apply tree_head|done]. }
  apply plain_infix in Hp as (Hop & Hl & Hr & _). intros g ts Hts He. simpl. rewrite <- app_assoc. simpl.
  apply reads_before_parens; [by apply IHe1| |done]. simpl.
  destruct (infix_token_facts op (spaced (pieces (in_parens (Pretty.Infix.precedence op) LeftAssoc e2 (tree e2)) g ++ ts)) Hop)
    as (-> & -> & _). simpl. by apply reads_before_parens; [apply IHe2| |].
Qed.

(** It is the text of the document. *)
Definition writes (t : Tree) (d : Doc) : Prop :=
  Doc.one_line d = true /\ forall g ts, spaced (pieces t g ++ ts) = Doc.flatten d ^^ gap g ^^ spaced ts.
Lemma writes_operand own side e t d : writes t d -> writes (in_parens own side e t) (ExprDoc.operand own side e d).
Proof.
  unfold in_parens, ExprDoc.operand. intros [Hd Ht]. destruct (ExprDoc.bracketed _ _ _); [|done]. split; [by simpl; rewrite Hd|].
  intros g ts. simpl. rewrite <- app_assoc, Ht. simpl. by rewrite !append_assoc.
Qed.
Lemma writes_tree e : plain e = true -> exists d, ExprDoc.to_doc FlatTyp e = Val d /\ writes (tree e) d.
Proof.
  assert (forall e, plain e = true -> is_operation e = false -> exists d, ExprDoc.to_doc FlatTyp e = Val d /\ writes (tree e) d) as Hatom.
  { intros a Ha Hi. destruct (atom_facts a Ha Hi) as (Hs & _ & _ & d & Hd & Hone & Hf). exists d. split; [done|]. split; [done|].
    intros g ts. rewrite tree_atom by done. simpl. rewrite Hs. simpl. by rewrite Hf. }
  induction e using Expr_ind'; intros Hp; try (by apply Hatom).
  { apply plain_prefix in Hp as [Hp _]. destruct (IHe Hp) as (d & Hd & Hone & Hw). unfold ExprDoc.to_doc in *.
    cbn [ExprDoc.doc_of]. rewrite Hd. eexists. split; [reflexivity|]. split; [done|]. intros g ts. simpl. rewrite Hw.
    by destruct p. }
  apply plain_infix in Hp as (Hop & Hl & Hr & _).
  destruct (IHe1 Hl) as (d1 & Hd1 & Hw1), (IHe2 Hr) as (d2 & Hd2 & Hw2).
  apply (writes_operand (Pretty.Infix.precedence op) RightAssoc e1) in Hw1 as [Ho1 Hw1].
  apply (writes_operand (Pretty.Infix.precedence op) LeftAssoc e2) in Hw2 as [Ho2 Hw2].
  unfold ExprDoc.to_doc in *. cbn [ExprDoc.doc_of]. rewrite Hd1, Hd2. eexists. split; [reflexivity|]. split.
  { simpl. by rewrite Ho1, Ho2. }
  intros g ts. simpl. rewrite <- app_assoc, Hw1. simpl. rewrite Hw2.
  destruct (infix_token_facts op "" Hop) as (_ & _ & ->). by rewrite !append_assoc.
Qed.

(** C14: printing and reading expressions of operators: binary operators
    (but [.] and [::]) over variables and over integers, booleans, labels,
    and strings and data of ASCII characters without quotes and backslashes,
    each operator over operands whose operators give the types that it takes;
    and prefix operators, except where a left operand would end in one without
    parentheses, and except [-] before a digit ([plain]).  Such an expression
    is printed on one line, whatever the width and the layout of the printing
    library; the lexer reads this line as the tokens of a tree of operators;
    the parser reads these as the expression that was printed, with its
    grouping; and there is no pair of parentheses but around an operand whose
    operator would by its level group otherwise ([asked]). *)
Theorem printed_operators_read_back `{Lib, RegexNew, LexLaws} e w :
  plain e = true ->
  exists s sts t, ExprDoc.to_pretty FlatTyp w e = Val s /\ lex s = Val sts /\
    map st_tok sts = inorder t ++ [EOF] /\ is_paren t = false /\ asked t = true /\
    source e = Some (value t) /\ parse_expr_eof (toks (map st_tok sts)) = Done [] (value t).
Proof.
  intros Hp. destruct (writes_tree e Hp) as (d & Hd & Hone & Hw). specialize (Hw false []). rewrite app_nil_r in Hw. simpl in Hw.
  pose proof (reads_before_tree e Hp false [] eq_refl eq_refl) as Hr. rewrite app_nil_r in Hr.
  destruct (lex_spaced _ Hr) as (sts & Hl & Hs). rewrite Hw, append_nil_r in Hl. rewrite pieces_tokens in Hs.
  exists (Doc.flatten d), sts, (tree e). split_and!; [|done|done|apply tree_no_paren|by apply tree_asked|by apply tree_value|].
  - unfold ExprDoc.to_pretty. rewrite Hd. simpl. by rewrite render_one_line.
  - rewrite Hs. apply parse_eof. intros n Hn. pose proof (tree_grouped e Hp).
    apply parse_tree; [done|by apply tree_leaves|by apply takes_root_lowest|by eexists _, _|done].
Qed.

End operators.

(** ** What prints *)

Section prints.
Context {FT FL : Type} `{TFlatTyp FT} `{TBuiltin FT} `{TPrettyLit FL}.
Notation Expr := (Expr FL).
Notation doc_of := (ExprDoc.doc_of FT).

(** Patterns [Some(x)] bind a variable, and methods have a receiver. *)
Fixpoint prints (e : Expr) : bool :=
  let alt (a : option Expr) := match a with Some a => prints a | None => true end in
  match e with
  | Var _ | BVar _ _ | LitExpr _ => true
  | ReturnExpr e | PrefixExpr _ e | Closure _ e => prints e
  | InfixExpr _ e1 e2 | Let _ e1 e2 => prints e1 && prints e2
  | BlockExpr _ es => forallb prints es
  | IterExpr _ _ e1 e2 acc => prints e1 && prints e2 && match acc with Some (_, a) => prints a | None => true end
  | IfExpr c e a => prints c && prints e && alt a
  | IfMatchExpr _ ms e a => forallb (fun m => prints m.1) ms && prints e && alt a
  | IfSomeMatchExpr c e a =>
    match ExprDoc.closure_var e with Some _ => true | None => false end && prints c && prints e && alt a
  | CallExpr f args _ =>
    match FnHeaders.method (FT := FT) f with Some _ => negb (Nat.eqb (length args) 0) | None => true end && forallb prints args
  end.

(** A document, or a panic when it cannot be printed. *)
Definition printed {A} (b : bool) (o : Outcome A) : Prop := if b then exists a, o = Val a else o = Panic.
Lemma printed_bind {A B} b1 b2 (o : Outcome A) (f : A -> Outcome B) :
  printed b1 o -> (forall a, printed b2 (f a)) -> printed (b1 && b2) (o ≫= f).
Proof. destruct b1; simpl; [intros [a ->] Hf; apply Hf|by intros ->]. Qed.
Lemma printed_val {A} (a : A) : printed true (Val a).
Proof. by eexists. Qed.
Lemma printed_last {A B} b (o : Outcome A) (f : A -> Outcome B) :
  printed b o -> (forall a, printed true (f a)) -> printed b (o ≫= f).
Proof. intros Ho Hf. rewrite <- (andb_true_r b). by apply printed_bind. Qed.

Lemma printed_list {A} (ok : A -> bool) (f : A -> Outcome Doc) l :
  Forall (fun a => printed (ok a) (f a)) l -> printed (forallb ok l) (ExprDoc.map_docs f l).
Proof.
  induction 1 as [|a l Ha _ IH]; simpl; [by eexists|]. apply printed_bind; [done|]. intros d.
  apply printed_last; [done|]. intros ds. apply printed_val.
Qed.
Lemma length_map_docs {A} (f : A -> Outcome Doc) l ds : ExprDoc.map_docs f l = Val ds -> length ds = length l.
Proof.
  revert ds. induction l as [|a l IH]; simpl; intros ds Hd; [by injection Hd as <-|].
  destruct (f a); try done. simpl in Hd. destruct (ExprDoc.map_docs f l) as [ds'| | |]; try done.
  injection Hd as <-. simpl. by rewrite (IH ds').
Qed.

Ltac print_step := first [apply printed_bind; [by auto|intros ?] | apply printed_last; [by auto|intros ?] | by eexists].

(** When printing panics, for any expression. *)
Theorem to_doc_prints e body : printed (prints e) (doc_of body e).
Proof.
  revert body. induction e using Expr_ind'; intros body; cbn [ExprDoc.doc_of prints]; try (by eexists); try (by repeat print_step).
  - destruct b; (apply printed_last; [apply printed_list; by eapply Forall_impl|intros ?; by eexists]).
  - rewrite <- andb_assoc. print_step. print_step. destruct acc as [[? ?]|]; [by repeat print_step|by eexists].
  - destruct body; [by auto|by repeat print_step].
  - rewrite <- andb_assoc. print_step. print_step. apply printed_last; [|intros ?; by eexists].
    destruct a; [by repeat print_step|by eexists].
  - rewrite <- andb_assoc. apply printed_bind; [apply (printed_list (fun m => prints m.1))|].
    { eapply Forall_impl; [eassumption|]. intros m Hm. by repeat print_step. }
    intros ?. print_step. apply printed_last; [|intros ?; by eexists]. destruct a; [by repeat print_step|by eexists].
  - rewrite <- !andb_assoc. apply printed_bind; [by destruct (ExprDoc.closure_var _); [eexists|]|]. intros ?.
    print_step. print_step. apply printed_last; [|intros ?; by eexists]. destruct a; [by repeat print_step|by eexists].
  - assert (printed (forallb prints args) (ExprDoc.map_docs (doc_of false) args)) as Hargs.
    { apply printed_list. by eapply Forall_impl. }
    unfold ExprDoc.call_doc. destruct (FnHeaders.method f) as [m|]; simpl; [|apply printed_last; [done|intros ?; by eexists]].
    destruct (forallb prints args); simpl in Hargs.
    + destruct Hargs as [ds Hds]. rewrite Hds. apply length_map_docs in Hds. destruct ds, args; try done. by eexists.
    + rewrite Hargs, andb_false_r. done.
Qed.
End prints.

(** ** An implementation that the examples run: groups on one line *)

Fixpoint test_render_go (i : nat) (flat : bool) (d : Doc) : string :=
  match d with
  | Nil => ""
  | Text s => s
  | Line => if flat then " " else String (ascii_of_nat 10) (Doc.spaces i)
  | Append d1 d2 => test_render_go i flat d1 ^^ test_render_go i flat d2
  | Nest n d => test_render_go (i + n) flat d
  | Group d => test_render_go i true d
  | Annotate _ d => test_render_go i flat d
  end.
Definition test_renderer : Renderer := fun _ => test_render_go 0 false.
Lemma test_render_layout d : forall i flat, Doc.layout i flat d (test_render_go i flat d).
Proof. induction d; intros i flat; simpl; try (by constructor; auto). destruct flat; constructor. Qed.
#[local] Instance test_renderer_laws : @RendererLaws test_renderer.
Proof. intros w d. apply test_render_layout. Qed.

Definition test_texts : Texts := {|
  debug_connection _ := "Connection"; debug_http_request _ := "HttpRequest"; debug_http_response _ := "HttpResponse";
  debug_id _ := "ID"; debug_regex _ := "Regex"; debug_credentials _ := "Credentials";
  debug_onboarding_data _ := "OnboardingData"; debug_onboarding_result _ := "OnboardingResult";
  debug_primitive _ := "Primitive"; debug_policy _ := "Policy"; log10_abs _ := 0%Z; float_trunc f := f;
  float_exp _ := "1e9"; float_one _ := "1.0"; float_plain _ := "1.5"; ip_text _ := "127.0.0.1" |}.
Definition test_show (e : Expr FlatLiteral) : Outcome string :=
  @ExprDoc.to_string FlatTyp FlatLiteral _ _ (@DPPrettyLit test_texts) test_renderer e.

(** [(a || b) || c == "k" && x_1 - (1 - -2) < 5 && !d || e], in which [!]
    has all that follows it. *)
Definition test_expr : Expr FlatLiteral :=
  InfixExpr Or (InfixExpr Or (Var "a") (Var "b"))
    (InfixExpr And (InfixExpr Equal (Var "c") (LitExpr (FlatLit (LStr "k"))))
       (InfixExpr And
          (InfixExpr LessThan (InfixExpr IMinus (BVar "x_1" 0)
             (InfixExpr IMinus (LitExpr (FlatLit (LInt 1))) (LitExpr (FlatLit (LInt (-2)))))) (LitExpr (FlatLit (LInt 5))))
          (PrefixExpr Not (InfixExpr Or (Var "d") (Var "e"))))).
Lemma printed_operators_read_back_witness :
  test_show test_expr = Val ("(a || b) || c == " ^^ quote "k" ^^ " && x_1 - (1 - -2) < 5 && !d || e") /\
  exists s sts t, test_show test_expr = Val s /\ @lex test_lexlib s = Val sts /\
    map st_tok sts = inorder t ++ [EOF] /\ is_paren t = false /\ asked t = true /\ source test_expr = Some (value t) /\
    @parse_expr_eof FlatTyp FlatLiteral _ test_lib test_regex_new (toks (map st_tok sts)) = Done [] (value t).
Proof.
  split; [by vm_compute|].
  apply (@printed_operators_read_back _ test_renderer test_renderer_laws test_texts test_lib test_regex_new test_lexlib test_lexlaws
    test_expr 80). by vm_compute.
Defined.

(** What [plain] leaves out is not read back.  Without parentheses around
    prefixes, [!a && b] is the text of both groupings; the parser takes it for
    the second ([Operators.prefix_takes_chain]). *)
Example prefix_text :
  test_show (InfixExpr And (PrefixExpr Not (Var "a")) (Var "b")) = Val "!a && b" /\
  test_show (PrefixExpr Not (InfixExpr And (Var "a") (Var "b"))) = Val "!a && b".
Proof. by vm_compute. Qed.
(** Operators of one level that group differently lose their parentheses, when
    the types do not keep them apart. *)
Example mixed_text : test_show (InfixExpr ConcatStr (Var "a") (InfixExpr Plus (Var "b") (Var "c"))) = Val "a ++ b + c".
Proof. by vm_compute. Qed.
(** A minus before a number is its sign. *)
Example sign_text :
  test_show (PrefixExpr Minus (LitExpr (FlatLit (LInt 2)))) = Val "-2" /\ test_show (LitExpr (FlatLit (LInt (-2)))) = Val "-2".
Proof. by vm_compute. Qed.
(** Quotes in strings are not escaped. *)
Example quote_text : test_show (LitExpr (FlatLit (LStr dquote))) = Val (dquote ^^ dquote ^^ dquote).
Proof. by vm_compute. Qed.
(** A fold is printed without the name of its accumulator and [where]. *)
Example fold_text :
  test_show (IterExpr Fold ["x"] (Var "xs") (Closure "acc" (Closure "x" (Var "acc"))) (Some ("acc", Var "y"))) =
  Val "fold x in xs { acc } y".
Proof. by vm_compute. Qed.
